(** * LZSS / bit file / Huffman queue: a shallow embedding of the C sources

    The development follows [PFAC/lzssx.c] (sections BITFILE.C, BRUTE.C and
    LZSS.C) and the Huffman program.  C integers are mathematical integers
    ([Z]) with the wrap-around of their type written out; a [FILE] is a byte
    list that can be read from the front and appended to; a pointer that may
    be [NULL] is an [option]. *)

From Stdlib Require Import ZArith List Lia Bool Sorted Permutation.
Import ListNotations.
Local Open Scope Z_scope.

Set Warnings "-register-all".

(** ** C scalar types *)

Definition EOF : Z := -1.
Definition ENOTSUP : Z := 95.

(** Conversion to [unsigned char]. *)
Definition uchar (z : Z) : Z := z mod 256.

(** Conversion to [unsigned int] (32 bits). *)
Definition uint (z : Z) : Z := z mod 2 ^ 32.

(** Conversion of an [unsigned int] to [int]. *)
Definition to_int (z : Z) : Z :=
  let u := uint z in if u <? 2 ^ 31 then u else u - 2 ^ 32.

(** Conversion to [size_t] (64 bits). *)
Definition size_t (z : Z) : Z := z mod 2 ^ 64.

(** Reading and writing a byte array through a pointer.  An index outside
    the list reads 0 and a store outside the list is dropped. *)
Definition rd (bytes : list Z) (i : Z) : Z :=
  if i <? 0 then 0 else nth (Z.to_nat i) bytes 0.

Fixpoint upd_nat (l : list Z) (n : nat) (v : Z) : list Z :=
  match l, n with
  | [], _ => []
  | _ :: t, O => v :: t
  | h :: t, S k => h :: upd_nat t k v
  end.

Definition wr (bytes : list Z) (i : Z) (v : Z) : list Z :=
  if i <? 0 then bytes else upd_nat bytes (Z.to_nat i) v.

(** ** stdio files *)

Record FILE := mkFILE {
  inp : list Z;      (* bytes still to be read *)
  out : list Z;      (* bytes written so far *)
  room : nat         (* bytes the device still accepts *)
}.

Definition fgetc (f : FILE) : Z * FILE :=
  match inp f with
  | [] => (EOF, f)
  | b :: rest => (uchar b, mkFILE rest (out f) (room f))
  end.

Definition fputc (c : Z) (f : FILE) : Z * FILE :=
  match room f with
  | O => (EOF, f)
  | S r => (uchar c, mkFILE (inp f) (out f ++ [uchar c]) r)
  end.

(** ** BITFILE.C *)

Inductive BF_MODES := BF_READ | BF_WRITE | BF_APPEND.

Inductive endian_t := BF_UNKNOWN_ENDIAN | BF_LITTLE_ENDIAN | BF_BIG_ENDIAN.

(** The functions a [num_func_t] field can point to. *)
Inductive num_func_t := FuncLE | FuncBE | FuncNotSupported.

Record bit_file_t := mkBF {
  fp : FILE;
  bitBuffer : Z;
  bitCount : Z;
  PutBitsNumFunc : option num_func_t;
  GetBitsNumFunc : option num_func_t;
  mode : BF_MODES
}.

Definition set_fp (s : bit_file_t) (f : FILE) : bit_file_t :=
  mkBF f (bitBuffer s) (bitCount s) (PutBitsNumFunc s) (GetBitsNumFunc s) (mode s).

Definition set_buf (s : bit_file_t) (b c : Z) : bit_file_t :=
  mkBF (fp s) b c (PutBitsNumFunc s) (GetBitsNumFunc s) (mode s).

Definition writing (m : BF_MODES) : bool :=
  match m with BF_WRITE | BF_APPEND => true | BF_READ => false end.

(** [DetermineEndianess]: [word_one] is the byte representation of the
    [unsigned long] 1 on the host. *)
Definition DetermineEndianess (word_one : list Z) : endian_t :=
  if rd word_one 0 =? 1 then BF_LITTLE_ENDIAN
  else if rd word_one (Z.of_nat (length word_one) - 1) =? 1 then BF_BIG_ENDIAN
  else BF_UNKNOWN_ENDIAN.

(** [MakeBitFile]; allocation is assumed to succeed. *)
Definition MakeBitFile (word_one : list Z) (stream : option FILE) (m : BF_MODES)
  : option bit_file_t :=
  match stream with
  | None => None
  | Some f =>
      Some (match DetermineEndianess word_one with
            | BF_LITTLE_ENDIAN => mkBF f 0 0 (Some FuncLE) (Some FuncLE) m
            | BF_BIG_ENDIAN => mkBF f 0 0 (Some FuncBE) (Some FuncBE) m
            | BF_UNKNOWN_ENDIAN =>
                mkBF f 0 0 (Some FuncNotSupported) (Some FuncNotSupported) m
            end)
  end.

(** The flush shared by [BitFileClose], [BitFileToFILE] and
    [BitFileByteAlign]: the return value of [fputc] is ignored. *)
Definition flush_residue (s : bit_file_t) : bit_file_t :=
  if writing (mode s) then
    if negb (bitCount s =? 0) then
      let b := uchar (Z.shiftl (bitBuffer s) (8 - bitCount s)) in
      mkBF (snd (fputc b (fp s))) b (bitCount s)
           (PutBitsNumFunc s) (GetBitsNumFunc s) (mode s)
    else s
  else s.

(** [BitFileClose] returns the status and the file as it is left;
    [fclose] succeeds on an open file. *)
Definition BitFileClose (stream : option bit_file_t) : Z * option FILE :=
  match stream with
  | None => (EOF, None)
  | Some s => (0, Some (fp (flush_residue s)))
  end.

Definition BitFileToFILE (stream : option bit_file_t) : option FILE :=
  match stream with
  | None => None
  | Some s => Some (fp (flush_residue s))
  end.

Definition BitFileByteAlign (stream : option bit_file_t)
  : Z * option bit_file_t :=
  match stream with
  | None => (EOF, None)
  | Some s => (bitBuffer s, Some (set_buf (flush_residue s) 0 0))
  end.

Definition BitFileFlushOutput (stream : option bit_file_t) (onesFill : Z)
  : Z * option bit_file_t :=
  match stream with
  | None => (EOF, None)
  | Some s =>
      if negb (bitCount s =? 0) then
        let b := uchar (Z.shiftl (bitBuffer s) (8 - bitCount s)) in
        let b := if negb (onesFill =? 0)
                 then uchar (Z.lor b (Z.shiftr 255 (bitCount s))) else b in
        let '(r, f) := fputc b (fp s) in
        (r, Some (set_buf (set_fp s f) 0 0))
      else (-1, Some (set_buf s 0 0))
  end.

(** Bodies of the single-bit and single-byte transfers on a non-null
    stream; the exported functions add the [NULL] test. *)
Definition GetChar (s : bit_file_t) : Z * bit_file_t :=
  let '(r, f) := fgetc (fp s) in
  let s := set_fp s f in
  if bitCount s =? 0 then (r, s)
  else if negb (r =? EOF) then
    let tmp := Z.shiftr (uchar r) (bitCount s) in
    let tmp := uchar (Z.lor tmp (Z.shiftl (bitBuffer s) (8 - bitCount s))) in
    (tmp, set_buf s (uchar r) (bitCount s))
  else (r, s).

Definition PutChar (c : Z) (s : bit_file_t) : Z * bit_file_t :=
  if bitCount s =? 0 then
    let '(r, f) := fputc c (fp s) in (r, set_fp s f)
  else
    let tmp := Z.shiftr (uchar c) (bitCount s) in
    let tmp := uchar (Z.lor tmp (Z.shiftl (bitBuffer s) (8 - bitCount s))) in
    let '(r, f) := fputc tmp (fp s) in
    if negb (r =? EOF) then (tmp, set_buf (set_fp s f) (uchar c) (bitCount s))
    else (EOF, set_fp s f).

Definition GetBit (s : bit_file_t) : Z * bit_file_t :=
  if bitCount s =? 0 then
    let '(r, f) := fgetc (fp s) in
    if r =? EOF then (EOF, s)
    else
      let cnt := uchar (8 - 1) in
      (Z.land (Z.shiftr (uchar r) cnt) 1, set_buf (set_fp s f) (uchar r) cnt)
  else
    let cnt := uchar (bitCount s - 1) in
    (Z.land (Z.shiftr (bitBuffer s) cnt) 1, set_buf s (bitBuffer s) cnt).

Definition PutBit (c : Z) (s : bit_file_t) : Z * bit_file_t :=
  let cnt := uchar (bitCount s + 1) in
  let buf := uchar (Z.shiftl (bitBuffer s) 1) in
  let buf := if negb (c =? 0) then Z.lor buf 1 else buf in
  if cnt =? 8 then
    let '(r, f) := fputc buf (fp s) in
    ((if r =? EOF then EOF else c), set_buf (set_fp s f) 0 0)
  else (c, set_buf s buf cnt).

Definition lift (op : bit_file_t -> Z * bit_file_t) (stream : option bit_file_t)
  : Z * option bit_file_t :=
  match stream with
  | None => (EOF, None)
  | Some s => let '(r, s') := op s in (r, Some s')
  end.

Definition BitFileGetChar := lift GetChar.
Definition BitFilePutChar (c : Z) := lift (PutChar c).
Definition BitFileGetBit := lift GetBit.
Definition BitFilePutBit (c : Z) := lift (PutBit c).

(** *** Multi-bit transfers

    The [while (remaining >= 8)] loops run [remaining / 8] times and the
    [while (remaining > 0)] loops run [remaining] times; they are written
    as recursions on those counts.  The boolean is [false] when the loop
    left through [return EOF]. *)

Fixpoint put_whole (n : nat) (bytes : list Z) (offset dir : Z) (s : bit_file_t)
  : bool * Z * bit_file_t :=
  match n with
  | O => (true, offset, s)
  | S k =>
      let '(r, s') := PutChar (rd bytes offset) s in
      if r =? EOF then (false, offset, s')
      else put_whole k bytes (offset + dir) dir s'
  end.

Fixpoint put_tail (n : nat) (tmp : Z) (s : bit_file_t) : bool * bit_file_t :=
  match n with
  | O => (true, s)
  | S k =>
      let '(r, s') := PutBit (Z.land tmp 128) s in
      if r =? EOF then (false, s')
      else put_tail k (uchar (Z.shiftl tmp 1)) s'
  end.

Fixpoint get_whole (n : nat) (bytes : list Z) (offset dir : Z) (s : bit_file_t)
  : bool * Z * list Z * bit_file_t :=
  match n with
  | O => (true, offset, bytes, s)
  | S k =>
      let '(r, s') := GetChar s in
      if r =? EOF then (false, offset, bytes, s')
      else get_whole k (wr bytes offset (uchar r)) (offset + dir) dir s'
  end.

Fixpoint get_tail (n : nat) (bytes : list Z) (offset : Z) (s : bit_file_t)
  : bool * list Z * bit_file_t :=
  match n with
  | O => (true, bytes, s)
  | S k =>
      let '(r, s') := GetBit s in
      if r =? EOF then (false, bytes, s')
      else
        let b := uchar (Z.shiftl (rd bytes offset) 1) in
        get_tail k (wr bytes offset (Z.lor b (Z.land r 1))) offset s'
  end.

Definition whole_count (remaining : Z) : nat := Z.to_nat (remaining / 8).
Definition tail_count (remaining : Z) : Z :=
  if remaining <? 8 then remaining else remaining mod 8.

Definition BitFileGetBits (stream : option bit_file_t) (bits : option (list Z))
  (count : Z) : Z * option (list Z) * option bit_file_t :=
  match stream, bits with
  | Some s, Some bytes =>
      let remaining := to_int count in
      let '(ok, offset, bytes, s) := get_whole (whole_count remaining) bytes 0 1 s in
      if negb ok then (EOF, Some bytes, Some s)
      else
        let remaining := tail_count remaining in
        if negb (remaining =? 0) then
          let shifts := uchar (8 - remaining) in
          let bytes := wr bytes offset 0 in
          let '(ok, bytes, s) := get_tail (Z.to_nat remaining) bytes offset s in
          if negb ok then (EOF, Some bytes, Some s)
          else
            (to_int count,
             Some (wr bytes offset (uchar (Z.shiftl (rd bytes offset) shifts))),
             Some s)
        else (to_int count, Some bytes, Some s)
  | _, _ => (EOF, bits, stream)
  end.

Definition BitFilePutBits (stream : option bit_file_t) (bits : option (list Z))
  (count : Z) : Z * option bit_file_t :=
  match stream, bits with
  | Some s, Some bytes =>
      let remaining := to_int count in
      let '(ok, offset, s) := put_whole (whole_count remaining) bytes 0 1 s in
      if negb ok then (EOF, Some s)
      else
        let remaining := tail_count remaining in
        if negb (remaining =? 0) then
          let '(ok, s) := put_tail (Z.to_nat remaining) (rd bytes offset) s in
          if negb ok then (EOF, Some s) else (to_int count, Some s)
        else (to_int count, Some s)
  | _, _ => (EOF, stream)
  end.

(** The endian specific functions behind [GetBitsNumFunc] and
    [PutBitsNumFunc]. *)
Definition BitFileGetBitsLE (s : bit_file_t) (bytes : list Z) (count size : Z)
  : Z * list Z * bit_file_t :=
  let remaining := to_int count in
  let '(ok, offset, bytes, s) := get_whole (whole_count remaining) bytes 0 1 s in
  if negb ok then (EOF, bytes, s)
  else
    let remaining := tail_count remaining in
    if negb (remaining =? 0) then
      let '(ok, bytes, s) := get_tail (Z.to_nat remaining) bytes offset s in
      if negb ok then (EOF, bytes, s) else (to_int count, bytes, s)
    else (to_int count, bytes, s).

Definition BitFileGetBitsBE (s : bit_file_t) (bytes : list Z) (count size : Z)
  : Z * list Z * bit_file_t :=
  if uint count >? size_t (size * 8) then (EOF, bytes, s)
  else
    let remaining := to_int count in
    let '(ok, offset, bytes, s) :=
      get_whole (whole_count remaining) bytes (to_int (size - 1)) (-1) s in
    if negb ok then (EOF, bytes, s)
    else
      let remaining := tail_count remaining in
      if negb (remaining =? 0) then
        let '(ok, bytes, s) := get_tail (Z.to_nat remaining) bytes offset s in
        if negb ok then (EOF, bytes, s) else (to_int count, bytes, s)
      else (to_int count, bytes, s).

Definition BitFilePutBitsLE (s : bit_file_t) (bytes : list Z) (count size : Z)
  : Z * bit_file_t :=
  let remaining := to_int count in
  let '(ok, offset, s) := put_whole (whole_count remaining) bytes 0 1 s in
  if negb ok then (EOF, s)
  else
    let remaining := tail_count remaining in
    if negb (remaining =? 0) then
      let tmp := uchar (Z.shiftl (rd bytes offset) (8 - remaining)) in
      let '(ok, s) := put_tail (Z.to_nat remaining) tmp s in
      if negb ok then (EOF, s) else (to_int count, s)
    else (to_int count, s).

Definition BitFilePutBitsBE (s : bit_file_t) (bytes : list Z) (count size : Z)
  : Z * bit_file_t :=
  if uint count >? size_t (size * 8) then (EOF, s)
  else
    let remaining := to_int count in
    let '(ok, offset, s) :=
      put_whole (whole_count remaining) bytes (to_int (size - 1)) (-1) s in
    if negb ok then (EOF, s)
    else
      let remaining := tail_count remaining in
      if negb (remaining =? 0) then
        let tmp := uchar (Z.shiftl (rd bytes offset) (8 - remaining)) in
        let '(ok, s) := put_tail (Z.to_nat remaining) tmp s in
        if negb ok then (EOF, s) else (to_int count, s)
      else (to_int count, s).

Definition BitFileNotSupported (s : bit_file_t) (bytes : list Z) (count size : Z)
  : Z := - ENOTSUP.

Definition BitFileGetBitsNum (stream : option bit_file_t)
  (bits : option (list Z)) (count size : Z)
  : Z * option (list Z) * option bit_file_t :=
  match stream, bits with
  | Some s, Some bytes =>
      match GetBitsNumFunc s with
      | None => (- ENOTSUP, bits, stream)
      | Some FuncLE =>
          let '(r, b, s') := BitFileGetBitsLE s bytes count size in
          (r, Some b, Some s')
      | Some FuncBE =>
          let '(r, b, s') := BitFileGetBitsBE s bytes count size in
          (r, Some b, Some s')
      | Some FuncNotSupported =>
          (BitFileNotSupported s bytes count size, bits, stream)
      end
  | _, _ => (EOF, bits, stream)
  end.

Definition BitFilePutBitsNum (stream : option bit_file_t)
  (bits : option (list Z)) (count size : Z) : Z * option bit_file_t :=
  match stream, bits with
  | Some s, Some bytes =>
      match PutBitsNumFunc s with
      | None => (ENOTSUP, stream)
      | Some FuncLE =>
          let '(r, s') := BitFilePutBitsLE s bytes count size in (r, Some s')
      | Some FuncBE =>
          let '(r, s') := BitFilePutBitsBE s bytes count size in (r, Some s')
      | Some FuncNotSupported =>
          (BitFileNotSupported s bytes count size, stream)
      end
  | _, _ => (EOF, stream)
  end.

(** ** The Huffman program *)

Module Huffman.

(** [struct node]; [ch] is [None] while [createNode] has left it unset. *)
Inductive Node :=
  mkNode (value : Z) (ch : option Z) (lson rson : option Node).

Definition value (n : Node) : Z := let '(mkNode v _ _ _) := n in v.
Definition ch (n : Node) : option Z := let '(mkNode _ c _ _) := n in c.
Definition lson (n : Node) : option Node := let '(mkNode _ _ l _) := n in l.
Definition rson (n : Node) : option Node := let '(mkNode _ _ _ r) := n in r.

(** [struct queue] cells live in a store indexed by address; [next] and
    the global [head] hold addresses, [None] being [NULL].  A computation
    that dereferences [NULL] or a dangling address has no result. *)
Record Queue := mkQueue { n : option Node; next : option nat }.

Record Store := mkStore { cells : list Queue; head : option nat }.

Definition empty_store : Store := mkStore [] None.

Definition bind {A B} (x : option A) (f : A -> option B) : option B :=
  match x with Some a => f a | None => None end.

Notation "x <- c ;; k" := (bind c (fun x => k))
  (at level 61, c at next level, right associativity).

Definition load (st : Store) (a : nat) : option Queue := nth_error (cells st) a.

Fixpoint set_nth (l : list Queue) (a : nat) (c : Queue) : list Queue :=
  match l, a with
  | [], _ => []
  | _ :: t, O => c :: t
  | h :: t, S k => h :: set_nth t k c
  end.

Definition store (st : Store) (a : nat) (c : Queue) : Store :=
  mkStore (set_nth (cells st) a c) (head st).

Definition set_head (st : Store) (h : option nat) : Store :=
  mkStore (cells st) h.

Definition createQueue (st : Store) : nat * Store :=
  (length (cells st), mkStore (cells st ++ [mkQueue None None]) (head st)).

(** The scan of [push]: [q] advances while the next cell exists and holds
    a value smaller than the incoming one. *)
Fixpoint push_scan (fuel : nat) (st : Store) (v : Z) (q : nat) : option nat :=
  match fuel with
  | O => None
  | S k =>
      c <- load st q ;;
      match next c with
      | None => Some q
      | Some a =>
          cn <- load st a ;;
          m <- n cn ;;
          if v <=? value m then Some q else push_scan k st v a
      end
  end.

Definition push (nd : Node) (st : Store) : option Store :=
  let st := match head st with
            | None => let '(a, st') := createQueue st in set_head st' (Some a)
            | Some _ => st
            end in
  h <- head st ;;
  hc <- load st h ;;
  match n hc with
  | None => Some (store st h (mkQueue (Some nd) (next hc)))
  | Some _ =>
      let '(q_next, st) := createQueue st in
      let st := store st q_next (mkQueue (Some nd) None) in
      q <- push_scan (S (length (cells st))) st (value nd) h ;;
      qc <- load st q ;;
      qn <- n qc ;;
      let st :=
        if Nat.eqb q h && (value nd <? value qn) then
          set_head (store st q_next (mkQueue (Some nd) (Some q))) (Some q_next)
        else st in
      qc <- load st q ;;
      let st := store st q_next (mkQueue (Some nd) (next qc)) in
      qc <- load st q ;;
      Some (store st q (mkQueue (n qc) (Some q_next)))
  end.

Definition isEmpty (st : Store) : Z :=
  match head st with None => 1 | Some _ => 0 end.

Definition isAlone (st : Store) : option Z :=
  h <- head st ;;
  hc <- load st h ;;
  Some (match next hc with None => 1 | Some _ => 0 end).

Definition pop (st : Store) : option (option Node * Store) :=
  h <- head st ;;
  hc <- load st h ;;
  Some (n hc, set_head st (next hc)).

Definition peek (st : Store) : option (option Node) :=
  h <- head st ;;
  hc <- load st h ;;
  Some (n hc).

(** The cells reachable from [head], front first. *)
Fixpoint walk (fuel : nat) (st : Store) (a : option nat) : list (option Node) :=
  match fuel, a with
  | S k, Some x =>
      match load st x with
      | Some c => n c :: walk k st (next c)
      | None => []
      end
  | _, _ => []
  end.

Definition contents (st : Store) : list (option Node) :=
  walk (length (cells st)) st (head st).

(** The globals [reps], [chars] and [uniq]. *)
Record Counts := mkCounts { reps : list Z; chars : list Z; uniq : Z }.

Definition init_counts : Counts :=
  mkCounts (repeat 0 256) (EOF :: repeat 0 255) 0.

Fixpoint contains_from (fuel : nat) (c : Z) (arr : list Z) (size i : Z) : Z :=
  match fuel with
  | O => -1
  | S k =>
      if i <? size then
        if c =? rd arr i then i else contains_from k c arr size (i + 1)
      else -1
  end.

Definition contains (c : Z) (arr : list Z) (size : Z) : Z :=
  contains_from (Z.to_nat size) c arr size 0.

Definition count_step (g : Counts) (c : Z) : Counts :=
  let pos := contains c (chars g) (uniq g) in
  if pos >? 0 then
    mkCounts (wr (reps g) pos (rd (reps g) pos + 1)) (chars g) (uniq g)
  else
    mkCounts (wr (reps g) (uniq g) (rd (reps g) (uniq g) + 1))
             (wr (chars g) (uniq g) c) (uniq g + 1).

Definition count (arr : list Z) (g : Counts) : Counts :=
  fold_left count_step arr g.

(** The leaves [huffmanTree] creates, in creation order. *)
Definition leaves (g : Counts) : list Node :=
  map (fun i => mkNode (rd (reps g) (Z.of_nat i))
                       (Some (rd (chars g) (Z.of_nat i))) None None)
      (seq 0 (Z.to_nat (uniq g))).

Fixpoint push_all (l : list Node) (last : option Node) (st : Store)
  : option (option Node * Store) :=
  match l with
  | [] => Some (last, st)
  | x :: t => st' <- push x st ;; push_all t (Some x) st'
  end.

Fixpoint merge_loop (fuel : nat) (last : option Node) (st : Store)
  : option (option Node * Store) :=
  match fuel with
  | O => None
  | S k =>
      alone <- isAlone st ;;
      if negb (alone =? 0) then Some (last, st)
      else
        p1 <- pop st ;;
        match fst p1 with
        | None => Some (last, snd p1)
        | Some n1 =>
            p2 <- pop (snd p1) ;;
            match fst p2 with
            | None => Some (last, snd p2)
            | Some n2 =>
                let nd := mkNode (value n1 + value n2) None (Some n1) (Some n2) in
                st' <- push nd (snd p2) ;;
                merge_loop k (Some nd) st'
            end
        end
  end.

(** [printTree]: the state is the buffer [str], the global [end] and the
    lines printed.  A line is the text of [str] up to its first NUL, the
    leaf's [ch] and the value of [end]. *)
Record Printer := mkPrinter {
  str : list Z; end_ : Z; printed : list (list Z * option Z * Z)
}.

Fixpoint c_string (l : list Z) : list Z :=
  match l with
  | [] => []
  | x :: t => if x =? 0 then [] else x :: c_string t
  end.

Fixpoint printTree (nd : Node) (p : Printer) : Printer :=
  let '(mkNode _ c l r) := nd in
  let p := match l with
           | Some ln =>
               printTree ln (mkPrinter (wr (str p) (end_ p) 48) (end_ p + 1) (printed p))
           | None => p
           end in
  let p := match r with
           | Some rn =>
               printTree rn (mkPrinter (wr (str p) (end_ p) 49) (end_ p + 1) (printed p))
           | None => p
           end in
  let p := match l, r with
           | None, None =>
               let s := wr (str p) (end_ p) 0 in
               mkPrinter s (end_ p) (printed p ++ [(c_string s, c, end_ p)])
           | _, _ => p
           end in
  mkPrinter (str p) (end_ p - 1) (printed p).

Definition init_printer : Printer := mkPrinter (EOF :: repeat 0 1023) 0 [].

(** [huffmanTree] on a fresh process: the printed code table and the node
    returned. *)
Definition huffmanTree (argv : list Z) : option (Printer * Node) :=
  let g := count argv init_counts in
  let '(a, st) := createQueue empty_store in
  let st := set_head st (Some a) in
  r <- push_all (leaves g) None st ;;
  r <- merge_loop (S (Z.to_nat (uniq g))) (fst r) (snd r) ;;
  root <- fst r ;;
  Some (printTree root init_printer, root).

End Huffman.

(** ** BRUTE.C and LZSS.C *)

Module LZSS.

(** Modelled from the spec: the build parameters of [lzlocal.h], which is
    not among the sources; the spec gives their default values. *)
Definition WINDOW_SIZE : Z := 4096.
Definition MAX_CODED : Z := 18.
Definition MAX_UNCODED : Z := 2.
Definition OFFSET_BITS : Z := 12.
Definition LENGTH_BITS : Z := 4.
Definition ENCODED : Z := 0.
Definition UNCODED : Z := 1.

(** Modelled from the spec: the macro [Wrap] of [lzlocal.h]; the spec has
    the cursors index their buffers modulo the buffer size. *)
Definition Wrap (value limit : Z) : Z := value mod limit.

(** Modelled from the spec: [encoded_string_t] of [lzlocal.h], a pair of
    [unsigned int] fields (the codec passes [sizeof(unsigned int)] with the
    address of each). *)
Record encoded_string_t := mkMatch { offset : Z; length : Z }.

(** What the program takes from its environment: the byte representation
    of the [unsigned long] 1, the bytes that follow [slidingWindow] in
    memory (read by [strlen] when the window holds no NUL), the allocator,
    as the number of bytes that the block [malloc] returns for a request of
    [n] bytes can take before the heap is damaged (none when the request
    fails), and the PFAC library, which is given the pattern source, the
    text and its size and fills the result array, or reports a failure. *)
Record Host := mkHost {
  word_one : list Z;
  after_window : list Z;
  malloc_usable_size : Z -> Z;
  PFAC_matchFromHost : list Z -> list Z -> Z -> option (list Z)
}.

(** The byte representation of an [unsigned int] on the host, and back.
    Where the endianness is not known neither is the layout; the
    little-endian one stands in, and the transfer function bound on such a
    host does not touch the bytes. *)
Definition uint_bytes (e : endian_t) (v : Z) : list Z :=
  let le := [uchar v; uchar (Z.shiftr v 8); uchar (Z.shiftr v 16);
             uchar (Z.shiftr v 24)] in
  match e with BF_BIG_ENDIAN => rev le | _ => le end.

Definition bytes_uint (e : endian_t) (b : list Z) : Z :=
  let le := match e with BF_BIG_ENDIAN => rev b | _ => b end in
  rd le 0 + 256 * rd le 1 + 65536 * rd le 2 + 16777216 * rd le 3.

Fixpoint strlen (mem : list Z) : Z :=
  match mem with
  | [] => 0
  | x :: t => if x =? 0 then 0 else 1 + strlen t
  end.

Definition InitializeSearchStructures : Z := 0.

(** Step 5 of [FindMatch]: the scan of the result array. *)
Definition match_scan (windowHead : Z) (res : list Z) (input_size : Z)
  : encoded_string_t :=
  fold_left
    (fun (m : encoded_string_t) (i : nat) =>
       let r := rd res (Z.of_nat i) in
       if negb (r =? 0) then
         if uint r >? length m then mkMatch (uint (windowHead - r)) (uint r)
         else m
       else m)
    (seq 0 (Z.to_nat input_size)) (mkMatch 0 0).

(** [FindMatch]; [None] when the call does not return.  The block for
    the text is asked for [input_size] bytes and [strcpy] writes the text
    and its NUL, [input_size + 1] bytes: where the block cannot take them
    the heap is damaged and the run does not get past the calls of [free].
    Otherwise the call ends in [exit(1)] when the library fails. *)
Definition FindMatch (h : Host) (slidingWindow uncodedLookahead : list Z)
  (windowHead uncodedHead : Z) : option encoded_string_t :=
  let mem := slidingWindow ++ after_window h in
  let input_size := strlen mem in
  let h_inputString := firstn (Z.to_nat input_size) mem in
  if malloc_usable_size h input_size <? input_size + 1 then None
  else
    match PFAC_matchFromHost h uncodedLookahead h_inputString input_size with
    | None => None
    | Some res => Some (match_scan windowHead res input_size)
    end.

Definition ReplaceChar (slidingWindow : list Z) (charIndex replacement : Z)
  : list Z := wr slidingWindow charIndex replacement.

(** The variables of [EncodeLZSS]. *)
Record Enc := mkEnc {
  fpIn : FILE;
  bfpOut : option bit_file_t;
  slidingWindow : list Z;
  uncodedLookahead : list Z;
  windowHead : Z;
  uncodedHead : Z;
  len : Z
}.

(** The initial fill of the lookahead. *)
Fixpoint fill_lookahead (k : nat) (f : FILE) (la : list Z) (len : Z)
  : FILE * list Z * Z :=
  match k with
  | O => (f, la, len)
  | S k' =>
      let '(c, f') := fgetc f in
      if c =? EOF then (f, la, len)
      else fill_lookahead k' f' (wr la len (uchar c)) (len + 1)
  end.

(** The record written for one match; the results of the bit file calls
    are not looked at. *)
Definition emit (e : endian_t) (st : Enc) (m : encoded_string_t)
  : option bit_file_t * Z :=
  if length m <=? MAX_UNCODED then
    let b := snd (BitFilePutBit UNCODED (bfpOut st)) in
    let b := snd (BitFilePutChar (rd (uncodedLookahead st) (uncodedHead st)) b) in
    (b, 1)
  else
    let adjustedLen := uint (length m - (MAX_UNCODED + 1)) in
    let b := snd (BitFilePutBit ENCODED (bfpOut st)) in
    let b := snd (BitFilePutBitsNum b (Some (uint_bytes e (offset m)))
                    OFFSET_BITS 4) in
    let b := snd (BitFilePutBitsNum b (Some (uint_bytes e adjustedLen))
                    LENGTH_BITS 4) in
    (b, length m).

(** The second replacement loop: the input is exhausted. *)
Fixpoint drain (k : nat) (st : Enc) : Enc :=
  match k with
  | O => st
  | S k' =>
      let w := ReplaceChar (slidingWindow st) (windowHead st)
                 (rd (uncodedLookahead st) (uncodedHead st)) in
      drain k' (mkEnc (fpIn st) (bfpOut st) w (uncodedLookahead st)
                  (Wrap (windowHead st + 1) WINDOW_SIZE)
                  (Wrap (uncodedHead st + 1) MAX_CODED)
                  (uint (len st - 1)))
  end.

(** The first replacement loop, followed by the second one when [getc]
    returns [EOF]. *)
Fixpoint advance (k : nat) (st : Enc) : Enc :=
  match k with
  | O => st
  | S k' =>
      let '(c, f) := fgetc (fpIn st) in
      if c =? EOF then drain k st
      else
        let w := ReplaceChar (slidingWindow st) (windowHead st)
                   (rd (uncodedLookahead st) (uncodedHead st)) in
        advance k' (mkEnc f (bfpOut st) w
                      (wr (uncodedLookahead st) (uncodedHead st) (uchar c))
                      (Wrap (windowHead st + 1) WINDOW_SIZE)
                      (Wrap (uncodedHead st + 1) MAX_CODED)
                      (len st))
  end.

Definition clamp (st : Enc) (m : encoded_string_t) : encoded_string_t :=
  if length m >? len st then mkMatch (offset m) (len st) else m.

(** One pass through the body of the [while (len > 0)] loop, up to the
    call of [FindMatch] that ends it. *)
Definition encode_body (e : endian_t) (st : Enc) (m : encoded_string_t) : Enc :=
  let m := clamp st m in
  let '(b, l) := emit e st m in
  advance (Z.to_nat l)
    (mkEnc (fpIn st) b (slidingWindow st) (uncodedLookahead st)
       (windowHead st) (uncodedHead st) (len st)).

Fixpoint encode_loop (fuel : nat) (h : Host) (e : endian_t) (st : Enc)
  (m : encoded_string_t) : option Enc :=
  match fuel with
  | O => None
  | S k =>
      if len st >? 0 then
        let st' := encode_body e st m in
        match FindMatch h (slidingWindow st') (uncodedLookahead st')
                (windowHead st') (uncodedHead st') with
        | None => None
        | Some m' => encode_loop k h e st' m'
        end
      else Some st
  end.

(** [EncodeLZSS]: the status and the output file; [None] when the process
    ends inside [FindMatch]. *)
Definition EncodeLZSS (h : Host) (fpIn fpOut : option FILE)
  : option (Z * option FILE) :=
  match fpIn, fpOut with
  | Some fin, Some fout =>
      match MakeBitFile (word_one h) fpOut BF_WRITE with
      | None => Some (-1, fpOut)
      | Some bf =>
          let window := repeat 32 (Z.to_nat WINDOW_SIZE) in
          let '(fin', la, len) :=
            fill_lookahead (Z.to_nat MAX_CODED) fin
              (repeat 0 (Z.to_nat MAX_CODED)) 0 in
          if len =? 0 then Some (0, Some (fp bf))
          else
            if negb (InitializeSearchStructures =? 0)
            then Some (InitializeSearchStructures, Some (fp bf))
            else
              match FindMatch h window la 0 0 with
              | None => None
              | Some m =>
                  match encode_loop (S (List.length (inp fin) + 18)) h
                          (DetermineEndianess (word_one h))
                          (mkEnc fin' (Some bf) window la 0 0 len) m with
                  | None => None
                  | Some st => Some (0, BitFileToFILE (bfpOut st))
                  end
              end
      end
  | _, _ => Some (-1, fpOut)
  end.

(** The variables of [DecodeLZSS]. *)
Record Dec := mkDec {
  bfpIn : option bit_file_t;
  dOut : FILE;
  dWindow : list Z;
  dLookahead : list Z;
  nextChar : Z
}.

(** The first [for] loop of the ENCODED branch: the string is written out
    and kept in the lookahead. *)
Fixpoint copy_out (k : nat) (i : Z) (off : Z) (w : list Z) (la : list Z)
  (f : FILE) : list Z * FILE :=
  match k with
  | O => (la, f)
  | S k' =>
      let c := rd w (Wrap (uint (off + i)) WINDOW_SIZE) in
      copy_out k' (i + 1) off w (wr la i c) (snd (fputc c f))
  end.

(** The second [for] loop: the string enters the sliding window. *)
Fixpoint copy_in (k : nat) (i : Z) (next : Z) (w : list Z) (la : list Z)
  : list Z :=
  match k with
  | O => w
  | S k' =>
      copy_in k' (i + 1) next
        (wr w (Wrap (uint (next + i)) WINDOW_SIZE) (rd la i)) la
  end.

(** One pass through the body of [while (1)]: [inl] when the loop goes
    on, [inr] when it is left through [break]. *)
Definition decode_body (e : endian_t) (st : Dec) : Dec + Dec :=
  let '(c, b) := BitFileGetBit (bfpIn st) in
  let st := mkDec b (dOut st) (dWindow st) (dLookahead st) (nextChar st) in
  if c =? EOF then inr st
  else if c =? UNCODED then
    let '(c, b) := BitFileGetChar (bfpIn st) in
    let st := mkDec b (dOut st) (dWindow st) (dLookahead st) (nextChar st) in
    if c =? EOF then inr st
    else
      inl (mkDec b (snd (fputc c (dOut st))) (wr (dWindow st) (nextChar st) (uchar c))
             (dLookahead st) (Wrap (uint (nextChar st + 1)) WINDOW_SIZE))
  else
    let '(r, obytes, b) :=
      BitFileGetBitsNum (bfpIn st) (Some (uint_bytes e 0)) OFFSET_BITS 4 in
    let st := mkDec b (dOut st) (dWindow st) (dLookahead st) (nextChar st) in
    if r =? EOF then inr st
    else
      let '(r, lbytes, b) :=
        BitFileGetBitsNum (bfpIn st) (Some (uint_bytes e 0)) LENGTH_BITS 4 in
      let st := mkDec b (dOut st) (dWindow st) (dLookahead st) (nextChar st) in
      if r =? EOF then inr st
      else
        let off := bytes_uint e (match obytes with Some l => l | None => [] end) in
        let ln := bytes_uint e (match lbytes with Some l => l | None => [] end) in
        let ln := uint (ln + (MAX_UNCODED + 1)) in
        let '(la, f) := copy_out (Z.to_nat ln) 0 off (dWindow st) (dLookahead st)
                          (dOut st) in
        let w := copy_in (Z.to_nat ln) 0 (nextChar st) (dWindow st) la in
        inl (mkDec b f w la (Wrap (uint (nextChar st + ln)) WINDOW_SIZE)).

Fixpoint decode_loop (fuel : nat) (e : endian_t) (st : Dec) : option Dec :=
  match fuel with
  | O => None
  | S k =>
      match decode_body e st with
      | inl st' => decode_loop k e st'
      | inr st' => Some st'
      end
  end.

(** Bits a reader can still deliver. *)
Definition bits_left (s : option bit_file_t) : nat :=
  match s with
  | None => O
  | Some b => (Z.to_nat (bitCount b) + 8 * List.length (inp (fp b)))%nat
  end.

(** [DecodeLZSS]: the status, the input file as [BitFileToFILE] returns it
    and the output file; [None] when the loop does not end within the
    number of passes the input allows. *)
Definition DecodeLZSS (word_one : list Z) (fpIn fpOut : option FILE)
  : option (Z * option FILE * option FILE) :=
  match fpIn, fpOut with
  | Some fin, Some fout =>
      match MakeBitFile word_one fpIn BF_READ with
      | None => Some (-1, fpIn, fpOut)
      | Some bf =>
          let window := repeat 32 (Z.to_nat WINDOW_SIZE) in
          match decode_loop (S (bits_left (Some bf)))
                  (DetermineEndianess word_one)
                  (mkDec (Some bf) fout window (repeat 0 (Z.to_nat MAX_CODED)) 0) with
          | None => None
          | Some st => Some (0, BitFileToFILE (bfpIn st), Some (dOut st))
          end
      end
  | _, _ => Some (-1, fpIn, fpOut)
  end.

End LZSS.

(** ** Vocabulary of the statements *)

(** The [k] low-order bits of [b], most significant first. *)
Fixpoint low_bits (k : nat) (b : Z) : list bool :=
  match k with
  | O => []
  | S k' => Z.testbit b (Z.of_nat k') :: low_bits k' b
  end.

Definition byte_bits (b : Z) : list bool := low_bits 8 b.
Definition bytes_bits (l : list Z) : list bool := flat_map byte_bits l.

(** The bits a writer has accepted: the bytes on file, then the pending
    bits of the buffer. *)
Definition written_bits (s : bit_file_t) : list bool :=
  bytes_bits (out (fp s)) ++ low_bits (Z.to_nat (bitCount s)) (bitBuffer s).

(** Bits a writer can still take before [fputc] fails. *)
Definition capacity (s : bit_file_t) : Z :=
  8 * Z.of_nat (room (fp s)) - bitCount s.

(** Bits a reader can still deliver. *)
Definition avail (s : bit_file_t) : Z :=
  bitCount s + 8 * Z.of_nat (List.length (inp (fp s))).

(** The function [MakeBitFile] binds on a host of the given endianness. *)
Definition func_of (e : endian_t) : num_func_t :=
  match e with
  | BF_LITTLE_ENDIAN => FuncLE
  | BF_BIG_ENDIAN => FuncBE
  | BF_UNKNOWN_ENDIAN => FuncNotSupported
  end.

(** The bits of a 12-bit offset and of a 4-bit length as the numeric
    transfer lays them out: least significant byte first. *)
Definition offset_bits (v : Z) : list bool :=
  byte_bits v ++ low_bits 4 (Z.shiftr v 8).
Definition length_bits (v : Z) : list bool := low_bits 4 v.

(** The part [BitFileGetBitsLE] and [BitFileGetBitsBE] have in common. *)
Definition get_num_body (s : bit_file_t) (bytes : list Z) (count o d : Z)
  : Z * list Z * bit_file_t :=
  let remaining := to_int count in
  let '(ok, offset, bytes, s) := get_whole (whole_count remaining) bytes o d s in
  if negb ok then (EOF, bytes, s)
  else
    let remaining := tail_count remaining in
    if negb (remaining =? 0) then
      let '(ok, bytes, s) := get_tail (Z.to_nat remaining) bytes offset s in
      if negb ok then (EOF, bytes, s) else (to_int count, bytes, s)
    else (to_int count, bytes, s).

(** Bits written one at a time. *)
Fixpoint put_bit_seq (bits : list Z) (stream : option bit_file_t)
  : option bit_file_t :=
  match bits with
  | [] => stream
  | b :: t => put_bit_seq t (snd (BitFilePutBit b stream))
  end.

Definition nine_bits : list Z := [1; 0; 1; 1; 0; 0; 0; 1; 1].

(** Sample streams and hosts. *)
Definition le_word : list Z := [1; 0; 0; 0; 0; 0; 0; 0].
Definition be_word : list Z := [0; 0; 0; 0; 0; 0; 0; 1].

Definition le_stream : bit_file_t :=
  mkBF (mkFILE [] [] 8) 0 0 (Some FuncLE) (Some FuncLE) BF_WRITE.
Definition be_stream : bit_file_t :=
  mkBF (mkFILE [] [] 8) 0 0 (Some FuncBE) (Some FuncBE) BF_WRITE.
Definition le_reader (bytes : list Z) : bit_file_t :=
  mkBF (mkFILE bytes [] 0) 0 0 (Some FuncLE) (Some FuncLE) BF_READ.

(** A window holding the 18 byte lookahead [aaa...] from index 2 on, with
    a NUL at index 1. *)
Definition window_with_nul : list Z := 97 :: 0 :: repeat 97 4094.
Definition lookahead_a : list Z := repeat 97 18.

(** Whether [n] bytes of the window from [off] on equal the lookahead from
    [uh] on, both read cyclically. *)
Definition matches_at (w la : list Z) (off uh n : Z) : bool :=
  forallb (fun i => rd w (LZSS.Wrap (off + Z.of_nat i) LZSS.WINDOW_SIZE)
                    =? rd la (LZSS.Wrap (uh + Z.of_nat i) LZSS.MAX_CODED))
          (seq 0 (Z.to_nat n)).

(** A descriptor that names a full-length match inside the window. *)
Definition full_match (m : LZSS.encoded_string_t) : bool :=
  (LZSS.length m =? LZSS.MAX_CODED) && (0 <=? LZSS.offset m)
  && (LZSS.offset m <? LZSS.WINDOW_SIZE).

(** An allocator with blocks of 16 byte granularity, an 8 byte header and
    a smallest block of 24 bytes, as on a 64-bit GNU host: what the block
    for a request of [n] bytes holds. *)
Definition block_size (n : Z) : Z := Z.max 24 ((n + 23) / 16 * 16 - 8).

(** A host whose PFAC library fills the first cell of the result array
    with [r] on every call. *)
Definition reporting_host (word : list Z) (r : Z) : LZSS.Host :=
  LZSS.mkHost word [0] block_size (fun _ _ _ => Some [r]).

(** A host whose PFAC library reports, for every position of the text,
    how many bytes of the pattern (a C string) the text repeats there. *)
Fixpoint common_prefix (p t : list Z) : Z :=
  match p, t with
  | a :: p', b :: t' => if a =? b then 1 + common_prefix p' t' else 0
  | _, _ => 0
  end.

Fixpoint match_lengths (p t : list Z) : list Z :=
  match t with
  | [] => []
  | _ :: t' => common_prefix p t :: match_lengths p t'
  end.

Definition prefix_host (word : list Z) : LZSS.Host :=
  LZSS.mkHost word [0] block_size
    (fun pattern text _ =>
       Some (match_lengths (firstn (Z.to_nat (LZSS.strlen pattern)) pattern) text)).

Definition file_of (bytes : list Z) : FILE := mkFILE bytes [] 0.
Definition blank_file : FILE := mkFILE [] [] 4096.

(** Encoding [s] on host [h], then decoding the bytes produced. *)
Definition roundtrip (h : LZSS.Host) (s : list Z) : option (list Z) :=
  match LZSS.EncodeLZSS h (Some (file_of s)) (Some blank_file) with
  | Some (_, Some f) =>
      match LZSS.DecodeLZSS (LZSS.word_one h) (Some (file_of (out f)))
              (Some blank_file) with
      | Some (_, _, Some g) => Some (out g)
      | _ => None
      end
  | _ => None
  end.

(** An encoder with [abc] in the lookahead and a decoder whose input is
    the single byte 0. *)
Definition enc_sample : LZSS.Enc :=
  LZSS.mkEnc (file_of []) (Some le_stream) (repeat 32 4096)
    (97 :: 98 :: 99 :: repeat 0 15) 0 0 3.

Definition dec_sample : LZSS.Dec :=
  LZSS.mkDec (Some (le_reader [0])) blank_file (repeat 32 4096) (repeat 0 18) 0.

(** Huffman: a leaf, a fresh queue as [huffmanTree] sets it up, and the
    property that every printed codeword has at least one bit. *)
Definition leaf (v c : Z) : Huffman.Node := Huffman.mkNode v (Some c) None None.

Definition fresh_queue : Huffman.Store :=
  let '(a, st) := Huffman.createQueue Huffman.empty_store in
  Huffman.set_head st (Some a).

Definition codes_nonempty (argv : list Z) : Prop :=
  exists p root,
    Huffman.huffmanTree argv = Some (p, root) /\
    forall code c bits,
      In (code, c, bits) (Huffman.printed p) ->
      (1 <= List.length code)%nat /\ 1 <= bits.

(** ** Vocabulary of the further properties *)

(** The bits a reader has not delivered yet: the valid bits of the
    buffer, then the bytes still on file. *)
Definition unread_bits (s : bit_file_t) : list bool :=
  low_bits (Z.to_nat (bitCount s)) (bitBuffer s) ++ bytes_bits (inp (fp s)).

(** The number a bit sequence spells, most significant bit first. *)
Definition bits_val (l : list bool) : Z :=
  fold_left (fun acc b => 2 * acc + Z.b2z b) l 0.

(** Bits read one at a time: the values returned and the stream left. *)
Fixpoint get_bit_seq (n : nat) (stream : option bit_file_t)
  : list Z * option bit_file_t :=
  match n with
  | O => ([], stream)
  | S k =>
      let '(r, s') := BitFileGetBit stream in
      let '(l, s'') := get_bit_seq k s' in
      (r :: l, s'')
  end.

(** One bit shifted into an accumulator from the right. *)
Definition shift_in (acc : Z) (b : bool) : Z := 2 * acc + Z.b2z b.

(** The bytes the whole-byte loop of a numeric read stores, walking from
    [o] in steps of [d]. *)
Fixpoint store_seq (bytes : list Z) (o d : Z) (cs : list Z) : list Z :=
  match cs with
  | [] => bytes
  | c :: t => store_seq (wr bytes o c) (o + d) d t
  end.

Definition is_byte (c : Z) : Prop := 0 <= c < 256.

(** The [n] bytes of the lookahead from [uh] on, read cyclically. *)
Definition la_bytes (la : list Z) (uh : Z) (n : nat) : list Z :=
  map (fun i => rd la (LZSS.Wrap (uh + Z.of_nat i) LZSS.MAX_CODED)) (seq 0 n).

(** The bytes the encoder has not coded yet: those in the lookahead, then
    those still on the input file. *)
Definition pending (st : LZSS.Enc) : list Z :=
  la_bytes (LZSS.uncodedLookahead st) (LZSS.uncodedHead st)
    (Z.to_nat (LZSS.len st)) ++ inp (LZSS.fpIn st).

(** Bytes entering the sliding window at a cursor that wraps. *)
Fixpoint push_bytes (w : list Z) (pos : Z) (bs : list Z) : list Z * Z :=
  match bs with
  | [] => (w, pos)
  | b :: t => push_bytes (wr w pos b) (LZSS.Wrap (pos + 1) LZSS.WINDOW_SIZE) t
  end.

(** The encoder between two passes of its loop. *)
Definition enc_wf (st : LZSS.Enc) : Prop :=
  List.length (LZSS.slidingWindow st) = 4096%nat /\
  List.length (LZSS.uncodedLookahead st) = 18%nat /\
  0 <= LZSS.windowHead st < LZSS.WINDOW_SIZE /\
  0 <= LZSS.uncodedHead st < LZSS.MAX_CODED /\
  0 <= LZSS.len st <= LZSS.MAX_CODED /\
  (inp (LZSS.fpIn st) <> [] -> LZSS.len st = LZSS.MAX_CODED) /\
  Forall is_byte (pending st).

(** Whether the encoder can code a descriptor as it is: cut to the [len]
    bytes left, it is no longer than [MAX_UNCODED], or the window holds at
    its offset the bytes of the lookahead it stands for. *)
Definition stands (st : LZSS.Enc) (m : LZSS.encoded_string_t) : bool :=
  let l := Z.min (LZSS.length m) (LZSS.len st) in
  (l <=? LZSS.MAX_UNCODED)
  || matches_at (LZSS.slidingWindow st) (LZSS.uncodedLookahead st)
       (LZSS.offset m) (LZSS.uncodedHead st) l.

(** Whether every call of [FindMatch] in a run of the encoder loop returns,
    with a descriptor that stands. *)
Fixpoint loop_matches_stand (fuel : nat) (h : LZSS.Host) (e : endian_t)
  (st : LZSS.Enc) (m : LZSS.encoded_string_t) : bool :=
  match fuel with
  | O => true
  | S k =>
      if LZSS.len st >? 0 then
        let st' := LZSS.encode_body e st m in
        match LZSS.FindMatch h (LZSS.slidingWindow st')
                (LZSS.uncodedLookahead st') (LZSS.windowHead st')
                (LZSS.uncodedHead st') with
        | None => false
        | Some m' => stands st' m' && loop_matches_stand k h e st' m'
        end
      else true
  end.

(** The same for a run of [EncodeLZSS], from the call before the loop on. *)
Definition matches_stand (h : LZSS.Host) (fin fout : FILE) : bool :=
  match MakeBitFile (LZSS.word_one h) (Some fout) BF_WRITE with
  | None => true
  | Some bf =>
      let window := repeat 32 (Z.to_nat LZSS.WINDOW_SIZE) in
      let '(fin', la, len) :=
        LZSS.fill_lookahead (Z.to_nat LZSS.MAX_CODED) fin
          (repeat 0 (Z.to_nat LZSS.MAX_CODED)) 0 in
      if len =? 0 then true
      else
        let st := LZSS.mkEnc fin' (Some bf) window la 0 0 len in
        match LZSS.FindMatch h window la 0 0 with
        | None => false
        | Some m =>
            stands st m
            && loop_matches_stand (S (List.length (inp fin) + 18)) h
                 (DetermineEndianess (LZSS.word_one h)) st m
        end
  end.

(** A host whose PFAC library reports nothing. *)
Definition silent_host (word : list Z) : LZSS.Host :=
  LZSS.mkHost word [0] block_size (fun _ _ _ => Some []).

(** Bytes written to a file one after the other. *)
Fixpoint fputs (cs : list Z) (f : FILE) : FILE :=
  match cs with
  | [] => f
  | c :: t => fputs t (snd (fputc c f))
  end.

(** The padding of a final byte: fewer than eight bits, all zero. *)
Definition zero_pad (pad : list bool) : Prop :=
  (List.length pad < 8)%nat /\ Forall (fun b => b = false) pad.

(** A decoder that finds [bits], then padding, with its window equal to
    [w] and its cursor at [nc], ends its loop having written [bs]. *)
Definition decodes (e : endian_t) (bits : list bool) (w : list Z) (nc : Z)
  (bs : list Z) : Prop :=
  forall d sd pad,
    LZSS.bfpIn d = Some sd -> unread_bits sd = bits ++ pad -> zero_pad pad ->
    0 <= bitCount sd < 8 -> GetBitsNumFunc sd = Some (func_of e) ->
    LZSS.dWindow d = w -> LZSS.nextChar d = nc ->
    List.length (LZSS.dLookahead d) = 18%nat ->
    (List.length bs <= room (LZSS.dOut d))%nat ->
    exists k d',
      LZSS.decode_loop k e d = Some d' /\
      out (LZSS.dOut d') = out (LZSS.dOut d) ++ bs.

(** What the encoder needs of a match to code it. *)
Definition match_ok (st : LZSS.Enc) (m : LZSS.encoded_string_t) : Prop :=
  0 <= LZSS.length m /\ 0 <= LZSS.offset m /\
  (LZSS.MAX_UNCODED < Z.min (LZSS.length m) (LZSS.len st) ->
   forall i, 0 <= i < Z.min (LZSS.length m) (LZSS.len st) ->
     rd (LZSS.slidingWindow st) (LZSS.Wrap (LZSS.offset m + i) LZSS.WINDOW_SIZE)
     = rd (LZSS.uncodedLookahead st)
         (LZSS.Wrap (LZSS.uncodedHead st + i) LZSS.MAX_CODED)).

(** A string without a NUL byte. *)
Definition no_nul (l : list Z) : Prop := Forall (fun c => c <> 0) l.

(** The bit [BitFilePutBit] stores for an argument, as a number. *)
Definition bit_of (c : Z) : Z := if c =? 0 then 0 else 1.

(** Bytes written, and read, one at a time. *)
Fixpoint put_char_seq (cs : list Z) (stream : option bit_file_t)
  : option bit_file_t :=
  match cs with
  | [] => stream
  | c :: t => put_char_seq t (snd (BitFilePutChar c stream))
  end.

Fixpoint get_char_seq (n : nat) (stream : option bit_file_t)
  : list Z * option bit_file_t :=
  match n with
  | O => ([], stream)
  | S k =>
      let '(r, s') := BitFileGetChar stream in
      let '(l, s'') := get_char_seq k s' in
      (r :: l, s'')
  end.

(** The bits of a numeric transfer of [count] bits of [v], as they follow
    each other in the file: whole bytes from the least significant one on,
    then the low bits of the next byte, most significant first. *)
Definition num_bits (count v : Z) : list bool :=
  bytes_bits (map (fun i => Z.shiftr v (8 * Z.of_nat i))
                (seq 0 (Z.to_nat (count / 8))))
  ++ low_bits (Z.to_nat (count mod 8)) (Z.shiftr v (8 * (count / 8))).

(** The part [BitFilePutBitsLE] and [BitFilePutBitsBE] have in common. *)
Definition put_num_body (s : bit_file_t) (bytes : list Z) (count o d : Z)
  : Z * bit_file_t :=
  let remaining := to_int count in
  let '(ok, offset, s) := put_whole (whole_count remaining) bytes o d s in
  if negb ok then (EOF, s)
  else
    let remaining := tail_count remaining in
    if negb (remaining =? 0) then
      let tmp := uchar (Z.shiftl (rd bytes offset) (8 - remaining)) in
      let '(ok, s) := put_tail (Z.to_nat remaining) tmp s in
      if negb ok then (EOF, s) else (to_int count, s)
    else (to_int count, s).

(** The value of [n] bytes followed by [r] bits of [v], least significant
    byte first. *)
Fixpoint le_val (n : nat) (v r : Z) : Z :=
  match n with
  | O => v mod 2 ^ r
  | S k => v mod 256 + 256 * le_val k (v / 256) r
  end.

(** Fields written, and read, one numeric transfer at a time; a field is
    a width and a value held in an [unsigned int] of the host. *)
Fixpoint put_num_seq (e : endian_t) (fields : list (Z * Z))
  (stream : option bit_file_t) : option bit_file_t :=
  match fields with
  | [] => stream
  | (count, v) :: t =>
      put_num_seq e t (snd (BitFilePutBitsNum stream (Some (LZSS.uint_bytes e v)) count 4))
  end.

Fixpoint get_num_seq (e : endian_t) (counts : list Z)
  (stream : option bit_file_t) : list (Z * Z) * option bit_file_t :=
  match counts with
  | [] => ([], stream)
  | count :: t =>
      let '(r, b, s') := BitFileGetBitsNum stream (Some (LZSS.uint_bytes e 0)) count 4 in
      let '(l, s'') := get_num_seq e t s' in
      ((r, match b with Some b => LZSS.bytes_uint e b | None => 0 end) :: l, s'')
  end.

(** The bits and the total width of a list of fields. *)
Definition fields_bits (fields : list (Z * Z)) : list bool :=
  flat_map (fun f => num_bits (fst f) (snd f)) fields.

Definition fields_width (fields : list (Z * Z)) : Z :=
  fold_right (fun f acc => fst f + acc) 0 fields.

(** ** OPTLIST.C

    A C string is the list of its characters before the terminating NUL;
    a pointer into a string is the suffix it points to, and reading a
    string at its length gives the NUL. *)

(** [strrchr] of the C library, for a character other than NUL: the
    suffix that starts at the last occurrence of [c]. *)
Fixpoint strrchr (s : list Z) (c : Z) : option (list Z) :=
  match s with
  | [] => None
  | x :: t =>
      match strrchr t c with
      | Some r => Some r
      | None => if x =? c then Some (x :: t) else None
      end
  end.

(** The path delimiters of [FindFileName]: backslash, slash and colon. *)
Definition delim : list Z := [92; 47; 58].

Definition FindFileName (fullPath : list Z) : list Z :=
  fold_left
    (fun start d =>
       match strrchr start d with
       | Some tmp => tl tmp
       | None => start
       end)
    delim fullPath.

(** The [do ... while] of [MatchOpt]: one step, then past the colons. *)
Fixpoint skip_colons (fuel : nat) (options : list Z) (optIndex : Z) : Z :=
  match fuel with
  | O => optIndex
  | S k =>
      let optIndex := optIndex + 1 in
      if negb (rd options optIndex =? 0) && (58 =? rd options optIndex)
      then skip_colons k options optIndex
      else optIndex
  end.

Fixpoint MatchOpt_from (fuel : nat) (argument : Z) (options : list Z)
  (optIndex : Z) : Z :=
  match fuel with
  | O => optIndex
  | S k =>
      if negb (rd options optIndex =? 0) && negb (rd options optIndex =? argument)
      then MatchOpt_from k argument options
             (skip_colons (List.length options) options optIndex)
      else optIndex
  end.

(** [MatchOpt]; the index runs over the string and its terminator, so
    the loop ends within [strlen(options) + 1] passes. *)
Definition MatchOpt (argument : Z) (options : list Z) : Z :=
  MatchOpt_from (S (List.length options)) argument options 0.

(** [option_t] without its [next] field: the list [GetOptList] builds is
    the list of these records.  [argument] points into [argv] or is
    [NULL]. *)
Record option_t := mkOpt {
  option_ : Z;
  argument : option (list Z);
  argIndex : Z
}.

(** The inner [while] of [GetOptList] on [argv[nextArg]]: the options
    appended and the value of [nextArg] when the loop is left.
    [OL_NOINDEX] is the constant of [optlist.h] for an option without
    argument; the header is not among the sources, so it is a parameter. *)
Fixpoint scan_arg (OL_NOINDEX : Z) (fuel : nat) (argc : Z)
  (argv : list (list Z)) (options : list Z) (nextArg argIndex : Z)
  (acc : list option_t) : list option_t * Z :=
  match fuel with
  | O => (acc, nextArg)
  | S k =>
      let a := nth (Z.to_nat nextArg) argv [] in
      if (Z.of_nat (List.length a) >? argIndex) && (45 =? rd a 0) then
        let optIndex := MatchOpt (rd a argIndex) options in
        if rd options optIndex =? rd a argIndex then
          let acc := acc ++ [mkOpt (rd options optIndex) None OL_NOINDEX] in
          if 58 =? rd options (optIndex + 1) then
            let argIndex := argIndex + 1 in
            let front := removelast acc in
            if Z.of_nat (List.length a) >? argIndex then
              (front ++ [mkOpt (rd options optIndex)
                           (Some (skipn (Z.to_nat argIndex) a)) nextArg],
               nextArg)
            else if nextArg <? argc then
              let nextArg := nextArg + 1 in
              (front ++ [mkOpt (rd options optIndex)
                           (nth_error argv (Z.to_nat nextArg)) nextArg],
               nextArg)
            else (acc, nextArg)
          else scan_arg OL_NOINDEX k argc argv options nextArg (argIndex + 1) acc
        else scan_arg OL_NOINDEX k argc argv options nextArg (argIndex + 1) acc
      else (acc, nextArg)
  end.

(** The outer [while]. *)
Fixpoint scan_args (OL_NOINDEX : Z) (fuel : nat) (argc : Z)
  (argv : list (list Z)) (options : list Z) (nextArg : Z)
  (acc : list option_t) : list option_t :=
  match fuel with
  | O => acc
  | S k =>
      if nextArg <? argc then
        let a := nth (Z.to_nat nextArg) argv [] in
        let '(acc, nextArg) :=
          scan_arg OL_NOINDEX (List.length a) argc argv options nextArg 1 acc in
        scan_args OL_NOINDEX k argc argv options (nextArg + 1) acc
      else acc
  end.

(** [GetOptList]; [argv] holds [argc] strings and [argv[argc]] is [NULL]. *)
Definition GetOptList (OL_NOINDEX : Z) (argc : Z) (argv : list (list Z))
  (options : list Z) : list option_t :=
  scan_args OL_NOINDEX (Z.to_nat argc) argc argv options 1 [].

(** ** Vocabulary of the decoder, the option list and the Huffman program *)

(** What the decoder keeps between two records. *)
Definition dec_ok (e : endian_t) (st : LZSS.Dec) (s : bit_file_t) : Prop :=
  LZSS.bfpIn st = Some s /\ GetBitsNumFunc s = Some (func_of e) /\
  0 <= bitCount s < 8 /\ 0 <= LZSS.nextChar st < LZSS.WINDOW_SIZE /\
  List.length (LZSS.dLookahead st) = 18%nat.

(** Whether a character is a path delimiter. *)
Definition is_delim (c : Z) : bool := existsb (Z.eqb c) delim.

(** What holds of every entry of the list returned. *)
Definition known_option (OL_NOINDEX : Z) (argc : Z) (options : list Z)
  (o : option_t) : Prop :=
  In (option_ o) options /\
  (argIndex o = OL_NOINDEX /\ argument o = None \/ 1 <= argIndex o <= argc).

(** The sum of the values of the leaves made from the counts. *)
Definition total (g : Huffman.Counts) : Z :=
  fold_right Z.add 0 (map Huffman.value (Huffman.leaves g)).

(** The globals after the frequency pass has read [pre], a string that
    starts with [a]. *)
Definition tallied (a : Z) (pre : list Z) (g : Huffman.Counts) : Prop :=
  List.length (Huffman.reps g) = 256%nat /\
  List.length (Huffman.chars g) = 256%nat /\
  0 <= Huffman.uniq g <= Z.of_nat (List.length pre) /\
  (forall i, Huffman.uniq g <= i -> rd (Huffman.reps g) i = 0) /\
  (pre <> [] ->
   0 < Huffman.uniq g /\ rd (Huffman.chars g) 0 = a /\ rd (Huffman.reps g) 0 = 1) /\
  (forall i, 0 < i < Huffman.uniq g -> rd (Huffman.chars g) i = a ->
     rd (Huffman.reps g) i = 1) /\
  (forall i, 0 < i < Huffman.uniq g -> rd (Huffman.chars g) i <> a ->
     rd (Huffman.reps g) i
     = Z.of_nat (count_occ Z.eq_dec pre (rd (Huffman.chars g) i)) /\
     forall j, 0 <= j < Huffman.uniq g ->
       rd (Huffman.chars g) j = rd (Huffman.chars g) i -> j = i) /\
  (forall c, In c pre -> exists i, 0 <= i < Huffman.uniq g /\ rd (Huffman.chars g) i = c) /\
  total g = Z.of_nat (List.length pre).

(** The sum of the first [n] values of [f]. *)
Definition sum_upto (f : nat -> Z) (n : nat) : Z :=
  fold_right Z.add 0 (map f (seq 0 n)).

(** The leaves of a tree with the path that leads to each, [48] for a left
    and [49] for a right branch, from left to right. *)
Fixpoint codes (nd : Huffman.Node) : list (list Z * option Z) :=
  let '(Huffman.mkNode _ c l r) := nd in
  match l, r with
  | None, None => [([], c)]
  | _, _ =>
      (match l with
       | Some ln => map (fun e => (48 :: fst e, snd e)) (codes ln)
       | None => []
       end)
      ++ (match r with
          | Some rn => map (fun e => (49 :: fst e, snd e)) (codes rn)
          | None => []
          end)
  end.

(** The number of branches on the longest path of a tree. *)
Fixpoint height (nd : Huffman.Node) : Z :=
  let '(Huffman.mkNode _ _ l r) := nd in
  Z.max (match l with Some ln => 1 + height ln | None => 0 end)
        (match r with Some rn => 1 + height rn | None => 0 end).

(** The lines of the code table for the leaves [l] under the path
    [prefix] of [d] branches. *)
Definition table (prefix : list Z) (d : Z) (l : list (list Z * option Z))
  : list (list Z * option Z * Z) :=
  map (fun e => (prefix ++ fst e, snd e, d + Z.of_nat (List.length (fst e)))) l.

(** What [printTree] does on a tree, from any state of the printer that
    leaves room for the deepest path. *)
Definition printTree_ok (nd : Huffman.Node) : Prop :=
  forall p,
    0 <= Huffman.end_ p ->
    Huffman.end_ p + height nd < Z.of_nat (List.length (Huffman.str p)) ->
    Forall (fun x => x <> 0) (firstn (Z.to_nat (Huffman.end_ p)) (Huffman.str p)) ->
    let p' := Huffman.printTree nd p in
    Huffman.printed p'
    = Huffman.printed p
      ++ table (firstn (Z.to_nat (Huffman.end_ p)) (Huffman.str p)) (Huffman.end_ p)
           (codes nd) /\
    Huffman.end_ p' = Huffman.end_ p - 1 /\
    List.length (Huffman.str p') = List.length (Huffman.str p) /\
    firstn (Z.to_nat (Huffman.end_ p)) (Huffman.str p')
    = firstn (Z.to_nat (Huffman.end_ p)) (Huffman.str p).

(** The cells at [addrs], linked in this order from [a] on, hold the nodes
    [L] and end the list. *)
Fixpoint chain (st : Huffman.Store) (a : option nat) (addrs : list nat)
  (L : list Huffman.Node) : Prop :=
  match addrs, L with
  | [], [] => a = None
  | x :: xs, nd :: t =>
      a = Some x /\
      exists c,
        Huffman.load st x = Some c /\ Huffman.n c = Some nd /\
        chain st (Huffman.next c) xs t
  | _, _ => False
  end.

(** The queue holds the nodes [L], front first: no queue or one empty
    cell when [L] is empty, a list of distinct cells otherwise. *)
Definition holds (st : Huffman.Store) (L : list Huffman.Node) : Prop :=
  match L with
  | [] =>
      Huffman.head st = None \/
      exists h,
        Huffman.head st = Some h /\
        Huffman.load st h = Some (Huffman.mkQueue None None)
  | _ => exists addrs, NoDup addrs /\ chain st (Huffman.head st) addrs L
  end.

(** Where [push] puts a node among those behind the front. *)
Fixpoint insert_after (nd : Huffman.Node) (t : list Huffman.Node)
  : list Huffman.Node :=
  match t with
  | [] => [nd]
  | x :: t' =>
      if Huffman.value nd <=? Huffman.value x then nd :: x :: t'
      else x :: insert_after nd t'
  end.

(** The queue [push] leaves. *)
Definition pushed (nd : Huffman.Node) (L : list Huffman.Node)
  : list Huffman.Node :=
  match L with
  | [] => [nd]
  | h :: t =>
      if (Huffman.value nd <? Huffman.value h)
         && match t with
            | [] => true
            | x :: _ => Huffman.value nd <=? Huffman.value x
            end
      then nd :: t
      else h :: insert_after nd t
  end.

(** The order of the queue: by the value of the nodes. *)
Definition by_value (a b : Huffman.Node) : Prop :=
  Huffman.value a <= Huffman.value b.

(** * Properties *)

(** ** Bytes and bits *)

Ltac rec_simpl :=
  cbn [fst snd fp out inp room bitBuffer bitCount mode PutBitsNumFunc
       GetBitsNumFunc set_buf set_fp negb].

Ltac k_cases k :=
  let H := fresh "Hk" in
  match goal with
  | Hr : 0 <= k < 8 |- _ =>
      assert (H : k = 0 \/ k = 1 \/ k = 2 \/ k = 3 \/ k = 4 \/ k = 5 \/ k = 6 \/ k = 7)
        by lia;
      clear Hr;
      repeat (destruct H as [H | H]; [subst k |]); try subst k
  end.

Lemma uchar_range z : 0 <= uchar z < 256.
Proof. unfold uchar. apply Z.mod_pos_bound. lia. Qed.

Lemma uchar_not_EOF z : (uchar z =? EOF) = false.
Proof. apply Z.eqb_neq. pose proof (uchar_range z). unfold EOF. lia. Qed.

Lemma uchar_small z : 0 <= z < 256 -> uchar z = z.
Proof. intros. unfold uchar. apply Z.mod_small. assumption. Qed.

Lemma uchar_testbit z i : Z.testbit (uchar z) i = (i <? 8) && Z.testbit z i.
Proof. unfold uchar. change 256 with (2 ^ 8). apply Z.testbit_mod_pow2. lia. Qed.

Lemma pow2_split k : 0 < k < 8 -> 256 = 2 ^ k * 2 ^ (8 - k).
Proof.
  intros Hk. rewrite <- Z.pow_add_r by lia.
  replace (k + (8 - k)) with 8 by lia. reflexivity.
Qed.

Lemma flushed_spare buf k : 0 < k < 8 ->
  uchar (Z.shiftl buf (8 - k)) mod 2 ^ (8 - k) = 0.
Proof.
  intros Hk. unfold uchar. rewrite Z.shiftl_mul_pow2 by lia.
  rewrite (pow2_split k Hk).
  rewrite Z.mul_mod_distr_r by (apply Z.pow_nonzero; lia).
  apply Z.mod_mul. apply Z.pow_nonzero; lia.
Qed.

Lemma byte_high_bits c n : 0 <= c < 256 -> 8 <= n -> Z.testbit c n = false.
Proof.
  intros Hc Hn. rewrite <- (Z.mod_small c 256) by lia.
  change 256 with (2 ^ 8). rewrite Z.testbit_mod_pow2 by lia.
  destruct (n <? 8) eqn:E; [apply Z.ltb_lt in E; lia | reflexivity].
Qed.

Lemma uchar_shiftl buf k : 0 < k < 8 ->
  uchar (Z.shiftl buf (8 - k)) = Z.shiftl (buf mod 2 ^ k) (8 - k).
Proof.
  intros Hk. unfold uchar. rewrite !Z.shiftl_mul_pow2 by lia.
  rewrite (pow2_split k Hk).
  rewrite Z.mul_mod_distr_r by (apply Z.pow_nonzero; lia). reflexivity.
Qed.

Lemma uchar_lor a b : uchar (Z.lor a b) = Z.lor (uchar a) (uchar b).
Proof.
  unfold uchar. change 256 with (2 ^ 8).
  rewrite <- !Z.land_ones by lia. apply Z.land_lor_distr_l.
Qed.

(** The byte [BitFilePutChar] writes when bits are pending. *)
Lemma assemble buf c k : 0 < k < 8 -> 0 <= c < 256 ->
  uchar (Z.lor (Z.shiftr (uchar c) k) (Z.shiftl buf (8 - k)))
  = (buf mod 2 ^ k) * 2 ^ (8 - k) + c / 2 ^ k.
Proof.
  intros Hk Hc. rewrite (uchar_small c Hc), uchar_lor, (uchar_shiftl buf k Hk).
  assert (Ha : 0 <= Z.shiftr c k < 256).
  { rewrite Z.shiftr_div_pow2 by lia. split.
    - apply Z.div_pos; [lia | apply Z.pow_pos_nonneg; lia].
    - apply Z.div_lt_upper_bound; [apply Z.pow_pos_nonneg; lia |].
      assert (0 < 2 ^ k) by (apply Z.pow_pos_nonneg; lia). nia. }
  rewrite (uchar_small _ Ha).
  rewrite <- (Z.shiftl_mul_pow2 (buf mod 2 ^ k)) by lia.
  rewrite <- (Z.shiftr_div_pow2 c) by lia.
  pose proof (Z.add_lor_land (Z.shiftr c k) (Z.shiftl (buf mod 2 ^ k) (8 - k)))
    as Hadd.
  assert (Hz : Z.land (Z.shiftr c k) (Z.shiftl (buf mod 2 ^ k) (8 - k)) = 0).
  { apply Z.bits_inj'. intros n Hn.
    rewrite Z.bits_0, Z.land_spec, Z.shiftr_spec by lia.
    destruct (Z_lt_ge_dec n (8 - k)) as [Hlt | Hge].
    + rewrite Z.shiftl_spec_low by lia. apply andb_false_r.
    + rewrite (byte_high_bits c _ Hc) by lia. reflexivity. }
  lia.
Qed.

Lemma fputc_ok c f : (room f > 0)%nat ->
  fputc c f = (uchar c, mkFILE (inp f) (out f ++ [uchar c]) (pred (room f))).
Proof. unfold fputc. destruct (room f); [lia | reflexivity]. Qed.

Lemma fputc_cases c f :
  (fputc c f = (EOF, f) /\ room f = O) \/
  (fputc c f = (uchar c, mkFILE (inp f) (out f ++ [uchar c]) (pred (room f)))
   /\ (room f > 0)%nat).
Proof. unfold fputc. destruct (room f); [left | right]; split; auto; lia. Qed.

(** ** BitFilePutChar *)

(** C10: for a byte [c] and a stream whose [bitCount] is not zero, a
    [BitFilePutChar] that does not return [EOF] writes and returns the byte
    made of the [bitCount] buffered bits followed by the high
    [8 - bitCount] bits of [c], keeps [c] in the buffer, whose low
    [bitCount] bits are the bits of [c] still to be written, and leaves
    [bitCount] as it was; with [bitCount] zero it writes and returns [c]. *)
Theorem BitFilePutChar_assembles (c : Z) (s : bit_file_t) :
  0 <= c < 256 -> 0 <= bitCount s < 8 ->
  fst (BitFilePutChar c (Some s)) <> EOF ->
  exists s',
    snd (BitFilePutChar c (Some s)) = Some s' /\
    bitCount s' = bitCount s /\
    (bitCount s = 0 ->
       fst (BitFilePutChar c (Some s)) = c /\
       out (fp s') = out (fp s) ++ [c] /\
       bitBuffer s' = bitBuffer s) /\
    (bitCount s <> 0 ->
       let k := bitCount s in
       let byte := (bitBuffer s mod 2 ^ k) * 2 ^ (8 - k) + c / 2 ^ k in
       fst (BitFilePutChar c (Some s)) = byte /\
       out (fp s') = out (fp s) ++ [byte] /\
       bitBuffer s' = c /\
       bitBuffer s' mod 2 ^ k = c mod 2 ^ k).
Proof.
  intros Hc Hk. unfold BitFilePutChar, lift, PutChar.
  destruct (bitCount s =? 0) eqn:E0.
  - apply Z.eqb_eq in E0.
    destruct (fputc_cases c (fp s)) as [[-> _] | [-> _]]; rec_simpl.
    + intros H; exfalso; apply H; reflexivity.
    + intros _. eexists. split; [reflexivity |]. rec_simpl.
      rewrite (uchar_small c Hc). repeat split; auto; lia.
  - apply Z.eqb_neq in E0.
    set (tmp := uchar (Z.lor (Z.shiftr (uchar c) (bitCount s))
                         (Z.shiftl (bitBuffer s) (8 - bitCount s)))).
    assert (Htmp : tmp = (bitBuffer s mod 2 ^ bitCount s) * 2 ^ (8 - bitCount s)
                         + c / 2 ^ bitCount s)
      by (apply assemble; lia).
    destruct (fputc_cases tmp (fp s)) as [[-> _] | [-> _]]; rec_simpl.
    + rewrite Z.eqb_refl. rec_simpl. intros H; exfalso; apply H; reflexivity.
    + rewrite (uchar_not_EOF tmp). rec_simpl. intros _.
      eexists. split; [reflexivity |]. rec_simpl.
      split; [reflexivity |]. split; [intros; lia |]. intros _.
      rewrite (uchar_small c Hc).
      assert (Hu : uchar tmp = tmp) by (apply uchar_small; apply uchar_range).
      cbv zeta. rewrite Hu, <- Htmp. repeat split; reflexivity.
Qed.

Lemma BitFilePutChar_assembles_witness :
  exists s',
    snd (BitFilePutChar 171
           (Some (mkBF (mkFILE [] [] 1) 5 3 None None BF_WRITE))) = Some s' /\
    out (fp s') = [181] /\ bitBuffer s' = 171.
Proof.
  destruct (BitFilePutChar_assembles 171
              (mkBF (mkFILE [] [] 1) 5 3 None None BF_WRITE))
    as [s' [H1 [H2 [H3 H4]]]].
  - lia.
  - cbn. lia.
  - vm_compute. discriminate.
  - exists s'. split; [exact H1 |].
    destruct H4 as [_ [Ho [Hb _]]]; [cbn; lia |]. split; [exact Ho | exact Hb].
Defined.

(** ** BitFileClose *)

(** C6: closing a stream open for writing with [bitCount] not zero puts
    exactly one more byte on the file, [bitBuffer] shifted left by
    [8 - bitCount], whose low [8 - bitCount] bits are zero; closing a null
    stream returns [EOF]; the bits 1,0,1,1,0,0,0,1,1 written one at a time
    and closed give the bytes 0xB1 and 0x80. *)
Theorem BitFileClose_flushes_residue (s : bit_file_t) :
  writing (mode s) = true -> 0 < bitCount s < 8 -> (room (fp s) > 0)%nat ->
  let last := uchar (Z.shiftl (bitBuffer s) (8 - bitCount s)) in
  (exists f, BitFileClose (Some s) = (0, Some f) /\
             out f = out (fp s) ++ [last]) /\
  last mod 2 ^ (8 - bitCount s) = 0 /\
  BitFileClose None = (EOF, None) /\
  (forall word_one m, writing m = true ->
     exists f,
       BitFileClose
         (put_bit_seq nine_bits
            (MakeBitFile word_one (Some (mkFILE [] [] 2)) m)) = (0, Some f) /\
       out f = [177; 128]).
Proof.
  intros Hw Hk Hr last. split; [| split; [| split]].
  - unfold BitFileClose, flush_residue. rewrite Hw.
    replace (bitCount s =? 0) with false by (symmetry; apply Z.eqb_neq; lia).
    rec_simpl. fold last. rewrite (fputc_ok last (fp s) Hr). rec_simpl.
    eexists. split; [reflexivity |]. rec_simpl.
    unfold last at 1. rewrite (uchar_small _ (uchar_range _)). reflexivity.
  - apply flushed_spare; assumption.
  - reflexivity.
  - intros word_one m Hm. unfold MakeBitFile.
    destruct (DetermineEndianess word_one); destruct m; try discriminate Hm;
      (eexists; split; [vm_compute; reflexivity | reflexivity]).
Qed.

Lemma BitFileClose_flushes_residue_witness :
  exists f,
    BitFileClose (Some (mkBF (mkFILE [] [177] 1) 1 1 None None BF_WRITE))
    = (0, Some f) /\ out f = [177; 128].
Proof.
  destruct (BitFileClose_flushes_residue
              (mkBF (mkFILE [] [177] 1) 1 1 None None BF_WRITE))
    as [[f [H1 H2]] _].
  - reflexivity.
  - cbn. lia.
  - cbn. lia.
  - exists f. split; [exact H1 | exact H2].
Defined.

(** ** The bit view of a writer *)

Lemma tb_uchar_low z i : i < 8 -> Z.testbit (uchar z) i = Z.testbit z i.
Proof.
  intros H. rewrite uchar_testbit.
  replace (i <? 8) with true by (symmetry; apply Z.ltb_lt; exact H). reflexivity.
Qed.

Lemma tb_uchar_high z i : 8 <= i -> Z.testbit (uchar z) i = false.
Proof.
  intros H. rewrite uchar_testbit.
  replace (i <? 8) with false by (symmetry; apply Z.ltb_ge; exact H). reflexivity.
Qed.

Lemma tb_one_0 : Z.testbit 1 0 = true. Proof. reflexivity. Qed.
Lemma tb_one_pos i : 0 < i -> Z.testbit 1 i = false.
Proof. intros H. destruct i; try lia. reflexivity. Qed.

Ltac tb :=
  repeat (rewrite ?Z.lor_spec, ?Z.land_spec;
          first [ rewrite tb_uchar_low by lia
                | rewrite tb_uchar_high by lia
                | rewrite Z.shiftl_spec by lia
                | rewrite Z.shiftr_spec by lia
                | rewrite Z.testbit_neg_r by lia
                | rewrite tb_one_pos by lia
                | rewrite tb_one_0
                | rewrite orb_false_l | rewrite orb_false_r
                | rewrite orb_true_r
                | rewrite andb_true_r | rewrite andb_false_r ]);
  try reflexivity.

Lemma bytes_bits_snoc l x : bytes_bits (l ++ [x]) = bytes_bits l ++ byte_bits x.
Proof. unfold bytes_bits. rewrite flat_map_app. cbn [flat_map]. rewrite app_nil_r. reflexivity. Qed.

Lemma low_bits_uchar k z : (k <= 8)%nat -> low_bits k (uchar z) = low_bits k z.
Proof.
  induction k; intros Hk; [reflexivity |]. cbn [low_bits].
  rewrite tb_uchar_low by lia. rewrite IHk by lia. reflexivity.
Qed.

Ltac is_num a :=
  match a with
  | Z0 => idtac
  | Zpos ?p => is_ground p
  | Zneg ?p => is_ground p
  end.

Ltac consts :=
  repeat match goal with
    | |- context [uchar (?a + 1)] =>
        is_num a;
        let v := eval vm_compute in (uchar (a + 1)) in
        change (uchar (a + 1)) with v
    | |- context [uchar (?a - 1)] =>
        is_num a;
        let v := eval vm_compute in (uchar (a - 1)) in
        change (uchar (a - 1)) with v
    | |- context [Z.to_nat ?a] =>
        is_num a;
        let v := eval vm_compute in (Z.to_nat a) in
        change (Z.to_nat a) with v
    | |- context [?a =? ?b] =>
        is_num a; is_num b;
        let v := eval vm_compute in (a =? b) in
        change (a =? b) with v
    end.

Ltac bits_eq :=
  cbn [low_bits Z.of_nat Pos.of_succ_nat Pos.succ app negb];
  repeat (f_equal; [solve [tb] |]); try solve [tb].

Lemma PutBit_bits c s :
  0 <= bitCount s < 8 -> 1 <= capacity s ->
  let s' := snd (PutBit c s) in
  fst (PutBit c s) = c /\
  written_bits s' = written_bits s ++ [negb (c =? 0)] /\
  0 <= bitCount s' < 8 /\ capacity s' = capacity s - 1 /\
  PutBitsNumFunc s' = PutBitsNumFunc s.
Proof.
  intros Hk Hcap. unfold PutBit, written_bits, capacity in *.
  destruct s as [f buf k pf gf m]. cbn [fp bitCount bitBuffer] in *.
  k_cases k; consts; cbv iota.
  8: { rewrite fputc_ok by lia. rewrite uchar_not_EOF. rec_simpl. consts.
       split; [reflexivity |]. split; [| split; [lia | split; [lia | reflexivity]]].
       rewrite bytes_bits_snoc. unfold byte_bits. rewrite low_bits_uchar by lia.
       change (low_bits 0 0) with (@nil bool).
       rewrite app_nil_r, <- app_assoc. f_equal.
       destruct (c =? 0); bits_eq. }
  all: rec_simpl; consts;
    (split; [reflexivity |]; split; [| split; [lia | split; [lia | reflexivity]]]);
    rewrite <- app_assoc; f_equal; destruct (c =? 0); bits_eq.
Qed.

Lemma PutChar_bits c s :
  0 <= bitCount s < 8 -> 8 <= capacity s ->
  let s' := snd (PutChar c s) in
  fst (PutChar c s) <> EOF /\
  written_bits s' = written_bits s ++ byte_bits c /\
  bitCount s' = bitCount s /\ capacity s' = capacity s - 8 /\
  PutBitsNumFunc s' = PutBitsNumFunc s.
Proof.
  intros Hk Hcap. unfold PutChar, written_bits, capacity in *.
  destruct s as [f buf k pf gf m]. cbn [fp bitCount bitBuffer] in *.
  assert (Hroom : (room f > 0)%nat) by lia.
  k_cases k; consts; cbv iota; rewrite fputc_ok by assumption;
    rewrite ?uchar_not_EOF; rec_simpl; consts;
    (split; [try (apply Z.eqb_neq, uchar_not_EOF) |];
     split; [| split; [lia | split; [lia | reflexivity]]]).
  all: rewrite bytes_bits_snoc, <- ?app_assoc; f_equal; unfold byte_bits;
    rewrite ?low_bits_uchar by lia; bits_eq.
Qed.

Lemma land_128 tmp : negb (Z.land tmp 128 =? 0) = Z.testbit tmp 7.
Proof.
  assert (H : Z.land tmp 128 = if Z.testbit tmp 7 then 128 else 0).
  { apply Z.bits_inj'. intros i Hi. rewrite Z.land_spec.
    change 128 with (2 ^ 7). rewrite Z.pow2_bits_eqb by lia.
    destruct (Z.eqb_spec 7 i) as [<- | Hne].
    - rewrite andb_true_r. destruct (Z.testbit tmp 7); [| apply eq_sym, Z.bits_0].
      rewrite Z.pow2_bits_eqb by lia. reflexivity.
    - rewrite andb_false_r. destruct (Z.testbit tmp 7); [| apply eq_sym, Z.bits_0].
      rewrite Z.pow2_bits_eqb by lia. symmetry. apply Z.eqb_neq. exact Hne. }
  rewrite H. destruct (Z.testbit tmp 7); reflexivity.
Qed.

Lemma land_128_not_EOF tmp : (Z.land tmp 128 =? EOF) = false.
Proof.
  apply Z.eqb_neq. assert (0 <= Z.land tmp 128) by (apply Z.land_nonneg; lia).
  unfold EOF. lia.
Qed.

Lemma top_bits_step tmp n : (n <= 7)%nat ->
  Z.testbit tmp 7 :: firstn n (byte_bits (uchar (Z.shiftl tmp 1)))
  = firstn (S n) (byte_bits tmp).
Proof.
  intros Hn. unfold byte_bits. cbn [firstn low_bits Z.of_nat Pos.of_succ_nat Pos.succ].
  f_equal.
  assert (Hl : low_bits 8 (uchar (Z.shiftl tmp 1))
               = low_bits 7 tmp ++ [false]).
  { rewrite low_bits_uchar by lia. bits_eq. }
  cbn [low_bits Z.of_nat Pos.of_succ_nat Pos.succ] in Hl.
  cbn [low_bits Z.of_nat Pos.of_succ_nat Pos.succ].
  rewrite Hl. cbn [app].
  do 8 (destruct n as [| n]; [reflexivity |]). lia.
Qed.

Lemma put_tail_bits n : forall tmp s,
  (n <= 8)%nat -> 0 <= bitCount s < 8 -> Z.of_nat n <= capacity s ->
  let r := put_tail n tmp s in
  fst r = true /\
  written_bits (snd r) = written_bits s ++ firstn n (byte_bits tmp) /\
  0 <= bitCount (snd r) < 8 /\ capacity (snd r) = capacity s - Z.of_nat n /\
  PutBitsNumFunc (snd r) = PutBitsNumFunc s.
Proof.
  induction n as [| n IH]; intros tmp s Hn Hk Hcap.
  - cbn [put_tail fst snd firstn]. rewrite app_nil_r.
    repeat split; try lia.
  - cbn [put_tail].
    destruct (PutBit_bits (Z.land tmp 128) s Hk ltac:(lia))
      as [Hr [Hw [Hk' [Hc' Hf']]]].
    destruct (PutBit (Z.land tmp 128) s) as [r s'] eqn:E.
    cbn [fst snd] in *. subst r. rewrite land_128_not_EOF.
    destruct (IH (uchar (Z.shiftl tmp 1)) s' ltac:(lia) Hk' ltac:(lia))
      as [H1 [H2 [H3 [H4 H5]]]].
    cbv zeta. repeat split; try lia; try congruence.
    rewrite H2, Hw, land_128, <- app_assoc. f_equal.
    cbn [app]. apply top_bits_step. lia.
Qed.

Import LZSS.

Lemma put_offset_bits e s v :
  e <> BF_UNKNOWN_ENDIAN -> PutBitsNumFunc s = Some (func_of e) ->
  0 <= bitCount s < 8 -> 12 <= capacity s ->
  exists s',
    snd (BitFilePutBitsNum (Some s) (Some (uint_bytes e v)) OFFSET_BITS 4) = Some s' /\
    written_bits s' = written_bits s ++ offset_bits v /\
    0 <= bitCount s' < 8 /\ capacity s' = capacity s - 12 /\
    PutBitsNumFunc s' = PutBitsNumFunc s.
Proof.
  intros He Hf Hk Hcap. unfold BitFilePutBitsNum. rewrite Hf.
  assert (Hbody : forall b0 b1 (bytes : list Z) (o : Z),
            rd bytes o = uchar v -> rd bytes (o + b0) = uchar (Z.shiftr v 8) ->
            b1 = b0 ->
            let r := put_whole 1 bytes o b0 s in
            let r2 := put_tail 4 (uchar (Z.shiftl (rd bytes (snd (fst r))) (8 - 4)))
                        (snd r) in
            fst (fst r) = true /\ fst r2 = true /\
            written_bits (snd r2) = written_bits s ++ offset_bits v /\
            0 <= bitCount (snd r2) < 8 /\ capacity (snd r2) = capacity s - 12 /\
            PutBitsNumFunc (snd r2) = PutBitsNumFunc s).
  { intros b0 b1 bytes o H0 H1 _. cbn [put_whole]. rewrite H0.
    destruct (PutChar_bits (uchar v) s Hk ltac:(lia)) as [Hr [Hw [Hc [Hcp Hpf]]]].
    destruct (PutChar (uchar v) s) as [r s1] eqn:E. cbn [fst snd] in *.
    replace (r =? EOF) with false by (symmetry; apply Z.eqb_neq; exact Hr).
    cbn [fst snd]. rewrite H1.
    destruct (put_tail_bits 4 (uchar (Z.shiftl (uchar (Z.shiftr v 8)) (8 - 4))) s1
                ltac:(lia) ltac:(lia) ltac:(cbn; lia)) as [G1 [G2 [G3 [G4 G5]]]].
    cbv zeta in *. repeat split; try lia; try congruence.
    rewrite G2, Hw, <- app_assoc. f_equal. unfold offset_bits. f_equal.
    - unfold byte_bits. apply low_bits_uchar. lia.
    - unfold byte_bits. cbn [firstn low_bits Z.of_nat Pos.of_succ_nat Pos.succ].
      bits_eq. }
  destruct e; [contradiction He; reflexivity | |]; cbn [func_of].
  - unfold BitFilePutBitsLE.
    change (whole_count (to_int OFFSET_BITS)) with 1%nat.
    change (tail_count (to_int OFFSET_BITS)) with 4.
    destruct (Hbody 1 1 (uint_bytes BF_LITTLE_ENDIAN v) 0 eq_refl eq_refl eq_refl)
      as [A [B [C [D [E F]]]]].
    destruct (put_whole 1 (uint_bytes BF_LITTLE_ENDIAN v) 0 1 s) as [[ok o] s1].
    cbn [fst snd] in *. subst ok. cbn [negb]. change (negb (4 =? 0)) with true.
    cbv iota. change (Z.to_nat 4) with 4%nat.
    destruct (put_tail 4 _ s1) as [ok2 s2]. cbn [fst snd] in *. subst ok2.
    cbn [negb snd]. exists s2. clear Hbody.
    repeat split; try assumption; try reflexivity; try lia; cbn [func_of] in *; congruence.
  - unfold BitFilePutBitsBE.
    change (uint OFFSET_BITS >? size_t (4 * 8)) with false. cbv iota.
    change (whole_count (to_int OFFSET_BITS)) with 1%nat.
    change (tail_count (to_int OFFSET_BITS)) with 4.
    change (to_int (4 - 1)) with 3.
    destruct (Hbody (-1) (-1) (uint_bytes BF_BIG_ENDIAN v) 3 eq_refl eq_refl eq_refl)
      as [A [B [C [D [E F]]]]].
    destruct (put_whole 1 (uint_bytes BF_BIG_ENDIAN v) 3 (-1) s) as [[ok o] s1].
    cbn [fst snd] in *. subst ok. cbn [negb]. change (negb (4 =? 0)) with true.
    cbv iota. change (Z.to_nat 4) with 4%nat.
    destruct (put_tail 4 _ s1) as [ok2 s2]. cbn [fst snd] in *. subst ok2.
    cbn [negb snd]. exists s2. clear Hbody.
    repeat split; try assumption; try reflexivity; try lia; cbn [func_of] in *; congruence.
Qed.

Lemma put_length_bits e s v :
  e <> BF_UNKNOWN_ENDIAN -> PutBitsNumFunc s = Some (func_of e) ->
  0 <= bitCount s < 8 -> 4 <= capacity s ->
  exists s',
    snd (BitFilePutBitsNum (Some s) (Some (uint_bytes e v)) LENGTH_BITS 4) = Some s' /\
    written_bits s' = written_bits s ++ length_bits v /\
    0 <= bitCount s' < 8 /\ capacity s' = capacity s - 4 /\
    PutBitsNumFunc s' = PutBitsNumFunc s.
Proof.
  intros He Hf Hk Hcap. unfold BitFilePutBitsNum. rewrite Hf.
  destruct (put_tail_bits 4 (uchar (Z.shiftl (uchar v) (8 - 4))) s
              ltac:(lia) Hk ltac:(cbn; lia)) as [G1 [G2 [G3 [G4 G5]]]].
  cbv zeta in *.
  assert (Hbits : firstn 4 (byte_bits (uchar (Z.shiftl (uchar v) (8 - 4))))
                  = length_bits v).
  { unfold byte_bits, length_bits. cbn [firstn]. bits_eq. }
  rewrite Hbits in G2.
  destruct e; [contradiction He; reflexivity | |]; cbn [func_of].
  - unfold BitFilePutBitsLE.
    change (whole_count (to_int LENGTH_BITS)) with 0%nat.
    change (tail_count (to_int LENGTH_BITS)) with 4.
    cbn [put_whole negb]. change (negb (4 =? 0)) with true. cbv iota.
    change (Z.to_nat 4) with 4%nat.
    change (rd (uint_bytes BF_LITTLE_ENDIAN v) 0) with (uchar v).
    destruct (put_tail 4 _ s) as [ok s2]. cbn [fst snd] in *. subst ok.
    cbn [negb snd]. exists s2.
    repeat split; try assumption; try reflexivity; try lia; cbn [func_of] in *; congruence.
  - unfold BitFilePutBitsBE.
    change (uint LENGTH_BITS >? size_t (4 * 8)) with false. cbv iota.
    change (whole_count (to_int LENGTH_BITS)) with 0%nat.
    change (tail_count (to_int LENGTH_BITS)) with 4.
    change (to_int (4 - 1)) with 3.
    cbn [put_whole negb]. change (negb (4 =? 0)) with true. cbv iota.
    change (Z.to_nat 4) with 4%nat.
    change (rd (uint_bytes BF_BIG_ENDIAN v) 3) with (uchar v).
    destruct (put_tail 4 _ s) as [ok s2]. cbn [fst snd] in *. subst ok.
    cbn [negb snd]. exists s2.
    repeat split; try assumption; try reflexivity; try lia; cbn [func_of] in *; congruence.
Qed.

Lemma drain_heads k : forall st,
  windowHead (drain k st) = (if (k =? 0)%nat then windowHead st
                             else Wrap (windowHead st + Z.of_nat k) WINDOW_SIZE) /\
  uncodedHead (drain k st) = (if (k =? 0)%nat then uncodedHead st
                              else Wrap (uncodedHead st + Z.of_nat k) MAX_CODED) /\
  bfpOut (drain k st) = bfpOut st.
Proof.
  induction k as [| k IH]; intros st; [repeat split |].
  cbn [drain Nat.eqb]. destruct (IH (mkEnc (fpIn st) (bfpOut st)
        (ReplaceChar (slidingWindow st) (windowHead st)
           (rd (uncodedLookahead st) (uncodedHead st)))
        (uncodedLookahead st) (Wrap (windowHead st + 1) WINDOW_SIZE)
        (Wrap (uncodedHead st + 1) MAX_CODED) (uint (len st - 1)))) as [H1 [H2 H3]].
  rewrite H1, H2, H3. cbn [windowHead uncodedHead bfpOut].
  destruct k as [| k]; cbn [Nat.eqb]; [repeat split |].
  unfold Wrap, WINDOW_SIZE, MAX_CODED.
  rewrite !Z.add_mod_idemp_l by lia.
  repeat split; f_equal; lia.
Qed.

Lemma advance_heads k : forall st,
  windowHead (advance k st) = (if (k =? 0)%nat then windowHead st
                               else Wrap (windowHead st + Z.of_nat k) WINDOW_SIZE) /\
  uncodedHead (advance k st) = (if (k =? 0)%nat then uncodedHead st
                                else Wrap (uncodedHead st + Z.of_nat k) MAX_CODED) /\
  bfpOut (advance k st) = bfpOut st.
Proof.
  induction k as [| k IH]; intros st; [repeat split |].
  cbn [advance]. destruct (fgetc (fpIn st)) as [c f].
  destruct (c =? EOF); [apply (drain_heads (S k)) |].
  match goal with |- context [advance k ?x] => destruct (IH x) as [H1 [H2 H3]] end.
  rewrite H1, H2, H3. cbn [windowHead uncodedHead bfpOut Nat.eqb].
  destruct k as [| k]; cbn [Nat.eqb]; [repeat split |].
  unfold Wrap, WINDOW_SIZE, MAX_CODED.
  rewrite !Z.add_mod_idemp_l by lia.
  repeat split; f_equal; lia.
Qed.

Lemma clamp_length st m : length (clamp st m) = Z.min (length m) (len st).
Proof.
  unfold clamp. destruct (length m >? len st) eqn:E; cbn [length].
  - apply Z.gtb_lt in E. lia.
  - rewrite Z.gtb_ltb in E. apply Z.ltb_ge in E. lia.
Qed.

Lemma clamp_offset st m : offset (clamp st m) = offset m.
Proof. unfold clamp. destruct (length m >? len st); reflexivity. Qed.

(** ** One pass of the encoder loop *)

(** C7: in a pass of the encoder loop the match length is first clamped
    to [len]; when the clamped length is at most [MAX_UNCODED] the encoder
    writes the flag 1 and the byte [uncodedLookahead[uncodedHead]] and both
    cursors advance by one position; otherwise it writes the flag 0, the
    offset in [OFFSET_BITS] bits and the length minus [MAX_UNCODED + 1] in
    [LENGTH_BITS] bits, and both cursors advance by the length.  The host
    has a known endianness and the device takes the bytes. *)
Theorem encode_body_record (e : endian_t) (st : Enc) (m : encoded_string_t)
  (s : bit_file_t) :
  e <> BF_UNKNOWN_ENDIAN ->
  bfpOut st = Some s -> PutBitsNumFunc s = Some (func_of e) ->
  0 <= bitCount s < 8 -> (room (fp s) >= 3)%nat ->
  0 < len st <= MAX_CODED -> 0 <= length m ->
  let l := Z.min (length m) (len st) in
  let st' := encode_body e st m in
  length (clamp st m) = l /\
  exists s', bfpOut st' = Some s' /\
    if l <=? MAX_UNCODED then
      written_bits s' = written_bits s ++ [true]
        ++ byte_bits (rd (uncodedLookahead st) (uncodedHead st)) /\
      windowHead st' = Wrap (windowHead st + 1) WINDOW_SIZE /\
      uncodedHead st' = Wrap (uncodedHead st + 1) MAX_CODED
    else
      written_bits s' = written_bits s ++ [false]
        ++ offset_bits (offset m) ++ length_bits (l - (MAX_UNCODED + 1)) /\
      windowHead st' = Wrap (windowHead st + l) WINDOW_SIZE /\
      uncodedHead st' = Wrap (uncodedHead st + l) MAX_CODED.
Proof.
  intros He Hb Hf Hk Hroom Hlen Hm l st'.
  split; [apply clamp_length |].
  assert (Hcap : 17 <= capacity s) by (unfold capacity; lia).
  subst st'. unfold encode_body, emit.
  rewrite clamp_length, clamp_offset. fold l. rewrite Hb.
  unfold BitFilePutBit, BitFilePutChar, lift.
  destruct (l <=? MAX_UNCODED) eqn:El.
  - destruct (PutBit_bits UNCODED s Hk ltac:(lia)) as [_ [Hw [Hk1 [Hc1 _]]]].
    destruct (PutBit UNCODED s) as [r1 s1]. cbn [fst snd] in *.
    destruct (PutChar_bits (rd (uncodedLookahead st) (uncodedHead st)) s1
                Hk1 ltac:(lia)) as [_ [Hw2 _]].
    destruct (PutChar _ s1) as [r2 s2]. cbn [fst snd] in *.
    match goal with |- context [advance ?k ?x] =>
      destruct (advance_heads k x) as [H1 [H2 H3]] end.
    exists s2. rewrite H1, H2, H3. cbn [bfpOut windowHead uncodedHead].
    change (Z.to_nat 1 =? 0)%nat with false. change (Z.of_nat (Z.to_nat 1)) with 1.
    rewrite Hw2, Hw, <- app_assoc. repeat split.
  - apply Z.leb_gt in El. unfold MAX_UNCODED, MAX_CODED in *.
    destruct (PutBit_bits ENCODED s Hk ltac:(lia)) as [_ [Hw [Hk1 [Hc1 Hf1]]]].
    destruct (PutBit ENCODED s) as [r1 s1]. cbn [fst snd] in *.
    destruct (put_offset_bits e s1 (offset m) He ltac:(congruence) Hk1 ltac:(lia))
      as [s2 [E2 [Hw2 [Hk2 [Hc2 Hf2]]]]].
    rewrite E2.
    destruct (put_length_bits e s2 (uint (l - (2 + 1))) He ltac:(congruence)
                Hk2 ltac:(lia)) as [s3 [E3 [Hw3 _]]].
    rewrite E3.
    match goal with |- context [advance ?k ?x] =>
      destruct (advance_heads k x) as [H1 [H2 H3]] end.
    exists s3. rewrite H1, H2, H3. cbn [bfpOut windowHead uncodedHead].
    replace (Z.to_nat l =? 0)%nat with false
      by (symmetry; apply Nat.eqb_neq; lia).
    rewrite Z2Nat.id by lia.
    rewrite Hw3, Hw2, Hw, <- !app_assoc.
    replace (uint (l - (2 + 1))) with (l - (2 + 1))
      by (unfold uint; rewrite Z.mod_small; lia).
    repeat split.
Qed.

Lemma encode_body_record_witness :
  exists s',
    bfpOut (encode_body BF_LITTLE_ENDIAN enc_sample (mkMatch 5 3)) = Some s' /\
    written_bits s'
    = written_bits le_stream ++ [false] ++ offset_bits 5 ++ length_bits 0 /\
    windowHead (encode_body BF_LITTLE_ENDIAN enc_sample (mkMatch 5 3))
    = Wrap 3 WINDOW_SIZE.
Proof.
  destruct (encode_body_record BF_LITTLE_ENDIAN enc_sample (mkMatch 5 3) le_stream)
    as [_ [s' [H1 H2]]].
  - discriminate.
  - reflexivity.
  - reflexivity.
  - cbn. lia.
  - cbn. lia.
  - unfold MAX_CODED. cbn. lia.
  - cbn. lia.
  - exists s'. split; [exact H1 |].
    change (Z.min (length (mkMatch 5 3)) (len enc_sample)) with 3 in H2.
    change (3 <=? MAX_UNCODED) with false in H2. cbv iota in H2.
    destruct H2 as [A [B _]]. split; [exact A | exact B].
Defined.

(** ** The reader and the decoder loop *)

Lemma land_1_not_EOF x : (Z.land x 1 =? EOF) = false.
Proof.
  apply Z.eqb_neq. assert (0 <= Z.land x 1) by (apply Z.land_nonneg; lia).
  unfold EOF. lia.
Qed.

Lemma GetBit_spec s :
  0 <= bitCount s < 8 ->
  (avail s = 0 /\ GetBit s = (EOF, s)) \/
  (1 <= avail s /\ (fst (GetBit s) =? EOF) = false /\
   0 <= bitCount (snd (GetBit s)) < 8 /\
   avail (snd (GetBit s)) = avail s - 1 /\
   GetBitsNumFunc (snd (GetBit s)) = GetBitsNumFunc s).
Proof.
  intros Hk. unfold GetBit, avail. destruct s as [f buf k pf gf m].
  cbn [fp bitCount bitBuffer] in *.
  destruct (Z.eqb_spec k 0) as [-> | Hne].
  - unfold fgetc. destruct f as [i o r]. cbn [inp].
    destruct i as [| b rest]; [left; split; reflexivity |].
    right. rewrite uchar_not_EOF. rec_simpl. rewrite land_1_not_EOF.
    cbn [List.length]. change (uchar (8 - 1)) with 7.
    repeat split; try lia.
  - right. rec_simpl. rewrite land_1_not_EOF.
    assert (Hu : uchar (k - 1) = k - 1) by (apply uchar_small; lia).
    rewrite Hu. repeat split; try lia.
Qed.

Lemma GetChar_spec s :
  0 <= bitCount s < 8 ->
  bitCount (snd (GetChar s)) = bitCount s /\
  GetBitsNumFunc (snd (GetChar s)) = GetBitsNumFunc s /\
  ((avail s < 8 /\ fst (GetChar s) = EOF /\ avail (snd (GetChar s)) = avail s) \/
   (8 <= avail s /\ (fst (GetChar s) =? EOF) = false /\
    avail (snd (GetChar s)) = avail s - 8)).
Proof.
  intros Hk. unfold GetChar, avail. destruct s as [f buf k pf gf m].
  cbn [fp bitCount bitBuffer] in *.
  unfold fgetc. destruct f as [i o r]. cbn [inp].
  destruct i as [| b rest]; rec_simpl.
  - destruct (k =? 0); rec_simpl; change (EOF =? EOF) with true; rec_simpl;
      cbn [List.length]; (split; [reflexivity |]; split; [reflexivity |]); left;
      repeat split; lia.
  - destruct (k =? 0); rec_simpl; rewrite ?uchar_not_EOF; rec_simpl;
      cbn [List.length]; (split; [reflexivity |]; split; [reflexivity |]); right;
      rewrite ?uchar_not_EOF; repeat split; lia.
Qed.

Lemma get_tail_spec n : forall bytes o s,
  0 <= bitCount s < 8 ->
  let r := get_tail n bytes o s in
  0 <= bitCount (snd r) < 8 /\
  GetBitsNumFunc (snd r) = GetBitsNumFunc s /\
  ((avail s < Z.of_nat n /\ fst (fst r) = false /\ avail (snd r) <= avail s) \/
   (Z.of_nat n <= avail s /\ fst (fst r) = true /\
    avail (snd r) = avail s - Z.of_nat n)).
Proof.
  induction n as [| n IH]; intros bytes o s Hk.
  - cbn [get_tail fst snd]. split; [lia |]. split; [reflexivity |].
    right. unfold avail in *. repeat split; lia.
  - cbn [get_tail].
    destruct (GetBit_spec s Hk) as [[Ha ->] | [Ha [Hr [Hk' [Ha' Hf]]]]].
    + change (EOF =? EOF) with true. cbn [fst snd].
      split; [lia |]. split; [reflexivity |]. left. repeat split; lia.
    + destruct (GetBit s) as [r s1]. cbn [fst snd] in *. rewrite Hr.
      match goal with |- context [get_tail n ?b o s1] =>
        destruct (IH b o s1 Hk') as [G1 [G2 G3]] end.
      cbv zeta in *. split; [exact G1 |]. split; [congruence |].
      destruct G3 as [[G3 [G4 G5]] | [G3 [G4 G5]]]; [left | right];
        repeat split; try assumption; lia.
Qed.

Lemma get_whole_spec n : forall bytes o d s,
  0 <= bitCount s < 8 ->
  let r := get_whole n bytes o d s in
  0 <= bitCount (snd r) < 8 /\
  GetBitsNumFunc (snd r) = GetBitsNumFunc s /\
  ((avail s < 8 * Z.of_nat n /\ fst (fst (fst r)) = false /\
    avail (snd r) <= avail s) \/
   (8 * Z.of_nat n <= avail s /\ fst (fst (fst r)) = true /\
    avail (snd r) = avail s - 8 * Z.of_nat n)).
Proof.
  induction n as [| n IH]; intros bytes o d s Hk.
  - cbn [get_whole fst snd]. split; [lia |]. split; [reflexivity |].
    right. unfold avail in *. repeat split; lia.
  - cbn [get_whole].
    destruct (GetChar_spec s Hk) as [Hc [Hf [[Ha [Hr Ha']] | [Ha [Hr Ha']]]]].
    + destruct (GetChar s) as [r s1]. cbn [fst snd] in *. subst r.
      change (EOF =? EOF) with true. cbn [fst snd].
      split; [lia |]. split; [assumption |]. left. repeat split; lia.
    + destruct (GetChar s) as [r s1]. cbn [fst snd] in *. rewrite Hr.
      match goal with |- context [get_whole n ?b ?o' d s1] =>
        destruct (IH b o' d s1 ltac:(lia)) as [G1 [G2 G3]] end.
      cbv zeta in *. split; [exact G1 |]. split; [congruence |].
      destruct G3 as [[G3 [G4 G5]] | [G3 [G4 G5]]]; [left | right];
        repeat split; try assumption; lia.
Qed.

Lemma get_num_spec e s bytes count :
  count = OFFSET_BITS \/ count = LENGTH_BITS ->
  GetBitsNumFunc s = Some (func_of e) -> 0 <= bitCount s < 8 ->
  let r := BitFileGetBitsNum (Some s) (Some bytes) count 4 in
  exists s',
    snd r = Some s' /\ 0 <= bitCount s' < 8 /\
    GetBitsNumFunc s' = GetBitsNumFunc s /\ avail s' <= avail s /\
    (e <> BF_UNKNOWN_ENDIAN ->
     (avail s < count /\ fst (fst r) = EOF) \/
     (count <= avail s /\ (fst (fst r) =? EOF) = false /\
      avail s' = avail s - count)).
Proof.
  intros Hcount Hf Hk. unfold BitFileGetBitsNum. rewrite Hf.
  assert (Hbody : forall o d,
    let r := get_num_body s bytes count o d in
    0 <= bitCount (snd r) < 8 /\
    GetBitsNumFunc (snd r) = GetBitsNumFunc s /\ avail (snd r) <= avail s /\
    ((avail s < count /\ fst (fst r) = EOF) \/
     (count <= avail s /\ (fst (fst r) =? EOF) = false /\
      avail (snd r) = avail s - count))).
  { intros o d. unfold get_num_body.
    assert (Hw : (whole_count (to_int count) = 1%nat /\ count = 12) \/
                 (whole_count (to_int count) = 0%nat /\ count = 4)).
    { destruct Hcount as [-> | ->]; [left | right]; split; reflexivity. }
    assert (Ht : tail_count (to_int count) = 4).
    { destruct Hcount as [-> | ->]; reflexivity. }
    assert (Hi : to_int count = count).
    { destruct Hcount as [-> | ->]; reflexivity. }
    cbv zeta. rewrite Ht. change (negb (4 =? 0)) with true. cbv iota.
    change (Z.to_nat 4) with 4%nat.
    destruct (get_whole_spec (whole_count (to_int count)) bytes o d s Hk)
      as [W1 [W2 W3]]. cbv zeta in W1, W2, W3.
    destruct (get_whole (whole_count (to_int count)) bytes o d s)
      as [[[ok off] b1] s1]. cbn [fst snd] in *.
    destruct W3 as [[W3 [-> W5]] | [W3 [-> W5]]]; cbn [negb fst snd].
    - split; [assumption |]. split; [assumption |]. split; [assumption |].
      left. split; [| reflexivity].
      destruct Hw as [[Hw ->] | [Hw ->]]; rewrite Hw in *; lia.
    - destruct (get_tail_spec 4 b1 off s1 W1) as [T1 [T2 T3]].
      cbv zeta in T1, T2, T3.
      destruct (get_tail 4 b1 off s1) as [[ok2 b2] s2]. cbn [fst snd] in *.
      destruct T3 as [[T3 [-> T5]] | [T3 [-> T5]]]; cbn [negb fst snd].
      + split; [assumption |]. split; [congruence |]. split; [lia |].
        left. split; [| reflexivity].
        destruct Hw as [[Hw ->] | [Hw ->]]; rewrite Hw in *; lia.
      + split; [assumption |]. split; [congruence |].
        assert (Hav : avail s2 = avail s - count)
          by (destruct Hw as [[Hw ->] | [Hw ->]]; rewrite Hw in *; lia).
        split; [destruct Hcount as [-> | ->]; unfold OFFSET_BITS, LENGTH_BITS in *; lia |].
        right.
        split; [destruct Hw as [[Hw ->] | [Hw ->]]; rewrite Hw in *; lia |].
        split; [destruct Hcount as [-> | ->]; reflexivity | assumption]. }
  destruct e; cbn [func_of].
  - exists s. cbn [fst snd].
    split; [reflexivity |]. split; [lia |]. split; [first [exact Hf | symmetry; exact Hf] |].
    split; [lia |]. intros H; contradiction H; reflexivity.
  - change (BitFileGetBitsLE s bytes count 4) with (get_num_body s bytes count 0 1).
    destruct (Hbody 0 1) as [A [B [C D]]]. cbv zeta in *.
    destruct (get_num_body s bytes count 0 1) as [[r b] s'].
    cbn [fst snd] in *. exists s'. cbn [func_of] in *.
    repeat split; try assumption; try lia; congruence.
  - assert (Hc : (uint count >? size_t (4 * 8)) = false)
      by (destruct Hcount as [-> | ->]; reflexivity).
    assert (HBE : BitFileGetBitsBE s bytes count 4
                  = get_num_body s bytes count (to_int (4 - 1)) (-1))
      by (unfold BitFileGetBitsBE; rewrite Hc; reflexivity).
    rewrite HBE.
    destruct (Hbody (to_int (4 - 1)) (-1)) as [A [B [C D]]]. cbv zeta in *.
    destruct (get_num_body s bytes count (to_int (4 - 1)) (-1)) as [[r b] s'].
    cbn [fst snd] in *. exists s'. cbn [func_of] in *.
    repeat split; try assumption; try lia; congruence.
Qed.

Lemma truncated_record_breaks (e : endian_t) (st : Dec) (s : bit_file_t) :
  e <> BF_UNKNOWN_ENDIAN ->
  bfpIn st = Some s -> GetBitsNumFunc s = Some (func_of e) ->
  0 <= bitCount s < 8 -> 1 <= avail s ->
  avail s - 1 < (if fst (GetBit s) =? UNCODED then 8 else OFFSET_BITS + LENGTH_BITS) ->
  exists st',
    decode_body e st = inr st' /\
    dOut st' = dOut st /\ dWindow st' = dWindow st /\ nextChar st' = nextChar st /\
    forall fuel, decode_loop (S fuel) e st = Some st'.
Proof.
  intros He Hb Hf Hk Ha Htr.
  assert (Hgoal : exists st', decode_body e st = inr st' /\
            dOut st' = dOut st /\ dWindow st' = dWindow st /\
            nextChar st' = nextChar st).
  { unfold decode_body. rewrite Hb. unfold BitFileGetBit, BitFileGetChar, lift.
    destruct (GetBit_spec s Hk) as [[Ha0 _] | [_ [Hr [Hk1 [Ha1 Hf1]]]]]; [lia |].
    destruct (GetBit s) as [c s1]. cbn [fst snd] in *. rewrite Hr.
    cbn [bfpIn dOut dWindow dLookahead nextChar].
    destruct (c =? UNCODED).
    - destruct (GetChar_spec s1 Hk1) as [_ [_ [[_ [Hc _]] | [Hc _]]]]; [| lia].
      destruct (GetChar s1) as [c2 s2]. cbn [fst snd] in *. subst c2.
      change (EOF =? EOF) with true. cbv iota.
      eexists. split; [reflexivity |]. repeat split.
    - destruct (get_num_spec e s1 (uint_bytes e 0) OFFSET_BITS
                  ltac:(left; reflexivity) ltac:(congruence) Hk1)
        as [s2 [E2 [Hk2 [Hf2 [Hm2 Hc2]]]]].
      specialize (Hc2 He).
      destruct (BitFileGetBitsNum (Some s1) (Some (uint_bytes e 0)) OFFSET_BITS 4)
        as [[r ob] b2]. cbn [fst snd] in *. subst b2.
      destruct Hc2 as [[_ ->] | [Hge [Hr2 Ha2]]].
      + change (EOF =? EOF) with true. cbv iota.
        eexists. split; [reflexivity |]. repeat split.
      + rewrite Hr2.
        destruct (get_num_spec e s2 (uint_bytes e 0) LENGTH_BITS
                    ltac:(right; reflexivity) ltac:(congruence) Hk2)
          as [s3 [E3 [Hk3 [Hf3 [Hm3 Hc3]]]]].
        specialize (Hc3 He).
        destruct (BitFileGetBitsNum (Some s2) (Some (uint_bytes e 0)) LENGTH_BITS 4)
          as [[r3 lb] b3]. cbn [fst snd] in *. subst b3.
        destruct Hc3 as [[_ ->] | [Hge3 _]];
          [| unfold OFFSET_BITS, LENGTH_BITS in *; lia].
        change (EOF =? EOF) with true. cbv iota.
        eexists. split; [reflexivity |]. repeat split. }
  destruct Hgoal as [st' [H1 [H2 [H3 H4]]]]. exists st'.
  repeat split; try assumption. intros fuel. cbn [decode_loop]. rewrite H1. reflexivity.
Qed.

Lemma decode_body_progress e st s :
  bfpIn st = Some s -> GetBitsNumFunc s = Some (func_of e) ->
  0 <= bitCount s < 8 ->
  match decode_body e st with
  | inl st' => exists s', bfpIn st' = Some s' /\
                          GetBitsNumFunc s' = Some (func_of e) /\
                          0 <= bitCount s' < 8 /\ avail s' < avail s
  | inr _ => True
  end.
Proof.
  intros Hb Hf Hk. unfold decode_body. rewrite Hb.
  unfold BitFileGetBit, BitFileGetChar, lift.
  destruct (GetBit_spec s Hk) as [[_ ->] | [_ [Hr [Hk1 [Ha1 Hf1]]]]].
  - change (EOF =? EOF) with true. exact I.
  - destruct (GetBit s) as [c s1]. cbn [fst snd] in *. rewrite Hr.
    cbn [bfpIn dOut dWindow dLookahead nextChar].
    destruct (c =? UNCODED).
    + destruct (GetChar_spec s1 Hk1) as [Hc [Hg Hcase]].
      destruct (GetChar s1) as [c2 s2]. cbn [fst snd] in *.
      destruct (c2 =? EOF) eqn:E2; [exact I |].
      exists s2. cbn [bfpIn]. split; [reflexivity |]. split; [congruence |].
      split; [lia |].
      destruct Hcase as [[_ [Hx _]] | [_ [_ Hx]]]; [| lia].
      subst c2. discriminate E2.
    + destruct (get_num_spec e s1 (uint_bytes e 0) OFFSET_BITS
                  ltac:(left; reflexivity) ltac:(congruence) Hk1)
        as [s2 [E2 [Hk2 [Hf2 [Hm2 _]]]]].
      destruct (BitFileGetBitsNum (Some s1) (Some (uint_bytes e 0)) OFFSET_BITS 4)
        as [[r ob] b2]. cbn [fst snd] in *. subst b2.
      destruct (r =? EOF); [exact I |].
      destruct (get_num_spec e s2 (uint_bytes e 0) LENGTH_BITS
                  ltac:(right; reflexivity) ltac:(congruence) Hk2)
        as [s3 [E3 [Hk3 [Hf3 [Hm3 _]]]]].
      destruct (BitFileGetBitsNum (Some s2) (Some (uint_bytes e 0)) LENGTH_BITS 4)
        as [[r3 lb] b3]. cbn [fst snd] in *. subst b3.
      destruct (r3 =? EOF); [exact I |].
      match goal with |- context [copy_out ?k ?i ?o ?w ?l ?f] =>
        destruct (copy_out k i o w l f) as [la f'] end.
      exists s3. cbn [bfpIn]. split; [reflexivity |]. split; [congruence |].
      split; [lia |]. lia.
Qed.

Lemma decode_loop_total e : forall fuel st s,
  bfpIn st = Some s -> GetBitsNumFunc s = Some (func_of e) ->
  0 <= bitCount s < 8 -> avail s < Z.of_nat fuel ->
  exists st', decode_loop fuel e st = Some st'.
Proof.
  induction fuel as [| fuel IH]; intros st s Hb Hf Hk Ha.
  - unfold avail in Ha. lia.
  - cbn [decode_loop]. pose proof (decode_body_progress e st s Hb Hf Hk) as Hp.
    destruct (decode_body e st) as [st1 | st1]; [| eauto].
    destruct Hp as [s1 [B1 [F1 [K1 A1]]]].
    apply (IH st1 s1 B1 F1 K1). lia.
Qed.

Lemma func_of_Determine word_one f m :
  exists bf, MakeBitFile word_one (Some f) m = Some bf /\
    GetBitsNumFunc bf = Some (func_of (DetermineEndianess word_one)) /\
    PutBitsNumFunc bf = Some (func_of (DetermineEndianess word_one)) /\
    bitCount bf = 0 /\ bitBuffer bf = 0 /\ fp bf = f /\ mode bf = m.
Proof.
  unfold MakeBitFile. destruct (DetermineEndianess word_one);
    eexists; repeat split.
Qed.

Lemma DecodeLZSS_total word_one fin fout :
  exists fi fo, DecodeLZSS word_one (Some fin) (Some fout) = Some (0, fi, Some fo).
Proof.
  unfold DecodeLZSS.
  destruct (func_of_Determine word_one fin BF_READ) as [bf [E [G [_ [C [_ [F _]]]]]]].
  rewrite E.
  destruct (decode_loop_total (DetermineEndianess word_one)
              (S (bits_left (Some bf)))
              (mkDec (Some bf) fout (repeat 32 (Z.to_nat WINDOW_SIZE))
                 (repeat 0 (Z.to_nat MAX_CODED)) 0) bf eq_refl G ltac:(lia))
    as [st' Hst].
  - unfold avail, bits_left. rewrite C. lia.
  - rewrite Hst. eauto.
Qed.

(** C9: when the input ends after a flag bit, or inside the offset or the
    length of an ENCODED record, the pass of the decoder loop that meets
    the record leaves through [break] with the output file, the window and
    [nextChar] as they were, and [DecodeLZSS] returns 0. *)
Theorem decode_truncated_record (e : endian_t) (st : Dec) (s : bit_file_t) :
  e <> BF_UNKNOWN_ENDIAN ->
  bfpIn st = Some s -> GetBitsNumFunc s = Some (func_of e) ->
  0 <= bitCount s < 8 -> 1 <= avail s ->
  avail s - 1 < (if fst (GetBit s) =? UNCODED then 8 else OFFSET_BITS + LENGTH_BITS) ->
  (exists st',
     decode_body e st = inr st' /\
     dOut st' = dOut st /\ dWindow st' = dWindow st /\ nextChar st' = nextChar st /\
     forall fuel, decode_loop (S fuel) e st = Some st') /\
  (forall word_one fin fout,
     exists fi fo,
       DecodeLZSS word_one (Some fin) (Some fout) = Some (0, fi, Some fo)).
Proof.
  intros He Hb Hf Hk Ha Htr. split.
  - exact (truncated_record_breaks e st s He Hb Hf Hk Ha Htr).
  - intros word_one fin fout. apply DecodeLZSS_total.
Qed.

Lemma decode_truncated_record_witness :
  exists st',
    decode_body BF_LITTLE_ENDIAN dec_sample = inr st' /\
    dOut st' = blank_file /\ nextChar st' = 0.
Proof.
  destruct (decode_truncated_record BF_LITTLE_ENDIAN dec_sample (le_reader [0]))
    as [[st' [H1 [H2 [_ [H4 _]]]]] _].
  - discriminate.
  - reflexivity.
  - reflexivity.
  - cbn. lia.
  - cbn. lia.
  - cbn. lia.
  - exists st'. split; [exact H1 |]. split; [exact H2 | exact H4].
Defined.

(** ** The match finder and the round trip *)

(** C2: on the window [a NUL aaa...] with the lookahead [aaa...] the
    lookahead stands in the window from index 2 on, a match of length
    [MAX_CODED]; whatever the PFAC library reports, [FindMatch] called with
    both cursors at 0 does not return a descriptor of that length with an
    offset inside the window. *)
Theorem FindMatch_misses_match (h : Host) :
  matches_at window_with_nul lookahead_a 2 0 MAX_CODED = true /\
  match FindMatch h window_with_nul lookahead_a 0 0 with
  | None => True
  | Some m => full_match m = false
  end.
Proof.
  split; [vm_compute; reflexivity |].
  unfold FindMatch.
  assert (Hlen : strlen (window_with_nul ++ after_window h) = 1) by reflexivity.
  rewrite Hlen.
  destruct (malloc_usable_size h 1 <? 1 + 1); [exact I |].
  destruct (PFAC_matchFromHost h lookahead_a _ 1) as [res |]; [| exact I].
  unfold match_scan. change (seq 0 (Z.to_nat 1)) with [0%nat].
  cbn [fold_left Z.of_nat length]. set (r := rd res 0).
  destruct (r =? 0); cbn [negb]; [reflexivity |].
  destruct (uint r >? 0); [| reflexivity].
  unfold full_match. cbn [length offset].
  destruct (Z.eqb_spec (uint r) MAX_CODED) as [Heq | Hne]; [| reflexivity].
  cbn [andb].
  assert (Hoff : uint (0 - r) = 2 ^ 32 - 18).
  { unfold uint, MAX_CODED in *. rewrite Z.sub_0_l.
    rewrite Z.mod_opp_l_nz by lia. lia. }
  rewrite Hoff. reflexivity.
Qed.

(** C1: with a PFAC library that reports the repeated prefix of the
    pattern at every position of the text, the bytes [   abc] are encoded
    as two back-references and decoded as six spaces; with a library that
    reports 3 at the first position, [abc] is decoded as three spaces, on a
    little-endian and on a big-endian host. *)
Theorem EncodeLZSS_roundtrip_breaks :
  roundtrip (prefix_host le_word) [32; 32; 32; 97; 98; 99]
  = Some [32; 32; 32; 32; 32; 32] /\
  roundtrip (reporting_host le_word 3) [97; 98; 99] = Some [32; 32; 32] /\
  roundtrip (reporting_host be_word 3) [97; 98; 99] = Some [32; 32; 32].
Proof. repeat split; vm_compute; reflexivity. Qed.

(** ** The Huffman queue, the frequency pass and the code table *)

(** C3: pushing a node of value 3 on the queue that holds one node of
    value 5 leaves a queue that holds the new node only; on the queue
    5, 7 it leaves 3, 7.  The former head is no longer in the queue.  In
    [huffmanTree] on [abbcccccc] the merged node of value 3 is pushed on
    the queue that holds c:6, and the code table has no line for [c]. *)
Theorem push_drops_head :
  exists st5 st57,
    Huffman.push (leaf 5 65) fresh_queue = Some st5 /\
    Huffman.contents st5 = [Some (leaf 5 65)] /\
    Huffman.push (leaf 7 66) st5 = Some st57 /\
    Huffman.contents st57 = [Some (leaf 5 65); Some (leaf 7 66)] /\
    option_map Huffman.contents (Huffman.push (leaf 3 67) st5)
    = Some [Some (leaf 3 67)] /\
    option_map Huffman.contents (Huffman.push (leaf 3 67) st57)
    = Some [Some (leaf 3 67); Some (leaf 7 66)] /\
    option_map (fun r => Huffman.printed (fst r))
      (Huffman.huffmanTree [97; 98; 98; 99; 99; 99; 99; 99; 99])
    = Some [([48], Some 97, 1); ([49], Some 98, 1)].
Proof.
  eexists. eexists.
  split; [vm_compute; reflexivity |].
  split; [vm_compute; reflexivity |].
  split; [vm_compute; reflexivity |].
  repeat split; vm_compute; reflexivity.
Qed.

(** C4: on the input [aa] the frequency pass makes two leaves for [a],
    each of value 1; on [ababb] it makes the leaves a:1, b:3, a:1. *)
Theorem count_duplicates_first_symbol :
  Huffman.leaves (Huffman.count [97; 97] Huffman.init_counts)
  = [leaf 1 97; leaf 1 97] /\
  Huffman.leaves (Huffman.count [97; 98; 97; 98; 98] Huffman.init_counts)
  = [leaf 1 97; leaf 3 98; leaf 1 97].
Proof. split; vm_compute; reflexivity. Qed.

(** The input of one byte gets a codeword of no bits. *)
Lemma single_byte_empty_codeword : ~ codes_nonempty [97].
Proof.
  intros [p [root [H Hall]]].
  vm_compute in H. injection H as Hp _. subst p.
  destruct (Hall [] (Some 97) 0) as [Hlen _]; [left; reflexivity |].
  cbn in Hlen. lia.
Qed.

(** C8, amended: for an input of one byte the root is the leaf of that
    byte and the code table has one line, the byte with the empty codeword
    and 0 bits. *)
Theorem single_leaf_codeword_empty (c : Z) :
  exists p,
    Huffman.huffmanTree [c] = Some (p, leaf 1 c) /\
    Huffman.printed p = [([], Some c, 0)].
Proof. eexists. split; vm_compute; reflexivity. Qed.

(** ** Reading: what the bit file returns for the bits ahead *)

Lemma land_shiftr_bit x i : 0 <= i ->
  Z.land (Z.shiftr x i) 1 = Z.b2z (Z.testbit x i).
Proof.
  intros Hi. change 1 with (Z.ones 1). rewrite Z.land_ones by lia.
  rewrite Z.shiftr_div_pow2 by lia. change (2 ^ 1) with 2.
  symmetry. apply Z.testbit_spec'. exact Hi.
Qed.

Lemma cons_inv {A} (a b : A) (l m : list A) : a :: l = b :: m -> a = b /\ l = m.
Proof. intros H. injection H as H1 H2. split; assumption. Qed.

Lemma b2z_not_EOF b : (Z.b2z b =? EOF) = false.
Proof. destruct b; reflexivity. Qed.

(** [BitFileGetBit] delivers the first unread bit. *)
Lemma GetBit_val s b rest :
  0 <= bitCount s < 8 -> unread_bits s = b :: rest ->
  fst (GetBit s) = Z.b2z b /\
  unread_bits (snd (GetBit s)) = rest /\
  0 <= bitCount (snd (GetBit s)) < 8 /\
  GetBitsNumFunc (snd (GetBit s)) = GetBitsNumFunc s /\
  out (fp (snd (GetBit s))) = out (fp s).
Proof.
  intros Hk. unfold GetBit, unread_bits.
  destruct s as [f buf k pf gf m]. cbn [fp bitCount bitBuffer] in *.
  destruct (Z.eqb_spec k 0) as [-> | Hne].
  - change (Z.to_nat 0) with 0%nat. cbn [low_bits app].
    unfold fgetc. destruct f as [i o r]. cbn [inp].
    destruct i as [| x more]; [discriminate |].
    unfold bytes_bits. cbn [flat_map]. unfold byte_bits at 1.
    cbn [low_bits Z.of_nat Pos.of_succ_nat Pos.succ app].
    intros H. apply cons_inv in H. destruct H as [Hb Hrest].
    rewrite uchar_not_EOF. rec_simpl. change (uchar (8 - 1)) with 7.
    change (Z.to_nat 7) with 7%nat.
    rewrite land_shiftr_bit by lia. rewrite !tb_uchar_low by lia.
    rewrite <- Hb. split; [reflexivity |]. split.
    + rewrite !low_bits_uchar by lia. rewrite <- Hrest. reflexivity.
    + repeat split; lia.
  - assert (Hu : uchar (k - 1) = k - 1) by (apply uchar_small; lia).
    rewrite Hu. rec_simpl.
    replace (Z.to_nat k) with (S (Z.to_nat (k - 1))) by lia.
    cbn [low_bits app]. rewrite Z2Nat.id by lia.
    intros H. apply cons_inv in H. destruct H as [Hb Hrest].
    rewrite land_shiftr_bit by lia. rewrite <- Hb.
    split; [reflexivity |]. split; [exact Hrest |]. repeat split; lia.
Qed.

Ltac norm_idx :=
  repeat match goal with
    | |- context [Z.testbit ?a ?i] =>
        lazymatch i with
        | Z0 => fail
        | Zpos _ => fail
        | Zneg _ => fail
        | _ => is_ground i;
               let v := eval vm_compute in i in
               change (Z.testbit a i) with (Z.testbit a v)
        end
    end.

Ltac split_bits H :=
  repeat (apply cons_inv in H; let Hb := fresh "Hb" in destruct H as [Hb H]).

Lemma byte_ext a c :
  0 <= a < 256 -> 0 <= c < 256 -> low_bits 8 a = low_bits 8 c -> a = c.
Proof.
  intros Ha Hc H. cbn [low_bits Z.of_nat Pos.of_succ_nat Pos.succ] in H.
  split_bits H.
  apply Z.bits_inj'. intros n Hn.
  destruct (Z_lt_ge_dec n 8) as [Hlt | Hge].
  - assert (Hcase : n = 0 \/ n = 1 \/ n = 2 \/ n = 3 \/ n = 4 \/ n = 5 \/ n = 6 \/ n = 7)
      by lia.
    repeat (destruct Hcase as [-> | Hcase]; [assumption |]). subst n. assumption.
  - rewrite (byte_high_bits a n Ha), (byte_high_bits c n Hc) by lia. reflexivity.
Qed.

(** [BitFileGetChar] delivers the next eight unread bits as a byte, at
    any bit offset. *)
Lemma GetChar_val s c rest :
  0 <= bitCount s < 8 -> 0 <= c < 256 ->
  unread_bits s = byte_bits c ++ rest ->
  fst (GetChar s) = c /\
  unread_bits (snd (GetChar s)) = rest /\
  bitCount (snd (GetChar s)) = bitCount s /\
  GetBitsNumFunc (snd (GetChar s)) = GetBitsNumFunc s /\
  out (fp (snd (GetChar s))) = out (fp s).
Proof.
  intros Hk Hc. unfold GetChar, unread_bits.
  destruct s as [f buf k pf gf m]. cbn [fp bitCount bitBuffer] in *.
  unfold fgetc. destruct f as [i o r]. cbn [inp].
  unfold byte_bits at 1.
  destruct i as [| x more].
  - (* no byte on file: fewer than eight bits are unread *)
    unfold bytes_bits. cbn [flat_map]. rewrite app_nil_r.
    k_cases k; consts; cbn [low_bits Z.of_nat Pos.of_succ_nat Pos.succ app];
      intros H; split_bits H; discriminate.
  - unfold bytes_bits. cbn [flat_map]. unfold byte_bits at 1.
    k_cases k; consts; cbn [low_bits Z.of_nat Pos.of_succ_nat Pos.succ app];
      intros H; split_bits H; rec_simpl; consts; cbv iota;
      rewrite ?uchar_not_EOF; rec_simpl;
      (split; [| split; [| repeat split]]);
      try (rewrite <- H; rewrite ?low_bits_uchar by lia; reflexivity).
    all: apply byte_ext; try apply uchar_range; try assumption;
      rewrite ?low_bits_uchar by lia;
      cbn [low_bits Z.of_nat Pos.of_succ_nat Pos.succ];
      repeat (f_equal; [tb; norm_idx; assumption |]); tb; norm_idx;
      try assumption; f_equal; assumption.
Qed.

(** *** Byte arrays *)

Lemma length_upd_nat l n v : List.length (upd_nat l n v) = List.length l.
Proof.
  revert n; induction l as [| h t IH]; intros n; [reflexivity |].
  destruct n; cbn [upd_nat List.length]; [reflexivity | rewrite IH; reflexivity].
Qed.

Lemma length_wr l i v : List.length (wr l i v) = List.length l.
Proof. unfold wr. destruct (i <? 0); [reflexivity | apply length_upd_nat]. Qed.

Lemma nth_upd_nat_same l n v : (n < List.length l)%nat -> nth n (upd_nat l n v) 0 = v.
Proof.
  revert n; induction l as [| h t IH]; intros n Hn; cbn [List.length] in Hn; [lia |].
  destruct n; cbn [upd_nat nth]; [reflexivity | apply IH; lia].
Qed.

Lemma nth_upd_nat_other l n k v : n <> k -> nth k (upd_nat l n v) 0 = nth k l 0.
Proof.
  revert n k; induction l as [| h t IH]; intros n k Hne; [reflexivity |].
  destruct n, k; cbn [upd_nat nth]; try reflexivity; try lia.
  apply IH. lia.
Qed.

Lemma rd_wr_same l i v : 0 <= i < Z.of_nat (List.length l) -> rd (wr l i v) i = v.
Proof.
  intros Hi. unfold rd, wr.
  replace (i <? 0) with false by (symmetry; apply Z.ltb_ge; lia).
  apply nth_upd_nat_same. lia.
Qed.

Lemma rd_wr_other l i j v : i <> j -> rd (wr l i v) j = rd l j.
Proof.
  intros Hne. unfold rd, wr.
  destruct (j <? 0) eqn:Ej; [reflexivity |].
  destruct (i <? 0) eqn:Ei; [reflexivity |].
  apply Z.ltb_ge in Ei, Ej. apply nth_upd_nat_other. lia.
Qed.

Lemma upd_nat_twice l n a b : upd_nat (upd_nat l n a) n b = upd_nat l n b.
Proof.
  revert n; induction l as [| h t IH]; intros n; [reflexivity |].
  destruct n; cbn [upd_nat]; [reflexivity | rewrite IH; reflexivity].
Qed.

Lemma wr_twice l i a b : wr (wr l i a) i b = wr l i b.
Proof. unfold wr. destruct (i <? 0); [reflexivity | apply upd_nat_twice]. Qed.

(** *** Bits read into a byte *)

Lemma bits_val_fold l : bits_val l = fold_left shift_in l 0.
Proof. reflexivity. Qed.

Lemma shift_in_byte old b :
  Z.lor (uchar (Z.shiftl old 1)) (Z.land (Z.b2z b) 1) = uchar (shift_in old b).
Proof.
  unfold shift_in, uchar. rewrite Z.shiftl_mul_pow2 by lia. change (2 ^ 1) with 2.
  pose proof (Z.div_mod old 128 ltac:(lia)) as Hd.
  pose proof (Z.mod_pos_bound old 128 ltac:(lia)) as Hr.
  set (y := old mod 128) in *. set (q := old / 128) in *.
  assert (Hb : 0 <= Z.b2z b <= 1) by (destruct b; cbn; lia).
  assert (H1 : (old * 2) mod 256 = 2 * y).
  { replace (old * 2) with (2 * y + q * 256) by lia.
    rewrite Z.mod_add by lia. apply Z.mod_small. lia. }
  assert (H2 : (2 * old + Z.b2z b) mod 256 = 2 * y + Z.b2z b).
  { replace (2 * old + Z.b2z b) with (2 * y + Z.b2z b + q * 256) by lia.
    rewrite Z.mod_add by lia. apply Z.mod_small. lia. }
  rewrite H1, H2.
  assert (Hl1 : Z.land (Z.b2z b) 1 = Z.b2z b) by (destruct b; reflexivity).
  rewrite Hl1.
  pose proof (Z.add_lor_land (2 * y) (Z.b2z b)) as Hadd.
  assert (Hl : Z.land (2 * y) (Z.b2z b) = 0).
  { destruct b; cbn [Z.b2z]; [| apply Z.land_0_r].
    change 1 with (Z.ones 1). rewrite Z.land_ones by lia. change (2 ^ 1) with 2.
    rewrite Z.mul_comm. apply Z.mod_mul. lia. }
  lia.
Qed.

Lemma uchar_shift_in a b : uchar (shift_in (uchar a) b) = uchar (shift_in a b).
Proof.
  unfold shift_in, uchar.
  rewrite (Z.add_mod (2 * (a mod 256))), (Z.add_mod (2 * a)) by lia.
  rewrite Z.mul_mod_idemp_r by lia. reflexivity.
Qed.

Lemma uchar_fold_shift_in l : forall a,
  uchar (fold_left shift_in l (uchar a)) = uchar (fold_left shift_in l a).
Proof.
  induction l as [| b l IH]; intros a; cbn [fold_left].
  - unfold uchar. apply Z.mod_mod. lia.
  - rewrite <- (IH (shift_in (uchar a) b)), <- (IH (shift_in a b)).
    rewrite uchar_shift_in. reflexivity.
Qed.

(** The tail loop of the numeric reads shifts the unread bits into
    [bytes[offset]]. *)
Lemma get_tail_val n : forall l bytes o s rest,
  List.length l = n -> unread_bits s = l ++ rest ->
  0 <= bitCount s < 8 -> 0 <= o < Z.of_nat (List.length bytes) ->
  let r := get_tail n bytes o s in
  fst (fst r) = true /\
  snd (fst r) = (if (n =? 0)%nat then bytes
                 else wr bytes o (uchar (fold_left shift_in l (rd bytes o)))) /\
  unread_bits (snd r) = rest /\
  0 <= bitCount (snd r) < 8 /\
  GetBitsNumFunc (snd r) = GetBitsNumFunc s /\
  out (fp (snd r)) = out (fp s).
Proof.
  induction n as [| n IH]; intros l bytes o s rest Hl Hu Hk Ho.
  - destruct l; [| discriminate]. cbn [get_tail fst snd Nat.eqb].
    repeat split; try assumption; lia.
  - destruct l as [| b l]; [discriminate |]. cbn [List.length] in Hl.
    cbn [get_tail Nat.eqb fold_left].
    destruct (GetBit_val s b (l ++ rest) Hk Hu) as [Hv [Hu1 [Hk1 [Hf1 Ho1]]]].
    destruct (GetBit s) as [r s1]. cbn [fst snd] in *. subst r.
    rewrite b2z_not_EOF. rewrite shift_in_byte.
    specialize (IH l (wr bytes o (uchar (shift_in (rd bytes o) b))) o s1 rest
                  ltac:(lia) Hu1 Hk1).
    rewrite length_wr in IH. specialize (IH Ho). cbv zeta in IH.
    destruct IH as [I1 [I2 [I3 [I4 [I5 I6]]]]].
    split; [exact I1 |]. split.
    + rewrite I2. destruct n; cbn [Nat.eqb].
      * destruct l; [reflexivity | discriminate].
      * rewrite wr_twice, rd_wr_same by assumption.
        rewrite uchar_fold_shift_in. reflexivity.
    + repeat split; try assumption; try lia; congruence.
Qed.

Lemma pow2_succ n : 0 <= n -> 2 ^ (n + 1) = 2 ^ n * 2.
Proof. intros. rewrite Z.pow_add_r by lia. reflexivity. Qed.

Lemma fold_shift_in_low_bits n x : forall a,
  fold_left shift_in (low_bits n x) a = a * 2 ^ Z.of_nat n + x mod 2 ^ Z.of_nat n.
Proof.
  induction n as [| n IH]; intros a.
  - cbn [low_bits fold_left Z.of_nat]. rewrite Z.mod_1_r. change (2 ^ 0) with 1. lia.
  - cbn [low_bits fold_left]. rewrite IH. unfold shift_in.
    rewrite Nat2Z.inj_succ. unfold Z.succ.
    rewrite (pow2_succ (Z.of_nat n)) by lia.
    assert (Hp : 0 < 2 ^ Z.of_nat n) by (apply Z.pow_pos_nonneg; lia).
    rewrite (Z.rem_mul_r x (2 ^ Z.of_nat n) 2) by lia.
    rewrite (Z.testbit_spec' x (Z.of_nat n)) by lia. lia.
Qed.

Lemma bits_val_low_bits n x : bits_val (low_bits n x) = x mod 2 ^ Z.of_nat n.
Proof. rewrite bits_val_fold, fold_shift_in_low_bits. lia. Qed.

Lemma byte_bits_uchar v : byte_bits (uchar v) = byte_bits v.
Proof. unfold byte_bits. apply low_bits_uchar. lia. Qed.

Lemma get_whole_val n : forall cs bytes o d s rest,
  List.length cs = n -> Forall (fun c => 0 <= c < 256) cs ->
  unread_bits s = bytes_bits cs ++ rest -> 0 <= bitCount s < 8 ->
  let r := get_whole n bytes o d s in
  fst (fst r) = (true, o + Z.of_nat n * d) /\
  snd (fst r) = store_seq bytes o d cs /\
  unread_bits (snd r) = rest /\
  bitCount (snd r) = bitCount s /\
  GetBitsNumFunc (snd r) = GetBitsNumFunc s /\
  out (fp (snd r)) = out (fp s).
Proof.
  induction n as [| n IH]; intros cs bytes o d s rest Hl Hcs Hu Hk.
  - destruct cs; [| discriminate]. cbn [get_whole fst snd store_seq Z.of_nat].
    repeat split; try assumption. f_equal. lia.
  - destruct cs as [| c cs]; [discriminate |]. cbn [List.length] in Hl.
    inversion Hcs as [| ? ? Hc Hcs']; subst.
    cbn [get_whole store_seq].
    unfold bytes_bits in Hu. cbn [flat_map] in Hu. rewrite <- app_assoc in Hu.
    destruct (GetChar_val s c _ Hk Hc Hu) as [Hv [Hu1 [Hk1 [Hf1 Ho1]]]].
    destruct (GetChar s) as [r s1]. cbn [fst snd] in *. subst r.
    replace (c =? EOF) with false
      by (symmetry; apply Z.eqb_neq; unfold EOF; lia).
    rewrite (uchar_small c Hc).
    destruct (IH cs (wr bytes o c) (o + d) d s1 rest ltac:(lia) Hcs' Hu1 ltac:(lia))
      as [I1 [I2 [I3 [I4 [I5 I6]]]]].
    cbv zeta. rewrite I1, I2, I3, I4, I5, I6.
    repeat split; try assumption; try congruence. f_equal. lia.
Qed.

Lemma GetBitsNum_body e s bytes count :
  e <> BF_UNKNOWN_ENDIAN -> GetBitsNumFunc s = Some (func_of e) ->
  0 <= count <= 32 ->
  BitFileGetBitsNum (Some s) (Some bytes) count 4
  = (let '(r, b, s') :=
       get_num_body s bytes count (match e with BF_BIG_ENDIAN => 3 | _ => 0 end)
         (match e with BF_BIG_ENDIAN => -1 | _ => 1 end) in
     (r, Some b, Some s')).
Proof.
  intros He Hf Hc. unfold BitFileGetBitsNum. rewrite Hf.
  destruct e; [contradiction He; reflexivity | reflexivity |].
  cbn [func_of]. unfold BitFileGetBitsBE.
  replace (uint count >? size_t (4 * 8)) with false; [reflexivity |].
  symmetry. unfold uint, size_t. rewrite Z.mod_small by lia.
  change ((4 * 8) mod 2 ^ 64) with 32. rewrite Z.gtb_ltb. apply Z.ltb_ge. lia.
Qed.

Lemma bytes_uint_le a b :
  bytes_uint BF_LITTLE_ENDIAN (wr (wr [0; 0; 0; 0] 0 a) 1 b) = a + 256 * b.
Proof.
  change (bytes_uint BF_LITTLE_ENDIAN (wr (wr [0; 0; 0; 0] 0 a) 1 b))
    with (a + 256 * b + 65536 * 0 + 16777216 * 0). lia.
Qed.

Lemma bytes_uint_be a b :
  bytes_uint BF_BIG_ENDIAN (wr (wr [0; 0; 0; 0] 3 a) 2 b) = a + 256 * b.
Proof.
  change (bytes_uint BF_BIG_ENDIAN (wr (wr [0; 0; 0; 0] 3 a) 2 b))
    with (a + 256 * b + 65536 * 0 + 16777216 * 0). lia.
Qed.

Lemma uint_bytes_0 e : uint_bytes e 0 = [0; 0; 0; 0].
Proof. destruct e; reflexivity. Qed.

(** Reading back the 12 bits of an offset. *)
Lemma get_offset_val e s v rest :
  e <> BF_UNKNOWN_ENDIAN -> GetBitsNumFunc s = Some (func_of e) ->
  0 <= bitCount s < 8 -> 0 <= v < 4096 ->
  unread_bits s = offset_bits v ++ rest ->
  exists b s',
    BitFileGetBitsNum (Some s) (Some (uint_bytes e 0)) OFFSET_BITS 4
    = (12, Some b, Some s') /\
    bytes_uint e b = v /\ unread_bits s' = rest /\
    0 <= bitCount s' < 8 /\ GetBitsNumFunc s' = GetBitsNumFunc s /\
    out (fp s') = out (fp s).
Proof.
  intros He Hf Hk Hv Hu. rewrite uint_bytes_0.
  rewrite (GetBitsNum_body e s _ OFFSET_BITS He Hf) by (unfold OFFSET_BITS; lia).
  unfold get_num_body.
  change (whole_count (to_int OFFSET_BITS)) with 1%nat.
  change (tail_count (to_int OFFSET_BITS)) with 4.
  change (to_int OFFSET_BITS) with 12.
  change (negb (4 =? 0)) with true. cbv iota. change (Z.to_nat 4) with 4%nat.
  set (o := match e with BF_BIG_ENDIAN => 3 | _ => 0 end).
  set (d := match e with BF_BIG_ENDIAN => -1 | _ => 1 end).
  unfold offset_bits in Hu. rewrite <- app_assoc in Hu.
  rewrite <- byte_bits_uchar in Hu.
  assert (Hu' : unread_bits s
                = bytes_bits [uchar v] ++ low_bits 4 (Z.shiftr v 8) ++ rest).
  { unfold bytes_bits. cbn [flat_map]. rewrite app_nil_r. exact Hu. }
  destruct (get_whole_val 1 [uchar v] [0; 0; 0; 0] o d s _ eq_refl
              ltac:(constructor; [apply uchar_range | constructor]) Hu' Hk)
    as [W1 [W2 [W3 [W4 [W5 W6]]]]].
  destruct (get_whole 1 [0; 0; 0; 0] o d s) as [[[ok off] b1] s1].
  cbn [fst snd] in *. injection W1 as -> ->. subst b1. cbn [negb store_seq].
  assert (Ho : 0 <= o + Z.of_nat 1 * d < 4 /\ 0 <= o < 4)
    by (subst o d; destruct e; cbn; lia).
  destruct (get_tail_val 4 (low_bits 4 (Z.shiftr v 8)) (wr [0; 0; 0; 0] o (uchar v))
              (o + Z.of_nat 1 * d) s1 rest eq_refl W3 ltac:(lia)
              ltac:(rewrite length_wr; change (Z.of_nat (List.length [0; 0; 0; 0])) with 4; lia))
    as [T1 [T2 [T3 [T4 [T5 T6]]]]].
  destruct (get_tail 4 _ _ s1) as [[ok2 b2] s2]. cbn [fst snd] in *. subst ok2.
  cbn [negb]. exists b2, s2. split; [reflexivity |].
  split; [| repeat split; try assumption; try lia; congruence].
  subst b2. cbn [Nat.eqb].
  rewrite fold_shift_in_low_bits. rewrite Z.shiftr_div_pow2 by lia.
  assert (Hn : 0 <= v / 2 ^ 8 < 16).
  { change (2 ^ 8) with 256. split; [apply Z.div_pos; lia |].
    apply Z.div_lt_upper_bound; lia. }
  change (Z.of_nat 4) with 4.
  assert (Hnib : uchar (rd (wr [0; 0; 0; 0] o (uchar v)) (o + Z.of_nat 1 * d) * 2 ^ 4
                        + (v / 2 ^ 8) mod 2 ^ 4) = v / 256).
  { rewrite rd_wr_other by (subst o d; destruct e; cbn; lia).
    replace (rd [0; 0; 0; 0] (o + Z.of_nat 1 * d)) with 0
      by (subst o d; destruct e; reflexivity).
    change (2 ^ 4) with 16. change (2 ^ 8) with 256 in *.
    rewrite Z.mul_0_l, Z.add_0_l. rewrite (Z.mod_small (v / 256)) by lia.
    apply uchar_small. lia. }
  rewrite Hnib.
  pose proof (Z.div_mod v 256 ltac:(lia)) as Hdm.
  assert (Hlow : uchar v = v mod 256) by reflexivity.
  subst o d. destruct e; [contradiction He; reflexivity | |].
  - change (0 + Z.of_nat 1 * 1) with 1. rewrite bytes_uint_le. lia.
  - change (3 + Z.of_nat 1 * -1) with 2. rewrite bytes_uint_be. lia.
Qed.

Lemma bytes_uint_le1 a : bytes_uint BF_LITTLE_ENDIAN (wr [0; 0; 0; 0] 0 a) = a.
Proof.
  change (bytes_uint BF_LITTLE_ENDIAN (wr [0; 0; 0; 0] 0 a))
    with (a + 256 * 0 + 65536 * 0 + 16777216 * 0). lia.
Qed.

Lemma bytes_uint_be1 a : bytes_uint BF_BIG_ENDIAN (wr [0; 0; 0; 0] 3 a) = a.
Proof.
  change (bytes_uint BF_BIG_ENDIAN (wr [0; 0; 0; 0] 3 a))
    with (a + 256 * 0 + 65536 * 0 + 16777216 * 0). lia.
Qed.

(** Reading back the 4 bits of a length. *)
Lemma get_length_val e s v rest :
  e <> BF_UNKNOWN_ENDIAN -> GetBitsNumFunc s = Some (func_of e) ->
  0 <= bitCount s < 8 -> 0 <= v < 16 ->
  unread_bits s = length_bits v ++ rest ->
  exists b s',
    BitFileGetBitsNum (Some s) (Some (uint_bytes e 0)) LENGTH_BITS 4
    = (4, Some b, Some s') /\
    bytes_uint e b = v /\ unread_bits s' = rest /\
    0 <= bitCount s' < 8 /\ GetBitsNumFunc s' = GetBitsNumFunc s /\
    out (fp s') = out (fp s).
Proof.
  intros He Hf Hk Hv Hu. rewrite uint_bytes_0.
  rewrite (GetBitsNum_body e s _ LENGTH_BITS He Hf) by (unfold LENGTH_BITS; lia).
  unfold get_num_body.
  change (whole_count (to_int LENGTH_BITS)) with 0%nat.
  change (tail_count (to_int LENGTH_BITS)) with 4.
  change (to_int LENGTH_BITS) with 4.
  change (negb (4 =? 0)) with true. cbv iota. change (Z.to_nat 4) with 4%nat.
  set (o := match e with BF_BIG_ENDIAN => 3 | _ => 0 end).
  set (d := match e with BF_BIG_ENDIAN => -1 | _ => 1 end).
  cbn [get_whole negb].
  assert (Ho : 0 <= o < 4) by (subst o; destruct e; cbn; lia).
  unfold length_bits in Hu.
  destruct (get_tail_val 4 (low_bits 4 v) [0; 0; 0; 0] o s rest eq_refl Hu Hk
              ltac:(change (Z.of_nat (List.length [0; 0; 0; 0])) with 4; lia))
    as [T1 [T2 [T3 [T4 [T5 T6]]]]].
  destruct (get_tail 4 _ _ s) as [[ok2 b2] s2]. cbn [fst snd] in *. subst ok2.
  cbn [negb]. exists b2, s2. split; [reflexivity |].
  split; [| repeat split; try assumption; try lia; congruence].
  subst b2. cbn [Nat.eqb].
  rewrite fold_shift_in_low_bits. change (Z.of_nat 4) with 4.
  replace (rd [0; 0; 0; 0] o) with 0 by (subst o; destruct e; reflexivity).
  change (2 ^ 4) with 16. rewrite Z.mul_0_l, Z.add_0_l.
  rewrite (Z.mod_small v 16) by lia. rewrite uchar_small by lia.
  subst o. destruct e; [contradiction He; reflexivity | |].
  - apply bytes_uint_le1.
  - apply bytes_uint_be1.
Qed.

(** *** The copy loops of the decoder *)

Lemma uint_small z : 0 <= z < 2 ^ 32 -> uint z = z.
Proof. intros. unfold uint. apply Z.mod_small. assumption. Qed.

Lemma push_bytes_pos bs : forall w pos,
  0 <= pos < WINDOW_SIZE ->
  snd (push_bytes w pos bs) = Wrap (pos + Z.of_nat (List.length bs)) WINDOW_SIZE.
Proof.
  induction bs as [| b t IH]; intros w pos Hp.
  - cbn [push_bytes snd List.length Z.of_nat]. unfold Wrap.
    rewrite Z.add_0_r. symmetry. apply Z.mod_small. exact Hp.
  - cbn [push_bytes]. rewrite IH.
    + unfold Wrap, WINDOW_SIZE. rewrite Z.add_mod_idemp_l by lia.
      f_equal. cbn [List.length]. lia.
    + unfold Wrap, WINDOW_SIZE. apply Z.mod_pos_bound. lia.
Qed.

Lemma push_bytes_length bs : forall w pos,
  List.length (fst (push_bytes w pos bs)) = List.length w.
Proof.
  induction bs as [| b t IH]; intros w pos; [reflexivity |].
  cbn [push_bytes]. rewrite IH. apply length_wr.
Qed.

Lemma push_bytes_app bs1 : forall bs2 w pos,
  push_bytes w pos (bs1 ++ bs2)
  = push_bytes (fst (push_bytes w pos bs1)) (snd (push_bytes w pos bs1)) bs2.
Proof.
  induction bs1 as [| b t IH]; intros bs2 w pos; [reflexivity |].
  cbn [app push_bytes]. apply IH.
Qed.

Lemma seq_shift_map {A} (f : nat -> A) k i :
  map f (seq (S i) k) = map (fun j => f (S j)) (seq i k).
Proof. rewrite <- seq_shift, map_map. reflexivity. Qed.

Lemma nth_map_seq {A} (f : nat -> A) k : forall i j d,
  (j < k)%nat -> nth j (map f (seq i k)) d = f (i + j)%nat.
Proof.
  induction k as [| k IH]; intros i j d Hj; [lia |].
  cbn [seq map]. destruct j as [| j]; cbn [nth].
  - f_equal. lia.
  - rewrite IH by lia. f_equal. lia.
Qed.

Lemma copy_in_spec k : forall i next w la,
  0 <= next < 4096 -> 0 <= i -> i + Z.of_nat k < 2 ^ 31 ->
  copy_in k i next w la
  = fst (push_bytes w (Wrap (next + i) WINDOW_SIZE)
           (map (fun j => rd la (i + Z.of_nat j)) (seq 0 k))).
Proof.
  induction k as [| k IH]; intros i next w la Hn Hi Hk; [reflexivity |].
  cbn [copy_in seq map push_bytes].
  rewrite (uint_small (next + i)) by lia.
  rewrite IH by lia. rewrite Z.add_0_r.
  replace (Wrap (Wrap (next + i) WINDOW_SIZE + 1) WINDOW_SIZE)
    with (Wrap (next + (i + 1)) WINDOW_SIZE)
    by (unfold Wrap, WINDOW_SIZE; rewrite Z.add_mod_idemp_l by lia; f_equal; lia).
  f_equal. f_equal. rewrite seq_shift_map. apply map_ext. intros j. f_equal. lia.
Qed.

Lemma fputs_out cs : forall f, (List.length cs <= room f)%nat ->
  out (fputs cs f) = out f ++ map uchar cs /\
  inp (fputs cs f) = inp f /\
  room (fputs cs f) = (room f - List.length cs)%nat.
Proof.
  induction cs as [| c t IH]; intros f Hr.
  - cbn [fputs map List.length]. rewrite app_nil_r. repeat split. lia.
  - cbn [fputs map List.length] in *. rewrite fputc_ok by lia. cbn [snd].
    destruct (IH (mkFILE (inp f) (out f ++ [uchar c]) (pred (room f))))
      as [I1 [I2 I3]]; [cbn [room]; lia |].
    rewrite I1, I2, I3. cbn [out inp room]. rewrite <- app_assoc.
    repeat split. lia.
Qed.

Lemma copy_out_spec k : forall i off w la f,
  0 <= i -> i + Z.of_nat k <= Z.of_nat (List.length la) ->
  0 <= off -> off + i + Z.of_nat k < 2 ^ 32 ->
  let bs := map (fun j => rd w (Wrap (off + i + Z.of_nat j) WINDOW_SIZE)) (seq 0 k) in
  let r := copy_out k i off w la f in
  snd r = fputs bs f /\
  List.length (fst r) = List.length la /\
  (forall j, 0 <= j < i -> rd (fst r) j = rd la j) /\
  (forall j, (j < k)%nat ->
     rd (fst r) (i + Z.of_nat j) = nth j bs 0).
Proof.
  induction k as [| k IH]; intros i off w la f Hi Hl Ho Hk.
  - cbn [copy_out seq map fputs fst snd]. repeat split; intros; lia.
  - cbn [copy_out seq map fputs].
    rewrite (uint_small (off + i)) by lia.
    set (c := rd w (Wrap (off + i) WINDOW_SIZE)).
    destruct (IH (i + 1) off w (wr la i c) (snd (fputc c f))
                ltac:(lia) ltac:(rewrite length_wr; lia) Ho ltac:(lia))
      as [I1 [I2 [I3 I4]]].
    cbv zeta in *. rewrite Z.add_0_r. fold c.
    assert (Hmap : map (fun j => rd w (Wrap (off + i + Z.of_nat j) WINDOW_SIZE)) (seq 1 k)
                   = map (fun j => rd w (Wrap (off + (i + 1) + Z.of_nat j) WINDOW_SIZE))
                       (seq 0 k)).
    { rewrite seq_shift_map. apply map_ext. intros j. f_equal. f_equal. lia. }
    rewrite Hmap. split; [exact I1 |]. split; [rewrite I2; apply length_wr |].
    split.
    + intros j Hj. rewrite I3 by lia. apply rd_wr_other. lia.
    + intros j Hj. destruct j as [| j].
      * cbn [nth]. rewrite Z.add_0_r. rewrite I3 by lia.
        apply rd_wr_same. lia.
      * cbn [nth]. rewrite <- (I4 j) by lia. f_equal. lia.
Qed.

(** *** One record read by the decoder *)

Lemma decode_literal_step e st s c rest :
  bfpIn st = Some s -> 0 <= bitCount s < 8 -> is_byte c ->
  unread_bits s = true :: byte_bits c ++ rest ->
  0 <= nextChar st < WINDOW_SIZE ->
  exists s',
    decode_body e st
    = inl (mkDec (Some s') (snd (fputc c (dOut st)))
             (fst (push_bytes (dWindow st) (nextChar st) [c]))
             (dLookahead st)
             (snd (push_bytes (dWindow st) (nextChar st) [c]))) /\
    unread_bits s' = rest /\ 0 <= bitCount s' < 8 /\
    GetBitsNumFunc s' = GetBitsNumFunc s.
Proof.
  intros Hb Hk Hc Hu Hn. unfold decode_body. rewrite Hb.
  unfold BitFileGetBit, BitFileGetChar, lift.
  destruct (GetBit_val s true _ Hk Hu) as [Hv [Hu1 [Hk1 [Hf1 _]]]].
  destruct (GetBit s) as [r s1]. cbn [fst snd] in *. subst r.
  change (Z.b2z true =? EOF) with false. change (Z.b2z true =? UNCODED) with true.
  cbv iota. cbn [bfpIn dOut dWindow dLookahead nextChar].
  destruct (GetChar_val s1 c rest Hk1 Hc Hu1) as [Hv2 [Hu2 [Hk2 [Hf2 _]]]].
  destruct (GetChar s1) as [r2 s2]. cbn [fst snd] in *. subst r2.
  replace (c =? EOF) with false
    by (symmetry; apply Z.eqb_neq; unfold EOF; unfold is_byte in Hc; lia).
  exists s2. cbn [bfpIn dOut dWindow dLookahead nextChar push_bytes fst snd].
  rewrite (uchar_small c Hc).
  rewrite (uint_small (nextChar st + 1)) by (unfold WINDOW_SIZE in Hn; lia).
  repeat split; try assumption; try lia; congruence.
Qed.

Lemma decode_encoded_step e st s off l rest :
  e <> BF_UNKNOWN_ENDIAN ->
  bfpIn st = Some s -> 0 <= bitCount s < 8 ->
  GetBitsNumFunc s = Some (func_of e) ->
  0 <= off < 4096 -> MAX_UNCODED < l <= MAX_CODED ->
  unread_bits s = false :: offset_bits off ++ length_bits (l - (MAX_UNCODED + 1)) ++ rest ->
  0 <= nextChar st < WINDOW_SIZE -> List.length (dLookahead st) = 18%nat ->
  let bs := map (fun j => rd (dWindow st) (Wrap (off + Z.of_nat j) WINDOW_SIZE))
              (seq 0 (Z.to_nat l)) in
  exists s' la',
    decode_body e st
    = inl (mkDec (Some s') (fputs bs (dOut st))
             (fst (push_bytes (dWindow st) (nextChar st) bs)) la'
             (snd (push_bytes (dWindow st) (nextChar st) bs))) /\
    List.length la' = 18%nat /\
    unread_bits s' = rest /\ 0 <= bitCount s' < 8 /\
    GetBitsNumFunc s' = GetBitsNumFunc s.
Proof.
  intros He Hb Hk Hf Hoff Hl Hu Hn Hla bs. unfold decode_body. rewrite Hb.
  unfold BitFileGetBit, lift.
  destruct (GetBit_val s false _ Hk Hu) as [Hv [Hu1 [Hk1 [Hf1 _]]]].
  destruct (GetBit s) as [r s1]. cbn [fst snd] in *. subst r.
  change (Z.b2z false =? EOF) with false. change (Z.b2z false =? UNCODED) with false.
  cbv iota. cbn [bfpIn dOut dWindow dLookahead nextChar].
  destruct (get_offset_val e s1 off _ He ltac:(congruence) Hk1 Hoff Hu1)
    as [ob [s2 [E2 [V2 [Hu2 [Hk2 [Hf2 _]]]]]]].
  rewrite E2. change (12 =? EOF) with false. cbv iota.
  unfold MAX_UNCODED, MAX_CODED in *.
  destruct (get_length_val e s2 (l - (2 + 1)) rest He ltac:(congruence) Hk2
              ltac:(lia) Hu2)
    as [lb [s3 [E3 [V3 [Hu3 [Hk3 [Hf3 _]]]]]]].
  rewrite E3. change (4 =? EOF) with false. cbv iota.
  rewrite V2, V3. unfold MAX_UNCODED.
  replace (uint (l - (2 + 1) + (2 + 1))) with l
    by (rewrite uint_small by lia; lia).
  destruct (copy_out_spec (Z.to_nat l) 0 off (dWindow st) (dLookahead st) (dOut st)
              ltac:(lia) ltac:(lia) ltac:(lia) ltac:(lia))
    as [C1 [C2 [C3 C4]]].
  cbv zeta in C1, C2, C3, C4.
  destruct (copy_out (Z.to_nat l) 0 off (dWindow st) (dLookahead st) (dOut st))
    as [la' f'] eqn:Eco. cbn [fst snd] in *.
  assert (Hbs : map (fun j => rd (dWindow st) (Wrap (off + 0 + Z.of_nat j) WINDOW_SIZE))
                  (seq 0 (Z.to_nat l)) = bs).
  { apply map_ext. intros j. f_equal. f_equal. lia. }
  rewrite Hbs in C1, C4.
  exists s3, la'. split; [| repeat split; try assumption; try lia; congruence].
  f_equal. f_equal.
  - exact C1.
  - rewrite copy_in_spec by (unfold WINDOW_SIZE in Hn; lia).
    rewrite Z.add_0_r.
    replace (Wrap (nextChar st) WINDOW_SIZE) with (nextChar st)
      by (unfold Wrap; symmetry; apply Z.mod_small; exact Hn).
    f_equal. f_equal.
    apply nth_ext with (d := 0) (d' := 0).
    + subst bs. rewrite !length_map. reflexivity.
    + intros j Hj. rewrite length_map, length_seq in Hj.
      rewrite nth_map_seq by exact Hj. cbn [Nat.add].
      apply C4. exact Hj.
  - rewrite push_bytes_pos by exact Hn.
    subst bs. rewrite length_map, length_seq.
    rewrite (uint_small (nextChar st + l)) by (unfold WINDOW_SIZE in Hn; lia).
    f_equal. lia.
Qed.

(** *** The mode of a stream never changes *)

Lemma PutBit_mode c s : mode (snd (PutBit c s)) = mode s.
Proof.
  unfold PutBit. destruct (uchar (bitCount s + 1) =? 8); [| reflexivity].
  destruct (fputc _ (fp s)). reflexivity.
Qed.

Lemma PutChar_mode c s : mode (snd (PutChar c s)) = mode s.
Proof.
  unfold PutChar. destruct (bitCount s =? 0).
  - destruct (fputc c (fp s)). reflexivity.
  - destruct (fputc _ (fp s)) as [r f]. destruct (negb (r =? EOF)); reflexivity.
Qed.

Lemma put_tail_mode n : forall tmp s, mode (snd (put_tail n tmp s)) = mode s.
Proof.
  induction n as [| n IH]; intros tmp s; [reflexivity |].
  cbn [put_tail]. pose proof (PutBit_mode (Z.land tmp 128) s) as H.
  destruct (PutBit (Z.land tmp 128) s) as [r s1]. cbn [snd] in H.
  destruct (r =? EOF); [exact H |]. rewrite IH. exact H.
Qed.

Lemma put_whole_mode n : forall bytes o d s,
  mode (snd (put_whole n bytes o d s)) = mode s.
Proof.
  induction n as [| n IH]; intros bytes o d s; [reflexivity |].
  cbn [put_whole]. pose proof (PutChar_mode (rd bytes o) s) as H.
  destruct (PutChar (rd bytes o) s) as [r s1]. cbn [snd] in H.
  destruct (r =? EOF); [exact H |]. rewrite IH. exact H.
Qed.

Lemma PutBitsNum_mode s bytes count size s' :
  snd (BitFilePutBitsNum (Some s) (Some bytes) count size) = Some s' ->
  mode s' = mode s.
Proof.
  unfold BitFilePutBitsNum.
  destruct (PutBitsNumFunc s) as [[| |] |]; cbn [snd].
  - unfold BitFilePutBitsLE.
    pose proof (put_whole_mode (whole_count (to_int count)) bytes 0 1 s) as H1.
    destruct (put_whole _ bytes 0 1 s) as [[ok o] s1]. cbn [snd] in H1.
    destruct ok; cbn [negb].
    + destruct (negb (tail_count (to_int count) =? 0)).
      * match goal with |- context [put_tail ?n ?t s1] =>
          pose proof (put_tail_mode n t s1) as H2;
          destruct (put_tail n t s1) as [ok2 s2] end.
        cbn [snd] in H2. destruct ok2; cbn [negb snd]; intros H; injection H as <-;
          congruence.
      * cbn [snd]. intros H; injection H as <-. exact H1.
    + cbn [snd]. intros H; injection H as <-. exact H1.
  - unfold BitFilePutBitsBE.
    destruct (uint count >? size_t (size * 8)).
    { cbn [snd]. intros H; injection H as <-. reflexivity. }
    pose proof (put_whole_mode (whole_count (to_int count)) bytes
                  (to_int (size - 1)) (-1) s) as H1.
    destruct (put_whole _ bytes _ (-1) s) as [[ok o] s1]. cbn [snd] in H1.
    destruct ok; cbn [negb].
    + destruct (negb (tail_count (to_int count) =? 0)).
      * match goal with |- context [put_tail ?n ?t s1] =>
          pose proof (put_tail_mode n t s1) as H2;
          destruct (put_tail n t s1) as [ok2 s2] end.
        cbn [snd] in H2. destruct ok2; cbn [negb snd]; intros H; injection H as <-;
          congruence.
      * cbn [snd]. intros H; injection H as <-. exact H1.
    + cbn [snd]. intros H; injection H as <-. exact H1.
  - intros H; injection H as <-. reflexivity.
  - intros H; injection H as <-. reflexivity.
Qed.

(** *** The lookahead as a cyclic buffer *)

Lemma Wrap_range a n : 0 < n -> 0 <= Wrap a n < n.
Proof. intros. unfold Wrap. apply Z.mod_pos_bound. assumption. Qed.

Lemma la_bytes_S la uh n :
  0 <= uh < MAX_CODED ->
  la_bytes la uh (S n) = rd la uh :: la_bytes la (Wrap (uh + 1) MAX_CODED) n.
Proof.
  intros Hu. unfold la_bytes. cbn [seq map]. f_equal.
  - f_equal. unfold Wrap. rewrite Z.add_0_r. apply Z.mod_small. exact Hu.
  - rewrite seq_shift_map. apply map_ext. intros i. f_equal.
    unfold Wrap, MAX_CODED. rewrite Z.add_mod_idemp_l by lia. f_equal. lia.
Qed.

Lemma la_bytes_snoc la uh n :
  la_bytes la uh (S n) = la_bytes la uh n ++ [rd la (Wrap (uh + Z.of_nat n) MAX_CODED)].
Proof. unfold la_bytes. rewrite seq_S, map_app. reflexivity. Qed.

Lemma la_bytes_length la uh n : List.length (la_bytes la uh n) = n.
Proof. unfold la_bytes. rewrite length_map, length_seq. reflexivity. Qed.

Lemma la_bytes_wr la uh c n :
  0 <= uh < MAX_CODED -> (n <= 17)%nat ->
  la_bytes (wr la uh c) (Wrap (uh + 1) MAX_CODED) n
  = la_bytes la (Wrap (uh + 1) MAX_CODED) n.
Proof.
  intros Hu Hn. unfold la_bytes. apply map_ext_in. intros i Hi.
  apply in_seq in Hi. apply rd_wr_other.
  unfold Wrap, MAX_CODED in *. rewrite Z.add_mod_idemp_l by lia.
  intros Heq.
  assert (H18 : (uh + 1 + Z.of_nat i) mod 18 = uh) by (rewrite <- Heq; reflexivity).
  pose proof (Z.div_mod (uh + 1 + Z.of_nat i) 18 ltac:(lia)) as Hd.
  rewrite H18 in Hd.
  assert (0 <= (uh + 1 + Z.of_nat i) / 18 <= 1).
  { split; [apply Z.div_pos; lia |].
    apply Z.lt_succ_r. apply Z.div_lt_upper_bound; lia. }
  lia.
Qed.

Lemma la_bytes_full_wr la uh c :
  0 <= uh < MAX_CODED -> List.length la = 18%nat ->
  la_bytes (wr la uh c) (Wrap (uh + 1) MAX_CODED) 18
  = la_bytes la (Wrap (uh + 1) MAX_CODED) 17 ++ [c].
Proof.
  intros Hu Hl. rewrite la_bytes_snoc, la_bytes_wr by (assumption || lia).
  f_equal. f_equal.
  replace (Wrap (Wrap (uh + 1) MAX_CODED + Z.of_nat 17) MAX_CODED) with uh.
  - apply rd_wr_same. rewrite Hl. unfold MAX_CODED in Hu. lia.
  - unfold Wrap, MAX_CODED in *. rewrite Z.add_mod_idemp_l by lia.
    replace (uh + 1 + Z.of_nat 17) with (uh + 1 * 18) by lia.
    rewrite Z.mod_add by lia. symmetry. apply Z.mod_small. lia.
Qed.

(** *** The replacement loops of the encoder *)

Lemma pair_eq_fst_snd {A B} (p : A * B) : p = (fst p, snd p).
Proof. destruct p; reflexivity. Qed.

Lemma drain_spec k : forall st,
  enc_wf st -> inp (fpIn st) = [] -> (k <= Z.to_nat (len st))%nat ->
  let st' := drain k st in
  let bs := firstn k (pending st) in
  pending st = bs ++ pending st' /\
  List.length bs = k /\
  (slidingWindow st', windowHead st')
  = push_bytes (slidingWindow st) (windowHead st) bs /\
  enc_wf st' /\ bfpOut st' = bfpOut st.
Proof.
  induction k as [| k IH]; intros st Hwf Hin Hk.
  - cbn [drain firstn app push_bytes List.length].
    split; [reflexivity |]. split; [reflexivity |]. split; [reflexivity |].
    split; [assumption | reflexivity].
  - destruct Hwf as [Hw [Hla [Hwh [Huh [Hlen [Hfull Hby]]]]]].
    cbn [drain].
    set (st1 := mkEnc (fpIn st) (bfpOut st)
                  (ReplaceChar (slidingWindow st) (windowHead st)
                     (rd (uncodedLookahead st) (uncodedHead st)))
                  (uncodedLookahead st) (Wrap (windowHead st + 1) WINDOW_SIZE)
                  (Wrap (uncodedHead st + 1) MAX_CODED) (uint (len st - 1))).
    assert (Hl1 : uint (len st - 1) = len st - 1)
      by (apply uint_small; unfold MAX_CODED in *; lia).
    assert (Hp : pending st
                 = rd (uncodedLookahead st) (uncodedHead st) :: pending st1).
    { unfold pending. rewrite Hin. subst st1.
      cbn [uncodedLookahead uncodedHead len fpIn]. rewrite Hin, Hl1.
      replace (Z.to_nat (len st)) with (S (Z.to_nat (len st - 1))) by lia.
      rewrite la_bytes_S by assumption. reflexivity. }
    assert (Hwf1 : enc_wf st1).
    { unfold enc_wf.
      split; [subst st1; cbn [slidingWindow]; unfold ReplaceChar;
              rewrite length_wr; assumption |].
      split; [exact Hla |].
      split; [subst st1; cbn [windowHead]; apply Wrap_range; reflexivity |].
      split; [subst st1; cbn [uncodedHead]; apply Wrap_range; reflexivity |].
      split; [subst st1; cbn [len]; rewrite Hl1; unfold MAX_CODED in *; lia |].
      split; [intros Hc; contradiction Hc |].
      rewrite Hp in Hby. inversion Hby; assumption. }
    destruct (IH st1 Hwf1 Hin) as [I1 [I2 [I3 [I4 I5]]]].
    { subst st1. cbn [len]. rewrite Hl1. lia. }
    cbv zeta in *. rewrite Hp. cbn [firstn app push_bytes List.length].
    split; [rewrite <- I1; reflexivity |]. split; [rewrite I2; reflexivity |].
    split; [exact I3 |]. split; [exact I4 | exact I5].
Qed.

Lemma advance_spec k : forall st,
  enc_wf st -> (k <= Z.to_nat (len st))%nat ->
  let st' := advance k st in
  let bs := firstn k (pending st) in
  pending st = bs ++ pending st' /\
  List.length bs = k /\
  (slidingWindow st', windowHead st')
  = push_bytes (slidingWindow st) (windowHead st) bs /\
  enc_wf st' /\ bfpOut st' = bfpOut st.
Proof.
  induction k as [| k IH]; intros st Hwf Hk.
  - cbn [advance firstn app push_bytes List.length].
    split; [reflexivity |]. split; [reflexivity |]. split; [reflexivity |].
    split; [assumption | reflexivity].
  - cbn [advance]. unfold fgetc.
    destruct (inp (fpIn st)) as [| c rest] eqn:Hin.
    + change (EOF =? EOF) with true. cbv iota.
      apply (drain_spec (S k) st Hwf Hin Hk).
    + pose proof Hwf as [Hw [Hla [Hwh [Huh [Hlen [Hfull Hby]]]]]].
      assert (H18 : len st = 18) by (apply Hfull; rewrite Hin; discriminate).
      assert (Hc : is_byte c).
      { unfold pending in Hby. rewrite Hin in Hby.
        apply Forall_app in Hby. destruct Hby as [_ Hb]. inversion Hb; assumption. }
      rewrite !(uchar_small c Hc).
      replace (c =? EOF) with false
        by (symmetry; apply Z.eqb_neq; unfold EOF, is_byte in *; lia).
      set (st1 := mkEnc (mkFILE rest (out (fpIn st)) (room (fpIn st))) (bfpOut st)
                    (ReplaceChar (slidingWindow st) (windowHead st)
                       (rd (uncodedLookahead st) (uncodedHead st)))
                    (wr (uncodedLookahead st) (uncodedHead st) c)
                    (Wrap (windowHead st + 1) WINDOW_SIZE)
                    (Wrap (uncodedHead st + 1) MAX_CODED) (len st)).
      assert (Hp : pending st
                   = rd (uncodedLookahead st) (uncodedHead st) :: pending st1).
      { unfold pending. subst st1.
        cbn [uncodedLookahead uncodedHead len fpIn inp]. rewrite Hin, H18.
        change (Z.to_nat 18) with 18%nat.
        rewrite la_bytes_S by assumption.
        rewrite la_bytes_full_wr by assumption.
        rewrite <- app_assoc. reflexivity. }
      assert (Hwf1 : enc_wf st1).
      { unfold enc_wf.
        split; [subst st1; cbn [slidingWindow]; unfold ReplaceChar;
                rewrite length_wr; assumption |].
        split; [subst st1; cbn [uncodedLookahead]; rewrite length_wr; assumption |].
        split; [subst st1; cbn [windowHead]; apply Wrap_range; reflexivity |].
        split; [subst st1; cbn [uncodedHead]; apply Wrap_range; reflexivity |].
        split; [exact Hlen |]. split; [intros _; exact H18 |].
        rewrite Hp in Hby. inversion Hby; assumption. }
      destruct (IH st1 Hwf1) as [I1 [I2 [I3 [I4 I5]]]].
      { subst st1. cbn [len]. lia. }
      cbv zeta in *. rewrite Hp. cbn [firstn app push_bytes List.length].
      split; [rewrite <- I1; reflexivity |]. split; [rewrite I2; reflexivity |].
      split; [exact I3 |]. split; [exact I4 | exact I5].
Qed.

Lemma low_bits_length n x : List.length (low_bits n x) = n.
Proof. induction n; cbn [low_bits List.length]; [reflexivity | rewrite IHn; reflexivity]. Qed.

Lemma offset_bits_mod v : offset_bits (v mod 4096) = offset_bits v.
Proof.
  unfold offset_bits, byte_bits.
  cbn [low_bits Z.of_nat Pos.of_succ_nat Pos.succ].
  change 4096 with (2 ^ 12).
  rewrite !Z.shiftr_spec by lia.
  rewrite !Z.mod_pow2_bits_low by lia. reflexivity.
Qed.

Lemma firstn_la_bytes la uh n k rest :
  (k <= n)%nat -> firstn k (la_bytes la uh n ++ rest) = la_bytes la uh k.
Proof.
  intros Hk. rewrite firstn_app, la_bytes_length.
  replace (k - n)%nat with 0%nat by lia. cbn [firstn]. rewrite app_nil_r.
  unfold la_bytes. rewrite firstn_map. f_equal.
  clear rest la uh. revert n Hk. generalize 0%nat.
  induction k as [| k IH]; intros i n Hk; [reflexivity |].
  destruct n as [| n]; [lia |]. cbn [seq firstn]. f_equal. apply IH. lia.
Qed.

Lemma encode_body_full e st m sw :
  e <> BF_UNKNOWN_ENDIAN -> enc_wf st -> 0 < len st ->
  bfpOut st = Some sw -> PutBitsNumFunc sw = Some (func_of e) ->
  0 <= bitCount sw < 8 ->
  9 * Z.of_nat (List.length (pending st)) <= capacity sw ->
  0 <= length m -> 0 <= offset m ->
  (MAX_UNCODED < Z.min (length m) (len st) ->
   forall i, 0 <= i < Z.min (length m) (len st) ->
     rd (slidingWindow st) (Wrap (offset m + i) WINDOW_SIZE)
     = rd (uncodedLookahead st) (Wrap (uncodedHead st + i) MAX_CODED)) ->
  let st1 := encode_body e st m in
  exists bs R sw1,
    bs <> [] /\ pending st = bs ++ pending st1 /\
    (slidingWindow st1, windowHead st1)
    = push_bytes (slidingWindow st) (windowHead st) bs /\
    enc_wf st1 /\ bfpOut st1 = Some sw1 /\ 0 <= bitCount sw1 < 8 /\
    PutBitsNumFunc sw1 = Some (func_of e) /\ mode sw1 = mode sw /\
    written_bits sw1 = written_bits sw ++ R /\
    capacity sw1 = capacity sw - Z.of_nat (List.length R) /\
    Z.of_nat (List.length R) <= 9 * Z.of_nat (List.length bs) /\
    ((exists b, bs = [b] /\ R = true :: byte_bits b) \/
     (exists off l,
        0 <= off < 4096 /\ MAX_UNCODED < l <= MAX_CODED /\
        R = false :: offset_bits off ++ length_bits (l - (MAX_UNCODED + 1)) /\
        bs = map (fun j => rd (slidingWindow st) (Wrap (off + Z.of_nat j) WINDOW_SIZE))
               (seq 0 (Z.to_nat l)))).
Proof.
  intros He Hwf Hlen Hb Hf Hk Hcap Hml Hmo Hgen st1.
  pose proof Hwf as [Hw [Hla [Hwh [Huh [Hlr [Hfull Hby]]]]]].
  assert (Hpl : Z.of_nat (List.length (pending st)) >= len st).
  { unfold pending. rewrite length_app, la_bytes_length. lia. }
  subst st1. unfold encode_body, emit.
  rewrite clamp_length, clamp_offset. set (l := Z.min (length m) (len st)).
  rewrite Hb. unfold BitFilePutBit, BitFilePutChar, lift.
  destruct (l <=? MAX_UNCODED) eqn:El.
  - (* a literal *)
    destruct (PutBit_bits UNCODED sw Hk ltac:(lia)) as [_ [Hw1 [Hk1 [Hc1 Hf1]]]].
    pose proof (PutBit_mode UNCODED sw) as Hm1.
    destruct (PutBit UNCODED sw) as [r1 s1]. cbn [fst snd] in *.
    set (b := rd (uncodedLookahead st) (uncodedHead st)).
    destruct (PutChar_bits b s1 Hk1 ltac:(lia)) as [_ [Hw2 [Hk2 [Hc2 Hf2]]]].
    pose proof (PutChar_mode b s1) as Hm2.
    destruct (PutChar b s1) as [r2 s2]. cbn [fst snd] in *.
    set (st2 := mkEnc (fpIn st) (Some s2) (slidingWindow st) (uncodedLookahead st)
                  (windowHead st) (uncodedHead st) (len st)).
    assert (Hwf2 : enc_wf st2) by exact Hwf.
    destruct (advance_spec (Z.to_nat 1) st2 Hwf2 ltac:(subst st2; cbn [len]; lia))
      as [A1 [A2 [A3 [A4 A5]]]].
    cbv zeta in A1, A2, A3, A4, A5.
    assert (Hfirst : firstn (Z.to_nat 1) (pending st2) = [b]).
    { change (pending st2) with (pending st). unfold pending.
      replace (Z.to_nat (len st)) with (S (Z.to_nat (len st - 1))) by lia.
      rewrite la_bytes_S by assumption. reflexivity. }
    rewrite Hfirst in A1, A2, A3.
    exists [b], (true :: byte_bits b), s2.
    split; [discriminate |]. split; [exact A1 |]. split; [exact A3 |].
    split; [exact A4 |]. split; [rewrite A5; reflexivity |].
    split; [lia |]. split; [congruence |]. split; [congruence |].
    split; [rewrite Hw2, Hw1, <- app_assoc; reflexivity |].
    split; [cbn [List.length]; unfold byte_bits; rewrite low_bits_length; lia |].
    split; [cbn [List.length]; unfold byte_bits; rewrite low_bits_length; lia |].
    left. exists b. split; reflexivity.
  - (* a back-reference *)
    apply Z.leb_gt in El. unfold MAX_UNCODED, MAX_CODED in *.
    assert (Hl18 : l <= 18) by (subst l; lia).
    destruct (PutBit_bits ENCODED sw Hk ltac:(lia)) as [_ [Hw1 [Hk1 [Hc1 Hf1]]]].
    pose proof (PutBit_mode ENCODED sw) as Hm1.
    destruct (PutBit ENCODED sw) as [r1 s1]. cbn [fst snd] in *.
    destruct (put_offset_bits e s1 (offset m) He ltac:(congruence) Hk1 ltac:(lia))
      as [s2 [E2 [Hw2 [Hk2 [Hc2 Hf2]]]]].
    pose proof (PutBitsNum_mode s1 _ _ _ s2 E2) as Hm2.
    rewrite E2.
    destruct (put_length_bits e s2 (uint (l - (2 + 1))) He ltac:(congruence)
                Hk2 ltac:(lia)) as [s3 [E3 [Hw3 [Hk3 [Hc3 Hf3]]]]].
    pose proof (PutBitsNum_mode s2 _ _ _ s3 E3) as Hm3.
    rewrite E3.
    set (st2 := mkEnc (fpIn st) (Some s3) (slidingWindow st) (uncodedLookahead st)
                  (windowHead st) (uncodedHead st) (len st)).
    assert (Hwf2 : enc_wf st2) by exact Hwf.
    destruct (advance_spec (Z.to_nat l) st2 Hwf2 ltac:(subst st2 l; cbn [len]; lia))
      as [A1 [A2 [A3 [A4 A5]]]].
    cbv zeta in A1, A2, A3, A4, A5.
    assert (Hfirst : firstn (Z.to_nat l) (pending st2)
                     = map (fun j => rd (slidingWindow st)
                                       (Wrap (offset m mod 4096 + Z.of_nat j) WINDOW_SIZE))
                         (seq 0 (Z.to_nat l))).
    { change (pending st2) with (pending st). unfold pending.
      rewrite firstn_la_bytes by (subst l; lia).
      unfold la_bytes. apply map_ext_in. intros j Hj. apply in_seq in Hj.
      rewrite <- Hgen by (subst l; lia).
      f_equal. unfold Wrap, WINDOW_SIZE. rewrite Z.add_mod_idemp_l by lia.
      reflexivity. }
    rewrite Hfirst in A1, A2, A3.
    rewrite uint_small in Hw3 by lia.
    exists (map (fun j => rd (slidingWindow st)
                        (Wrap (offset m mod 4096 + Z.of_nat j) WINDOW_SIZE))
              (seq 0 (Z.to_nat l))),
      (false :: offset_bits (offset m) ++ length_bits (l - (2 + 1))), s3.
    split; [intros Hnil; apply (f_equal (@List.length Z)) in Hnil;
            rewrite length_map, length_seq in Hnil; cbn [List.length] in Hnil; lia |].
    split; [exact A1 |]. split; [exact A3 |].
    split; [exact A4 |]. split; [rewrite A5; reflexivity |].
    split; [lia |]. split; [congruence |]. split; [congruence |].
    split; [rewrite Hw3, Hw2, Hw1, <- !app_assoc; reflexivity |].
    assert (HR : Z.of_nat (List.length (false :: offset_bits (offset m)
                                          ++ length_bits (l - (2 + 1)))) = 17).
    { cbn [List.length]. rewrite length_app. unfold offset_bits, length_bits, byte_bits.
      rewrite length_app, !low_bits_length. reflexivity. }
    split; [rewrite HR; lia |].
    split; [rewrite HR, length_map, length_seq; lia |].
    right. exists (offset m mod 4096), l.
    split; [apply Z.mod_pos_bound; lia |]. split; [lia |].
    split; [rewrite offset_bits_mod; reflexivity | reflexivity].
Qed.

(** *** Decoding what the encoder wrote *)

Lemma avail_unread s : 0 <= bitCount s ->
  avail s = Z.of_nat (List.length (unread_bits s)).
Proof.
  intros Hk. unfold avail, unread_bits, bytes_bits.
  rewrite length_app, low_bits_length.
  assert (H : forall l, List.length (flat_map byte_bits l) = (8 * List.length l)%nat).
  { induction l as [| x t IH]; [reflexivity |].
    cbn [flat_map List.length]. rewrite length_app. unfold byte_bits at 1.
    rewrite low_bits_length, IH. lia. }
  rewrite H. lia.
Qed.

Lemma decode_loop_more e k : forall d d' k',
  decode_loop k e d = Some d' -> (k <= k')%nat -> decode_loop k' e d = Some d'.
Proof.
  induction k as [| k IH]; intros d d' k' H Hk; [discriminate |].
  destruct k' as [| k']; [lia |]. cbn [decode_loop] in *.
  destruct (decode_body e d) as [d1 | d1]; [| exact H].
  apply (IH d1 d' k' H). lia.
Qed.

Lemma decodes_nil e w nc : e <> BF_UNKNOWN_ENDIAN -> decodes e [] w nc [].
Proof.
  intros He d sd pad Hb Hu [Hpl Hpz] Hk Hf _ _ _ _. cbn [app] in Hu.
  destruct pad as [| b pad'].
  - destruct (GetBit_spec sd Hk) as [[_ Hg] | [Ha _]].
    + exists 1%nat, (mkDec (Some sd) (dOut d) (dWindow d) (dLookahead d) (nextChar d)).
      cbn [decode_loop]. unfold decode_body. rewrite Hb.
      unfold BitFileGetBit, lift. rewrite Hg. change (EOF =? EOF) with true.
      cbn [dOut]. rewrite app_nil_r. split; reflexivity.
    + rewrite avail_unread, Hu in Ha by lia. cbn [List.length] in Ha. lia.
  - inversion Hpz as [| ? ? Hb0 Hpz']; subst.
    destruct (GetBit_val sd false pad' Hk Hu) as [Hv _].
    destruct (truncated_record_breaks e d sd He Hb Hf Hk) as [d' [_ [Ho [_ [_ Hl]]]]].
    + rewrite avail_unread, Hu by lia. cbn [List.length]. lia.
    + rewrite Hv. change (Z.b2z false =? UNCODED) with false.
      rewrite avail_unread, Hu by lia. cbn [List.length] in *.
      unfold OFFSET_BITS, LENGTH_BITS. lia.
    + exists 1%nat, d'. split; [apply Hl |]. rewrite Ho, app_nil_r. reflexivity.
Qed.

Lemma decodes_literal e b bits w nc bs :
  is_byte b -> 0 <= nc < WINDOW_SIZE ->
  decodes e bits (fst (push_bytes w nc [b])) (snd (push_bytes w nc [b])) bs ->
  decodes e (true :: byte_bits b ++ bits) w nc (b :: bs).
Proof.
  intros Hb Hn Hrest d sd pad Hd Hu Hp Hk Hf Hw Hnc Hla Hroom.
  cbn [app] in Hu. rewrite <- app_assoc in Hu.
  assert (Hn' : 0 <= nextChar d < WINDOW_SIZE) by (rewrite Hnc; exact Hn).
  destruct (decode_literal_step e d sd b _ Hd Hk Hb Hu Hn')
    as [s' [Hstep [Hu' [Hk' Hf']]]].
  cbn [List.length] in Hroom.
  rewrite Hw, Hnc in Hstep.
  match type of Hstep with _ = inl ?x => set (d1 := x) in * end.
  destruct (Hrest d1 s' pad eq_refl Hu' Hp Hk' ltac:(congruence)
              eq_refl eq_refl Hla)
    as [k [d' [Hloop Hout]]].
  { subst d1. cbn [dOut]. rewrite fputc_ok by lia. cbn [snd room]. lia. }
  exists (S k), d'. cbn [decode_loop]. rewrite Hstep. split; [exact Hloop |].
  rewrite Hout. subst d1. cbn [dOut]. rewrite fputc_ok by lia. cbn [snd out].
  rewrite (uchar_small b Hb), <- app_assoc. reflexivity.
Qed.

Lemma map_uchar_bytes l : Forall is_byte l -> map uchar l = l.
Proof.
  induction 1 as [| x t Hx _ IH]; [reflexivity |].
  cbn [map]. rewrite (uchar_small x Hx), IH. reflexivity.
Qed.

Lemma decodes_encoded e off l bits w nc bs :
  e <> BF_UNKNOWN_ENDIAN ->
  0 <= off < 4096 -> MAX_UNCODED < l <= MAX_CODED -> 0 <= nc < WINDOW_SIZE ->
  let bs0 := map (fun j => rd w (Wrap (off + Z.of_nat j) WINDOW_SIZE))
               (seq 0 (Z.to_nat l)) in
  Forall is_byte bs0 ->
  decodes e bits (fst (push_bytes w nc bs0)) (snd (push_bytes w nc bs0)) bs ->
  decodes e (false :: offset_bits off ++ length_bits (l - (MAX_UNCODED + 1)) ++ bits)
    w nc (bs0 ++ bs).
Proof.
  intros He Hoff Hl Hn bs0 Hby Hrest d sd pad Hd Hu Hp Hk Hf Hw Hnc Hla Hroom.
  cbn [app] in Hu. rewrite <- !app_assoc in Hu.
  assert (Hn' : 0 <= nextChar d < WINDOW_SIZE) by (rewrite Hnc; exact Hn).
  destruct (decode_encoded_step e d sd off l _ He Hd Hk Hf Hoff Hl Hu Hn' Hla)
    as [s' [la' [Hstep [Hla' [Hu' [Hk' Hf']]]]]].
  rewrite Hw, Hnc in Hstep. fold bs0 in Hstep.
  rewrite length_app in Hroom.
  destruct (fputs_out bs0 (dOut d) ltac:(lia)) as [Fo [_ Fr]].
  match type of Hstep with _ = inl ?x => set (d1 := x) in * end.
  destruct (Hrest d1 s' pad eq_refl Hu' Hp Hk' ltac:(congruence)
              eq_refl eq_refl Hla')
    as [k [d' [Hloop Hout]]].
  { subst d1. cbn [dOut]. rewrite Fr. lia. }
  exists (S k), d'. cbn [decode_loop]. rewrite Hstep. split; [exact Hloop |].
  rewrite Hout. subst d1. cbn [dOut]. rewrite Fo, (map_uchar_bytes bs0 Hby), <- app_assoc.
  reflexivity.
Qed.

(** *** The encoder loop *)

Lemma uint_nonneg z : 0 <= uint z.
Proof. unfold uint. apply Z.mod_pos_bound. lia. Qed.

Lemma match_scan_nonneg wh res n :
  0 <= length (match_scan wh res n) /\ 0 <= offset (match_scan wh res n).
Proof.
  unfold match_scan.
  assert (H : forall l m, 0 <= length m /\ 0 <= offset m ->
            let m' := fold_left
              (fun (m : encoded_string_t) (i : nat) =>
                 let r := rd res (Z.of_nat i) in
                 if negb (r =? 0) then
                   if uint r >? length m then mkMatch (uint (wh - r)) (uint r) else m
                 else m) l m in
            0 <= length m' /\ 0 <= offset m').
  { induction l as [| i l IH]; intros m Hm; [exact Hm |].
    cbn [fold_left]. apply IH. cbv zeta.
    destruct (negb (rd res (Z.of_nat i) =? 0)); [| exact Hm].
    destruct (uint (rd res (Z.of_nat i)) >? length m); [| exact Hm].
    cbn [length offset]. split; apply uint_nonneg. }
  apply H. cbn [length offset]. lia.
Qed.

Lemma FindMatch_nonneg h w la wh uh m :
  FindMatch h w la wh uh = Some m -> 0 <= length m /\ 0 <= offset m.
Proof.
  unfold FindMatch. destruct (_ <? _); [discriminate |].
  destruct (PFAC_matchFromHost h la _ _); [| discriminate].
  intros H. injection H as <-. apply match_scan_nonneg.
Qed.

Lemma stands_match_ok h st m :
  FindMatch h (slidingWindow st) (uncodedLookahead st) (windowHead st)
    (uncodedHead st) = Some m ->
  stands st m = true -> match_ok st m.
Proof.
  intros Hm Hs. destruct (FindMatch_nonneg _ _ _ _ _ _ Hm) as [H1 H2].
  split; [exact H1 |]. split; [exact H2 |].
  intros Hgt i Hi. unfold stands in Hs. cbv zeta in Hs.
  apply orb_true_iff in Hs. destruct Hs as [Hs | Hs].
  - apply Z.leb_le in Hs. lia.
  - unfold matches_at in Hs. rewrite forallb_forall in Hs.
    specialize (Hs (Z.to_nat i)). rewrite Z2Nat.id in Hs by lia.
    apply Z.eqb_eq. apply Hs. apply in_seq. lia.
Qed.

Lemma push_bytes_eq w pos bs w' pos' :
  (w', pos') = push_bytes w pos bs ->
  w' = fst (push_bytes w pos bs) /\ pos' = snd (push_bytes w pos bs).
Proof. intros H. rewrite <- H. split; reflexivity. Qed.

Lemma encode_loop_spec h e :
  e <> BF_UNKNOWN_ENDIAN ->
  forall fuel st m sw,
    loop_matches_stand fuel h e st m = true ->
    enc_wf st -> match_ok st m ->
    bfpOut st = Some sw -> PutBitsNumFunc sw = Some (func_of e) ->
    0 <= bitCount sw < 8 ->
    9 * Z.of_nat (List.length (pending st)) <= capacity sw ->
    (List.length (pending st) < fuel)%nat ->
    exists st' sw' bits,
      encode_loop fuel h e st m = Some st' /\
      bfpOut st' = Some sw' /\ 0 <= bitCount sw' < 8 /\ mode sw' = mode sw /\
      written_bits sw' = written_bits sw ++ bits /\
      capacity sw - 9 * Z.of_nat (List.length (pending st)) <= capacity sw' /\
      decodes e bits (slidingWindow st) (windowHead st) (pending st).
Proof.
  intros He. induction fuel as [| fuel IH];
    intros st m sw Hrun Hwf Hok Hb Hf Hk Hcap Hfuel; [lia |].
  cbn [encode_loop]. cbn [loop_matches_stand] in Hrun.
  destruct (len st >? 0) eqn:Elen.
  - apply Z.gtb_lt in Elen.
    destruct Hok as [Hml [Hmo Hgen]].
    destruct (encode_body_full e st m sw He Hwf Elen Hb Hf Hk Hcap Hml Hmo Hgen)
      as [bs [R [sw1 [Hne [Hp [Hpush [Hwf1 [Hb1 [Hk1 [Hf1 [Hm1 [Hw1 [Hc1 [HR Hkind]]]]]]]]]]]]]].
    cbv zeta in *. set (st1 := encode_body e st m) in *.
    destruct (FindMatch h (slidingWindow st1) (uncodedLookahead st1)
                (windowHead st1) (uncodedHead st1)) as [m1 |] eqn:Em1;
      [| discriminate Hrun].
    apply andb_true_iff in Hrun. destruct Hrun as [Hs1 Hrun1].
    pose proof (stands_match_ok h st1 m1 Em1 Hs1) as Hok1.
    assert (Hlen : List.length (pending st)
                   = (List.length bs + List.length (pending st1))%nat)
      by (rewrite Hp, length_app; reflexivity).
    assert (Hbs : (0 < List.length bs)%nat)
      by (destruct bs; [contradiction Hne; reflexivity | cbn; lia]).
    destruct (IH st1 m1 sw1 Hrun1 Hwf1 Hok1 Hb1 Hf1 Hk1 ltac:(lia) ltac:(lia))
      as [st' [sw' [bits [Hloop [Hb' [Hk' [Hm' [Hw' [Hc' Hdec]]]]]]]]].
    exists st', sw', (R ++ bits).
    split; [exact Hloop |]. split; [exact Hb' |]. split; [exact Hk' |].
    split; [congruence |].
    split; [rewrite Hw', Hw1, <- app_assoc; reflexivity |].
    split; [lia |].
    apply push_bytes_eq in Hpush. destruct Hpush as [Hpw Hpp].
    rewrite Hpw, Hpp in Hdec. rewrite Hp.
    pose proof Hwf as [_ [_ [Hwh [_ [_ [_ Hby]]]]]].
    rewrite Hp in Hby. apply Forall_app in Hby. destruct Hby as [Hby _].
    destruct Hkind as [[b [-> ->]] | [off [l [Hoff [Hl [-> Hbs']]]]]].
    + cbn [app]. apply decodes_literal; [inversion Hby; assumption | exact Hwh | exact Hdec].
    + rewrite Hbs' in *. cbn [app]. rewrite <- app_assoc.
      apply decodes_encoded; assumption.
  - rewrite Z.gtb_ltb in Elen. apply Z.ltb_ge in Elen.
    pose proof Hwf as [_ [_ [_ [_ [Hlr [Hfull _]]]]]].
    assert (Hin : inp (fpIn st) = []).
    { destruct (inp (fpIn st)) eqn:E; [reflexivity |].
      assert (len st = MAX_CODED) by (apply Hfull; discriminate).
      unfold MAX_CODED in *. lia. }
    assert (Hp : pending st = []).
    { unfold pending. rewrite Hin. replace (len st) with 0 by lia. reflexivity. }
    exists st, sw, []. rewrite app_nil_r, Hp.
    split; [reflexivity |]. split; [exact Hb |]. split; [exact Hk |].
    split; [reflexivity |]. split; [reflexivity |].
    split; [cbn [List.length]; lia |]. apply decodes_nil. exact He.
Qed.

(** *** From file to file *)

Lemma la_bytes_wr_end la n c :
  List.length la = 18%nat -> (n < 18)%nat ->
  la_bytes (wr la (Z.of_nat n) c) 0 (S n) = la_bytes la 0 n ++ [c].
Proof.
  intros Hl Hn. rewrite la_bytes_snoc. f_equal.
  - unfold la_bytes. apply map_ext_in. intros i Hi. apply in_seq in Hi.
    apply rd_wr_other. unfold Wrap, MAX_CODED. rewrite Z.mod_small by lia. lia.
  - f_equal. unfold Wrap, MAX_CODED. rewrite Z.mod_small by lia.
    apply rd_wr_same. lia.
Qed.

Lemma fill_lookahead_spec k : forall f la n,
  List.length la = 18%nat -> (n + k = 18)%nat -> Forall is_byte (inp f) ->
  let r := fill_lookahead k f la (Z.of_nat n) in
  exists n',
    snd r = Z.of_nat n' /\ (n <= n' <= 18)%nat /\
    List.length (snd (fst r)) = 18%nat /\
    la_bytes (snd (fst r)) 0 n' ++ inp (fst (fst r)) = la_bytes la 0 n ++ inp f /\
    (inp (fst (fst r)) <> [] -> n' = 18%nat).
Proof.
  induction k as [| k IH]; intros f la n Hl Hn Hby.
  - cbn [fill_lookahead fst snd]. exists n.
    repeat split; try assumption; try lia.
  - cbn [fill_lookahead]. unfold fgetc.
    destruct (inp f) as [| c rest] eqn:Hin.
    + change (EOF =? EOF) with true. cbv iota. cbn [fst snd]. exists n.
      rewrite Hin. repeat split; try assumption; try lia.
      intros H; contradiction H; reflexivity.
    + inversion Hby as [| ? ? Hc Hrest]; subst.
      rewrite !(uchar_small c Hc).
      replace (c =? EOF) with false
        by (symmetry; apply Z.eqb_neq; unfold EOF, is_byte in *; lia).
      replace (Z.of_nat n + 1) with (Z.of_nat (S n)) by lia.
      destruct (IH (mkFILE rest (out f) (room f)) (wr la (Z.of_nat n) c) (S n)
                  ltac:(rewrite length_wr; exact Hl) ltac:(lia) Hrest)
        as [n' [I1 [I2 [I3 [I4 I5]]]]].
      cbv zeta in *. exists n'.
      split; [exact I1 |]. split; [lia |]. split; [exact I3 |].
      split; [| exact I5].
      rewrite I4. cbn [inp]. rewrite la_bytes_wr_end by (assumption || lia).
      rewrite <- app_assoc. reflexivity.
Qed.

Lemma flush_bits sw :
  writing (mode sw) = true -> 0 <= bitCount sw < 8 -> 1 <= capacity sw ->
  exists pad,
    zero_pad pad /\
    bytes_bits (out (fp (flush_residue sw))) = written_bits sw ++ pad.
Proof.
  intros Hm Hk Hcap. unfold flush_residue, written_bits, capacity in *. rewrite Hm.
  destruct sw as [f buf k pf gf m]. cbn [fp bitCount bitBuffer mode] in *.
  destruct (Z.eqb_spec k 0) as [-> | Hne].
  - exists []. split; [split; [cbn; lia | constructor] |].
    change (0 =? 0) with true. cbn [negb fp out].
    change (Z.to_nat 0) with 0%nat. cbn [low_bits]. rewrite !app_nil_r. reflexivity.
  - replace (k =? 0) with false by (symmetry; apply Z.eqb_neq; exact Hne).
    cbn [negb fp]. rewrite fputc_ok by lia. cbn [snd out].
    rewrite bytes_bits_snoc. rewrite uchar_small by apply uchar_range.
    rewrite byte_bits_uchar. unfold byte_bits.
    exists (repeat false (Z.to_nat (8 - k))).
    split.
    + split; [rewrite repeat_length; lia |].
      apply Forall_forall. intros x Hx. apply repeat_spec in Hx. exact Hx.
    + rewrite <- app_assoc. f_equal.
      assert (Hk' : 0 <= k < 8) by lia. clear Hne Hcap Hk.
      k_cases k; consts;
        repeat match goal with
          | |- context [Z.to_nat (8 - ?a)] =>
              let v := eval vm_compute in (Z.to_nat (8 - a)) in
              change (Z.to_nat (8 - a)) with v
          end;
        cbn [low_bits Z.of_nat Pos.of_succ_nat Pos.succ repeat app];
        repeat (f_equal; [solve [tb] |]); try solve [tb].
Qed.

Lemma DecodeLZSS_of_decodes word_one din gout bits pad bs :
  DetermineEndianess word_one <> BF_UNKNOWN_ENDIAN ->
  decodes (DetermineEndianess word_one) bits (repeat 32 (Z.to_nat WINDOW_SIZE)) 0 bs ->
  bytes_bits (inp din) = bits ++ pad -> zero_pad pad ->
  (List.length bs <= room gout)%nat ->
  exists fi g,
    DecodeLZSS word_one (Some din) (Some gout) = Some (0, fi, Some g) /\
    out g = out gout ++ bs.
Proof.
  intros He Hdec Hbits Hpad Hroom. unfold DecodeLZSS.
  destruct (func_of_Determine word_one din BF_READ) as [bf [E [G [_ [C [_ [F _]]]]]]].
  rewrite E.
  set (d0 := mkDec (Some bf) gout (repeat 32 (Z.to_nat WINDOW_SIZE))
               (repeat 0 (Z.to_nat MAX_CODED)) 0).
  assert (Hu : unread_bits bf = bits ++ pad).
  { unfold unread_bits. rewrite C, F. exact Hbits. }
  destruct (Hdec d0 bf pad eq_refl Hu Hpad ltac:(lia) G eq_refl eq_refl
              ltac:(apply repeat_length) Hroom) as [k [d' [Hloop Hout]]].
  destruct (decode_loop_total (DetermineEndianess word_one)
              (S (bits_left (Some bf))) d0 bf eq_refl G ltac:(lia))
    as [st' Hst].
  { unfold avail, bits_left. rewrite C. lia. }
  rewrite Hst.
  assert (Heq : st' = d').
  { destruct (Nat.le_ge_cases k (S (bits_left (Some bf)))) as [Hle | Hge].
    - pose proof (decode_loop_more _ _ _ _ _ Hloop Hle) as H.
      rewrite Hst in H. injection H as ->. reflexivity.
    - pose proof (decode_loop_more _ _ _ _ _ Hst Hge) as H.
      rewrite Hloop in H. injection H as ->. reflexivity. }
  subst st'. eexists. eexists. split; [reflexivity |]. exact Hout.
Qed.

(** X1: on a host of known endianness, when every call of FindMatch in
    the run returns, and returns a descriptor that the encoder can code as
    it is (cut to the bytes left it is no longer than MAX_UNCODED, or the
    window holds at its offset the bytes of the lookahead), EncodeLZSS
    returns 0 on any input of bytes that fits the output device (9 bits per
    byte are enough), and DecodeLZSS run on the file it wrote returns 0 and
    appends exactly the input to its output. *)
Theorem LZSS_roundtrip_genuine (h : Host) (s : list Z) (fin fout gout : FILE) :
  matches_stand h fin fout = true ->
  DetermineEndianess (word_one h) <> BF_UNKNOWN_ENDIAN ->
  Forall is_byte s -> inp fin = s -> out fout = [] ->
  9 * Z.of_nat (List.length s) < 8 * Z.of_nat (room fout) ->
  (List.length s <= room gout)%nat ->
  exists f,
    EncodeLZSS h (Some fin) (Some fout) = Some (0, Some f) /\
    forall din, inp din = out f ->
      exists fi g,
        DecodeLZSS (word_one h) (Some din) (Some gout) = Some (0, fi, Some g) /\
        out g = out gout ++ s.
Proof.
  intros Hg He Hby Hin Hout Hroom Hgroom. unfold EncodeLZSS.
  unfold matches_stand in Hg.
  destruct (func_of_Determine (word_one h) fout BF_WRITE)
    as [bf [E [_ [P [C [B [F M]]]]]]].
  rewrite E in *.
  destruct (fill_lookahead_spec (Z.to_nat MAX_CODED) fin
              (repeat 0 (Z.to_nat MAX_CODED)) 0 ltac:(apply repeat_length)
              eq_refl ltac:(rewrite Hin; exact Hby))
    as [n' [L1 [L2 [L3 [L4 L5]]]]].
  cbv zeta in *. change (Z.of_nat 0) with 0 in *. revert Hg.
  destruct (fill_lookahead (Z.to_nat MAX_CODED) fin (repeat 0 (Z.to_nat MAX_CODED)) 0)
    as [[fin' la] len]. cbn [fst snd] in *. subst len.
  change (la_bytes (repeat 0 (Z.to_nat MAX_CODED)) 0 0) with (@nil Z) in L4.
  cbn [app] in L4. rewrite Hin in L4.
  destruct (Z.eqb_spec (Z.of_nat n') 0) as [Hz | Hnz]; intros Hg.
  - (* the input is empty *)
    assert (n' = 0%nat) by lia. subst n'.
    assert (Hnil : inp fin' = []).
    { destruct (inp fin') eqn:Ei; [reflexivity |].
      assert (0%nat = 18%nat) by (apply L5; discriminate). discriminate. }
    rewrite Hnil in L4. cbn in L4.
    exists (fp bf). split; [reflexivity |]. intros din Hdin.
    rewrite F, Hout in Hdin. rewrite <- L4.
    apply (DecodeLZSS_of_decodes (word_one h) din gout [] [] []); try assumption.
    + apply decodes_nil. exact He.
    + rewrite Hdin. reflexivity.
    + split; [cbn; lia | constructor].
    + cbn. lia.
  - change (negb (InitializeSearchStructures =? 0)) with false. cbv iota.
    set (st0 := mkEnc fin' (Some bf) (repeat 32 (Z.to_nat WINDOW_SIZE)) la 0 0
                  (Z.of_nat n')).
    assert (Hp0 : pending st0 = s).
    { unfold pending. subst st0. cbn [uncodedLookahead uncodedHead len fpIn].
      rewrite Nat2Z.id. exact L4. }
    assert (Hwf0 : enc_wf st0).
    { unfold enc_wf. rewrite Hp0. subst st0.
      cbn [slidingWindow uncodedLookahead windowHead uncodedHead len fpIn].
      split; [apply repeat_length |]. split; [exact L3 |].
      unfold WINDOW_SIZE, MAX_CODED.
      split; [lia |]. split; [lia |]. split; [lia |].
      split; [intros Hne; rewrite (L5 Hne); reflexivity | exact Hby]. }
    fold st0 in Hg.
    destruct (FindMatch h (repeat 32 (Z.to_nat WINDOW_SIZE)) la 0 0)
      as [m |] eqn:Em; [| discriminate Hg].
    apply andb_true_iff in Hg. destruct Hg as [Hs0 Hrun].
    pose proof (stands_match_ok h st0 m Em Hs0) as Hok.
    assert (Hcap0 : capacity bf = 8 * Z.of_nat (room fout))
      by (unfold capacity; rewrite C, F; lia).
    destruct (encode_loop_spec h (DetermineEndianess (word_one h)) He
                (S (List.length (inp fin) + 18)) st0 m bf Hrun Hwf0 Hok eq_refl P
                ltac:(lia) ltac:(rewrite Hp0; lia) ltac:(rewrite Hp0, Hin; lia))
      as [st' [sw' [bits [Hloop [Hb' [Hk' [Hm' [Hw' [Hc' Hdec]]]]]]]]].
    rewrite Hloop, Hb'. cbn [BitFileToFILE].
    destruct (flush_bits sw') as [pad [Hpad Hfl]].
    { rewrite Hm', M. reflexivity. }
    { exact Hk'. }
    { rewrite Hp0 in Hc'. lia. }
    exists (fp (flush_residue sw')). split; [reflexivity |].
    intros din Hdin.
    assert (Hwb : written_bits bf = []).
    { unfold written_bits. rewrite C, F, Hout. reflexivity. }
    rewrite Hw', Hwb in Hfl. cbn [app] in Hfl.
    rewrite Hp0 in Hdec.
    apply (DecodeLZSS_of_decodes (word_one h) din gout bits pad s); try assumption.
    rewrite Hdin. exact Hfl.
Qed.

Lemma LZSS_roundtrip_genuine_witness :
  exists f,
    EncodeLZSS (prefix_host le_word)
      (Some (file_of (repeat 32 5 ++ repeat 97 30))) (Some blank_file)
    = Some (0, Some f) /\
    forall din, inp din = out f ->
      exists fi g,
        DecodeLZSS le_word (Some din) (Some blank_file) = Some (0, fi, Some g) /\
        out g = repeat 32 5 ++ repeat 97 30.
Proof.
  apply (LZSS_roundtrip_genuine (prefix_host le_word)
           (repeat 32 5 ++ repeat 97 30)
           (file_of (repeat 32 5 ++ repeat 97 30)) blank_file blank_file).
  - vm_compute. reflexivity.
  - discriminate.
  - apply Forall_app. split; apply Forall_forall; intros x Hx;
      apply repeat_spec in Hx; subst x; unfold is_byte; lia.
  - reflexivity.
  - reflexivity.
  - cbn. lia.
  - cbn. lia.
Defined.

(** ** Bits and bytes written, closed and read back *)

Lemma put_bit_seq_bits cs : forall s,
  0 <= bitCount s < 8 -> Z.of_nat (List.length cs) <= capacity s ->
  exists s',
    put_bit_seq cs (Some s) = Some s' /\
    written_bits s' = written_bits s ++ map (fun c => negb (c =? 0)) cs /\
    0 <= bitCount s' < 8 /\
    capacity s' = capacity s - Z.of_nat (List.length cs) /\
    mode s' = mode s.
Proof.
  induction cs as [| c t IH]; intros s Hk Hcap.
  - exists s. cbn [put_bit_seq map List.length]. rewrite app_nil_r.
    repeat split; try lia.
  - cbn [put_bit_seq List.length] in *. unfold BitFilePutBit, lift.
    destruct (PutBit_bits c s Hk ltac:(lia)) as [_ [Hw [Hk1 [Hc1 _]]]].
    pose proof (PutBit_mode c s) as Hm.
    destruct (PutBit c s) as [r s1]. cbn [fst snd] in *.
    destruct (IH s1 Hk1 ltac:(lia)) as [s' [E [Hw' [Hk' [Hc' Hm']]]]].
    exists s'. split; [exact E |]. split.
    + rewrite Hw', Hw, <- app_assoc. reflexivity.
    + repeat split; try lia; congruence.
Qed.

Lemma get_bit_seq_val l : forall s rest,
  0 <= bitCount s < 8 -> unread_bits s = l ++ rest ->
  exists s',
    get_bit_seq (List.length l) (Some s) = (map Z.b2z l, Some s') /\
    unread_bits s' = rest /\ 0 <= bitCount s' < 8.
Proof.
  induction l as [| b t IH]; intros s rest Hk Hu.
  - exists s. cbn [get_bit_seq List.length map]. repeat split; try assumption; lia.
  - cbn [get_bit_seq List.length map]. unfold BitFileGetBit, lift.
    cbn [app] in Hu.
    destruct (GetBit_val s b _ Hk Hu) as [Hv [Hu1 [Hk1 _]]].
    destruct (GetBit s) as [r s1]. cbn [fst snd] in *. subst r.
    destruct (IH s1 rest Hk1 Hu1) as [s' [E [Hu' Hk']]].
    rewrite E. exists s'. repeat split; try assumption; lia.
Qed.

Lemma b2z_negb_eqb c : Z.b2z (negb (c =? 0)) = bit_of c.
Proof. unfold bit_of. destruct (c =? 0); reflexivity. Qed.

Lemma bytes_bits_length l : List.length (bytes_bits l) = (8 * List.length l)%nat.
Proof.
  unfold bytes_bits. induction l as [| x t IH]; [reflexivity |].
  cbn [flat_map List.length]. rewrite length_app. unfold byte_bits at 1.
  rewrite low_bits_length, IH. lia.
Qed.

(** X2: bits written one at a time to a fresh write stream and closed make a
    file of ceil(n/8) bytes; a read stream on that file returns the same
    bits (any non-zero argument was stored as 1) and what is left unread is
    fewer than eight zero bits. *)
Theorem bit_roundtrip (cs : list Z) (word : list Z) (m : BF_MODES) (fout : FILE) :
  writing m = true -> out fout = [] ->
  Z.of_nat (List.length cs) < 8 * Z.of_nat (room fout) ->
  exists f,
    BitFileClose (put_bit_seq cs (MakeBitFile word (Some fout) m)) = (0, Some f) /\
    (List.length cs <= 8 * List.length (out f) < List.length cs + 8)%nat /\
    forall din, inp din = out f ->
      exists s',
        get_bit_seq (List.length cs) (MakeBitFile word (Some din) BF_READ)
        = (map bit_of cs, Some s') /\
        zero_pad (unread_bits s').
Proof.
  intros Hm Hout Hroom.
  destruct (func_of_Determine word fout m) as [bf [E [_ [_ [C [_ [F M]]]]]]].
  rewrite E.
  assert (Hcap : capacity bf = 8 * Z.of_nat (room fout))
    by (unfold capacity; rewrite C, F; lia).
  destruct (put_bit_seq_bits cs bf ltac:(lia) ltac:(lia))
    as [s1 [E1 [Hw [Hk1 [Hc1 Hm1]]]]].
  rewrite E1. cbn [BitFileClose].
  destruct (flush_bits s1 ltac:(congruence) Hk1 ltac:(lia)) as [pad [Hpad Hfl]].
  assert (Hwb : written_bits bf = []).
  { unfold written_bits. rewrite C, F, Hout. reflexivity. }
  rewrite Hw, Hwb in Hfl. cbn [app] in Hfl.
  exists (fp (flush_residue s1)). split; [reflexivity |]. split.
  - apply (f_equal (@List.length bool)) in Hfl.
    rewrite bytes_bits_length, length_app, length_map in Hfl.
    destruct Hpad as [Hpl _]. lia.
  - intros din Hdin.
    destruct (func_of_Determine word din BF_READ) as [bd [Ed [_ [_ [Cd [_ [Fd _]]]]]]].
    rewrite Ed.
    assert (Hu : unread_bits bd = map (fun c => negb (c =? 0)) cs ++ pad).
    { unfold unread_bits. rewrite Cd, Fd, Hdin. exact Hfl. }
    destruct (get_bit_seq_val _ bd pad ltac:(lia) Hu) as [s' [Eg [Hu' _]]].
    rewrite length_map, map_map in Eg.
    exists s'. split; [| rewrite Hu'; exact Hpad].
    rewrite Eg. f_equal. apply map_ext. intros c. apply b2z_negb_eqb.
Qed.

Lemma bit_roundtrip_witness :
  exists f,
    BitFileClose (put_bit_seq nine_bits (MakeBitFile le_word (Some blank_file) BF_WRITE))
    = (0, Some f) /\
    forall din, inp din = out f ->
      exists s',
        get_bit_seq 9 (MakeBitFile le_word (Some din) BF_READ)
        = (nine_bits, Some s').
Proof.
  destruct (bit_roundtrip nine_bits le_word BF_WRITE blank_file)
    as [f [H1 [_ H3]]].
  - reflexivity.
  - reflexivity.
  - cbn. lia.
  - exists f. split; [exact H1 |]. intros din Hd.
    destruct (H3 din Hd) as [s' [Hs _]]. exists s'. exact Hs.
Defined.

Lemma put_char_seq_bits bs : forall s,
  0 <= bitCount s < 8 -> 8 * Z.of_nat (List.length bs) <= capacity s ->
  exists s',
    put_char_seq bs (Some s) = Some s' /\
    written_bits s' = written_bits s ++ bytes_bits bs /\
    bitCount s' = bitCount s /\
    capacity s' = capacity s - 8 * Z.of_nat (List.length bs) /\
    mode s' = mode s.
Proof.
  induction bs as [| c t IH]; intros s Hk Hcap.
  - exists s. cbn [put_char_seq List.length]. unfold bytes_bits. cbn [flat_map].
    rewrite app_nil_r. repeat split; lia.
  - cbn [put_char_seq List.length] in *. unfold BitFilePutChar, lift.
    destruct (PutChar_bits c s Hk ltac:(lia)) as [_ [Hw [Hk1 [Hc1 _]]]].
    pose proof (PutChar_mode c s) as Hm.
    destruct (PutChar c s) as [r s1]. cbn [fst snd] in *.
    destruct (IH s1 ltac:(lia) ltac:(lia)) as [s' [E [Hw' [Hk' [Hc' Hm']]]]].
    exists s'. split; [exact E |]. split.
    + rewrite Hw', Hw, <- app_assoc. reflexivity.
    + repeat split; try lia; congruence.
Qed.

Lemma get_char_seq_val bs : forall s rest,
  0 <= bitCount s < 8 -> unread_bits s = bytes_bits bs ++ rest ->
  exists s',
    get_char_seq (List.length bs) (Some s) = (map uchar bs, Some s') /\
    unread_bits s' = rest /\ bitCount s' = bitCount s.
Proof.
  induction bs as [| c t IH]; intros s rest Hk Hu.
  - exists s. cbn [get_char_seq List.length map]. repeat split; assumption.
  - cbn [get_char_seq List.length map]. unfold BitFileGetChar, lift.
    unfold bytes_bits in Hu. cbn [flat_map] in Hu. rewrite <- app_assoc in Hu.
    rewrite <- (byte_bits_uchar c) in Hu.
    assert (Hr : 0 <= uchar c < 256) by (unfold uchar; apply Z.mod_pos_bound; lia).
    destruct (GetChar_val s (uchar c) _ Hk Hr Hu) as [Hv [Hu1 [Hk1 _]]].
    destruct (GetChar s) as [r s1]. cbn [fst snd] in *. subst r.
    destruct (IH s1 rest ltac:(lia) Hu1) as [s' [E [Hu' Hk']]].
    rewrite E. exists s'. repeat split; try assumption; lia.
Qed.

(** X3: bytes written with BitFilePutChar after any number of single bits,
    so at any bit offset, are read back by BitFileGetChar after the same
    number of bits have been read: the values returned are the bytes
    written, reduced to unsigned char. *)
Theorem char_roundtrip_unaligned (cs bs : list Z) (word : list Z) (m : BF_MODES)
    (fout : FILE) :
  writing m = true -> out fout = [] ->
  Z.of_nat (List.length cs) + 8 * Z.of_nat (List.length bs)
    < 8 * Z.of_nat (room fout) ->
  exists f,
    BitFileClose (put_char_seq bs (put_bit_seq cs (MakeBitFile word (Some fout) m)))
    = (0, Some f) /\
    forall din, inp din = out f ->
      exists s1 s2,
        get_bit_seq (List.length cs) (MakeBitFile word (Some din) BF_READ)
        = (map bit_of cs, Some s1) /\
        get_char_seq (List.length bs) (Some s1) = (map uchar bs, Some s2) /\
        zero_pad (unread_bits s2).
Proof.
  intros Hm Hout Hroom.
  destruct (func_of_Determine word fout m) as [bf [E [_ [_ [C [_ [F M]]]]]]].
  rewrite E.
  assert (Hcap : capacity bf = 8 * Z.of_nat (room fout))
    by (unfold capacity; rewrite C, F; lia).
  destruct (put_bit_seq_bits cs bf ltac:(lia) ltac:(lia))
    as [s1 [E1 [Hw [Hk1 [Hc1 Hm1]]]]].
  rewrite E1.
  destruct (put_char_seq_bits bs s1 Hk1 ltac:(lia))
    as [s2 [E2 [Hw2 [Hk2 [Hc2 Hm2]]]]].
  rewrite E2. cbn [BitFileClose].
  destruct (flush_bits s2 ltac:(congruence) ltac:(lia) ltac:(lia))
    as [pad [Hpad Hfl]].
  assert (Hwb : written_bits bf = []).
  { unfold written_bits. rewrite C, F, Hout. reflexivity. }
  rewrite Hw2, Hw, Hwb in Hfl. cbn [app] in Hfl. rewrite <- app_assoc in Hfl.
  exists (fp (flush_residue s2)). split; [reflexivity |].
  intros din Hdin.
  destruct (func_of_Determine word din BF_READ) as [bd [Ed [_ [_ [Cd [_ [Fd _]]]]]]].
  rewrite Ed.
  assert (Hu : unread_bits bd
               = map (fun c => negb (c =? 0)) cs ++ (bytes_bits bs ++ pad)).
  { unfold unread_bits. rewrite Cd, Fd, Hdin. exact Hfl. }
  destruct (get_bit_seq_val _ bd _ ltac:(lia) Hu) as [r1 [Eg [Hu1 Hkr]]].
  rewrite length_map, map_map in Eg.
  destruct (get_char_seq_val bs r1 pad Hkr Hu1) as [r2 [Eg2 [Hu2 _]]].
  exists r1, r2. split; [| split; [exact Eg2 | rewrite Hu2; exact Hpad]].
  rewrite Eg. f_equal. apply map_ext. intros c. apply b2z_negb_eqb.
Qed.

Lemma char_roundtrip_unaligned_witness :
  exists f,
    BitFileClose (put_char_seq [104; 105]
                    (put_bit_seq [1; 0; 1]
                       (MakeBitFile be_word (Some blank_file) BF_APPEND)))
    = (0, Some f) /\
    forall din, inp din = out f ->
      exists s1 s2,
        get_bit_seq 3 (MakeBitFile be_word (Some din) BF_READ)
        = ([1; 0; 1], Some s1) /\
        get_char_seq 2 (Some s1) = ([104; 105], Some s2).
Proof.
  destruct (char_roundtrip_unaligned [1; 0; 1] [104; 105] be_word BF_APPEND blank_file)
    as [f [H1 H3]].
  - reflexivity.
  - reflexivity.
  - cbn. lia.
  - exists f. split; [exact H1 |]. intros din Hd.
    destruct (H3 din Hd) as [s1 [s2 [Hs [Hs2 _]]]]. exists s1, s2.
    split; [exact Hs | exact Hs2].
Defined.

(** ** Numeric transfers of any width *)

Lemma put_whole_bits n : forall bytes o d s,
  0 <= bitCount s < 8 -> 8 * Z.of_nat n <= capacity s ->
  let r := put_whole n bytes o d s in
  fst (fst r) = true /\ snd (fst r) = o + Z.of_nat n * d /\
  written_bits (snd r)
  = written_bits s
    ++ bytes_bits (map (fun i => rd bytes (o + Z.of_nat i * d)) (seq 0 n)) /\
  bitCount (snd r) = bitCount s /\
  capacity (snd r) = capacity s - 8 * Z.of_nat n /\
  PutBitsNumFunc (snd r) = PutBitsNumFunc s.
Proof.
  induction n as [| n IH]; intros bytes o d s Hk Hcap.
  - cbn [put_whole fst snd seq map]. unfold bytes_bits. cbn [flat_map].
    rewrite app_nil_r. repeat split; lia.
  - cbn [put_whole].
    destruct (PutChar_bits (rd bytes o) s Hk ltac:(lia)) as [Hr [Hw [Hc [Hcp Hpf]]]].
    destruct (PutChar (rd bytes o) s) as [r s1] eqn:E. cbn [fst snd] in *.
    replace (r =? EOF) with false by (symmetry; apply Z.eqb_neq; exact Hr).
    destruct (IH bytes (o + d) d s1 ltac:(lia) ltac:(lia))
      as [H1 [H2 [H3 [H4 [H5 H6]]]]].
    cbv zeta. split; [exact H1 |]. split; [rewrite H2; lia |].
    split; [| repeat split; try lia; congruence].
    rewrite H3, Hw, <- app_assoc. f_equal.
    cbn [seq map]. unfold bytes_bits. cbn [flat_map].
    replace (o + Z.of_nat 0 * d) with o by lia. f_equal.
    rewrite <- seq_shift, map_map. f_equal. apply map_ext. intros i. f_equal. lia.
Qed.

Lemma rd_uint_bytes e v (i : nat) :
  (i < 4)%nat ->
  rd (uint_bytes e v)
     ((match e with BF_BIG_ENDIAN => 3 | _ => 0 end)
      + Z.of_nat i * (match e with BF_BIG_ENDIAN => -1 | _ => 1 end))
  = uchar (Z.shiftr v (8 * Z.of_nat i)).
Proof.
  intros Hi.
  destruct i as [| [| [| [| i]]]]; [| | | | lia];
    destruct e; reflexivity.
Qed.

Lemma top_bits r x :
  (r < 8)%nat ->
  firstn r (byte_bits (uchar (Z.shiftl (uchar x) (8 - Z.of_nat r)))) = low_bits r x.
Proof.
  intros Hr. unfold byte_bits.
  do 8 (destruct r as [| r]; [cbn [firstn]; bits_eq |]). lia.
Qed.

Lemma PutBitsNum_body e s bytes count :
  e <> BF_UNKNOWN_ENDIAN -> PutBitsNumFunc s = Some (func_of e) ->
  0 <= count <= 32 ->
  BitFilePutBitsNum (Some s) (Some bytes) count 4
  = (let '(r, s') :=
       put_num_body s bytes count (match e with BF_BIG_ENDIAN => 3 | _ => 0 end)
         (match e with BF_BIG_ENDIAN => -1 | _ => 1 end) in
     (r, Some s')).
Proof.
  intros He Hf Hc. unfold BitFilePutBitsNum. rewrite Hf.
  destruct e; [contradiction He; reflexivity | reflexivity |].
  cbn [func_of]. unfold BitFilePutBitsBE.
  replace (uint count >? size_t (4 * 8)) with false; [reflexivity |].
  symmetry. unfold uint, size_t. rewrite Z.mod_small by lia.
  change ((4 * 8) mod 2 ^ 64) with 32. rewrite Z.gtb_ltb. apply Z.ltb_ge. lia.
Qed.

Lemma to_int_small z : 0 <= z <= 32 -> to_int z = z.
Proof.
  intros H. unfold to_int, uint. rewrite Z.mod_small by lia.
  replace (z <? 2 ^ 31) with true; [reflexivity |].
  symmetry. apply Z.ltb_lt. lia.
Qed.

Lemma tail_count_mod z : 0 <= z -> tail_count z = z mod 8.
Proof.
  intros H. unfold tail_count. destruct (Z.ltb_spec z 8); [| reflexivity].
  symmetry. apply Z.mod_small. lia.
Qed.

Lemma put_num_bits e s v count :
  e <> BF_UNKNOWN_ENDIAN -> PutBitsNumFunc s = Some (func_of e) ->
  0 <= bitCount s < 8 -> 0 <= count <= 32 -> count <= capacity s ->
  exists s',
    BitFilePutBitsNum (Some s) (Some (uint_bytes e v)) count 4 = (count, Some s') /\
    written_bits s' = written_bits s ++ num_bits count v /\
    0 <= bitCount s' < 8 /\ capacity s' = capacity s - count /\
    PutBitsNumFunc s' = PutBitsNumFunc s /\ mode s' = mode s.
Proof.
  intros He Hf Hk Hc Hcap.
  assert (Hmode : forall r s', BitFilePutBitsNum (Some s) (Some (uint_bytes e v)) count 4
                               = (r, Some s') -> mode s' = mode s).
  { intros r s' E. apply (PutBitsNum_mode s (uint_bytes e v) count 4 s').
    rewrite E. reflexivity. }
  rewrite (PutBitsNum_body e s _ count He Hf Hc) in *.
  unfold put_num_body in *. rewrite (to_int_small count Hc) in *.
  rewrite (tail_count_mod count ltac:(lia)) in *. unfold whole_count in *.
  set (o := match e with BF_BIG_ENDIAN => 3 | _ => 0 end) in *.
  set (d := match e with BF_BIG_ENDIAN => -1 | _ => 1 end) in *.
  pose proof (Z.div_mod count 8 ltac:(lia)) as Hdm.
  pose proof (Z.mod_pos_bound count 8 ltac:(lia)) as Hr.
  assert (Hq : 0 <= count / 8 <= 4).
  { split; [apply Z.div_pos; lia |]. apply Z.div_le_upper_bound; lia. }
  set (q := count / 8) in *. set (r := count mod 8) in *.
  destruct (put_whole_bits (Z.to_nat q) (uint_bytes e v) o d s Hk ltac:(lia))
    as [W1 [W2 [W3 [W4 [W5 W6]]]]].
  destruct (put_whole (Z.to_nat q) (uint_bytes e v) o d s) as [[ok off] s1].
  cbn [fst snd] in *. subst ok off. cbn [negb] in *.
  assert (Hwhole : map (fun i => rd (uint_bytes e v) (o + Z.of_nat i * d))
                     (seq 0 (Z.to_nat q))
                   = map (fun i => uchar (Z.shiftr v (8 * Z.of_nat i)))
                       (seq 0 (Z.to_nat q))).
  { apply map_ext_in. intros i Hi. apply in_seq in Hi.
    subst o d. apply rd_uint_bytes. lia. }
  assert (Hbb : forall f l, bytes_bits (map (fun i : nat => uchar (f i)) l)
                            = bytes_bits (map f l)).
  { intros f l. unfold bytes_bits. induction l as [| x t IH]; [reflexivity |].
    cbn [map flat_map]. rewrite byte_bits_uchar, IH. reflexivity. }
  rewrite Hwhole, Hbb in W3. unfold num_bits. fold q r.
  destruct (Z.eqb_spec r 0) as [Hr0 | Hr0].
  - cbn [negb] in *. exists s1. split; [reflexivity |].
    rewrite Hr0. change (Z.to_nat 0) with 0%nat. cbn [low_bits]. rewrite app_nil_r.
    split; [exact W3 |]. split; [lia |]. split; [lia |]. split; [exact W6 |].
    apply (Hmode count). reflexivity.
  - cbn [negb] in *.
    assert (Hq3 : (Z.to_nat q < 4)%nat) by lia.
    pose proof (rd_uint_bytes e v (Z.to_nat q) Hq3) as Hrd. fold o d in Hrd.
    rewrite Hrd in *.
    set (tmp := uchar (Z.shiftl (uchar (Z.shiftr v (8 * Z.of_nat (Z.to_nat q)))) (8 - r)))
      in *.
    destruct (put_tail_bits (Z.to_nat r) tmp s1 ltac:(lia) ltac:(lia) ltac:(lia))
      as [T1 [T2 [T3 [T4 T5]]]].
    destruct (put_tail (Z.to_nat r) tmp s1) as [ok2 s2]. cbn [fst snd] in *.
    subst ok2. cbn [negb] in *. exists s2. split; [reflexivity |].
    split; [| split; [lia | split; [lia | split; [congruence |]]]].
    + rewrite T2, W3, <- app_assoc. f_equal. f_equal. subst tmp.
      replace (8 - r) with (8 - Z.of_nat (Z.to_nat r)) by lia.
      rewrite top_bits by lia. f_equal. f_equal. lia.
    + apply (Hmode count). reflexivity.
Qed.

Lemma le_val_eq n : forall v r, 0 <= r ->
  le_val n v r = v mod 2 ^ (8 * Z.of_nat n + r).
Proof.
  induction n as [| n IH]; intros v r Hr.
  - cbn [le_val]. f_equal.
  - cbn [le_val]. rewrite IH by assumption.
    replace (8 * Z.of_nat (S n) + r) with (8 + (8 * Z.of_nat n + r)) by lia.
    rewrite (Z.pow_add_r 2 8) by lia. change (2 ^ 8) with 256.
    symmetry. apply Z.rem_mul_r; [lia |].
    apply Z.pow_pos_nonneg; lia.
Qed.

Lemma shiftr_byte_step v (i : nat) :
  Z.shiftr v (8 * Z.of_nat (S i)) = Z.shiftr v (8 * Z.of_nat i) / 256.
Proof.
  rewrite !Z.shiftr_div_pow2 by lia.
  replace (8 * Z.of_nat (S i)) with (8 * Z.of_nat i + 8) by lia.
  rewrite Z.pow_add_r by lia. change (2 ^ 8) with 256.
  rewrite Z.div_div; [reflexivity | | lia].
  apply Z.pow_nonzero; lia.
Qed.

Ltac eval_rd :=
  repeat match goal with
    | |- context [rd ?l ?i] =>
        let x := eval cbv in (rd l i) in change (rd l i) with x
    end.

Ltac eval_wr :=
  repeat match goal with
    | |- context [wr ?l ?i ?x] =>
        let y := eval cbv in (wr l i x) in change (wr l i x) with y
    end.

Lemma bytes_uint_stored e (cs : list Z) (qn : nat) (t : Z) :
  List.length cs = qn -> (qn <= 4)%nat -> (qn = 4%nat -> t = 0) ->
  let o := match e with BF_BIG_ENDIAN => 3 | _ => 0 end in
  let d := match e with BF_BIG_ENDIAN => -1 | _ => 1 end in
  rd (store_seq [0; 0; 0; 0] o d cs) (o + Z.of_nat qn * d) = 0 /\
  bytes_uint e (wr (store_seq [0; 0; 0; 0] o d cs) (o + Z.of_nat qn * d) t)
  = fold_right (fun c acc => c + 256 * acc) t cs /\
  bytes_uint e (store_seq [0; 0; 0; 0] o d cs)
  = fold_right (fun c acc => c + 256 * acc) 0 cs.
Proof.
  intros Hl Hq Ht o d. subst qn o d.
  destruct cs as [| c0 [| c1 [| c2 [| c3 [| c4 cs]]]]]; cbn [List.length] in *;
    [| | | | | lia];
    try (rewrite (Ht eq_refl));
    (destruct e; (split; [| split]);
     first
       [ solve [eval_rd; reflexivity]
       | unfold bytes_uint; cbn [store_seq]; eval_wr;
         cbn [rev app]; eval_rd; cbn [fold_right]; lia ]).
Qed.

Lemma fold_right_le_val (n : nat) : forall (i : nat) v r,
  fold_right (fun c acc => c + 256 * acc)
    (Z.shiftr v (8 * Z.of_nat (i + n)) mod 2 ^ r)
    (map (fun j => uchar (Z.shiftr v (8 * Z.of_nat j))) (seq i n))
  = le_val n (Z.shiftr v (8 * Z.of_nat i)) r.
Proof.
  induction n as [| n IH]; intros i v r.
  - cbn [seq map fold_right le_val]. rewrite Nat.add_0_r. reflexivity.
  - cbn [seq map fold_right le_val].
    replace (i + S n)%nat with (S i + n)%nat by lia.
    rewrite IH, shiftr_byte_step. reflexivity.
Qed.

Lemma get_num_val e s v count rest :
  e <> BF_UNKNOWN_ENDIAN -> GetBitsNumFunc s = Some (func_of e) ->
  0 <= bitCount s < 8 -> 0 <= count <= 32 ->
  unread_bits s = num_bits count v ++ rest ->
  exists b s',
    BitFileGetBitsNum (Some s) (Some (uint_bytes e 0)) count 4
    = (count, Some b, Some s') /\
    bytes_uint e b = v mod 2 ^ count /\ unread_bits s' = rest /\
    0 <= bitCount s' < 8 /\ GetBitsNumFunc s' = GetBitsNumFunc s /\
    out (fp s') = out (fp s).
Proof.
  intros He Hf Hk Hc Hu. rewrite uint_bytes_0.
  rewrite (GetBitsNum_body e s _ count He Hf Hc).
  unfold get_num_body. rewrite (to_int_small count Hc).
  rewrite (tail_count_mod count ltac:(lia)). unfold whole_count.
  set (o := match e with BF_BIG_ENDIAN => 3 | _ => 0 end).
  set (d := match e with BF_BIG_ENDIAN => -1 | _ => 1 end).
  pose proof (Z.div_mod count 8 ltac:(lia)) as Hdm.
  pose proof (Z.mod_pos_bound count 8 ltac:(lia)) as Hr.
  assert (Hq : 0 <= count / 8 <= 4).
  { split; [apply Z.div_pos; lia |]. apply Z.div_le_upper_bound; lia. }
  unfold num_bits in Hu.
  set (q := count / 8) in *. set (r := count mod 8) in *.
  set (cs := map (fun j => uchar (Z.shiftr v (8 * Z.of_nat j))) (seq 0 (Z.to_nat q))).
  assert (Hbb : bytes_bits (map (fun i => Z.shiftr v (8 * Z.of_nat i))
                              (seq 0 (Z.to_nat q))) = bytes_bits cs).
  { subst cs. generalize (seq 0 (Z.to_nat q)). clear. intros l.
    unfold bytes_bits. induction l as [| x t IH]; [reflexivity |].
    cbn [map flat_map]. rewrite byte_bits_uchar, IH. reflexivity. }
  rewrite Hbb, <- app_assoc in Hu.
  assert (Hlen : List.length cs = Z.to_nat q)
    by (subst cs; rewrite length_map, length_seq; reflexivity).
  assert (Hcs : Forall (fun c => 0 <= c < 256) cs).
  { subst cs. apply Forall_forall. intros c Hin. apply in_map_iff in Hin.
    destruct Hin as [j [<- _]]. apply uchar_range. }
  destruct (get_whole_val (Z.to_nat q) cs [0; 0; 0; 0] o d s _ Hlen Hcs Hu Hk)
    as [W1 [W2 [W3 [W4 [W5 W6]]]]].
  destruct (get_whole (Z.to_nat q) [0; 0; 0; 0] o d s) as [[[ok off] b1] s1].
  cbn [fst snd] in *. injection W1 as -> ->. subst b1. cbn [negb].
  set (t := Z.shiftr v (8 * q) mod 2 ^ r).
  assert (Ht : 0 <= t < 128).
  { subst t. assert (0 < 2 ^ r) by (apply Z.pow_pos_nonneg; lia).
    assert (2 ^ r <= 2 ^ 7) by (apply Z.pow_le_mono_r; lia).
    pose proof (Z.mod_pos_bound (Z.shiftr v (8 * q)) (2 ^ r) ltac:(lia)).
    change (2 ^ 7) with 128 in *. lia. }
  assert (Ht4 : Z.to_nat q = 4%nat -> t = 0).
  { intros E. subst t. replace r with 0 by lia. apply Z.mod_1_r. }
  destruct (bytes_uint_stored e cs (Z.to_nat q) t Hlen ltac:(lia) Ht4) as [S1 [S2 S3]].
  fold o d in S1, S2, S3.
  assert (Hval : fold_right (fun c acc => c + 256 * acc) t cs = v mod 2 ^ count).
  { subst t cs. replace (8 * q) with (8 * Z.of_nat (0 + Z.to_nat q)) by lia.
    rewrite fold_right_le_val, le_val_eq by lia.
    change (8 * Z.of_nat 0) with 0. rewrite Z.shiftr_0_r. f_equal. f_equal. lia. }
  destruct (Z.eqb_spec r 0) as [Hr0 | Hr0].
  - cbn [negb]. exists (store_seq [0; 0; 0; 0] o d cs), s1.
    split; [reflexivity |].
    split; [| rewrite Hr0 in W3; cbn [Z.to_nat low_bits app] in W3;
              repeat split; try assumption; try lia; congruence].
    rewrite <- Hval, S3.
    assert (Ht0 : t = 0) by (subst t; rewrite Hr0; apply Z.mod_1_r).
    rewrite Ht0. reflexivity.
  - cbn [negb].
    assert (Hq3 : (Z.to_nat q < 4)%nat) by lia.
    assert (Ho : 0 <= o + Z.of_nat (Z.to_nat q) * d < 4)
      by (subst o d; destruct e; lia).
    assert (Hsl : forall l bs o' d', List.length (store_seq bs o' d' l) = List.length bs).
    { induction l as [| x l IH]; intros bs o' d'; [reflexivity |].
      cbn [store_seq]. rewrite IH. apply length_wr. }
    destruct (get_tail_val (Z.to_nat r) (low_bits (Z.to_nat r) (Z.shiftr v (8 * q)))
                (store_seq [0; 0; 0; 0] o d cs)
                (o + Z.of_nat (Z.to_nat q) * d) s1 rest
                (low_bits_length _ _) W3 ltac:(lia)
                ltac:(rewrite Hsl; change (Z.of_nat (List.length [0; 0; 0; 0])) with 4; lia))
      as [T1 [T2 [T3 [T4 [T5 T6]]]]].
    destruct (get_tail (Z.to_nat r) _ _ s1) as [[ok2 b2] s2]. cbn [fst snd] in *.
    subst ok2. cbn [negb]. exists b2, s2. split; [reflexivity |].
    split; [| repeat split; try assumption; try lia; congruence].
    subst b2.
    replace (Z.to_nat r =? 0)%nat with false by (symmetry; apply Nat.eqb_neq; lia).
    rewrite fold_shift_in_low_bits, S1, Z.mul_0_l, Z.add_0_l.
    rewrite !Z2Nat.id in * by lia. fold t. rewrite (uchar_small t) by lia.
    rewrite S2. exact Hval.
Qed.

Lemma put_num_seq_bits e fields : forall s,
  e <> BF_UNKNOWN_ENDIAN -> PutBitsNumFunc s = Some (func_of e) ->
  0 <= bitCount s < 8 ->
  Forall (fun f => 0 <= fst f <= 32) fields ->
  fields_width fields <= capacity s ->
  exists s',
    put_num_seq e fields (Some s) = Some s' /\
    written_bits s' = written_bits s ++ fields_bits fields /\
    0 <= bitCount s' < 8 /\
    capacity s' = capacity s - fields_width fields /\
    mode s' = mode s.
Proof.
  induction fields as [| [c v] t IH]; intros s He Hf Hk Hall Hcap.
  - exists s. cbn [put_num_seq fields_bits flat_map fields_width fold_right].
    rewrite app_nil_r. repeat split; lia.
  - inversion Hall as [| x l Hc Ht]; subst. cbn [fst] in Hc.
    cbn [fields_width fold_right fst] in Hcap. fold (fields_width t) in Hcap.
    assert (Hw0 : 0 <= fields_width t).
    { clear - Ht. induction Ht as [| x l Hx _ IH]; cbn [fields_width fold_right];
        [lia |]. fold (fields_width l). lia. }
    destruct (put_num_bits e s v c He Hf Hk Hc ltac:(lia))
      as [s1 [E1 [Hw1 [Hk1 [Hc1 [Hf1 Hm1]]]]]].
    destruct (IH s1 He ltac:(congruence) Hk1 Ht ltac:(lia))
      as [s' [E [Hw [Hk' [Hc' Hm']]]]].
    exists s'. cbn [put_num_seq]. rewrite E1. cbn [snd].
    split; [exact E |]. split.
    + rewrite Hw, Hw1, <- app_assoc. reflexivity.
    + cbn [fields_width fold_right fst]. fold (fields_width t).
      repeat split; try lia; congruence.
Qed.

Lemma get_num_seq_val e fields : forall s rest,
  e <> BF_UNKNOWN_ENDIAN -> GetBitsNumFunc s = Some (func_of e) ->
  0 <= bitCount s < 8 ->
  Forall (fun f => 0 <= fst f <= 32) fields ->
  unread_bits s = fields_bits fields ++ rest ->
  exists s',
    get_num_seq e (map fst fields) (Some s)
    = (map (fun f => (fst f, snd f mod 2 ^ fst f)) fields, Some s') /\
    unread_bits s' = rest /\ 0 <= bitCount s' < 8.
Proof.
  induction fields as [| [c v] t IH]; intros s rest He Hf Hk Hall Hu.
  - exists s. cbn [get_num_seq map]. repeat split; try assumption; lia.
  - inversion Hall as [| x l Hc Ht]; subst. cbn [fst] in Hc.
    cbn [fields_bits flat_map fst snd] in Hu. fold (fields_bits t) in Hu.
    rewrite <- app_assoc in Hu.
    destruct (get_num_val e s v c _ He Hf Hk Hc Hu)
      as [b [s1 [E1 [Hv [Hu1 [Hk1 [Hf1 _]]]]]]].
    destruct (IH s1 rest He ltac:(congruence) Hk1 Ht Hu1) as [s' [E [Hu' Hk']]].
    exists s'. cbn [get_num_seq map fst snd]. rewrite E1, E, Hv.
    repeat split; try assumption; lia.
Qed.

(** X4: a sequence of fields of up to 32 bits each, written with
    BitFilePutBitsNum from unsigned int variables on a host of one known
    endianness, is read back with BitFileGetBitsNum into zeroed unsigned int
    variables on a host of either known endianness as the values modulo 2 ^
    count. *)
Theorem numeric_roundtrip_portable (w1 w2 : list Z) (fields : list (Z * Z))
    (m : BF_MODES) (fout : FILE) :
  DetermineEndianess w1 <> BF_UNKNOWN_ENDIAN ->
  DetermineEndianess w2 <> BF_UNKNOWN_ENDIAN ->
  writing m = true -> out fout = [] ->
  Forall (fun f => 0 <= fst f <= 32) fields ->
  fields_width fields < 8 * Z.of_nat (room fout) ->
  exists f,
    BitFileClose (put_num_seq (DetermineEndianess w1) fields
                    (MakeBitFile w1 (Some fout) m)) = (0, Some f) /\
    forall din, inp din = out f ->
      exists s',
        get_num_seq (DetermineEndianess w2) (map fst fields)
          (MakeBitFile w2 (Some din) BF_READ)
        = (map (fun f => (fst f, snd f mod 2 ^ fst f)) fields, Some s') /\
        zero_pad (unread_bits s').
Proof.
  intros He1 He2 Hm Hout Hall Hroom.
  destruct (func_of_Determine w1 fout m) as [bf [E [_ [P [C [_ [F M]]]]]]].
  rewrite E.
  assert (Hcap : capacity bf = 8 * Z.of_nat (room fout))
    by (unfold capacity; rewrite C, F; lia).
  destruct (put_num_seq_bits _ fields bf He1 P ltac:(lia) Hall ltac:(lia))
    as [s1 [E1 [Hw [Hk1 [Hc1 Hm1]]]]].
  rewrite E1. cbn [BitFileClose].
  destruct (flush_bits s1 ltac:(congruence) Hk1 ltac:(lia)) as [pad [Hpad Hfl]].
  assert (Hwb : written_bits bf = []).
  { unfold written_bits. rewrite C, F, Hout. reflexivity. }
  rewrite Hw, Hwb in Hfl. cbn [app] in Hfl.
  exists (fp (flush_residue s1)). split; [reflexivity |].
  intros din Hdin.
  destruct (func_of_Determine w2 din BF_READ) as [bd [Ed [G [_ [Cd [_ [Fd _]]]]]]].
  rewrite Ed.
  assert (Hu : unread_bits bd = fields_bits fields ++ pad).
  { unfold unread_bits. rewrite Cd, Fd, Hdin. exact Hfl. }
  destruct (get_num_seq_val _ fields bd pad He2 G ltac:(lia) Hall Hu)
    as [s' [Eg [Hu' _]]].
  exists s'. split; [exact Eg | rewrite Hu'; exact Hpad].
Qed.

Lemma numeric_roundtrip_portable_witness :
  exists f,
    BitFileClose (put_num_seq BF_LITTLE_ENDIAN [(12, 2748); (4, 9); (32, 305419896); (3, 13)]
                    (MakeBitFile le_word (Some blank_file) BF_WRITE)) = (0, Some f) /\
    forall din, inp din = out f ->
      exists s',
        get_num_seq BF_BIG_ENDIAN [12; 4; 32; 3]
          (MakeBitFile be_word (Some din) BF_READ)
        = ([(12, 2748); (4, 9); (32, 305419896); (3, 5)], Some s').
Proof.
  destruct (numeric_roundtrip_portable le_word be_word
              [(12, 2748); (4, 9); (32, 305419896); (3, 13)] BF_WRITE blank_file)
    as [f [H1 H2]].
  - discriminate.
  - discriminate.
  - reflexivity.
  - reflexivity.
  - repeat constructor; cbn; lia.
  - cbn. lia.
  - exists f. split; [exact H1 |]. intros din Hd.
    destruct (H2 din Hd) as [s' [Hs _]]. exists s'. exact Hs.
Defined.

(** X5: BitFilePutBitsNum with count <= 32 on a 4-byte integer returns count
    and appends the same bits on a little-endian and on a big-endian host:
    the whole bytes of the value from the least significant one on, then the
    low count mod 8 bits of the next byte, most significant first; the bit
    count of the buffer advances by count modulo 8. *)
Theorem PutBitsNum_wire_format (e : endian_t) (s : bit_file_t) (v count : Z) :
  e <> BF_UNKNOWN_ENDIAN -> PutBitsNumFunc s = Some (func_of e) ->
  0 <= bitCount s < 8 -> 0 <= count <= 32 -> count <= capacity s ->
  exists s',
    BitFilePutBitsNum (Some s) (Some (uint_bytes e v)) count 4 = (count, Some s') /\
    written_bits s' = written_bits s ++ num_bits count v /\
    bitCount s' = (bitCount s + count) mod 8.
Proof.
  intros He Hf Hk Hc Hcap.
  destruct (put_num_bits e s v count He Hf Hk Hc Hcap)
    as [s' [E [Hw [Hk' [Hc' _]]]]].
  exists s'. split; [exact E |]. split; [exact Hw |].
  unfold capacity in Hc'.
  assert (Hroom : bitCount s' = bitCount s + count
                  - 8 * (Z.of_nat (room (fp s)) - Z.of_nat (room (fp s')))) by lia.
  apply (Z.mod_unique _ _ (Z.of_nat (room (fp s)) - Z.of_nat (room (fp s'))));
    [left; exact Hk' | lia].
Qed.

Lemma PutBitsNum_wire_format_witness :
  exists s',
    BitFilePutBitsNum (MakeBitFile be_word (Some blank_file) BF_WRITE)
      (Some (uint_bytes BF_BIG_ENDIAN 2748)) 12 4 = (12, Some s') /\
    written_bits s' = num_bits 12 2748 /\
    bitCount s' = 4.
Proof.
  destruct (func_of_Determine be_word blank_file BF_WRITE)
    as [bf [E [_ [P [C [_ [F M]]]]]]].
  rewrite E.
  destruct (PutBitsNum_wire_format BF_BIG_ENDIAN bf 2748 12) as [s' [H1 [H2 H3]]].
  - discriminate.
  - exact P.
  - lia.
  - lia.
  - unfold capacity. rewrite C, F. cbn. lia.
  - exists s'. split; [exact H1 |]. split.
    + rewrite H2. unfold written_bits. rewrite C, F. reflexivity.
    + rewrite H3, C. reflexivity.
Defined.

Lemma uint_bytes_byte e x :
  0 <= x < 256 ->
  uint_bytes e x = match e with BF_BIG_ENDIAN => [0; 0; 0; x] | _ => [x; 0; 0; 0] end.
Proof.
  intros Hx. unfold uint_bytes.
  assert (H8 : Z.shiftr x 8 = 0).
  { rewrite Z.shiftr_div_pow2 by lia. apply Z.div_small. change (2 ^ 8) with 256. lia. }
  assert (H16 : Z.shiftr x 16 = 0).
  { rewrite Z.shiftr_div_pow2 by lia. apply Z.div_small. change (2 ^ 16) with 65536. lia. }
  assert (H24 : Z.shiftr x 24 = 0).
  { rewrite Z.shiftr_div_pow2 by lia. apply Z.div_small.
    change (2 ^ 24) with 16777216. lia. }
  rewrite H8, H16, H24, (uchar_small x Hx). destruct e; reflexivity.
Qed.

(** X6: BitFileGetBitsNum of fewer than eight bits does not clear its
    destination: the bits read are shifted into the byte already there, so a
    variable that held old < 256 ends as (old * 2 ^ count + bits) mod 256. *)
Theorem GetBitsNum_keeps_stale_bits (e : endian_t) (s : bit_file_t)
    (old v count : Z) (rest : list bool) :
  e <> BF_UNKNOWN_ENDIAN -> GetBitsNumFunc s = Some (func_of e) ->
  0 <= bitCount s < 8 -> 0 < count < 8 -> 0 <= old < 256 ->
  unread_bits s = low_bits (Z.to_nat count) v ++ rest ->
  exists b s',
    BitFileGetBitsNum (Some s) (Some (uint_bytes e old)) count 4
    = (count, Some b, Some s') /\
    bytes_uint e b = (old * 2 ^ count + v mod 2 ^ count) mod 256 /\
    unread_bits s' = rest.
Proof.
  intros He Hf Hk Hc Hold Hu.
  rewrite (GetBitsNum_body e s _ count He Hf ltac:(lia)).
  unfold get_num_body. rewrite (to_int_small count ltac:(lia)).
  rewrite (tail_count_mod count ltac:(lia)). unfold whole_count.
  rewrite (Z.div_small count 8), (Z.mod_small count 8) by lia.
  change (Z.to_nat 0) with 0%nat. cbn [get_whole negb].
  replace (count =? 0) with false by (symmetry; apply Z.eqb_neq; lia).
  cbn [negb].
  set (o := match e with BF_BIG_ENDIAN => 3 | _ => 0 end).
  assert (Ho : 0 <= o < 4) by (subst o; destruct e; lia).
  assert (Hlen : List.length (uint_bytes e old) = 4%nat) by (destruct e; reflexivity).
  destruct (get_tail_val (Z.to_nat count) (low_bits (Z.to_nat count) v)
              (uint_bytes e old) o s rest (low_bits_length _ _) Hu Hk
              ltac:(rewrite Hlen; lia))
    as [T1 [T2 [T3 _]]].
  destruct (get_tail (Z.to_nat count) _ _ s) as [[ok2 b2] s2]. cbn [fst snd] in *.
  subst ok2. cbn [negb]. exists b2, s2. split; [reflexivity |].
  split; [| exact T3]. subst b2.
  replace (Z.to_nat count =? 0)%nat with false by (symmetry; apply Nat.eqb_neq; lia).
  rewrite fold_shift_in_low_bits, Z2Nat.id by lia.
  rewrite (uint_bytes_byte e old Hold).
  set (x := uchar _). unfold uchar in x.
  subst o. destruct e; [contradiction He; reflexivity | |].
  - change (rd [old; 0; 0; 0] 0) with old in x. subst x.
    apply bytes_uint_le1.
  - change (rd [0; 0; 0; old] 3) with old in x. subst x.
    apply bytes_uint_be1.
Qed.

Lemma GetBitsNum_keeps_stale_bits_witness :
  exists b s',
    BitFileGetBitsNum (MakeBitFile le_word (Some (file_of [154])) BF_READ)
      (Some (uint_bytes BF_LITTLE_ENDIAN 255)) 4 4
    = (4, Some b, Some s') /\
    bytes_uint BF_LITTLE_ENDIAN b = 249 /\
    unread_bits s' = [true; false; true; false].
Proof.
  destruct (func_of_Determine le_word (file_of [154]) BF_READ)
    as [bf [E [G [_ [C [B [F _]]]]]]].
  rewrite E.
  apply (GetBitsNum_keeps_stale_bits BF_LITTLE_ENDIAN bf 255 9 4).
  - discriminate.
  - exact G.
  - lia.
  - lia.
  - lia.
  - unfold unread_bits. rewrite C, F. reflexivity.
Defined.

(** ** The size test of the numeric transfers *)

(** On a little-endian host a transfer of 9 bits for a 1 byte object goes
    through: [BitFilePutBitsNum] returns 9 with 8 bits on file and one
    pending, [BitFileGetBitsNum] returns 9 and stores into two bytes. *)
Lemma little_endian_ignores_size :
  9 > 1 * 8 /\
  (exists s',
     BitFilePutBitsNum (Some le_stream) (Some [171; 1; 0; 0]) 9 1 = (9, Some s') /\
     out (fp s') = [171] /\ bitCount s' = 1 /\ Z.testbit (bitBuffer s') 0 = true) /\
  (exists s',
     BitFileGetBitsNum (Some (le_reader [171; 128])) (Some [0; 0; 0; 0]) 9 1
     = (9, Some [171; 1; 0; 0], Some s') /\ bitCount s' = 7) /\
  ~ (forall (s : bit_file_t) (bytes : list Z) (count size : Z),
        0 <= count < 2 ^ 32 -> 0 <= size < 2 ^ 32 -> count > size * 8 ->
        BitFilePutBitsNum (Some s) (Some bytes) count size = (EOF, Some s) /\
        BitFileGetBitsNum (Some s) (Some bytes) count size
          = (EOF, Some bytes, Some s)).
Proof.
  split; [lia |]. split; [| split].
  - eexists. split; [vm_compute; reflexivity |]. repeat split.
  - eexists. split; [vm_compute; reflexivity |]. reflexivity.
  - intros H.
    destruct (H le_stream [171; 1; 0; 0] 9 1) as [Hput _]; try lia.
    vm_compute in Hput. discriminate Hput.
Qed.

(** C5, amended: with [count > size * 8] the big-endian transfers return
    [EOF] and leave the stream and the destination as they were.  The
    little-endian transfers do not look at [size]: they give the same
    result for every size, and a transfer of [count <= 32] bits of a 4-byte
    integer returns [count] and moves [count] bits when the stream has
    room for them (writing) or holds them (reading). *)
Theorem big_endian_refuses_oversized (s : bit_file_t) (bytes : list Z)
  (count size : Z) :
  0 <= count < 2 ^ 32 -> 0 <= size < 2 ^ 32 -> count > size * 8 ->
  (PutBitsNumFunc s = Some FuncBE ->
     BitFilePutBitsNum (Some s) (Some bytes) count size = (EOF, Some s)) /\
  (GetBitsNumFunc s = Some FuncBE ->
     BitFileGetBitsNum (Some s) (Some bytes) count size
       = (EOF, Some bytes, Some s)) /\
  (forall size',
     BitFilePutBitsLE s bytes count size = BitFilePutBitsLE s bytes count size' /\
     BitFileGetBitsLE s bytes count size = BitFileGetBitsLE s bytes count size') /\
  (forall v,
     PutBitsNumFunc s = Some FuncLE -> 0 <= bitCount s < 8 ->
     count <= 32 -> count <= capacity s ->
     exists s',
       BitFilePutBitsNum (Some s) (Some (uint_bytes BF_LITTLE_ENDIAN v)) count size
       = (count, Some s') /\
       written_bits s' = written_bits s ++ num_bits count v) /\
  (forall v rest,
     GetBitsNumFunc s = Some FuncLE -> 0 <= bitCount s < 8 ->
     count <= 32 -> unread_bits s = num_bits count v ++ rest ->
     exists b s',
       BitFileGetBitsNum (Some s) (Some (uint_bytes BF_LITTLE_ENDIAN 0)) count size
       = (count, Some b, Some s') /\
       bytes_uint BF_LITTLE_ENDIAN b = v mod 2 ^ count /\
       unread_bits s' = rest).
Proof.
  intros Hc Hs Hgt.
  assert (Hcmp : (uint count >? size_t (size * 8)) = true).
  { unfold uint, size_t. rewrite !Z.mod_small by lia. apply Z.gtb_lt. lia. }
  split; [| split; [| split; [| split]]].
  - intros Hf. unfold BitFilePutBitsNum, BitFilePutBitsBE. rewrite Hf, Hcmp.
    reflexivity.
  - intros Hf. unfold BitFileGetBitsNum, BitFileGetBitsBE. rewrite Hf, Hcmp.
    reflexivity.
  - intros size'. split; reflexivity.
  - intros v Hf Hk Hc32 Hcap.
    destruct (put_num_bits BF_LITTLE_ENDIAN s v count ltac:(discriminate) Hf Hk
                ltac:(lia) Hcap) as [s' [E [Hw _]]].
    exists s'. split; [| exact Hw]. rewrite <- E.
    unfold BitFilePutBitsNum. rewrite Hf. reflexivity.
  - intros v rest Hf Hk Hc32 Hu.
    destruct (get_num_val BF_LITTLE_ENDIAN s v count rest ltac:(discriminate) Hf Hk
                ltac:(lia) Hu) as [b [s' [E [Hv [Hr _]]]]].
    exists b, s'. split; [| split; [exact Hv | exact Hr]]. rewrite <- E.
    unfold BitFileGetBitsNum. rewrite Hf. reflexivity.
Qed.

Lemma big_endian_refuses_oversized_witness :
  BitFilePutBitsNum (Some be_stream) (Some [0; 0; 1; 171]) 9 1
  = (EOF, Some be_stream).
Proof.
  apply (big_endian_refuses_oversized be_stream [0; 0; 1; 171] 9 1);
    try lia; reflexivity.
Defined.

(** ** Flushing and aligning *)

(** X7: with 1 to 7 bits pending and room on the device, BitFileFlushOutput
    writes one byte, returns it, and empties the buffer; the byte is the
    pending bits followed by ones when onesFill is non-zero and by zeros
    otherwise. *)
Theorem BitFileFlushOutput_fills (s : bit_file_t) (onesFill : Z) :
  0 < bitCount s < 8 -> (0 < room (fp s))%nat -> 0 <= onesFill < 256 ->
  exists r s',
    BitFileFlushOutput (Some s) onesFill = (r, Some s') /\
    out (fp s') = out (fp s) ++ [r] /\
    written_bits s'
    = written_bits s
      ++ repeat (negb (onesFill =? 0)) (Z.to_nat (8 - bitCount s)) /\
    bitCount s' = 0.
Proof.
  intros Hk Hroom _. unfold BitFileFlushOutput, written_bits.
  destruct s as [f buf k pf gf m]. cbn [fp bitCount bitBuffer] in *.
  replace (k =? 0) with false by (symmetry; apply Z.eqb_neq; lia).
  cbn [negb]. rewrite fputc_ok by lia.
  eexists. eexists. split; [reflexivity |]. rec_simpl.
  split; [reflexivity |]. split; [| reflexivity].
  change (Z.to_nat 0) with 0%nat. cbn [low_bits]. rewrite app_nil_r.
  rewrite bytes_bits_snoc, byte_bits_uchar, <- app_assoc. f_equal.
  unfold byte_bits.
  assert (Hk' : 0 <= k < 8) by lia.
  destruct (onesFill =? 0); cbn [negb];
    k_cases k; try lia; consts;
    repeat match goal with
      | |- context [Z.to_nat (8 - ?a)] =>
          let v := eval vm_compute in (Z.to_nat (8 - a)) in
          change (Z.to_nat (8 - a)) with v
      end;
    repeat match goal with
      | |- context [Z.shiftr 255 ?a] =>
          let v := eval vm_compute in (Z.shiftr 255 a) in
          change (Z.shiftr 255 a) with v
      end;
    cbn [low_bits Z.of_nat Pos.of_succ_nat Pos.succ repeat app];
    repeat (f_equal;
            [solve [tb;
                    repeat match goal with
                      | |- context [Z.testbit ?c ?i] =>
                          is_num c;
                          let v := eval vm_compute in (Z.testbit c i) in
                          change (Z.testbit c i) with v
                      end; tb] |]);
    try solve [tb].
Qed.

Lemma BitFileFlushOutput_fills_witness :
  exists r s',
    BitFileFlushOutput
      (put_bit_seq [1; 0; 1] (MakeBitFile le_word (Some blank_file) BF_WRITE)) 1
    = (r, Some s') /\
    out (fp s') = [191] /\ r = 191.
Proof.
  destruct (BitFileFlushOutput_fills
              (mkBF blank_file 5 3 (Some FuncLE) (Some FuncLE) BF_WRITE) 1)
    as [r [s' [H1 [H2 _]]]].
  - cbn. lia.
  - cbn. lia.
  - lia.
  - exists r, s'. split; [exact H1 |].
    injection H1 as Hr Hs. subst s'. split; [reflexivity | symmetry; exact Hr].
Defined.

(** X8: on a write stream BitFileByteAlign returns the bit buffer as it was
    before the flush (not left-justified), pads the pending bits with fewer
    than eight zero bits to a byte boundary and leaves the buffer empty;
    BitFileToFILE returns the same file. *)
Theorem BitFileByteAlign_writer (s : bit_file_t) :
  writing (mode s) = true -> 0 <= bitCount s < 8 -> 1 <= capacity s ->
  exists s' pad,
    BitFileByteAlign (Some s) = (bitBuffer s, Some s') /\
    zero_pad pad /\
    written_bits s' = written_bits s ++ pad /\
    bitCount s' = 0 /\
    BitFileToFILE (Some s) = Some (fp s').
Proof.
  intros Hm Hk Hcap.
  destruct (flush_bits s Hm Hk Hcap) as [pad [Hpad Hfl]].
  exists (set_buf (flush_residue s) 0 0), pad.
  split; [reflexivity |]. split; [exact Hpad |].
  split; [| split; [reflexivity |]].
  - unfold written_bits at 1. destruct (flush_residue s) as [f b k pf gf m].
    cbn [set_buf fp bitCount bitBuffer] in *. change (Z.to_nat 0) with 0%nat.
    cbn [low_bits]. rewrite app_nil_r. exact Hfl.
  - unfold BitFileToFILE. destruct (flush_residue s); reflexivity.
Qed.

Lemma BitFileByteAlign_writer_witness :
  exists s',
    BitFileByteAlign
      (put_bit_seq [1; 0; 1] (MakeBitFile le_word (Some blank_file) BF_WRITE))
    = (5, Some s') /\
    out (fp s') = [160].
Proof.
  destruct (BitFileByteAlign_writer
              (mkBF blank_file 5 3 (Some FuncLE) (Some FuncLE) BF_WRITE))
    as [s' [pad [H1 _]]].
  - reflexivity.
  - cbn. lia.
  - cbn. lia.
  - exists s'. split; [exact H1 |].
    injection H1 as Hs. subst s'. reflexivity.
Defined.

(** X9: on a read stream BitFileByteAlign writes nothing, returns the bit
    buffer and drops the bits still buffered: reading goes on at the next
    byte of the file. *)
Theorem BitFileByteAlign_reader (s : bit_file_t) :
  mode s = BF_READ -> 0 <= bitCount s < 8 ->
  exists s',
    BitFileByteAlign (Some s) = (bitBuffer s, Some s') /\
    unread_bits s' = skipn (Z.to_nat (bitCount s)) (unread_bits s) /\
    fp s' = fp s /\ bitCount s' = 0.
Proof.
  intros Hm Hk. exists (set_buf (flush_residue s) 0 0).
  split; [reflexivity |].
  unfold flush_residue. rewrite Hm. cbn [writing].
  destruct s as [f b k pf gf m]. cbn [set_buf fp bitCount bitBuffer] in *.
  split; [| split; reflexivity].
  unfold unread_bits. cbn [fp bitCount bitBuffer].
  change (Z.to_nat 0) with 0%nat. cbn [low_bits app].
  rewrite skipn_app, low_bits_length, Nat.sub_diag, skipn_all2
    by (rewrite low_bits_length; lia).
  reflexivity.
Qed.

Lemma BitFileByteAlign_reader_witness :
  exists s',
    BitFileByteAlign
      (snd (get_bit_seq 3 (MakeBitFile le_word (Some (file_of [171; 205])) BF_READ)))
    = (171, Some s') /\
    unread_bits s' = byte_bits 205.
Proof.
  destruct (BitFileByteAlign_reader
              (mkBF (mkFILE [205] [] 0) 171 5 (Some FuncLE) (Some FuncLE) BF_READ))
    as [s' [H1 [H2 _]]].
  - reflexivity.
  - cbn. lia.
  - exists s'. split; [exact H1 |]. rewrite H2. reflexivity.
Defined.

(** ** The end of the input and a full device *)

Lemma set_fp_same s : set_fp s (fp s) = s.
Proof. destruct s; reflexivity. Qed.

Lemma get_bit_seq_app a : forall n st,
  get_bit_seq (a + n) st
  = (let '(l1, s1) := get_bit_seq a st in
     let '(l2, s2) := get_bit_seq n s1 in (l1 ++ l2, s2)).
Proof.
  induction a as [| a IH]; intros n st.
  - cbn [Nat.add get_bit_seq app]. destruct (get_bit_seq n st). reflexivity.
  - cbn [Nat.add get_bit_seq]. destruct (BitFileGetBit st) as [r s'].
    rewrite IH. destruct (get_bit_seq a s') as [l1 s1].
    destruct (get_bit_seq n s1) as [l2 s2]. reflexivity.
Qed.

Lemma get_bit_seq_eof n : forall s,
  inp (fp s) = [] -> bitCount s = 0 ->
  get_bit_seq n (Some s) = (repeat EOF n, Some s).
Proof.
  induction n as [| n IH]; intros s Hi Hk; [reflexivity |].
  cbn [get_bit_seq repeat]. unfold BitFileGetBit, lift, GetBit, fgetc.
  rewrite Hk, Hi. change (0 =? 0) with true. cbv iota.
  change (EOF =? EOF) with true. cbv iota. rewrite (IH s Hi Hk). reflexivity.
Qed.

Lemma unread_nil s :
  0 <= bitCount s < 8 -> unread_bits s = [] -> inp (fp s) = [] /\ bitCount s = 0.
Proof.
  intros Hk Hu. unfold unread_bits in Hu. apply app_eq_nil in Hu.
  destruct Hu as [H1 H2]. split.
  - destruct (inp (fp s)) as [| x t]; [reflexivity |].
    unfold bytes_bits in H2. cbn [flat_map] in H2. discriminate H2.
  - apply (f_equal (@List.length bool)) in H1. rewrite low_bits_length in H1.
    cbn [List.length] in H1. lia.
Qed.

(** X10: when the file is exhausted BitFileGetChar returns EOF and leaves
    the stream as it is, also while bits are still buffered; BitFileGetBit
    still delivers the buffered bits and returns EOF from then on. *)
Theorem reads_at_end_of_file (s : bit_file_t) (n : nat) :
  inp (fp s) = [] -> 0 <= bitCount s < 8 ->
  BitFileGetChar (Some s) = (EOF, Some s) /\
  fst (get_bit_seq (Z.to_nat (bitCount s) + n) (Some s))
  = map Z.b2z (low_bits (Z.to_nat (bitCount s)) (bitBuffer s)) ++ repeat EOF n.
Proof.
  intros Hi Hk. split.
  - unfold BitFileGetChar, lift, GetChar, fgetc. rewrite Hi, set_fp_same.
    change (negb (EOF =? EOF)) with false.
    destruct (bitCount s =? 0); reflexivity.
  - rewrite get_bit_seq_app.
    assert (Hu : unread_bits s = low_bits (Z.to_nat (bitCount s)) (bitBuffer s) ++ []).
    { unfold unread_bits. rewrite Hi. reflexivity. }
    destruct (get_bit_seq_val _ s [] Hk Hu) as [s' [E [Hu' Hk']]].
    rewrite low_bits_length in E. rewrite E.
    destruct (unread_nil s' Hk' Hu') as [Hi' Hz].
    rewrite (get_bit_seq_eof n s' Hi' Hz). reflexivity.
Qed.

Lemma reads_at_end_of_file_witness :
  BitFileGetChar (Some (mkBF (file_of []) 5 3 (Some FuncLE) (Some FuncLE) BF_READ))
  = (EOF, Some (mkBF (file_of []) 5 3 (Some FuncLE) (Some FuncLE) BF_READ)) /\
  fst (get_bit_seq 5 (Some (mkBF (file_of []) 5 3 (Some FuncLE) (Some FuncLE) BF_READ)))
  = [1; 0; 1; EOF; EOF].
Proof.
  apply (reads_at_end_of_file
           (mkBF (file_of []) 5 3 (Some FuncLE) (Some FuncLE) BF_READ) 2).
  - reflexivity.
  - cbn. lia.
Defined.

(** X11: on a device that takes no more bytes BitFilePutChar returns EOF and
    leaves the stream as it is; BitFilePutBit returns its argument until the
    eighth bit, then returns EOF and resets the buffer, so the eight bits
    are lost; no sequence of bit writes changes the file. *)
Theorem writes_to_full_device (s : bit_file_t) (c : Z) :
  room (fp s) = 0%nat -> 0 <= bitCount s < 8 ->
  BitFilePutChar c (Some s) = (EOF, Some s) /\
  (bitCount s < 7 ->
     fst (BitFilePutBit c (Some s)) = c) /\
  (bitCount s = 7 ->
     BitFilePutBit c (Some s) = (EOF, Some (set_buf s 0 0))) /\
  forall cs s',
    put_bit_seq cs (Some s) = Some s' -> fp s' = fp s.
Proof.
  intros Hr Hk.
  assert (Hf : forall x, fputc x (fp s) = (EOF, fp s)).
  { intros x. unfold fputc. rewrite Hr. reflexivity. }
  split; [| split; [| split]].
  - unfold BitFilePutChar, lift, PutChar. rewrite !Hf, set_fp_same.
    change (negb (EOF =? EOF)) with false.
    destruct (bitCount s =? 0); reflexivity.
  - intros H7. unfold BitFilePutBit, lift, PutBit.
    replace (uchar (bitCount s + 1) =? 8) with false; [reflexivity |].
    symmetry. apply Z.eqb_neq. rewrite uchar_small by lia. lia.
  - intros H7. unfold BitFilePutBit, lift, PutBit. rewrite H7.
    change (uchar (7 + 1) =? 8) with true. cbv iota. rewrite Hf.
    change (EOF =? EOF) with true. cbv iota. rewrite set_fp_same. reflexivity.
  - intros cs. revert s Hr Hk Hf.
    induction cs as [| x t IH]; intros s Hr Hk Hf s' E.
    + cbn [put_bit_seq] in E. injection E as <-. reflexivity.
    + cbn [put_bit_seq] in E. unfold BitFilePutBit, lift in E.
      assert (Hstep : fp (snd (PutBit x s)) = fp s /\
                      0 <= bitCount (snd (PutBit x s)) < 8).
      { unfold PutBit. destruct (uchar (bitCount s + 1) =? 8) eqn:E8.
        - rewrite Hf. cbn [snd]. rewrite set_fp_same.
          destruct s as [f b k pf gf m]; cbn; split; [reflexivity | lia].
        - cbn [snd]. apply Z.eqb_neq in E8.
          pose proof (uchar_small (bitCount s + 1) ltac:(lia)) as Hu.
          rewrite Hu in E8.
          destruct s as [f b k pf gf m]; cbn [set_buf fp bitCount] in *.
          rewrite Hu. split; [reflexivity | lia]. }
      destruct (PutBit x s) as [r s1]. cbn [snd] in *. destruct Hstep as [F1 K1].
      rewrite <- F1. apply (IH s1); try assumption.
      * rewrite F1. exact Hr.
      * intros y. rewrite F1. apply Hf.
Qed.

Lemma writes_to_full_device_witness :
  BitFilePutBit 1 (Some (mkBF (mkFILE [] [9] 0) 127 7 None None BF_WRITE))
  = (EOF, Some (mkBF (mkFILE [] [9] 0) 0 0 None None BF_WRITE)).
Proof.
  apply (writes_to_full_device (mkBF (mkFILE [] [9] 0) 127 7 None None BF_WRITE) 1).
  - reflexivity.
  - cbn. lia.
  - reflexivity.
Defined.

(** ** The encoder on any host and any device *)

Lemma PutBitsNum_some s bytes count size :
  exists s', snd (BitFilePutBitsNum (Some s) (Some bytes) count size) = Some s'.
Proof.
  unfold BitFilePutBitsNum. destruct (PutBitsNumFunc s) as [[| |] |].
  - destruct (BitFilePutBitsLE s bytes count size) as [r s']. exists s'. reflexivity.
  - destruct (BitFilePutBitsBE s bytes count size) as [r s']. exists s'. reflexivity.
  - exists s. reflexivity.
  - exists s. reflexivity.
Qed.

Lemma lift_some op s : exists s', snd (lift op (Some s)) = Some s'.
Proof. unfold lift. destruct (op s) as [r s']. exists s'. reflexivity. Qed.

Lemma emit_cases e st m sw :
  bfpOut st = Some sw ->
  (exists sw', fst (emit e st m) = Some sw') /\
  (snd (emit e st m) = 1 \/
   (MAX_UNCODED < length m /\ snd (emit e st m) = length m)).
Proof.
  intros Hb. unfold emit. rewrite Hb.
  destruct (Z.leb_spec (length m) MAX_UNCODED) as [Hle | Hgt]; cbn [fst snd].
  - split; [| left; reflexivity].
    unfold BitFilePutBit, BitFilePutChar.
    destruct (lift_some (PutBit UNCODED) sw) as [s1 ->].
    apply lift_some.
  - split; [| right; split; [exact Hgt | reflexivity]].
    unfold BitFilePutBit.
    destruct (lift_some (PutBit ENCODED) sw) as [s1 ->].
    destruct (PutBitsNum_some s1 (uint_bytes e (offset m)) OFFSET_BITS 4) as [s2 ->].
    apply PutBitsNum_some.
Qed.

Lemma strlen_no_nul w a :
  no_nul w -> strlen (w ++ a) = Z.of_nat (List.length w) + strlen a.
Proof.
  induction 1 as [| x t Hx _ IH]; [reflexivity |].
  cbn [app strlen List.length].
  replace (x =? 0) with false by (symmetry; apply Z.eqb_neq; exact Hx).
  rewrite IH. lia.
Qed.

Lemma no_nul_wr w i v : no_nul w -> v <> 0 -> no_nul (wr w i v).
Proof.
  intros Hw Hv. unfold wr. destruct (i <? 0); [exact Hw |].
  generalize (Z.to_nat i). unfold no_nul in *.
  induction Hw as [| x t Hx Ht IH]; intros n.
  - destruct n; cbn [upd_nat]; constructor.
  - destruct n as [| n]; cbn [upd_nat]; constructor;
      solve [assumption | apply IH].
Qed.

Lemma no_nul_push bs : forall w pos,
  no_nul w -> no_nul bs -> no_nul (fst (push_bytes w pos bs)).
Proof.
  induction bs as [| b t IH]; intros w pos Hw Hbs; [exact Hw |].
  inversion Hbs as [| ? ? Hb Ht]; subst. cbn [push_bytes].
  apply IH; [apply no_nul_wr; assumption | exact Ht].
Qed.

Lemma encode_body_shrinks e st m sw :
  enc_wf st -> 0 < len st -> bfpOut st = Some sw ->
  let st1 := encode_body e st m in
  enc_wf st1 /\
  (List.length (pending st1) < List.length (pending st))%nat /\
  (exists sw1, bfpOut st1 = Some sw1) /\
  exists bs,
    pending st = bs ++ pending st1 /\
    slidingWindow st1 = fst (push_bytes (slidingWindow st) (windowHead st) bs).
Proof.
  intros Hwf Hlen Hb. unfold encode_body.
  destruct (emit_cases e st (clamp st m) sw Hb) as [[sw' Hs] Hl].
  rewrite (pair_eq_fst_snd (emit e st (clamp st m))). rewrite Hs.
  set (l := snd (emit e st (clamp st m))) in *.
  set (st2 := mkEnc (fpIn st) (Some sw') (slidingWindow st) (uncodedLookahead st)
                (windowHead st) (uncodedHead st) (len st)).
  assert (Hwf2 : enc_wf st2) by exact Hwf.
  assert (Hl' : 1 <= l <= len st).
  { destruct Hl as [-> | [Hgt ->]]; [lia |].
    rewrite clamp_length in *. unfold MAX_UNCODED in Hgt. lia. }
  destruct (advance_spec (Z.to_nat l) st2 Hwf2 ltac:(cbn [len st2]; lia))
    as [A1 [A2 [A3 [A4 A5]]]].
  cbv zeta in *. split; [exact A4 |]. split; [| split].
  - change (pending st) with (pending st2).
    apply (f_equal (@List.length Z)) in A1. rewrite length_app, A2 in A1. lia.
  - exists sw'. rewrite A5. reflexivity.
  - exists (firstn (Z.to_nat l) (pending st2)). split; [exact A1 |].
    change (slidingWindow st) with (slidingWindow st2).
    change (windowHead st) with (windowHead st2).
    rewrite <- A3. reflexivity.
Qed.

Lemma FindMatch_returns h w la wh uh :
  (forall p t n, PFAC_matchFromHost h p t n <> None) ->
  WINDOW_SIZE + strlen (after_window h)
  < malloc_usable_size h (WINDOW_SIZE + strlen (after_window h)) ->
  List.length w = 4096%nat -> no_nul w ->
  exists m, FindMatch h w la wh uh = Some m.
Proof.
  intros Hlib Hfit Hlen Hw. unfold FindMatch.
  rewrite (strlen_no_nul w (after_window h) Hw), Hlen.
  change (Z.of_nat 4096) with WINDOW_SIZE.
  replace (malloc_usable_size h (WINDOW_SIZE + strlen (after_window h))
           <? WINDOW_SIZE + strlen (after_window h) + 1) with false
    by (symmetry; apply Z.ltb_ge; lia).
  destruct (PFAC_matchFromHost h _ _ _) as [res |] eqn:Er;
    [| exfalso; exact (Hlib _ _ _ Er)].
  eexists. reflexivity.
Qed.

Lemma encode_loop_total h e :
  (forall p t n, PFAC_matchFromHost h p t n <> None) ->
  WINDOW_SIZE + strlen (after_window h)
  < malloc_usable_size h (WINDOW_SIZE + strlen (after_window h)) ->
  forall fuel st m sw,
    enc_wf st -> bfpOut st = Some sw ->
    no_nul (slidingWindow st) -> no_nul (pending st) ->
    (List.length (pending st) < fuel)%nat ->
    exists st' sw',
      encode_loop fuel h e st m = Some st' /\ bfpOut st' = Some sw'.
Proof.
  intros Hlib Hfit. induction fuel as [| fuel IH];
    intros st m sw Hwf Hb Hw Hp Hf; [lia |].
  cbn [encode_loop]. destruct (Z.gtb_spec (len st) 0) as [Hpos | Hz].
  - destruct (encode_body_shrinks e st m sw Hwf ltac:(lia) Hb)
      as [W [S [[sw1 B] [bs [P1 P2]]]]].
    cbv zeta in *. set (st1 := encode_body e st m) in *.
    rewrite P1 in Hp. apply Forall_app in Hp. destruct Hp as [Hbs Hp1].
    assert (Hw1 : no_nul (slidingWindow st1))
      by (rewrite P2; apply no_nul_push; assumption).
    destruct (FindMatch_returns h (slidingWindow st1) (uncodedLookahead st1)
                (windowHead st1) (uncodedHead st1) Hlib Hfit
                ltac:(apply W) Hw1) as [m1 ->].
    apply (IH st1 m1 sw1 W B Hw1 Hp1). lia.
  - exists st, sw. split; [reflexivity | exact Hb].
Qed.

(** X12: as long as the PFAC calls succeed, the input holds no NUL byte and
    the block that malloc returns for the window string (the 4096 bytes of
    the window and what strlen reads after them) has room for one byte
    more, EncodeLZSS returns 0 on every input of bytes, whatever the output
    device and the endianness of the host: a full device or an unsupported
    numeric transfer is not noticed. *)
Theorem EncodeLZSS_never_reports_failure (h : Host) (fin fout : FILE) :
  (forall p t n, PFAC_matchFromHost h p t n <> None) ->
  WINDOW_SIZE + strlen (after_window h)
  < malloc_usable_size h (WINDOW_SIZE + strlen (after_window h)) ->
  Forall is_byte (inp fin) -> no_nul (inp fin) ->
  exists f, EncodeLZSS h (Some fin) (Some fout) = Some (0, Some f).
Proof.
  intros Hlib Hfit Hby Hnn. unfold EncodeLZSS.
  destruct (func_of_Determine (word_one h) fout BF_WRITE)
    as [bf [E [_ [P [C [B [F M]]]]]]].
  rewrite E.
  destruct (fill_lookahead_spec (Z.to_nat MAX_CODED) fin
              (repeat 0 (Z.to_nat MAX_CODED)) 0 ltac:(apply repeat_length)
              eq_refl Hby)
    as [n' [L1 [L2 [L3 [L4 L5]]]]].
  cbv zeta in *. change (Z.of_nat 0) with 0 in *.
  destruct (fill_lookahead (Z.to_nat MAX_CODED) fin (repeat 0 (Z.to_nat MAX_CODED)) 0)
    as [[fin' la] len]. cbn [fst snd] in *. subst len.
  change (la_bytes (repeat 0 (Z.to_nat MAX_CODED)) 0 0) with (@nil Z) in L4.
  cbn [app] in L4.
  destruct (Z.eqb_spec (Z.of_nat n') 0) as [Hz | Hnz].
  - exists (fp bf). reflexivity.
  - change (negb (InitializeSearchStructures =? 0)) with false. cbv iota.
    set (st0 := mkEnc fin' (Some bf) (repeat 32 (Z.to_nat WINDOW_SIZE)) la 0 0
                  (Z.of_nat n')).
    assert (Hp0 : pending st0 = inp fin).
    { unfold pending. subst st0. cbn [uncodedLookahead uncodedHead len fpIn].
      rewrite Nat2Z.id. exact L4. }
    assert (Hwf0 : enc_wf st0).
    { unfold enc_wf. rewrite Hp0. subst st0.
      cbn [slidingWindow uncodedLookahead windowHead uncodedHead len fpIn].
      split; [apply repeat_length |]. split; [exact L3 |].
      unfold WINDOW_SIZE, MAX_CODED.
      split; [lia |]. split; [lia |]. split; [lia |].
      split; [intros Hne; rewrite (L5 Hne); reflexivity | exact Hby]. }
    assert (Hw0 : no_nul (repeat 32 (Z.to_nat WINDOW_SIZE))).
    { apply Forall_forall. intros x Hx. apply repeat_spec in Hx. lia. }
    destruct (FindMatch_returns h (repeat 32 (Z.to_nat WINDOW_SIZE)) la 0 0
                Hlib Hfit ltac:(apply repeat_length) Hw0) as [m0 ->].
    destruct (encode_loop_total h (DetermineEndianess (word_one h)) Hlib Hfit
                (S (List.length (inp fin) + 18)) st0 m0 bf Hwf0 eq_refl Hw0
                ltac:(rewrite Hp0; exact Hnn) ltac:(rewrite Hp0; lia))
      as [st' [sw' [Hloop Hb']]].
    rewrite Hloop, Hb'. cbn [BitFileToFILE]. eexists. reflexivity.
Qed.

Lemma EncodeLZSS_never_reports_failure_witness :
  exists f,
    EncodeLZSS (silent_host [0; 0; 0; 0]) (Some (file_of [97; 98; 99]))
      (Some (mkFILE [] [] 0))
    = Some (0, Some f).
Proof.
  apply (EncodeLZSS_never_reports_failure (silent_host [0; 0; 0; 0])
           (file_of [97; 98; 99]) (mkFILE [] [] 0)).
  - intros p t n. discriminate.
  - vm_compute. reflexivity.
  - repeat constructor; unfold is_byte; lia.
  - repeat constructor; lia.
Defined.

(** With a NUL in the input the window string gets short: on 24 times [a]
    and a NUL it is 24 bytes long once the NUL has entered the window, the
    block of the allocator above holds 24 bytes, and the run ends in
    [FindMatch] although every PFAC call succeeds. *)
Lemma EncodeLZSS_overrun_sample :
  EncodeLZSS (silent_host le_word) (Some (file_of (repeat 97 24 ++ [0])))
    (Some blank_file) = None.
Proof. vm_compute. reflexivity. Qed.

(** X13: on an empty input file EncodeLZSS returns 0 without calling the
    match finder and leaves the output file as it was, and DecodeLZSS
    returns 0 and leaves both files as they were. *)
Theorem codec_on_empty_input (h : Host) (fin fout : FILE) :
  inp fin = [] ->
  EncodeLZSS h (Some fin) (Some fout) = Some (0, Some fout) /\
  DecodeLZSS (word_one h) (Some fin) (Some fout) = Some (0, Some fin, Some fout).
Proof.
  intros Hi. split.
  - unfold EncodeLZSS.
    destruct (func_of_Determine (word_one h) fout BF_WRITE)
      as [bf [E [_ [_ [_ [_ [F _]]]]]]].
    rewrite E. change (Z.to_nat MAX_CODED) with 18%nat.
    cbn [fill_lookahead]. unfold fgetc. rewrite Hi.
    change (EOF =? EOF) with true. cbv iota. change (0 =? 0) with true. cbv iota.
    rewrite F. reflexivity.
  - unfold DecodeLZSS.
    destruct (func_of_Determine (word_one h) fin BF_READ)
      as [bf [E [_ [_ [C [_ [F M]]]]]]].
    rewrite E.
    assert (Hg : BitFileGetBit (Some bf) = (EOF, Some bf)).
    { unfold BitFileGetBit, lift, GetBit, fgetc. rewrite C, F, Hi. reflexivity. }
    cbn [decode_loop]. unfold decode_body. cbn [bfpIn]. rewrite Hg.
    change (EOF =? EOF) with true. cbv iota.
    cbn [bfpIn dOut BitFileToFILE]. unfold flush_residue. rewrite M. cbn [writing].
    rewrite F. reflexivity.
Qed.

Lemma codec_on_empty_input_witness :
  EncodeLZSS (mkHost le_word [0] block_size (fun _ _ _ => None))
    (Some (file_of []))
    (Some blank_file) = Some (0, Some blank_file).
Proof.
  apply (codec_on_empty_input (mkHost le_word [0] block_size (fun _ _ _ => None))
           (file_of []) blank_file).
  reflexivity.
Defined.

(** ** What the match finder returns *)

Lemma match_scan_spec wh res (n : nat) :
  let m := fold_left
             (fun (m : encoded_string_t) (i : nat) =>
                let r := rd res (Z.of_nat i) in
                if negb (r =? 0) then
                  if uint r >? length m then mkMatch (uint (wh - r)) (uint r)
                  else m
                else m)
             (seq 0 n) (mkMatch 0 0) in
  (forall i, (i < n)%nat -> uint (rd res (Z.of_nat i)) <= length m) /\
  (m = mkMatch 0 0 \/
   exists i, (i < n)%nat /\
     length m = uint (rd res (Z.of_nat i)) /\
     offset m = uint (wh - rd res (Z.of_nat i)) /\
     forall j, (j < i)%nat -> uint (rd res (Z.of_nat j)) < length m).
Proof.
  induction n as [| n IH]; cbv zeta in *.
  - cbn [seq fold_left]. split; [intros i Hi; lia | left; reflexivity].
  - rewrite seq_S, fold_left_app. cbn [Nat.add fold_left].
    set (m := fold_left _ (seq 0 n) (mkMatch 0 0)) in *.
    destruct IH as [Hmax Hwho].
    assert (Hpos : 0 <= length m).
    { destruct Hwho as [-> | [i [_ [-> _]]]]; [cbn; lia |].
      unfold uint. apply Z.mod_pos_bound. lia. }
    set (r := rd res (Z.of_nat n)).
    destruct (Z.eqb_spec r 0) as [Hz | Hnz]; cbn [negb].
    + split.
      * intros i Hi. destruct (Nat.eq_dec i n) as [-> | Hne].
        -- fold r. rewrite Hz. exact Hpos.
        -- apply Hmax. lia.
      * destruct Hwho as [-> | [i [Hi Hrest]]]; [left; reflexivity |].
        right. exists i. split; [lia | exact Hrest].
    + destruct (Z.gtb_spec (uint r) (length m)) as [Hgt | Hle].
      * cbn [length offset]. split.
        -- intros i Hi. destruct (Nat.eq_dec i n) as [-> | Hne].
           ++ fold r. lia.
           ++ specialize (Hmax i ltac:(lia)). lia.
        -- right. exists n. split; [lia |]. fold r.
           split; [reflexivity |]. split; [reflexivity |].
           intros j Hj. specialize (Hmax j Hj). lia.
      * split.
        -- intros i Hi. destruct (Nat.eq_dec i n) as [-> | Hne].
           ++ fold r. exact Hle.
           ++ apply Hmax. lia.
        -- destruct Hwho as [-> | [i [Hi Hrest]]]; [left; reflexivity |].
           right. exists i. split; [lia | exact Hrest].
Qed.

(** X14: when FindMatch returns, its length is the largest value the PFAC
    library reported over the strlen(slidingWindow) positions (0 when it
    reported nothing), taken at the first position that reports it, and its
    offset is windowHead minus that value as an unsigned int, not the
    position of the report. *)
Theorem FindMatch_longest_report (h : Host) (w la : list Z) (wh uh : Z)
    (m : encoded_string_t) :
  FindMatch h w la wh uh = Some m ->
  let n := Z.to_nat (strlen (w ++ after_window h)) in
  exists res,
    PFAC_matchFromHost h la (firstn n (w ++ after_window h))
      (strlen (w ++ after_window h)) = Some res /\
    (forall i, (i < n)%nat -> uint (rd res (Z.of_nat i)) <= length m) /\
    (m = mkMatch 0 0 \/
     exists i, (i < n)%nat /\
       length m = uint (rd res (Z.of_nat i)) /\
       offset m = uint (wh - rd res (Z.of_nat i)) /\
       forall j, (j < i)%nat -> uint (rd res (Z.of_nat j)) < length m).
Proof.
  intros H. cbv zeta. unfold FindMatch in H.
  destruct (_ <? _); [discriminate |].
  destruct (PFAC_matchFromHost h la _ _) as [res |] eqn:E; [| discriminate].
  injection H as <-. exists res. split; [reflexivity |].
  apply match_scan_spec.
Qed.

Lemma FindMatch_longest_report_witness :
  exists res,
    PFAC_matchFromHost (prefix_host le_word) [32; 32; 97; 0]
      (firstn 4096 (repeat 32 4096 ++ [0])) 4096 = Some res /\
    (forall i, (i < 4096)%nat -> uint (rd res (Z.of_nat i)) <= 2) /\
    (mkMatch 4294967294 2 = mkMatch 0 0 \/
     exists i, (i < 4096)%nat /\
       2 = uint (rd res (Z.of_nat i)) /\
       4294967294 = uint (0 - rd res (Z.of_nat i)) /\
       forall j, (j < i)%nat -> uint (rd res (Z.of_nat j)) < 2).
Proof.
  apply (FindMatch_longest_report (prefix_host le_word) (repeat 32 4096)
           [32; 32; 97; 0] 0 0 (mkMatch 4294967294 2)).
  vm_compute. reflexivity.
Defined.

(** ** The decoder on any input *)

Lemma bits4_value l :
  List.length l = 4%nat -> exists v, 0 <= v < 16 /\ l = low_bits 4 v.
Proof.
  intros H. destruct l as [| b1 [| b2 [| b3 [| b4 [| ? ?]]]]]; try discriminate H.
  exists (bits_val [b1; b2; b3; b4]).
  destruct b1, b2, b3, b4; (split; [vm_compute; split; [discriminate | reflexivity]
                                   | reflexivity]).
Qed.

Lemma bits8_value l :
  List.length l = 8%nat -> exists c, 0 <= c < 256 /\ l = byte_bits c.
Proof.
  intros H.
  destruct l as [| b1 [| b2 [| b3 [| b4 [| b5 [| b6 [| b7 [| b8 [| ? ?]]]]]]]]];
    try discriminate H.
  exists (bits_val [b1; b2; b3; b4; b5; b6; b7; b8]).
  destruct b1, b2, b3, b4, b5, b6, b7, b8;
    (split; [vm_compute; split; [discriminate | reflexivity] | reflexivity]).
Qed.

Lemma take_bits (n : nat) (l : list bool) :
  (n <= List.length l)%nat ->
  exists a rest, l = a ++ rest /\ List.length a = n.
Proof.
  intros H. exists (firstn n l), (skipn n l).
  split; [symmetry; apply firstn_skipn | apply firstn_length_le; exact H].
Qed.

Lemma offset_bits_join c v4 :
  0 <= c < 256 -> 0 <= v4 < 16 ->
  offset_bits (c + 256 * v4) = byte_bits c ++ low_bits 4 v4.
Proof.
  intros Hc Hv. unfold offset_bits. f_equal.
  - rewrite <- byte_bits_uchar. f_equal. unfold uchar.
    replace (c + 256 * v4) with (c + v4 * 256) by lia.
    rewrite Z.mod_add by lia. apply Z.mod_small. exact Hc.
  - f_equal. rewrite Z.shiftr_div_pow2 by lia. change (2 ^ 8) with 256.
    replace (c + 256 * v4) with (c + v4 * 256) by lia.
    rewrite Z.div_add by lia.
    rewrite (Z.div_small c 256) by lia. lia.
Qed.

Lemma fputs_appends cs : forall f,
  exists bs, out (fputs cs f) = out f ++ bs /\ (List.length bs <= List.length cs)%nat.
Proof.
  induction cs as [| c cs IH]; intros f.
  - exists []. cbn [fputs]. rewrite app_nil_r. split; [reflexivity | cbn; lia].
  - cbn [fputs]. destruct (IH (snd (fputc c f))) as [bs [E Hl]].
    unfold fputc in *. destruct (room f) as [| r].
    + cbn [snd] in *. exists bs. split; [exact E | cbn [List.length]; lia].
    + cbn [snd out] in *. exists (uchar c :: bs).
      split; [rewrite E, <- app_assoc; reflexivity | cbn [List.length]; lia].
Qed.

Lemma decode_body_inr e st st' :
  decode_body e st = inr st' -> dOut st' = dOut st.
Proof.
  unfold decode_body.
  destruct (BitFileGetBit (bfpIn st)) as [c b]. cbn [bfpIn dOut dWindow dLookahead nextChar].
  destruct (c =? EOF); [intros H; injection H as <-; reflexivity |].
  destruct (c =? UNCODED).
  - destruct (BitFileGetChar b) as [c2 b2].
    destruct (c2 =? EOF); [intros H; injection H as <-; reflexivity | discriminate].
  - destruct (BitFileGetBitsNum b _ _ _) as [[r ob] b2].
    cbn [bfpIn dOut dWindow dLookahead nextChar].
    destruct (r =? EOF); [intros H; injection H as <-; reflexivity |].
    destruct (BitFileGetBitsNum b2 _ _ _) as [[r2 lb] b3].
    cbn [bfpIn dOut dWindow dLookahead nextChar].
    destruct (r2 =? EOF); [intros H; injection H as <-; reflexivity |].
    destruct (copy_out _ _ _ _ _ _). discriminate.
Qed.

Lemma decode_body_eof e st s :
  bfpIn st = Some s -> 0 <= bitCount s < 8 -> unread_bits s = [] ->
  exists st', decode_body e st = inr st'.
Proof.
  intros Hb Hk Hu.
  destruct (GetBit_spec s Hk) as [[_ HG] | [Ha _]].
  - unfold decode_body. rewrite Hb. unfold BitFileGetBit, lift. rewrite HG.
    change (EOF =? EOF) with true. cbv iota. eexists. reflexivity.
  - rewrite avail_unread, Hu in Ha by lia. cbn in Ha. lia.
Qed.

Lemma decode_body_step e st s :
  e <> BF_UNKNOWN_ENDIAN -> dec_ok e st s ->
  match decode_body e st with
  | inr st' => dOut st' = dOut st
  | inl st' =>
      exists s' bs,
        dec_ok e st' s' /\ out (dOut st') = out (dOut st) ++ bs /\
        17 * Z.of_nat (List.length bs) + 18 * Z.of_nat (List.length (unread_bits s'))
        <= 18 * Z.of_nat (List.length (unread_bits s)) /\
        (List.length (unread_bits s') < List.length (unread_bits s))%nat
  end.
Proof.
  intros He [Hb [Hf [Hk [Hnc Hla]]]].
  destruct (decode_body e st) as [d | d] eqn:E; [| eapply decode_body_inr; exact E].
  pose proof (avail_unread s ltac:(lia)) as Hav.
  destruct (unread_bits s) as [| b U1] eqn:EU.
  { destruct (decode_body_eof e st s Hb Hk EU) as [st' E']. congruence. }
  destruct (GetBit_val s b U1 Hk EU) as [Hv _].
  cbn [List.length] in *.
  destruct b.
  - (* a literal *)
    destruct (le_lt_dec 8 (List.length U1)) as [Hge | Hlt].
    + destruct (take_bits 8 U1 Hge) as [l8 [rest [EU1 Hl8]]].
      destruct (bits8_value l8 Hl8) as [c [Hc ->]]. subst U1.
      destruct (decode_literal_step e st s c rest Hb Hk Hc EU Hnc)
        as [s' [E' [Hu' [Hk' Hf']]]].
      rewrite E in E'. injection E' as ->.
      destruct (fputs_appends [c] (dOut st)) as [bs [Eo Hlen]].
      exists s', bs. split; [| split; [| split]].
      * unfold dec_ok. cbn [bfpIn nextChar dLookahead].
        split; [reflexivity |]. split; [congruence |]. split; [exact Hk' |].
        split; [| exact Hla].
        apply Wrap_range. unfold WINDOW_SIZE. lia.
      * cbn [dOut]. exact Eo.
      * rewrite Hu', length_app in *. cbn [List.length] in *. lia.
      * rewrite Hu', length_app in *. cbn [List.length] in *. lia.
    + exfalso.
      destruct (truncated_record_breaks e st s He Hb Hf Hk ltac:(lia)) as [st' [E' _]].
      { rewrite Hv. change (Z.b2z true =? UNCODED) with true. cbv iota. lia. }
      congruence.
  - (* a coded string *)
    destruct (le_lt_dec 16 (List.length U1)) as [Hge | Hlt].
    + destruct (take_bits 8 U1 ltac:(lia)) as [l8 [r1 [EU1 Hl8]]].
      destruct (bits8_value l8 Hl8) as [c [Hc ->]]. subst U1.
      rewrite length_app in Hge. 
      destruct (take_bits 4 r1 ltac:(lia)) as [l4 [r2 [Er1 Hl4]]].
      destruct (bits4_value l4 Hl4) as [v4 [Hv4 ->]]. subst r1.
      rewrite length_app in Hge.
      destruct (take_bits 4 r2 ltac:(lia)) as [l4' [rest [Er2 Hl4']]].
      destruct (bits4_value l4' Hl4') as [lv [Hlv ->]]. subst r2.
      assert (EU' : unread_bits s
                    = false :: offset_bits (c + 256 * v4)
                        ++ length_bits ((lv + 3) - (MAX_UNCODED + 1)) ++ rest).
      { rewrite EU, offset_bits_join by assumption. rewrite <- !app_assoc.
        unfold length_bits, MAX_UNCODED. replace (lv + 3 - (2 + 1)) with lv by lia.
        reflexivity. }
      destruct (decode_encoded_step e st s (c + 256 * v4) (lv + 3) rest He Hb Hk Hf
                  ltac:(lia) ltac:(unfold MAX_UNCODED, MAX_CODED; lia) EU' Hnc Hla)
        as [s' [la' [E' [Hla' [Hu' [Hk' Hf']]]]]].
      cbv zeta in E'. rewrite E in E'. injection E' as ->.
      set (bs0 := map (fun j => rd (dWindow st) (Wrap (c + 256 * v4 + Z.of_nat j) WINDOW_SIZE))
                    (seq 0 (Z.to_nat (lv + 3)))) in *.
      destruct (fputs_appends bs0 (dOut st)) as [bs [Eo Hlen]].
      assert (Hbs0 : List.length bs0 = Z.to_nat (lv + 3))
        by (subst bs0; rewrite length_map, length_seq; reflexivity).
      exists s', bs. split; [| split; [| split]].
      * unfold dec_ok. cbn [bfpIn nextChar dLookahead].
        split; [reflexivity |]. split; [congruence |]. split; [exact Hk' |].
        split; [| exact Hla'].
        rewrite push_bytes_pos by exact Hnc. apply Wrap_range.
        unfold WINDOW_SIZE. lia.
      * cbn [dOut]. exact Eo.
      * rewrite Hu'. rewrite !length_app in *. cbn [List.length] in *. lia.
      * rewrite Hu'. rewrite !length_app in *. cbn [List.length] in *. lia.
    + exfalso.
      destruct (truncated_record_breaks e st s He Hb Hf Hk ltac:(lia)) as [st' [E' _]].
      { rewrite Hv. change (Z.b2z false =? UNCODED) with false. cbv iota.
        unfold OFFSET_BITS, LENGTH_BITS. lia. }
      congruence.
Qed.

Lemma decode_loop_bound e :
  e <> BF_UNKNOWN_ENDIAN ->
  forall fuel st s,
    dec_ok e st s -> (List.length (unread_bits s) < fuel)%nat ->
    exists st' bs,
      decode_loop fuel e st = Some st' /\
      out (dOut st') = out (dOut st) ++ bs /\
      17 * Z.of_nat (List.length bs) <= 18 * Z.of_nat (List.length (unread_bits s)).
Proof.
  intros He. induction fuel as [| k IH]; intros st s Hok Hf; [lia |].
  cbn [decode_loop]. pose proof (decode_body_step e st s He Hok) as Hstep.
  destruct (decode_body e st) as [st1 | st1].
  - destruct Hstep as [s1 [bs1 [Hok1 [Eo1 [Hb1 Hlt]]]]].
    destruct (IH st1 s1 Hok1 ltac:(lia)) as [st' [bs [E [Eo Hb]]]].
    exists st', (bs1 ++ bs). split; [exact E |].
    split; [rewrite Eo, Eo1, app_assoc; reflexivity |].
    rewrite length_app. lia.
  - exists st1, []. split; [reflexivity |].
    split; [rewrite Hstep, app_nil_r; reflexivity | cbn [List.length]; lia].
Qed.

(** X15: on a host of known endianness DecodeLZSS returns 0 on every input
    file and only appends to its output; the bytes appended number at most
    18/17 per input bit: 17 * written <= 144 * (input bytes). *)
Theorem DecodeLZSS_output_bound (word_one : list Z) (din gout : FILE) :
  DetermineEndianess word_one <> BF_UNKNOWN_ENDIAN ->
  exists fi g bs,
    DecodeLZSS word_one (Some din) (Some gout) = Some (0, fi, Some g) /\
    out g = out gout ++ bs /\
    17 * Z.of_nat (List.length bs) <= 144 * Z.of_nat (List.length (inp din)).
Proof.
  intros He. unfold DecodeLZSS.
  destruct (func_of_Determine word_one din BF_READ) as [bf [E [G [_ [C [_ [F _]]]]]]].
  rewrite E.
  set (d0 := mkDec (Some bf) gout (repeat 32 (Z.to_nat WINDOW_SIZE))
               (repeat 0 (Z.to_nat MAX_CODED)) 0).
  assert (Hu : List.length (unread_bits bf) = (8 * List.length (inp din))%nat).
  { unfold unread_bits. rewrite C, F. change (Z.to_nat 0) with 0%nat.
    cbn [low_bits app]. unfold bytes_bits.
    induction (inp din) as [| x t IH]; [reflexivity |].
    cbn [flat_map List.length]. rewrite length_app, IH.
    unfold byte_bits. rewrite low_bits_length. lia. }
  assert (Hok : dec_ok (DetermineEndianess word_one) d0 bf).
  { unfold dec_ok, d0. cbn [bfpIn nextChar dLookahead].
    split; [reflexivity |]. split; [exact G |]. split; [lia |].
    split; [unfold WINDOW_SIZE; lia | apply repeat_length]. }
  destruct (decode_loop_bound _ He (S (bits_left (Some bf))) d0 bf Hok)
    as [st' [bs [El [Eo Hb]]]].
  { unfold bits_left. rewrite C, F, Hu. change (Z.to_nat 0) with 0%nat. lia. }
  rewrite El. eexists. exists (dOut st'), bs.
  split; [reflexivity |]. split; [exact Eo |]. rewrite Hu in Hb. lia.
Qed.

Lemma DecodeLZSS_output_bound_witness :
  exists fi g bs,
    DecodeLZSS be_word (Some (file_of [7; 255; 255])) (Some blank_file)
    = Some (0, fi, Some g) /\
    out g = bs /\
    17 * Z.of_nat (List.length bs) <= 432.
Proof.
  destruct (DecodeLZSS_output_bound be_word (file_of [7; 255; 255]) blank_file)
    as [fi [g [bs [H1 [H2 H3]]]]].
  - discriminate.
  - exists fi, g, bs. split; [exact H1 |]. split; [exact H2 | exact H3].
Defined.

(** ** A host of unknown endianness *)

(** X16: on a host whose byte order DetermineEndianess does not recognise,
    MakeBitFile still returns a stream, and BitFilePutBitsNum and
    BitFileGetBitsNum return -ENOTSUP and change neither the stream nor the
    destination; with a NULL stream or NULL bits they return EOF. *)
Theorem unknown_endian_not_supported (word : list Z) (f : FILE) (m : BF_MODES)
    (bytes : list Z) (count size : Z) :
  DetermineEndianess word = BF_UNKNOWN_ENDIAN ->
  exists s,
    MakeBitFile word (Some f) m = Some s /\
    BitFilePutBitsNum (Some s) (Some bytes) count size = (- ENOTSUP, Some s) /\
    BitFileGetBitsNum (Some s) (Some bytes) count size
    = (- ENOTSUP, Some bytes, Some s) /\
    BitFilePutBitsNum (Some s) None count size = (EOF, Some s) /\
    BitFileGetBitsNum None (Some bytes) count size = (EOF, Some bytes, None).
Proof.
  intros He. unfold MakeBitFile. rewrite He.
  eexists. split; [reflexivity |]. repeat split.
Qed.

Lemma unknown_endian_not_supported_witness :
  exists s,
    MakeBitFile [0; 1; 0; 0] (Some blank_file) BF_WRITE = Some s /\
    BitFilePutBitsNum (Some s) (Some [171; 0; 0; 0]) 8 4 = (-95, Some s).
Proof.
  destruct (unknown_endian_not_supported [0; 1; 0; 0] blank_file BF_WRITE
              [171; 0; 0; 0] 8 4) as [s [H1 [H2 _]]].
  - reflexivity.
  - exists s. split; [exact H1 | exact H2].
Defined.

(** ** File names and option strings *)

Lemma strrchr_some s c r :
  strrchr s c = Some r ->
  exists pre t, s = pre ++ c :: t /\ r = c :: t /\ ~ In c t.
Proof.
  revert r. induction s as [| x s IH]; intros r H; [discriminate |].
  cbn [strrchr] in H. destruct (strrchr s c) as [r' |] eqn:E.
  - injection H as <-. destruct (IH r' eq_refl) as [pre [t [E1 [E2 Hn]]]].
    exists (x :: pre), t. subst s. repeat split; assumption.
  - destruct (Z.eqb_spec x c) as [-> | Hne]; [| discriminate].
    injection H as <-. exists [], s. repeat split.
    clear IH. induction s as [| y s IHs]; [intros [] |].
    cbn [strrchr] in E. destruct (strrchr s c) eqn:E'; [discriminate |].
    destruct (Z.eqb_spec y c) as [-> | Hyc]; [discriminate |].
    intros [Hy | Hin]; [congruence | exact (IHs eq_refl Hin)].
Qed.

Lemma strrchr_none s c : strrchr s c = None -> ~ In c s.
Proof.
  induction s as [| x s IH]; intros H; [intros [] |].
  cbn [strrchr] in H. destruct (strrchr s c) eqn:E; [discriminate |].
  destruct (Z.eqb_spec x c) as [-> | Hne]; [discriminate |].
  intros [Hx | Hin]; [congruence | exact (IH eq_refl Hin)].
Qed.

Lemma FindFileName_step start d :
  let start' := match strrchr start d with Some tmp => tl tmp | None => start end in
  exists pre,
    start = pre ++ start' /\ ~ In d start' /\
    (pre = [] \/ exists pre', pre = pre' ++ [d]).
Proof.
  cbv zeta. destruct (strrchr start d) as [r |] eqn:E.
  - destruct (strrchr_some start d r E) as [pre [t [E1 [E2 Hn]]]].
    subst r. cbn [tl]. exists (pre ++ [d]). rewrite <- app_assoc. cbn [app].
    split; [exact E1 |]. split; [exact Hn |]. right. exists pre. reflexivity.
  - exists []. split; [reflexivity |]. split; [apply strrchr_none; exact E |].
    left. reflexivity.
Qed.

(** X17: FindFileName returns a suffix of its argument that contains no
    backslash, slash or colon and that is either the whole argument or
    preceded by one of these delimiters: the longest suffix free of path
    delimiters. *)
Theorem FindFileName_longest_suffix (fullPath : list Z) :
  exists pre,
    fullPath = pre ++ FindFileName fullPath /\
    (forall c, In c (FindFileName fullPath) -> is_delim c = false) /\
    (pre = [] \/ exists pre' d, pre = pre' ++ [d] /\ is_delim d = true).
Proof.
  unfold FindFileName, delim. cbn [fold_left].
  destruct (FindFileName_step fullPath 92) as [p1 [E1 [N1 L1]]]. cbv zeta in *.
  set (s1 := match strrchr fullPath 92 with Some tmp => tl tmp | None => fullPath end) in *.
  destruct (FindFileName_step s1 47) as [p2 [E2 [N2 L2]]]. cbv zeta in *.
  set (s2 := match strrchr s1 47 with Some tmp => tl tmp | None => s1 end) in *.
  destruct (FindFileName_step s2 58) as [p3 [E3 [N3 L3]]]. cbv zeta in *.
  set (s3 := match strrchr s2 58 with Some tmp => tl tmp | None => s2 end) in *.
  exists (p1 ++ p2 ++ p3). split; [| split].
  - rewrite <- !app_assoc, <- E3, <- E2. exact E1.
  - intros c Hc. unfold is_delim, delim. cbn [existsb].
    assert (H2 : In c s2) by (rewrite E3; apply in_or_app; right; exact Hc).
    assert (H1 : In c s1) by (rewrite E2; apply in_or_app; right; exact H2).
    destruct (Z.eqb_spec c 92) as [-> | _]; [contradiction |].
    destruct (Z.eqb_spec c 47) as [-> | _]; [contradiction |].
    destruct (Z.eqb_spec c 58) as [-> | _]; [contradiction |].
    reflexivity.
  - destruct L3 as [-> | [q3 ->]].
    + rewrite app_nil_r. destruct L2 as [-> | [q2 ->]].
      * rewrite app_nil_r. destruct L1 as [-> | [q1 ->]]; [left; reflexivity |].
        right. exists q1, 92. split; reflexivity.
      * right. exists (p1 ++ q2), 47. rewrite app_assoc. split; reflexivity.
    + right. exists (p1 ++ p2 ++ q3), 58. rewrite !app_assoc. split; reflexivity.
Qed.

Lemma rd_nonzero_in_range l i :
  rd l i <> 0 -> 0 <= i < Z.of_nat (List.length l).
Proof.
  unfold rd. destruct (Z.ltb_spec i 0) as [Hneg | Hpos]; [congruence |].
  intros H. split; [exact Hpos |].
  destruct (Z.lt_ge_cases i (Z.of_nat (List.length l))) as [Hlt | Hge]; [exact Hlt |].
  rewrite nth_overflow in H by lia. congruence.
Qed.

Lemma rd_in_range_nonzero l i :
  Forall (fun c => c <> 0) l -> 0 <= i < Z.of_nat (List.length l) -> rd l i <> 0.
Proof.
  intros Hall Hi. unfold rd.
  replace (i <? 0) with false by (symmetry; apply Z.ltb_ge; lia).
  rewrite Forall_forall in Hall. apply Hall. apply nth_In. lia.
Qed.

Lemma skip_colons_spec options : forall fuel i,
  0 <= i < Z.of_nat (List.length options) ->
  Z.of_nat (List.length options) - i <= Z.of_nat fuel ->
  let r := skip_colons fuel options i in
  i < r <= Z.of_nat (List.length options) /\
  forall j, i < j < r -> rd options j = 58.
Proof.
  induction fuel as [| k IH]; intros i Hi Hf; cbv zeta; [lia |].
  cbn [skip_colons].
  destruct (Z.eqb_spec (rd options (i + 1)) 0) as [Hz | Hnz]; cbn [negb andb].
  - split; [lia | intros j Hj; lia].
  - destruct (Z.eqb_spec 58 (rd options (i + 1))) as [Hc | Hnc].
    + pose proof (rd_nonzero_in_range options (i + 1) Hnz) as Hr.
      destruct (IH (i + 1) Hr ltac:(lia)) as [H1 H2]. split; [lia |].
      intros j Hj. destruct (Z.eq_dec j (i + 1)) as [-> | Hne]; [congruence |].
      apply H2. lia.
    + split; [lia | intros j Hj; lia].
Qed.

Lemma MatchOpt_from_spec argument options :
  Forall (fun c => c <> 0) options -> argument <> 58 ->
  forall fuel i,
    0 <= i <= Z.of_nat (List.length options) ->
    Z.of_nat (List.length options) - i < Z.of_nat fuel ->
    (forall j, 0 <= j < i -> rd options j <> argument) ->
    let r := MatchOpt_from fuel argument options i in
    i <= r <= Z.of_nat (List.length options) /\
    (forall j, 0 <= j < r -> rd options j <> argument) /\
    (r < Z.of_nat (List.length options) -> rd options r = argument).
Proof.
  intros Hall Harg. induction fuel as [| k IH]; intros i Hi Hf Hbefore; cbv zeta; [lia |].
  cbn [MatchOpt_from].
  destruct (Z.eqb_spec (rd options i) 0) as [Hz | Hnz]; cbn [negb andb].
  - split; [lia |]. split; [exact Hbefore |]. intros Hlt.
    exfalso. apply (rd_in_range_nonzero options i Hall); [lia | exact Hz].
  - destruct (Z.eqb_spec (rd options i) argument) as [Heq | Hne]; cbn [negb].
    + split; [lia |]. split; [exact Hbefore | intros _; exact Heq].
    + pose proof (rd_nonzero_in_range options i Hnz) as Hr.
      destruct (skip_colons_spec options (List.length options) i Hr ltac:(lia))
        as [S1 S2].
      cbv zeta in S1, S2.
      set (i' := skip_colons (List.length options) options i) in *.
      destruct (IH i' ltac:(lia) ltac:(lia)) as [R1 [R2 R3]].
      { intros j Hj. destruct (Z.lt_ge_cases j i) as [Hlt | Hge]; [apply Hbefore; lia |].
        destruct (Z.eq_dec j i) as [-> | Hji]; [exact Hne |].
        rewrite S2 by lia. congruence. }
      split; [lia |]. split; assumption.
Qed.

(** X18: for an argument other than the colon, MatchOpt returns the index of
    the first occurrence of the argument in the option string, or the length
    of the string (the index of its NUL) when it does not occur. *)
Theorem MatchOpt_first_occurrence (argument : Z) (options : list Z) :
  Forall (fun c => c <> 0) options -> argument <> 58 ->
  let r := MatchOpt argument options in
  0 <= r <= Z.of_nat (List.length options) /\
  (forall j, 0 <= j < r -> rd options j <> argument) /\
  (r < Z.of_nat (List.length options) -> rd options r = argument).
Proof.
  intros Hall Harg. unfold MatchOpt.
  apply MatchOpt_from_spec; try assumption; try lia.
Qed.

Lemma MatchOpt_first_occurrence_witness :
  let r := MatchOpt 105 [99; 100; 105; 58; 111; 58] in
  0 <= r <= 6 /\
  (forall j, 0 <= j < r -> rd [99; 100; 105; 58; 111; 58] j <> 105) /\
  (r < 6 -> rd [99; 100; 105; 58; 111; 58] r = 105).
Proof.
  apply (MatchOpt_first_occurrence 105 [99; 100; 105; 58; 111; 58]).
  - repeat constructor; lia.
  - lia.
Defined.

(** ** The option list *)

Lemma removelast_snoc {A} (l : list A) (x : A) : removelast (l ++ [x]) = l.
Proof. apply removelast_last. Qed.

Lemma rd_in l i : rd l i <> 0 -> In (rd l i) l.
Proof.
  intros H. pose proof (rd_nonzero_in_range l i H) as Hr. unfold rd.
  replace (i <? 0) with false by (symmetry; apply Z.ltb_ge; lia).
  apply nth_In. lia.
Qed.

Lemma scan_arg_known OL_NOINDEX argc argv options :
  Forall (Forall (fun c => c <> 0)) argv ->
  forall fuel nextArg ai acc,
    1 <= nextArg < argc -> 0 <= ai ->
    Forall (known_option OL_NOINDEX argc options) acc ->
    let r := scan_arg OL_NOINDEX fuel argc argv options nextArg ai acc in
    Forall (known_option OL_NOINDEX argc options) (fst r) /\ nextArg <= snd r <= argc.
Proof.
  intros Hargv. induction fuel as [| k IH]; intros nextArg ai acc Hn Hi Hacc;
    cbv zeta; [cbn [scan_arg fst snd]; split; [exact Hacc | lia] |].
  cbn [scan_arg]. set (a := nth (Z.to_nat nextArg) argv []).
  destruct (Z.gtb_spec (Z.of_nat (List.length a)) ai) as [Hlen | Hlen];
    cbn [andb]; [| cbn [fst snd]; split; [exact Hacc | lia]].
  destruct (45 =? rd a 0); [| cbn [fst snd]; split; [exact Hacc | lia]].
  set (c := rd a ai). set (optIndex := MatchOpt c options).
  assert (Ha : Forall (fun c => c <> 0) a).
  { subst a. destruct (nth_in_or_default (Z.to_nat nextArg) argv []) as [Hin | ->];
      [| constructor]. rewrite Forall_forall in Hargv. apply Hargv. exact Hin. }
  assert (Hc : c <> 0) by (apply rd_in_range_nonzero; [exact Ha | lia]).
  destruct (Z.eqb_spec (rd options optIndex) c) as [Heq | Hne];
    [| apply IH; [lia | lia | exact Hacc]].
  assert (Hin : In (rd options optIndex) options)
    by (apply rd_in; congruence).
  assert (Hno : known_option OL_NOINDEX argc options (mkOpt (rd options optIndex) None OL_NOINDEX)).
  { split; [exact Hin |]. left. split; reflexivity. }
  destruct (58 =? rd options (optIndex + 1)).
  - rewrite removelast_snoc.
    destruct (Z.of_nat (List.length a) >? ai + 1).
    + cbn [fst snd]. split; [| lia]. apply Forall_app. split; [exact Hacc |].
      constructor; [| constructor]. split; [exact Hin |]. right. cbn [argIndex]. lia.
    + replace (nextArg <? argc) with true by (symmetry; apply Z.ltb_lt; lia).
      cbn [fst snd]. split; [| lia]. apply Forall_app. split; [exact Hacc |].
      constructor; [| constructor]. split; [exact Hin |]. right. cbn [argIndex]. lia.
  - apply IH; [lia | lia |]. apply Forall_app. split; [exact Hacc |].
    constructor; [exact Hno | constructor].
Qed.

Lemma scan_args_known OL_NOINDEX argc argv options :
  Forall (Forall (fun c => c <> 0)) argv ->
  forall fuel nextArg acc,
    1 <= nextArg ->
    Forall (known_option OL_NOINDEX argc options) acc ->
    Forall (known_option OL_NOINDEX argc options)
      (scan_args OL_NOINDEX fuel argc argv options nextArg acc).
Proof.
  intros Hargv. induction fuel as [| k IH]; intros nextArg acc Hn Hacc;
    [exact Hacc |].
  cbn [scan_args]. destruct (Z.ltb_spec nextArg argc) as [Hlt | Hge]; [| exact Hacc].
  pose proof (scan_arg_known OL_NOINDEX argc argv options Hargv
                (List.length (nth (Z.to_nat nextArg) argv [])) nextArg 1 acc
                ltac:(lia) ltac:(lia) Hacc) as H.
  cbv zeta in H.
  destruct (scan_arg OL_NOINDEX _ argc argv options nextArg 1 acc) as [acc' n'].
  cbn [fst snd] in H. destruct H as [H1 H2]. apply IH; [lia | exact H1].
Qed.

(** X19: every entry of the list GetOptList returns carries a character of
    the option string; its argIndex is OL_NOINDEX with a NULL argument, or
    lies between 1 and argc. *)
Theorem GetOptList_known_options (OL_NOINDEX argc : Z) (argv : list (list Z))
    (options : list Z) :
  Forall (Forall (fun c => c <> 0)) argv ->
  Forall (known_option OL_NOINDEX argc options) (GetOptList OL_NOINDEX argc argv options).
Proof.
  intros Hargv. unfold GetOptList.
  apply scan_args_known; [exact Hargv | lia | constructor].
Qed.

Lemma GetOptList_known_options_witness :
  GetOptList (-1) 4 [[108]; [45; 99]; [45; 105; 102]; [45; 111]] [99; 100; 105; 58; 111; 58]
  = [mkOpt 99 None (-1); mkOpt 105 (Some [102]) 2; mkOpt 111 None 4] /\
  Forall (known_option (-1) 4 [99; 100; 105; 58; 111; 58])
    (GetOptList (-1) 4 [[108]; [45; 99]; [45; 105; 102]; [45; 111]]
       [99; 100; 105; 58; 111; 58]).
Proof.
  split; [reflexivity |].
  apply (GetOptList_known_options (-1) 4 [[108]; [45; 99]; [45; 105; 102]; [45; 111]]
           [99; 100; 105; 58; 111; 58]).
  repeat constructor; lia.
Defined.

(** ** The frequency pass of the Huffman program *)

Lemma contains_from_spec c arr size : forall fuel i,
  0 <= i -> size - i <= Z.of_nat fuel ->
  let r := Huffman.contains_from fuel c arr size i in
  (r = -1 /\ forall j, i <= j < size -> rd arr j <> c) \/
  (i <= r < size /\ rd arr r = c /\ forall j, i <= j < r -> rd arr j <> c).
Proof.
  induction fuel as [| fuel IH]; intros i Hi Hf; cbv zeta.
  - cbn [Huffman.contains_from]. left. split; [reflexivity | intros j Hj; lia].
  - cbn [Huffman.contains_from]. destruct (Z.ltb_spec i size) as [Hlt | Hge].
    + destruct (Z.eqb_spec c (rd arr i)) as [Heq | Hne].
      * right. split; [lia |]. split; [symmetry; exact Heq | intros j Hj; lia].
      * destruct (IH (i + 1) ltac:(lia) ltac:(lia)) as [[Hr Hall] | [Hr [Hc Hall]]].
        -- left. split; [exact Hr |]. intros j Hj.
           destruct (Z.eq_dec j i) as [-> | Hji]; [congruence | apply Hall; lia].
        -- right. split; [lia |]. split; [exact Hc |]. intros j Hj.
           destruct (Z.eq_dec j i) as [-> | Hji]; [congruence | apply Hall; lia].
    + left. split; [reflexivity | intros j Hj; lia].
Qed.

(** X20: contains returns -1 when the character is not among the first size
    entries of the array, and otherwise the smallest index that holds it. *)
Theorem contains_first_index (c : Z) (arr : list Z) (size : Z) :
  let r := Huffman.contains c arr size in
  (r = -1 /\ forall j, 0 <= j < size -> rd arr j <> c) \/
  (0 <= r < size /\ rd arr r = c /\ forall j, 0 <= j < r -> rd arr j <> c).
Proof.
  unfold Huffman.contains. apply contains_from_spec; lia.
Qed.

Lemma sum_upto_S f n : sum_upto f (S n) = sum_upto f n + f n.
Proof.
  unfold sum_upto. rewrite seq_S, map_app. cbn [Nat.add map].
  generalize (map f (seq 0 n)). intros l.
  induction l as [| x t IH]; cbn [app fold_right]; [lia | rewrite IH; lia].
Qed.

Lemma sum_upto_ext f g n :
  (forall i, (i < n)%nat -> f i = g i) -> sum_upto f n = sum_upto g n.
Proof.
  induction n as [| n IH]; intros H; [reflexivity |].
  rewrite !sum_upto_S, IH, (H n) by (intros; try apply H; lia). reflexivity.
Qed.

Lemma sum_upto_bump f g n k :
  (k < n)%nat -> (forall i, (i < n)%nat -> i <> k -> g i = f i) -> g k = f k + 1 ->
  sum_upto g n = sum_upto f n + 1.
Proof.
  induction n as [| n IH]; intros Hk H Hb; [lia |].
  rewrite !sum_upto_S. destruct (Nat.eq_dec k n) as [-> | Hne].
  - rewrite Hb, (sum_upto_ext g f n) by (intros; apply H; lia). lia.
  - rewrite IH, (H n) by (try lia; intros; apply H; lia). lia.
Qed.

Lemma total_sum g :
  total g = sum_upto (fun i => rd (Huffman.reps g) (Z.of_nat i))
              (Z.to_nat (Huffman.uniq g)).
Proof.
  unfold total, sum_upto, Huffman.leaves. rewrite map_map. reflexivity.
Qed.

Lemma rd_repeat x n i : rd (repeat x n) i = 0 \/ rd (repeat x n) i = x.
Proof.
  unfold rd. destruct (i <? 0); [left; reflexivity |].
  destruct (nth_in_or_default (Z.to_nat i) (repeat x n) 0) as [Hin | ->];
    [right; apply repeat_spec in Hin; exact Hin | left; reflexivity].
Qed.

Lemma tallied_init a : tallied a [] Huffman.init_counts.
Proof.
  unfold tallied, Huffman.init_counts.
  cbn [Huffman.reps Huffman.chars Huffman.uniq List.length].
  split; [reflexivity |]. split; [reflexivity |]. split; [lia |].
  split; [intros i _; destruct (rd_repeat 0 256 i); assumption |].
  split; [intros H; contradiction H; reflexivity |].
  split; [intros i Hi; lia |]. split; [intros i Hi; lia |].
  split; [intros c [] | reflexivity].
Qed.

Lemma count_occ_snoc pre c x :
  Z.of_nat (count_occ Z.eq_dec (pre ++ [c]) x)
  = Z.of_nat (count_occ Z.eq_dec pre x) + (if Z.eq_dec c x then 1 else 0).
Proof.
  rewrite count_occ_app. cbn [count_occ]. destruct (Z.eq_dec c x); lia.
Qed.

Lemma tallied_step a pre g c :
  tallied a pre g -> (List.length pre < 256)%nat -> (pre = [] -> c = a) ->
  tallied a (pre ++ [c]) (Huffman.count_step g c).
Proof.
  intros [Hr [Hc [Hu [Hz [Hfirst [Ha [He [Hin Htot]]]]]]]] Hlen Hc0.
  unfold Huffman.count_step.
  pose proof (contains_first_index c (Huffman.chars g) (Huffman.uniq g)) as Hpos.
  cbv zeta in Hpos. set (pos := Huffman.contains c _ _) in *.
  set (u := Huffman.uniq g) in *.
  set (R := Huffman.reps g) in *. set (C := Huffman.chars g) in *.
  assert (Hne : 0 < u -> pre <> []).
  { intros H0 ->. cbn [List.length] in Hu. lia. }
  assert (Hlen' : Z.of_nat (List.length (pre ++ [c])) = Z.of_nat (List.length pre) + 1).
  { rewrite length_app. cbn [List.length]. lia. }
  destruct (Z.gtb_spec pos 0) as [Hgt | Hle].
  - (* an entry beyond the first one is incremented *)
    destruct Hpos as [[Hm _] | [Hp [Hcp Hfst]]]; [lia |].
    destruct (Hfirst (Hne ltac:(lia))) as [_ [Hc0a Hr0]].
    assert (Hca : c <> a).
    { intros ->. apply (Hfst 0); [lia | exact Hc0a]. }
    unfold tallied. cbn [Huffman.reps Huffman.chars Huffman.uniq].
    fold u R C.
    split; [rewrite length_wr; exact Hr |]. split; [exact Hc |].
    split; [lia |].
    split; [intros i Hi; rewrite rd_wr_other by lia; apply Hz; exact Hi |].
    split; [intros _; split; [lia |]; split; [exact Hc0a |];
            rewrite rd_wr_other by lia; exact Hr0 |].
    split.
    { intros i Hi Hia. rewrite rd_wr_other by congruence. apply Ha; assumption. }
    split.
    { intros i Hi Hia. destruct (He i Hi Hia) as [Hcnt Huniq].
      split; [| exact Huniq].
      rewrite count_occ_snoc. destruct (Z.eq_dec i pos) as [-> | Hip].
      - rewrite rd_wr_same by lia. rewrite Hcnt.
        destruct (Z.eq_dec c (rd C pos)); [reflexivity | congruence].
      - rewrite rd_wr_other by congruence. rewrite Hcnt.
        destruct (Z.eq_dec c (rd C i)) as [Heq | _]; [| lia].
        exfalso. apply Hip. symmetry. apply Huniq; [lia | congruence]. }
    split.
    { intros x Hx. apply in_app_or in Hx. destruct Hx as [Hx | [<- | []]].
      - apply Hin. exact Hx.
      - exists pos. split; [lia | exact Hcp]. }
    rewrite total_sum in *. cbn [Huffman.reps Huffman.uniq]. fold u R.
    rewrite Hlen', <- Htot.
    apply (sum_upto_bump _ _ _ (Z.to_nat pos)); [lia | |].
    + intros i Hi Hik. rewrite rd_wr_other by lia. reflexivity.
    + rewrite Z2Nat.id by lia. apply rd_wr_same. lia.
  - (* a new entry is made *)
    assert (Hu256 : 0 <= u < 256) by lia.
    assert (Hnew : 0 < u -> c <> a -> forall j, 0 <= j < u -> rd C j <> c).
    { intros H0 Hca. destruct Hpos as [[_ Hall] | [Hp [Hcp _]]]; [exact Hall |].
      destruct (Hfirst (Hne H0)) as [_ [Hc0a _]].
      assert (pos = 0) by lia. subst pos. congruence. }
    unfold tallied. cbn [Huffman.reps Huffman.chars Huffman.uniq].
    fold u R C. rewrite (Hz u ltac:(lia)). change (0 + 1) with 1.
    split; [rewrite length_wr; exact Hr |].
    split; [rewrite length_wr; exact Hc |].
    split; [lia |].
    split; [intros i Hi; rewrite rd_wr_other by lia; apply Hz; lia |].
    split.
    { intros _. split; [lia |]. destruct (Z.eq_dec u 0) as [Hu0 | Hu0].
      - rewrite Hu0, !rd_wr_same by lia. split; [| reflexivity].
        apply Hc0. destruct pre as [| x t]; [reflexivity |].
        exfalso. destruct Hfirst as [H _]; [discriminate | lia].
      - rewrite !rd_wr_other by lia. apply Hfirst. apply Hne. lia. }
    split.
    { intros i Hi Hia. destruct (Z.eq_dec i u) as [-> | Hiu].
      - apply rd_wr_same. lia.
      - rewrite rd_wr_other in * by congruence. apply Ha; [lia | exact Hia]. }
    split.
    { intros i Hi Hia. rewrite count_occ_snoc.
      destruct (Z.eq_dec i u) as [-> | Hiu].
      - rewrite !rd_wr_same in * by lia.
        assert (Hfresh : forall j, 0 <= j < u -> rd C j <> c).
        { destruct (Z.eq_dec u 0) as [Hu0 | Hu0]; [intros j Hj; lia |].
          apply Hnew; [lia | exact Hia]. }
        assert (Hnot : ~ In c pre).
        { intros Hx. destruct (Hin c Hx) as [j [Hj Hcj]]. exact (Hfresh j Hj Hcj). }
        rewrite (proj1 (count_occ_not_In Z.eq_dec pre c) Hnot).
        destruct (Z.eq_dec c c); [| congruence]. split; [reflexivity |].
        intros j Hj Hcj. destruct (Z.eq_dec j u) as [-> | Hju]; [reflexivity |].
        rewrite rd_wr_other in Hcj by congruence.
        exfalso. apply (Hfresh j); [lia | exact Hcj].
      - rewrite !rd_wr_other in * by congruence.
        destruct (He i ltac:(lia) Hia) as [Hcnt Huniq].
        assert (Hci : rd C i <> c).
        { destruct (Z.eq_dec c a) as [-> | Hca]; [exact Hia |].
          apply Hnew; lia. }
        split.
        + rewrite Hcnt. destruct (Z.eq_dec c (rd C i)); [congruence | lia].
        + intros j Hj Hcj. destruct (Z.eq_dec j u) as [-> | Hju].
          * rewrite rd_wr_same in Hcj by lia. congruence.
          * rewrite rd_wr_other in Hcj by congruence. apply Huniq; [lia | exact Hcj]. }
    split.
    { intros x Hx. apply in_app_or in Hx. destruct Hx as [Hx | [<- | []]].
      - destruct (Hin x Hx) as [i [Hi Hxi]]. exists i. split; [lia |].
        rewrite rd_wr_other by lia. exact Hxi.
      - exists u. split; [lia |]. apply rd_wr_same. lia. }
    rewrite total_sum in *. cbn [Huffman.reps Huffman.uniq]. fold u R.
    replace (Z.to_nat (u + 1)) with (S (Z.to_nat u)) by lia.
    rewrite sum_upto_S, Hlen', <- Htot, Z2Nat.id by lia.
    rewrite rd_wr_same by lia. f_equal.
    apply sum_upto_ext. intros i Hi. rewrite rd_wr_other by lia. reflexivity.
Qed.

Lemma tallied_count a : forall l pre g,
  tallied a pre g -> (List.length (pre ++ l) <= 256)%nat ->
  (pre = [] -> forall c t, l = c :: t -> c = a) ->
  tallied a (pre ++ l) (Huffman.count l g).
Proof.
  induction l as [| c t IH]; intros pre g Ht Hlen Hhd.
  - rewrite app_nil_r. exact Ht.
  - unfold Huffman.count. cbn [fold_left]. fold (Huffman.count t (Huffman.count_step g c)).
    replace (pre ++ c :: t) with ((pre ++ [c]) ++ t) in * by (rewrite <- app_assoc; reflexivity).
    apply IH.
    + apply tallied_step; [exact Ht | | intros E; exact (Hhd E c t eq_refl)].
      rewrite !length_app in Hlen. cbn [List.length] in Hlen. lia.
    + exact Hlen.
    + intros E. destruct pre; discriminate E.
Qed.

(** X21: after count has read a string of at most 256 characters into the
    fresh globals, the values of reps[0..uniq) add up to the length of the
    string and every character read has an entry; a character other than the
    first one has exactly one entry, whose count is its number of
    occurrences; the first character is at index 0 with count 1, and each
    further entry for it has count 1. *)
Theorem count_tallies (a : Z) (rest : list Z) :
  (List.length (a :: rest) <= 256)%nat ->
  let arr := a :: rest in
  let g := Huffman.count arr Huffman.init_counts in
  total g = Z.of_nat (List.length arr) /\
  rd (Huffman.chars g) 0 = a /\ rd (Huffman.reps g) 0 = 1 /\
  (forall c, In c arr ->
     exists i, 0 <= i < Huffman.uniq g /\ rd (Huffman.chars g) i = c) /\
  (forall i, 0 < i < Huffman.uniq g -> rd (Huffman.chars g) i = a ->
     rd (Huffman.reps g) i = 1) /\
  (forall i, 0 < i < Huffman.uniq g -> rd (Huffman.chars g) i <> a ->
     rd (Huffman.reps g) i
     = Z.of_nat (count_occ Z.eq_dec arr (rd (Huffman.chars g) i)) /\
     forall j, 0 <= j < Huffman.uniq g ->
       rd (Huffman.chars g) j = rd (Huffman.chars g) i -> j = i).
Proof.
  intros Hlen arr g.
  destruct (tallied_count a arr [] Huffman.init_counts (tallied_init a) Hlen)
    as [_ [_ [_ [_ [Hfirst [Ha [He [Hin Htot]]]]]]]].
  { intros _ c t E. injection E as <- _. reflexivity. }
  cbn [app] in *. fold g in Hfirst, Ha, He, Hin, Htot.
  destruct Hfirst as [_ [H1 H2]]; [discriminate |].
  split; [exact Htot |]. split; [exact H1 |]. split; [exact H2 |].
  split; [exact Hin |]. split; [exact Ha | exact He].
Qed.

Lemma count_tallies_witness :
  let g := Huffman.count [97; 98; 97; 98; 98] Huffman.init_counts in
  total g = 5 /\
  rd (Huffman.chars g) 0 = 97 /\ rd (Huffman.reps g) 0 = 1.
Proof.
  destruct (count_tallies 97 [98; 97; 98; 98]) as [H1 [H2 [H3 _]]].
  - cbn. lia.
  - cbv zeta. split; [exact H1 |]. split; [exact H2 | exact H3].
Defined.

(** ** The code table *)

Lemma Node_induction (P : Huffman.Node -> Prop) :
  (forall v c l r,
     (forall ln, l = Some ln -> P ln) -> (forall rn, r = Some rn -> P rn) ->
     P (Huffman.mkNode v c l r)) ->
  forall nd, P nd.
Proof.
  intros H. fix IH 1. intros [v c l r]. apply H.
  - destruct l as [x |]; intros ln E; [| discriminate E].
    injection E as <-. exact (IH x).
  - destruct r as [x |]; intros rn E; [| discriminate E].
    injection E as <-. exact (IH x).
Qed.

Lemma wr_firstn_low s d x k :
  (k <= Z.to_nat d)%nat -> 0 <= d -> firstn k (wr s d x) = firstn k s.
Proof.
  intros Hk Hd. unfold wr. replace (d <? 0) with false by (symmetry; apply Z.ltb_ge; lia).
  generalize (Z.to_nat d) Hk. clear. intros n. revert k n.
  induction s as [| y t IH]; intros k n Hk; [destruct n; reflexivity |].
  destruct n as [| n]; [replace k with 0%nat by lia; reflexivity |].
  cbn [upd_nat]. destruct k as [| k]; [reflexivity |].
  cbn [firstn]. rewrite IH by lia. reflexivity.
Qed.

Lemma wr_firstn_snoc s d x :
  0 <= d < Z.of_nat (List.length s) ->
  firstn (Z.to_nat (d + 1)) (wr s d x) = firstn (Z.to_nat d) s ++ [x].
Proof.
  intros Hd. unfold wr. replace (d <? 0) with false by (symmetry; apply Z.ltb_ge; lia).
  replace (Z.to_nat (d + 1)) with (S (Z.to_nat d)) by lia.
  assert (Hn : (Z.to_nat d < List.length s)%nat) by lia.
  generalize (Z.to_nat d) Hn. clear. intros n. revert n.
  induction s as [| y t IH]; intros n Hn; [cbn in Hn; lia |].
  destruct n as [| n]; [reflexivity |].
  change (firstn (S (S n)) (upd_nat (y :: t) (S n) x))
    with (y :: firstn (S n) (upd_nat t n x)).
  cbn [List.length] in Hn. rewrite IH by lia. reflexivity.
Qed.

Lemma c_string_terminated s d :
  0 <= d < Z.of_nat (List.length s) ->
  Forall (fun x => x <> 0) (firstn (Z.to_nat d) s) ->
  Huffman.c_string (wr s d 0) = firstn (Z.to_nat d) s.
Proof.
  intros Hd. unfold wr. replace (d <? 0) with false by (symmetry; apply Z.ltb_ge; lia).
  assert (Hn : (Z.to_nat d < List.length s)%nat) by lia.
  generalize (Z.to_nat d) Hn. clear. intros n. revert n.
  induction s as [| y t IH]; intros n Hn Hall; [cbn in Hn; lia |].
  destruct n as [| n]; [reflexivity |].
  cbn [upd_nat firstn Huffman.c_string] in *. cbn [List.length] in Hn.
  inversion Hall as [| ? ? Hy Ht]; subst.
  replace (y =? 0) with false by (symmetry; apply Z.eqb_neq; exact Hy).
  rewrite IH by (try lia; assumption). reflexivity.
Qed.

Lemma height_nonneg nd : 0 <= height nd.
Proof.
  induction nd as [v c l r IHl IHr] using Node_induction. cbn [height].
  destruct l as [ln |], r as [rn |]; try lia.
  specialize (IHl ln eq_refl). lia.
Qed.

Lemma descend ch b s d pr :
  printTree_ok ch -> b <> 0 -> 0 <= d ->
  d + 1 + height ch < Z.of_nat (List.length s) ->
  Forall (fun x => x <> 0) (firstn (Z.to_nat d) s) ->
  let p1 := Huffman.printTree ch (Huffman.mkPrinter (wr s d b) (d + 1) pr) in
  Huffman.printed p1
  = pr ++ table (firstn (Z.to_nat d) s) d
            (map (fun e => (b :: fst e, snd e)) (codes ch)) /\
  Huffman.end_ p1 = d /\
  List.length (Huffman.str p1) = List.length s /\
  firstn (Z.to_nat d) (Huffman.str p1) = firstn (Z.to_nat d) s.
Proof.
  intros Hok Hb Hd Hh Hpre.
  pose proof (height_nonneg ch) as Hhn.
  assert (Hsn : firstn (Z.to_nat (d + 1)) (wr s d b) = firstn (Z.to_nat d) s ++ [b])
    by (apply wr_firstn_snoc; lia).
  destruct (Hok (Huffman.mkPrinter (wr s d b) (d + 1) pr)) as [H1 [H2 [H3 H4]]];
    cbn [Huffman.end_ Huffman.str Huffman.printed] in *.
  - lia.
  - rewrite length_wr. lia.
  - rewrite Hsn. apply Forall_app. split; [exact Hpre | constructor; [exact Hb | constructor]].
  - cbv zeta. split; [| split; [lia | split]].
    + rewrite H1, Hsn. f_equal. unfold table. rewrite map_map.
      apply map_ext. intros [code c]. cbn [fst snd List.length].
      rewrite <- app_assoc. cbn [app]. f_equal. lia.
    + rewrite H3. apply length_wr.
    + apply (f_equal (firstn (Z.to_nat d))) in H4.
      rewrite !firstn_firstn in H4.
      replace (Nat.min (Z.to_nat d) (Z.to_nat (d + 1))) with (Z.to_nat d) in H4 by lia.
      rewrite H4. apply wr_firstn_low; lia.
Qed.

Lemma printTree_spec nd : printTree_ok nd.
Proof.
  induction nd as [v c l r IHl IHr] using Node_induction.
  intros [s d pr] Hd Hh Hpre. cbn [Huffman.end_ Huffman.str Huffman.printed] in *.
  destruct l as [ln |], r as [rn |].
  - (* two sons *)
    cbn [height] in Hh. pose proof (height_nonneg ln). pose proof (height_nonneg rn).
    destruct (descend ln 48 s d pr (IHl ln eq_refl) ltac:(lia) Hd ltac:(lia) Hpre)
      as [L1 [L2 [L3 L4]]].
    cbv zeta in *. cbn [Huffman.printTree Huffman.end_ Huffman.str Huffman.printed].
    remember (Huffman.printTree ln (Huffman.mkPrinter (wr s d 48) (d + 1) pr)) as p1.
    cbn [Huffman.end_ Huffman.str Huffman.printed]. rewrite L2.
    destruct (descend rn 49 (Huffman.str p1) d (Huffman.printed p1)
                (IHr rn eq_refl) ltac:(lia) Hd ltac:(lia) ltac:(rewrite L4; exact Hpre))
      as [R1 [R2 [R3 R4]]].
    cbv zeta in *.
    remember (Huffman.printTree rn (Huffman.mkPrinter (wr (Huffman.str p1) d 49) (d + 1)
                                      (Huffman.printed p1))) as p2.
    cbn [Huffman.end_ Huffman.str Huffman.printed].
    split; [| split; [lia | split; [congruence | congruence]]].
    rewrite R1, L1, L4, <- app_assoc. f_equal. cbn [codes].
    unfold table. rewrite map_app. reflexivity.
  - (* a left son only *)
    cbn [height] in Hh. pose proof (height_nonneg ln).
    destruct (descend ln 48 s d pr (IHl ln eq_refl) ltac:(lia) Hd ltac:(lia) Hpre)
      as [L1 [L2 [L3 L4]]].
    cbv zeta in *. cbn [Huffman.printTree Huffman.end_ Huffman.str Huffman.printed].
    remember (Huffman.printTree ln (Huffman.mkPrinter (wr s d 48) (d + 1) pr)) as p1.
    cbn [Huffman.end_ Huffman.str Huffman.printed].
    split; [| split; [lia | split; assumption]].
    rewrite L1. cbn [codes]. rewrite app_nil_r. reflexivity.
  - (* a right son only *)
    cbn [height] in Hh. pose proof (height_nonneg rn).
    destruct (descend rn 49 s d pr (IHr rn eq_refl) ltac:(lia) Hd ltac:(lia) Hpre)
      as [R1 [R2 [R3 R4]]].
    cbv zeta in *. cbn [Huffman.printTree Huffman.end_ Huffman.str Huffman.printed].
    remember (Huffman.printTree rn (Huffman.mkPrinter (wr s d 49) (d + 1) pr)) as p2.
    cbn [Huffman.end_ Huffman.str Huffman.printed].
    split; [| split; [lia | split; assumption]].
    rewrite R1. cbn [codes app]. reflexivity.
  - (* a leaf *)
    cbn [height] in Hh. cbn [Huffman.printTree Huffman.end_ Huffman.str Huffman.printed].
    split; [| split; [reflexivity | split; [apply length_wr | apply wr_firstn_low; lia]]].
    rewrite c_string_terminated by (try lia; assumption).
    cbn [codes table map fst snd List.length]. rewrite app_nil_r.
    replace (d + Z.of_nat 0) with d by lia. reflexivity.
Qed.

(** X22: called on a tree of height below 1024 with the fresh buffer and end
    = 0, printTree prints one line per leaf, from left to right: the path
    from the root ('0' for lson, '1' for rson), the leaf's character and the
    length of the path; it leaves end at -1. *)
Theorem printTree_lists_paths (nd : Huffman.Node) :
  height nd < 1024 ->
  let p := Huffman.printTree nd Huffman.init_printer in
  Huffman.printed p
  = map (fun e => (fst e, snd e, Z.of_nat (List.length (fst e)))) (codes nd) /\
  Huffman.end_ p = -1.
Proof.
  intros Hh.
  destruct (printTree_spec nd Huffman.init_printer) as [H1 [H2 _]].
  - cbn. lia.
  - unfold Huffman.init_printer. cbn [Huffman.end_ Huffman.str List.length].
    rewrite repeat_length. lia.
  - cbn. constructor.
  - cbv zeta in *. split; [| exact H2].
    rewrite H1. reflexivity.
Qed.

Lemma printTree_lists_paths_witness :
  Huffman.printed
    (Huffman.printTree
       (Huffman.mkNode 3 None (Some (leaf 1 97))
          (Some (Huffman.mkNode 2 None (Some (leaf 1 98)) (Some (leaf 1 99)))))
       Huffman.init_printer)
  = [([48], Some 97, 1); ([49; 48], Some 98, 2); ([49; 49], Some 99, 2)].
Proof.
  apply (printTree_lists_paths
           (Huffman.mkNode 3 None (Some (leaf 1 97))
              (Some (Huffman.mkNode 2 None (Some (leaf 1 98)) (Some (leaf 1 99)))))).
  cbn. lia.
Defined.

(** ** Bit strings of any length *)

Lemma to_int_pos z : 0 <= z < 2 ^ 31 -> to_int z = z.
Proof.
  intros H. unfold to_int, uint. rewrite Z.mod_small by lia.
  replace (z <? 2 ^ 31) with true; [reflexivity |].
  symmetry. apply Z.ltb_lt. lia.
Qed.

Lemma map_rd_seq bytes : forall q,
  (q <= List.length bytes)%nat ->
  map (fun i => rd bytes (0 + Z.of_nat i * 1)) (seq 0 q) = firstn q bytes.
Proof.
  intros q Hq.
  assert (H : forall k l, (q <= List.length l)%nat ->
            map (fun i => nth (i - k) l 0) (seq k q) = firstn q l).
  { clear. induction q as [| q IH]; intros k l Hq; [reflexivity |].
    destruct l as [| x l]; [cbn in Hq; lia |].
    cbn [seq map firstn]. rewrite Nat.sub_diag. cbn [nth]. f_equal.
    rewrite <- (IH (S k) l) by (cbn in Hq; lia).
    apply map_ext_in. intros i Hi. apply in_seq in Hi.
    replace (i - k)%nat with (S (i - S k)) by lia. reflexivity. }
  rewrite <- (H 0%nat bytes Hq). apply map_ext. intros i. unfold rd.
  replace (0 + Z.of_nat i * 1 <? 0) with false by (symmetry; apply Z.ltb_ge; lia).
  f_equal. lia.
Qed.

Lemma bytes_bits_app a b : bytes_bits (a ++ b) = bytes_bits a ++ bytes_bits b.
Proof. unfold bytes_bits. apply flat_map_app. Qed.

Lemma bytes_bits_len l : List.length (bytes_bits l) = (8 * List.length l)%nat.
Proof.
  unfold bytes_bits. induction l as [| x t IH]; [reflexivity |].
  cbn [flat_map List.length]. rewrite length_app, IH. unfold byte_bits.
  rewrite low_bits_length. lia.
Qed.

(** The first [8 q + r] bits of a byte string. *)
Lemma firstn_bytes_bits bytes (q r : nat) :
  (r < 8)%nat -> (q < List.length bytes)%nat \/ (q = List.length bytes /\ r = 0%nat) ->
  firstn (8 * q + r) (bytes_bits bytes)
  = bytes_bits (firstn q bytes) ++ firstn r (byte_bits (nth q bytes 0)).
Proof.
  intros Hr Hq.
  rewrite <- (firstn_skipn q bytes) at 1. rewrite bytes_bits_app.
  assert (Hl : List.length (bytes_bits (firstn q bytes)) = (8 * q)%nat).
  { rewrite bytes_bits_len, firstn_length_le by lia. reflexivity. }
  rewrite firstn_app, Hl.
  rewrite firstn_all2 by lia. f_equal.
  replace (8 * q + r - 8 * q)%nat with r by lia.
  destruct Hq as [Hq | [Hq ->]]; [| reflexivity].
  assert (Hs : skipn q bytes = nth q bytes 0 :: skipn (S q) bytes).
  { clear - Hq. revert q Hq. induction bytes as [| x t IH]; intros q Hq;
      [cbn in Hq; lia |].
    destruct q as [| q]; [reflexivity |]. cbn [skipn nth].
    apply IH. cbn in Hq. lia. }
  rewrite Hs. unfold bytes_bits. cbn [flat_map].
  rewrite firstn_app. unfold byte_bits at 2. rewrite low_bits_length.
  replace (r - 8)%nat with 0%nat by lia. cbn [firstn]. rewrite app_nil_r. reflexivity.
Qed.

Lemma PutBits_bits s bytes count :
  0 <= bitCount s < 8 -> 0 <= count < 2 ^ 31 ->
  count <= 8 * Z.of_nat (List.length bytes) -> count <= capacity s ->
  exists s',
    BitFilePutBits (Some s) (Some bytes) count = (count, Some s') /\
    written_bits s' = written_bits s ++ firstn (Z.to_nat count) (bytes_bits bytes) /\
    0 <= bitCount s' < 8 /\ mode s' = mode s /\
    capacity s' = capacity s - count.
Proof.
  intros Hk Hc Hlen Hcap. unfold BitFilePutBits.
  rewrite (to_int_pos count Hc), (tail_count_mod count ltac:(lia)). unfold whole_count.
  pose proof (Z.div_mod count 8 ltac:(lia)) as Hdm.
  pose proof (Z.mod_pos_bound count 8 ltac:(lia)) as Hr.
  assert (Hq : 0 <= count / 8) by (apply Z.div_pos; lia).
  set (q := count / 8) in *. set (r := count mod 8) in *.
  destruct (put_whole_bits (Z.to_nat q) bytes 0 1 s Hk ltac:(lia))
    as [W1 [W2 [W3 [W4 [W5 W6]]]]].
  pose proof (put_whole_mode (Z.to_nat q) bytes 0 1 s) as Wm.
  destruct (put_whole (Z.to_nat q) bytes 0 1 s) as [[ok off] s1].
  cbn [fst snd] in *. subst ok off. cbn [negb].
  rewrite map_rd_seq in W3 by lia.
  assert (Hcount : Z.to_nat count = (8 * Z.to_nat q + Z.to_nat r)%nat) by lia.
  assert (Hrd : rd bytes (0 + Z.of_nat (Z.to_nat q) * 1) = nth (Z.to_nat q) bytes 0).
  { unfold rd. replace (0 + Z.of_nat (Z.to_nat q) * 1 <? 0) with false
      by (symmetry; apply Z.ltb_ge; lia). f_equal. lia. }
  destruct (Z.eqb_spec r 0) as [Hr0 | Hr0]; cbn [negb].
  - exists s1. split; [reflexivity |].
    split; [| split; [lia | split; [exact Wm | lia]]].
    rewrite W3, Hcount, firstn_bytes_bits by lia.
    rewrite Hr0. cbn [Z.to_nat firstn]. rewrite app_nil_r. reflexivity.
  - rewrite Hrd.
    destruct (put_tail_bits (Z.to_nat r) (nth (Z.to_nat q) bytes 0) s1
                ltac:(lia) ltac:(lia) ltac:(lia)) as [T1 [T2 [T3 [T4 T5]]]].
    pose proof (put_tail_mode (Z.to_nat r) (nth (Z.to_nat q) bytes 0) s1) as Tm.
    destruct (put_tail (Z.to_nat r) _ s1) as [ok2 s2]. cbn [fst snd] in *.
    subst ok2. cbn [negb]. exists s2. split; [reflexivity |].
    split; [| split; [lia | split; [congruence | lia]]].
    rewrite T2, W3, <- app_assoc. f_equal.
    rewrite Hcount, firstn_bytes_bits by lia. reflexivity.
Qed.

Lemma bits_bytes : forall (q : nat) (l : list bool),
  List.length l = (8 * q)%nat ->
  exists cs, List.length cs = q /\ Forall (fun c => 0 <= c < 256) cs /\
             l = bytes_bits cs.
Proof.
  induction q as [| q IH]; intros l Hl.
  - destruct l; [| discriminate]. exists []. repeat split. constructor.
  - destruct (take_bits 8 l ltac:(lia)) as [a [rest [-> Ha]]].
    rewrite length_app in Hl.
    destruct (bits8_value a Ha) as [c [Hc ->]].
    destruct (IH rest ltac:(lia)) as [cs [Hlen [Hall ->]]].
    exists (c :: cs). split; [cbn [List.length]; lia |].
    split; [constructor; assumption | reflexivity].
Qed.

Lemma store_seq_prefix cs : forall dst (k : nat),
  (k + List.length cs <= List.length dst)%nat ->
  store_seq dst (Z.of_nat k) 1 cs
  = firstn k dst ++ cs ++ skipn (k + List.length cs) dst.
Proof.
  induction cs as [| c cs IH]; intros dst k Hk.
  - cbn [store_seq List.length app]. rewrite Nat.add_0_r. symmetry. apply firstn_skipn.
  - cbn [store_seq List.length] in *.
    replace (Z.of_nat k + 1) with (Z.of_nat (S k)) by lia.
    rewrite IH by (rewrite length_wr; lia).
    assert (H1 : firstn (S k) (wr dst (Z.of_nat k) c) = firstn k dst ++ [c]).
    { replace (S k) with (Z.to_nat (Z.of_nat k + 1)) by lia.
      rewrite wr_firstn_snoc by lia. rewrite Nat2Z.id. reflexivity. }
    assert (H2 : skipn (S k + List.length cs) (wr dst (Z.of_nat k) c)
                 = skipn (S k + List.length cs) dst).
    { unfold wr. replace (Z.of_nat k <? 0) with false by (symmetry; apply Z.ltb_ge; lia).
      rewrite Nat2Z.id. generalize (List.length cs). intros m. clear.
      revert k. induction dst as [| x t IHd]; intros k; [destruct k; reflexivity |].
      destruct k as [| k]; [reflexivity |]. cbn [upd_nat]. cbn [Nat.add skipn].
      apply IHd. }
    rewrite H1, H2, <- app_assoc. cbn [app].
    replace (k + S (List.length cs))%nat with (S k + List.length cs)%nat by lia.
    reflexivity.
Qed.

Lemma tail_byte l :
  (0 < List.length l < 8)%nat ->
  byte_bits (uchar (Z.shiftl (uchar (fold_left shift_in l 0))
                      (uchar (8 - Z.of_nat (List.length l)))))
  = l ++ repeat false (8 - List.length l).
Proof.
  intros H.
  destruct l as [| b1 [| b2 [| b3 [| b4 [| b5 [| b6 [| b7 [| ? ?]]]]]]]];
    cbn [List.length] in H; try lia.
  - destruct b1; reflexivity.
  - destruct b1, b2; reflexivity.
  - destruct b1, b2, b3; reflexivity.
  - destruct b1, b2, b3, b4; reflexivity.
  - destruct b1, b2, b3, b4, b5; reflexivity.
  - destruct b1, b2, b3, b4, b5, b6; reflexivity.
  - destruct b1, b2, b3, b4, b5, b6, b7; reflexivity.
Qed.

Lemma GetBits_val s dst count l rest :
  0 <= bitCount s < 8 -> 0 <= count < 2 ^ 31 ->
  count <= 8 * Z.of_nat (List.length dst) ->
  List.length l = Z.to_nat count -> unread_bits s = l ++ rest ->
  exists dst' s',
    BitFileGetBits (Some s) (Some dst) count = (count, Some dst', Some s') /\
    unread_bits s' = rest /\ 0 <= bitCount s' < 8 /\
    List.length dst' = List.length dst /\
    firstn (Z.to_nat count) (bytes_bits dst') = l.
Proof.
  intros Hk Hc Hlen Hl Hu. unfold BitFileGetBits.
  rewrite (to_int_pos count Hc), (tail_count_mod count ltac:(lia)). unfold whole_count.
  pose proof (Z.div_mod count 8 ltac:(lia)) as Hdm.
  pose proof (Z.mod_pos_bound count 8 ltac:(lia)) as Hr.
  assert (Hq : 0 <= count / 8) by (apply Z.div_pos; lia).
  set (q := count / 8) in *. set (r := count mod 8) in *.
  assert (Hcount : Z.to_nat count = (8 * Z.to_nat q + Z.to_nat r)%nat) by lia.
  destruct (take_bits (8 * Z.to_nat q) l ltac:(lia)) as [lw [lt [El Hlw]]].
  destruct (bits_bytes (Z.to_nat q) lw Hlw) as [cs [Hcs [Hall Elw]]].
  assert (Hlt : List.length lt = Z.to_nat r).
  { subst l. rewrite length_app in Hl. lia. }
  rewrite El, Elw, <- app_assoc in Hu.
  destruct (get_whole_val (Z.to_nat q) cs dst 0 1 s _ Hcs Hall Hu Hk)
    as [W1 [W2 [W3 [W4 [W5 W6]]]]].
  destruct (get_whole (Z.to_nat q) dst 0 1 s) as [[[ok off] b1] s1].
  cbn [fst snd] in *. injection W1 as -> ->. subst b1. cbn [negb].
  pose proof (store_seq_prefix cs dst 0 ltac:(lia)) as Hst.
  change (Z.of_nat 0) with 0 in Hst. cbn [firstn app Nat.add] in Hst.
  rewrite Hcs in Hst.
  assert (Hstl : List.length (store_seq dst 0 1 cs) = List.length dst).
  { rewrite Hst, length_app, length_skipn. lia. }
  assert (Hfq : firstn (Z.to_nat q) (store_seq dst 0 1 cs) = cs).
  { rewrite Hst, firstn_app, Hcs, Nat.sub_diag. cbn [firstn]. rewrite app_nil_r.
    apply firstn_all2. lia. }
  replace (Z.of_nat (Z.to_nat q) * 1) with q by lia.
  destruct (Z.eqb_spec r 0) as [Hr0 | Hr0]; cbn [negb].
  - exists (store_seq dst 0 1 cs), s1. split; [reflexivity |].
    assert (lt = []) by (destruct lt; [reflexivity | cbn in Hlt; lia]). subst lt.
    cbn [app] in W3. split; [exact W3 |]. split; [lia |]. split; [exact Hstl |].
    rewrite Hcount, Hr0, firstn_bytes_bits by (cbn; lia).
    rewrite Hfq, El, Elw. cbn [Z.to_nat firstn]. reflexivity.
  - assert (Hqd : q < Z.of_nat (List.length dst)) by lia.
    set (b0 := wr (store_seq dst 0 1 cs) q 0).
    assert (Hb0 : List.length b0 = List.length dst)
      by (subst b0; rewrite length_wr; exact Hstl).
    destruct (get_tail_val (Z.to_nat r) lt b0 q s1 rest Hlt W3 ltac:(lia) ltac:(lia))
      as [T1 [T2 [T3 [T4 _]]]].
    destruct (get_tail (Z.to_nat r) b0 q s1) as [[ok2 b2] s2]. cbn [fst snd] in *.
    subst ok2. cbn [negb].
    eexists. exists s2. split; [reflexivity |].
    split; [exact T3 |]. split; [exact T4 |].
    replace (Z.to_nat r =? 0)%nat with false in T2 by (symmetry; apply Nat.eqb_neq; lia).
    subst b2.
    assert (Hrd0 : rd b0 q = 0) by (subst b0; apply rd_wr_same; lia).
    rewrite Hrd0. rewrite rd_wr_same by lia. rewrite wr_twice. subst b0.
    rewrite wr_twice.
    set (y := uchar (Z.shiftl (uchar (fold_left shift_in lt 0)) (uchar (8 - r)))).
    split; [rewrite length_wr; exact Hstl |].
    rewrite Hcount, firstn_bytes_bits by (rewrite ?length_wr; lia).
    rewrite (wr_firstn_low _ q y (Z.to_nat q)) by lia. rewrite Hfq.
    assert (Hn : nth (Z.to_nat q) (wr (store_seq dst 0 1 cs) q y) 0 = y).
    { pose proof (rd_wr_same (store_seq dst 0 1 cs) q y ltac:(lia)) as Hrw.
      unfold rd in Hrw.
      replace (q <? 0) with false in Hrw by (symmetry; apply Z.ltb_ge; lia).
      exact Hrw. }
    rewrite Hn. subst y.
    replace (uchar (8 - r)) with (uchar (8 - Z.of_nat (List.length lt)))
      by (f_equal; lia).
    rewrite tail_byte by lia. rewrite <- Hlt, firstn_app, Nat.sub_diag.
    rewrite firstn_all. cbn [firstn]. rewrite app_nil_r.
    rewrite El, Elw. reflexivity.
Qed.

(** X23: the first count bits of a byte array, written with BitFilePutBits
    to a fresh stream that is then closed, are returned by BitFileGetBits
    with the same count: it returns count, the destination keeps its length
    and its first count bits, most significant bit first, are those of the
    source. *)
Theorem bit_array_roundtrip (bytes dst : list Z) (count : Z) (word : list Z)
    (m : BF_MODES) (fout : FILE) :
  writing m = true -> out fout = [] -> 0 <= count < 2 ^ 31 ->
  count <= 8 * Z.of_nat (List.length bytes) ->
  count <= 8 * Z.of_nat (List.length dst) ->
  count < 8 * Z.of_nat (room fout) ->
  exists f,
    BitFileClose (snd (BitFilePutBits (MakeBitFile word (Some fout) m) (Some bytes) count))
    = (0, Some f) /\
    forall din, inp din = out f ->
      exists dst' s',
        BitFileGetBits (MakeBitFile word (Some din) BF_READ) (Some dst) count
        = (count, Some dst', Some s') /\
        List.length dst' = List.length dst /\
        firstn (Z.to_nat count) (bytes_bits dst')
        = firstn (Z.to_nat count) (bytes_bits bytes).
Proof.
  intros Hm Hout Hc Hb Hd Hroom.
  destruct (func_of_Determine word fout m) as [bf [E [_ [_ [C [_ [F M]]]]]]].
  rewrite E.
  assert (Hcap : capacity bf = 8 * Z.of_nat (room fout))
    by (unfold capacity; rewrite C, F; lia).
  destruct (PutBits_bits bf bytes count ltac:(lia) Hc Hb ltac:(lia))
    as [s1 [E1 [Hw [Hk1 [Hm1 Hc1]]]]].
  rewrite E1. cbn [snd BitFileClose].
  destruct (flush_bits s1 ltac:(congruence) Hk1 ltac:(lia)) as [pad [Hpad Hfl]].
  assert (Hwb : written_bits bf = []).
  { unfold written_bits. rewrite C, F, Hout. reflexivity. }
  rewrite Hw, Hwb in Hfl. cbn [app] in Hfl.
  exists (fp (flush_residue s1)). split; [reflexivity |].
  intros din Hdin.
  destruct (func_of_Determine word din BF_READ) as [bd [Ed [_ [_ [Cd [_ [Fd _]]]]]]].
  rewrite Ed.
  assert (Hu : unread_bits bd = firstn (Z.to_nat count) (bytes_bits bytes) ++ pad).
  { unfold unread_bits. rewrite Cd, Fd, Hdin. exact Hfl. }
  assert (Hfl' : List.length (firstn (Z.to_nat count) (bytes_bits bytes))
                 = Z.to_nat count).
  { apply firstn_length_le. rewrite bytes_bits_len. lia. }
  destruct (GetBits_val bd dst count (firstn (Z.to_nat count) (bytes_bits bytes)) pad
              ltac:(lia) Hc Hd Hfl' Hu)
    as [dst' [s' [Eg [_ [_ [Hl Hf]]]]]].
  exists dst', s'. split; [exact Eg |]. split; [exact Hl | exact Hf].
Qed.

Lemma bit_array_roundtrip_witness :
  exists f,
    BitFileClose (snd (BitFilePutBits (MakeBitFile le_word (Some blank_file) BF_WRITE)
                         (Some [171; 205]) 11))
    = (0, Some f) /\
    forall din, inp din = out f ->
      exists dst' s',
        BitFileGetBits (MakeBitFile le_word (Some din) BF_READ) (Some [255; 255]) 11
        = (11, Some dst', Some s') /\
        List.length dst' = 2%nat /\
        firstn 11 (bytes_bits dst') = firstn 11 (bytes_bits [171; 205]).
Proof.
  apply (bit_array_roundtrip [171; 205] [255; 255] 11 le_word BF_WRITE blank_file).
  - reflexivity.
  - reflexivity.
  - lia.
  - cbn. lia.
  - cbn. lia.
  - cbn. lia.
Defined.

(** ** The queue of the Huffman program *)

Import Huffman.
Local Close Scope Z_scope.

Lemma nth_error_set_nth l : forall a b c,
  nth_error (set_nth l a c) b
  = if Nat.eqb a b then (if Nat.ltb a (List.length l) then Some c else None)
    else nth_error l b.
Proof.
  induction l as [| x t IH]; intros a b c.
  - cbn [set_nth List.length]. destruct (Nat.eqb a b); destruct b; reflexivity.
  - destruct a as [| a], b as [| b]; cbn [set_nth nth_error List.length]; try reflexivity.
    rewrite IH. destruct (Nat.eqb_spec a b) as [-> | Hne].
    + rewrite Nat.eqb_refl. reflexivity.
    + replace (Nat.eqb (S a) (S b)) with false by (symmetry; apply Nat.eqb_neq; lia).
      reflexivity.
Qed.

Lemma load_store_same st a c :
  (a < List.length (cells st))%nat -> load (store st a c) a = Some c.
Proof.
  intros H. unfold load, store. cbn [cells]. rewrite nth_error_set_nth, Nat.eqb_refl.
  replace (Nat.ltb a (List.length (cells st))) with true
    by (symmetry; apply Nat.ltb_lt; exact H).
  reflexivity.
Qed.

Lemma load_store_other st a b c : a <> b -> load (store st a c) b = load st b.
Proof.
  intros H. unfold load, store. cbn [cells]. rewrite nth_error_set_nth.
  replace (Nat.eqb a b) with false by (symmetry; apply Nat.eqb_neq; exact H).
  reflexivity.
Qed.

Lemma length_set_nth l : forall a c, List.length (set_nth l a c) = List.length l.
Proof.
  induction l as [| x t IH]; intros [| a] c; cbn [set_nth List.length];
    try reflexivity. rewrite IH. reflexivity.
Qed.

Lemma load_bound st a c : load st a = Some c -> (a < List.length (cells st))%nat.
Proof. unfold load. intros H. apply nth_error_Some. congruence. Qed.

Lemma load_createQueue_old st a :
  (a < List.length (cells st))%nat -> load (snd (createQueue st)) a = load st a.
Proof.
  intros H. unfold load, createQueue. cbn [snd cells]. apply nth_error_app1. exact H.
Qed.

Lemma load_createQueue_new st :
  load (snd (createQueue st)) (List.length (cells st)) = Some (mkQueue None None).
Proof.
  unfold load, createQueue. cbn [snd cells].
  rewrite nth_error_app2 by lia. rewrite Nat.sub_diag. reflexivity.
Qed.

(** A chain does not depend on cells outside it. *)
Lemma chain_frame st st' : forall addrs L a,
  (forall x, In x addrs -> load st' x = load st x) ->
  chain st a addrs L -> chain st' a addrs L.
Proof.
  induction addrs as [| x xs IH]; intros L a Hsame Hc; destruct L as [| nd t];
    cbn [chain] in *; try assumption.
  destruct Hc as [Ha [c [Hl [Hn Hrest]]]]. split; [exact Ha |].
  exists c. split; [rewrite Hsame by (left; reflexivity); exact Hl |].
  split; [exact Hn |]. apply IH; [| exact Hrest].
  intros y Hy. apply Hsame. right. exact Hy.
Qed.

Lemma chain_bound st : forall addrs L a,
  chain st a addrs L -> forall x, In x addrs -> (x < List.length (cells st))%nat.
Proof.
  induction addrs as [| y ys IH]; intros L a Hc x Hx; [contradiction |].
  destruct L as [| nd t]; cbn [chain] in Hc; [contradiction |].
  destruct Hc as [_ [c [Hl [_ Hrest]]]]. destruct Hx as [<- | Hx].
  - apply (load_bound st y c Hl).
  - apply (IH t (next c) Hrest x Hx).
Qed.

Lemma chain_length st : forall addrs L a,
  chain st a addrs L -> List.length addrs = List.length L.
Proof.
  induction addrs as [| y ys IH]; intros [| nd t] a Hc; cbn [chain] in Hc;
    try contradiction; [reflexivity |].
  destruct Hc as [_ [c [_ [_ Hrest]]]]. cbn [List.length]. f_equal.
  apply (IH t (next c) Hrest).
Qed.

Lemma walk_chain st : forall addrs L a fuel,
  chain st a addrs L -> (List.length addrs <= fuel)%nat ->
  walk fuel st a = map Some L.
Proof.
  induction addrs as [| x xs IH]; intros [| nd t] a fuel Hc Hf; cbn [chain] in Hc;
    try contradiction.
  - subst a. destruct fuel; reflexivity.
  - destruct Hc as [-> [c [Hl [Hn Hrest]]]]. cbn [List.length] in Hf.
    destruct fuel as [| k]; [lia |]. cbn [walk map]. rewrite Hl, Hn. f_equal.
    apply (IH t (next c) k Hrest). lia.
Qed.

Lemma chain_contents st addrs L :
  NoDup addrs -> chain st (head st) addrs L -> contents st = map Some L.
Proof.
  intros Hnd Hc. unfold contents. apply (walk_chain st addrs L); [exact Hc |].
  assert (H : (List.length addrs <= List.length (seq 0 (List.length (cells st))))%nat).
  { apply NoDup_incl_length; [exact Hnd |].
    intros x Hx. apply in_seq. pose proof (chain_bound st addrs L _ Hc x Hx). lia. }
  rewrite length_seq in H. exact H.
Qed.

Lemma pop_result st x t :
  holds st (x :: t) ->
  exists st',
    pop st = Some (Some x, st') /\ holds st' t /\
    peek st = Some (Some x) /\
    isAlone st = Some (match t with [] => 1%Z | _ => 0%Z end) /\
    (t = [] -> isEmpty st' = 1%Z).
Proof.
  intros [addrs [Hnd Hc]]. destruct addrs as [| a xs]; cbn [chain] in Hc;
    [contradiction |].
  destruct Hc as [Hh [c [Hl [Hn Hrest]]]].
  exists (set_head st (next c)).
  unfold pop, peek, isAlone, bind. rewrite Hh, Hl, Hn.
  split; [reflexivity |].
  assert (Hnext : match t with [] => next c = None | _ => next c <> None end).
  { destruct xs as [| y ys], t as [| z zs]; cbn [chain] in Hrest; try contradiction.
    - exact Hrest.
    - destruct Hrest as [-> _]. discriminate. }
  split; [| split; [reflexivity | split]].
  - destruct t as [| z zs].
    + left. cbn [set_head head]. exact Hnext.
    + exists xs. split; [inversion Hnd; assumption |].
      cbn [set_head head]. apply (chain_frame st); [reflexivity | exact Hrest].
  - destruct t; destruct (next c); try reflexivity; congruence.
  - intros ->. unfold isEmpty. cbn [set_head head]. rewrite Hnext. reflexivity.
Qed.

Lemma push_link st h hc hn nd q qc qn :
  head st = Some h -> load st h = Some hc -> n hc = Some hn ->
  push_scan (S (S (List.length (cells st))))
    (store (snd (createQueue st)) (List.length (cells st)) (mkQueue (Some nd) None))
    (value nd) h = Some q ->
  load st q = Some qc -> n qc = Some qn ->
  exists st5,
    push nd st = Some st5 /\
    head st5 = (if Nat.eqb q h && (value nd <? value qn)%Z
                then Some (List.length (cells st)) else Some h) /\
    load st5 (List.length (cells st)) = Some (mkQueue (Some nd) (next qc)) /\
    load st5 q = Some (mkQueue (Some qn) (Some (List.length (cells st)))) /\
    (forall x, x <> q -> x <> List.length (cells st) -> load st5 x = load st x).
Proof.
  intros Hh Hl Hn Hscan Hq Hqn.
  pose proof (load_bound st q qc Hq) as Hqb.
  set (qnx := List.length (cells st)) in *.
  assert (Hlen1 : List.length (cells (snd (createQueue st))) = S qnx).
  { unfold createQueue. cbn [snd cells]. rewrite length_app. cbn [List.length].
    subst qnx. lia. }
  unfold push. rewrite Hh. cbv beta iota zeta. rewrite Hh. cbn [bind]. rewrite Hl. cbn [bind].
  rewrite Hn.
  change (createQueue st) with (qnx, snd (createQueue st)). cbv iota beta zeta.
  set (st1 := snd (createQueue st)) in *.
  set (st2 := store st1 qnx (mkQueue (Some nd) None)) in *.
  assert (Hlen2 : List.length (cells st2) = S qnx).
  { subst st2. unfold store. cbn [cells]. rewrite length_set_nth. exact Hlen1. }
  rewrite Hlen2, Hscan. cbn [bind].
  assert (Hq2 : load st2 q = Some qc).
  { subst st2. rewrite load_store_other by lia. subst st1.
    rewrite load_createQueue_old by exact Hqb. exact Hq. }
  rewrite Hq2. cbn [bind]. rewrite Hqn. cbn [bind].
  set (drop := Nat.eqb q h && (value nd <? value qn)%Z).
  set (st3 := if drop
              then set_head (store st2 qnx (mkQueue (Some nd) (Some q))) (Some qnx)
              else st2).
  assert (Hq3 : load st3 q = Some qc).
  { subst st3. destruct drop; [| exact Hq2].
    unfold load, set_head. cbn [cells]. fold (load (store st2 qnx (mkQueue (Some nd) (Some q))) q).
    rewrite load_store_other by lia. exact Hq2. }
  assert (Hlen3 : List.length (cells st3) = S qnx).
  { subst st3. destruct drop; [| exact Hlen2].
    unfold set_head, store. cbn [cells]. rewrite length_set_nth. exact Hlen2. }
  assert (Hhead3 : head st3 = if drop then Some qnx else Some h).
  { subst st3. destruct drop; [reflexivity |]. subst st2 st1. exact Hh. }
  assert (Hother3 : forall x, x <> qnx -> load st3 x = load st1 x).
  { intros x Hx. subst st3. destruct drop.
    - unfold load, set_head. cbn [cells].
      fold (load (store st2 qnx (mkQueue (Some nd) (Some q))) x).
      rewrite load_store_other by lia. subst st2. apply load_store_other. lia.
    - subst st2. apply load_store_other. lia. }
  fold st3. rewrite Hq3.
  set (st4 := store st3 qnx (mkQueue (Some nd) (next qc))).
  assert (Hq4 : load st4 q = Some qc).
  { subst st4. rewrite load_store_other by lia. exact Hq3. }
  cbn [bind]. fold st4. rewrite Hq4. cbn [bind].
  eexists. split; [reflexivity |].
  split; [exact Hhead3 |].
  split.
  - rewrite load_store_other by lia. subst st4. apply load_store_same. lia.
  - split.
    + rewrite Hqn. apply load_store_same. subst st4. unfold store. cbn [cells].
      rewrite length_set_nth. lia.
    + intros x Hxq Hxn. rewrite load_store_other by congruence.
      subst st4. rewrite load_store_other by congruence.
      rewrite Hother3 by exact Hxn. subst st1.
      destruct (Nat.lt_ge_cases x qnx) as [Hlt | Hge].
      * apply load_createQueue_old. exact Hlt.
      * unfold load. rewrite (proj2 (nth_error_None _ _)) by lia.
        symmetry. apply nth_error_None. subst qnx. lia.
Qed.

Lemma last_default {A} (l : list A) : forall b d1 d2,
  last (b :: l) d1 = last (b :: l) d2.
Proof.
  induction l as [| z l IH]; intros b d1 d2; [reflexivity |].
  change (last (b :: z :: l) d1) with (last (z :: l) d1).
  change (last (b :: z :: l) d2) with (last (z :: l) d2). apply IH.
Qed.

Lemma last_in {A} (l : list A) : forall b d, In (last (b :: l) d) (b :: l).
Proof.
  induction l as [| z l IH]; intros b d; [left; reflexivity |].
  right. change (last (b :: z :: l) d) with (last (z :: l) d). apply IH.
Qed.

Lemma push_scan_spec st v : forall xs T q nq fuel,
  chain st (Some q) (q :: xs) (nq :: T) -> (List.length xs < fuel)%nat ->
  exists xs1 xs2 T1 T2,
    xs = xs1 ++ xs2 /\ T = T1 ++ T2 /\ List.length xs1 = List.length T1 /\
    Forall (fun x => (value x < v)%Z) T1 /\
    match T2 with [] => True | y :: _ => (v <= value y)%Z end /\
    push_scan fuel st v q = Some (last (q :: xs1) q).
Proof.
  induction xs as [| y ys IH]; intros T q nq fuel Hc Hf;
    (destruct fuel as [| k]; [lia |]); cbn [chain] in Hc;
    destruct Hc as [_ [c [Hl [Hn Hrest]]]].
  - destruct T as [| ? ?]; cbn [chain] in Hrest; [| contradiction].
    exists [], [], [], []. repeat split; try constructor.
    cbn [push_scan bind]. rewrite Hl. cbn [bind]. rewrite Hrest. reflexivity.
  - destruct T as [| ny T']; cbn [chain] in Hrest; [contradiction |].
    destruct Hrest as [Hnx [cy [Hly [Hny Hrest']]]].
    cbn [push_scan]. rewrite Hl. cbn [bind]. rewrite Hnx, Hly. cbn [bind].
    rewrite Hny. cbn [bind].
    destruct (Z.leb_spec v (value ny)) as [Hle | Hgt].
    + exists [], (y :: ys), [], (ny :: T').
      repeat split; try constructor. exact Hle.
    + destruct (IH T' y ny k) as [xs1 [xs2 [T1 [T2 [E1 [E2 [El [Hall [Hhd Hs]]]]]]]]].
      * cbn [chain]. split; [reflexivity |]. exists cy. repeat split; assumption.
      * cbn [List.length] in Hf. lia.
      * exists (y :: xs1), xs2, (ny :: T1), T2.
        split; [cbn [app]; congruence |]. split; [cbn [app]; congruence |].
        split; [cbn [List.length]; congruence |].
        split; [constructor; [lia | exact Hall] |].
        split; [exact Hhd |]. rewrite Hs.
        change (last (q :: y :: xs1) q) with (last (y :: xs1) q).
        f_equal. apply last_default.
Qed.

Lemma insert_after_split nd : forall T1 T2,
  Forall (fun x => (value x < value nd)%Z) T1 ->
  match T2 with [] => True | y :: _ => (value nd <= value y)%Z end ->
  insert_after nd (T1 ++ T2) = T1 ++ nd :: T2.
Proof.
  induction T1 as [| x t IH]; intros T2 Hall Hhd.
  - cbn [app]. destruct T2 as [| y T2']; [reflexivity |].
    cbn [insert_after]. replace (value nd <=? value y)%Z with true
      by (symmetry; apply Z.leb_le; exact Hhd). reflexivity.
  - inversion Hall as [| ? ? Hx Ht]; subst. cbn [app insert_after].
    replace (value nd <=? value x)%Z with false by (symmetry; apply Z.leb_gt; exact Hx).
    rewrite IH by assumption. reflexivity.
Qed.

(** Linking a new cell behind the last cell of a prefix of the chain. *)
Lemma chain_insert st st' nd qnx : forall pre preN a q qc xs2 T2,
  chain st (Some a) ((a :: pre) ++ xs2) (preN ++ T2) ->
  List.length (a :: pre) = List.length preN ->
  NoDup ((a :: pre) ++ xs2) -> ~ In qnx ((a :: pre) ++ xs2) ->
  q = last (a :: pre) a -> load st q = Some qc ->
  load st' qnx = Some (mkQueue (Some nd) (next qc)) ->
  load st' q = Some (mkQueue (n qc) (Some qnx)) ->
  (forall x, x <> q -> x <> qnx -> load st' x = load st x) ->
  chain st' (Some a) ((a :: pre) ++ qnx :: xs2) (preN ++ nd :: T2).
Proof.
  induction pre as [| b pre IH]; intros preN a q qc xs2 T2 Hc Hlen Hnd Hfresh Hq Hlq Hnew Hqs Hoth.
  - destruct preN as [| na [| ? ?]]; cbn [List.length] in Hlen; try lia.
    cbn [last] in Hq. subst q. cbn [app chain] in *.
    destruct Hc as [_ [c [Hl [Hn Hrest]]]].
    assert (c = qc) by congruence. subst c.
    split; [reflexivity |]. exists (mkQueue (n qc) (Some qnx)).
    split; [exact Hqs |]. split; [exact Hn |]. cbn [next].
    split; [reflexivity |]. exists (mkQueue (Some nd) (next qc)).
    split; [exact Hnew |]. split; [reflexivity |]. cbn [next].
    apply (chain_frame st); [| exact Hrest].
    intros x Hx. apply Hoth.
    + intros ->. inversion Hnd; contradiction.
    + intros ->. apply Hfresh. right. exact Hx.
  - destruct preN as [| na [| nb preN']]; cbn [List.length] in Hlen; try lia.
    change (last (a :: b :: pre) a) with (last (b :: pre) a) in Hq.
    cbn [app chain] in Hc. destruct Hc as [_ [c [Hl [Hn [Hnx Hrest]]]]].
    assert (Hqin : In q (b :: pre)) by (rewrite Hq; apply last_in).
    assert (Haq : a <> q).
    { intros ->. inversion Hnd as [| ? ? Hni _]; subst. apply Hni.
      change (In q ((b :: pre) ++ xs2)). apply in_or_app. left. exact Hqin. }
    assert (Han : a <> qnx).
    { intros ->. apply Hfresh. left. reflexivity. }
    cbn [app chain]. split; [reflexivity |]. exists c.
    split; [rewrite Hoth by assumption; exact Hl |]. split; [exact Hn |].
    rewrite Hnx.
    apply (IH (nb :: preN') b q qc xs2 T2); try assumption.
    + cbn [app chain]. split; [reflexivity |]. exact Hrest.
    + cbn [List.length] in *. lia.
    + inversion Hnd; assumption.
    + intros Hin. apply Hfresh. right. exact Hin.
    + rewrite Hq. apply last_default.
Qed.

Lemma chain_in st : forall addrs L a x,
  chain st a addrs L -> In x addrs ->
  exists c m, load st x = Some c /\ n c = Some m.
Proof.
  induction addrs as [| y ys IH]; intros L a x Hc Hx; [contradiction |].
  destruct L as [| nd t]; cbn [chain] in Hc; [contradiction |].
  destruct Hc as [_ [c [Hl [Hn Hrest]]]]. destruct Hx as [<- | Hx].
  - exists c, nd. split; assumption.
  - apply (IH t (next c) x Hrest Hx).
Qed.

Lemma chain_addrs_le st addrs L a :
  NoDup addrs -> chain st a addrs L ->
  (List.length addrs <= List.length (cells st))%nat.
Proof.
  intros Hnd Hc.
  assert (H : (List.length addrs <= List.length (seq 0 (List.length (cells st))))%nat).
  { apply NoDup_incl_length; [exact Hnd |].
    intros x Hx. apply in_seq. pose proof (chain_bound st addrs L _ Hc x Hx). lia. }
  rewrite length_seq in H. exact H.
Qed.

Lemma push_on_empty st nd :
  holds st [] ->
  exists st' a,
    push nd st = Some st' /\ head st' = Some a /\
    load st' a = Some (mkQueue (Some nd) None).
Proof.
  intros [Hh | [h [Hh Hl]]].
  - unfold push. rewrite Hh.
    change (createQueue st)
      with (List.length (cells st), snd (createQueue st)).
    cbv beta iota zeta. cbn [set_head head bind].
    set (st1 := set_head (snd (createQueue st)) (Some (List.length (cells st)))).
    assert (Hl : load st1 (List.length (cells st)) = Some (mkQueue None None))
      by apply load_createQueue_new.
    rewrite Hl. cbn [bind n next].
    eexists. exists (List.length (cells st)). split; [reflexivity |].
    split; [reflexivity |]. apply load_store_same.
    subst st1. cbn [cells set_head]. unfold createQueue. cbn [snd cells].
    rewrite length_app. cbn [List.length]. lia.
  - unfold push. rewrite Hh. cbv beta iota zeta. rewrite Hh. cbn [bind].
    rewrite Hl. cbn [bind n next].
    eexists. exists h. split; [reflexivity |]. split; [exact Hh |].
    apply load_store_same. apply (load_bound st h _ Hl).
Qed.

Lemma push_holds st L nd :
  holds st L ->
  exists st' addrs,
    push nd st = Some st' /\ NoDup addrs /\
    chain st' (head st') addrs (pushed nd L).
Proof.
  intros H. destruct L as [| hn T].
  - destruct (push_on_empty st nd H) as [st' [a [Hp [Hh Hl]]]].
    exists st', [a]. split; [exact Hp |].
    split; [constructor; [intros [] | constructor] |].
    cbn [pushed chain]. split; [exact Hh |].
    eexists. split; [exact Hl |]. split; reflexivity.
  - destruct H as [addrs [Hnd Hc]].
    destruct addrs as [| h xs]; cbn [chain] in Hc; [contradiction |].
    destruct Hc as [Hh [hc [Hl [Hn Hrest]]]].
    assert (Hc : chain st (Some h) (h :: xs) (hn :: T)).
    { cbn [chain]. split; [reflexivity |]. exists hc. repeat split; assumption. }
    pose proof (chain_addrs_le st (h :: xs) (hn :: T) _ Hnd Hc) as Hle.
    destruct (proj1 (NoDup_cons_iff h xs) Hnd) as [Hnh Hndx].
    set (qnx := List.length (cells st)) in *.
    set (st2 := store (snd (createQueue st)) qnx (mkQueue (Some nd) None)).
    assert (Hold : forall x, In x (h :: xs) -> load st2 x = load st x).
    { intros x Hx. pose proof (chain_bound st _ _ _ Hc x Hx) as Hb.
      subst st2. rewrite load_store_other by (subst qnx; lia).
      apply load_createQueue_old. exact Hb. }
    assert (Hc2 : chain st2 (Some h) (h :: xs) (hn :: T))
      by (apply (chain_frame st); assumption).
    destruct (push_scan_spec st2 (value nd) xs T h hn (S (S qnx)) Hc2)
      as [xs1 [xs2 [T1 [T2 [E1 [E2 [El [Hall [Hhd Hs]]]]]]]]].
    { cbn [List.length] in Hle. lia. }
    set (q := last (h :: xs1) h) in *.
    assert (Hqin : In q (h :: xs)).
    { unfold q. rewrite E1. pose proof (last_in xs1 h h) as Hi.
      destruct Hi as [Hi | Hi]; [left; exact Hi |].
      right. apply in_or_app. left. exact Hi. }
    destruct (chain_in st _ _ _ q Hc Hqin) as [qc [qn [Hq Hqn]]].
    destruct (push_link st h hc hn nd q qc qn Hh Hl Hn Hs Hq Hqn)
      as [st5 [Hp [Hh5 [Hnew [Hqs Hoth]]]]].
    fold qnx in Hh5, Hnew, Hqs, Hoth.
    assert (Hfresh : ~ In qnx (h :: xs)).
    { intros Hi. pose proof (chain_bound st _ _ _ Hc qnx Hi). subst qnx. lia. }
    exists st5.
    destruct (Nat.eqb_spec q h) as [Hqh | Hqh].
    + (* the scan stopped at the head *)
      assert (Hx1 : xs1 = []).
      { destruct xs1 as [| y ys]; [reflexivity |]. exfalso.
        assert (Hi : In q (y :: ys)).
        { unfold q. change (last (h :: y :: ys) h) with (last (y :: ys) h).
          apply last_in. }
        rewrite Hqh in Hi. apply Hnh. rewrite E1.
        apply in_or_app. left. exact Hi. }
      subst xs1. destruct T1 as [| ? ?]; cbn [List.length] in El; [| lia].
      cbn [app] in E1, E2. subst xs2 T2.
      assert (qc = hc) by congruence. subst qc.
      assert (qn = hn) by congruence. subst qn.
      cbn [andb] in Hh5. cbn [pushed].
      replace (match T with [] => true | x :: _ => (value nd <=? value x)%Z end)
        with true
        by (destruct T; [reflexivity | symmetry; apply Z.leb_le; exact Hhd]).
      rewrite andb_true_r.
      destruct (value nd <? value hn)%Z.
      * exists (qnx :: xs). split; [exact Hp |].
        split; [constructor; [intros Hi; apply Hfresh; right; exact Hi |
                              exact Hndx] |].
        rewrite Hh5. cbn [chain]. split; [reflexivity |].
        eexists. split; [exact Hnew |]. split; [reflexivity |]. cbn [next].
        apply (chain_frame st); [| exact Hrest].
        intros x Hx. apply Hoth.
        -- intros ->. rewrite Hqh in Hx. exact (Hnh Hx).
        -- intros ->. apply Hfresh. right. exact Hx.
      * exists ((h :: []) ++ qnx :: xs). split; [exact Hp |].
        split.
        { cbn [app].
          constructor; [| constructor; [| exact Hndx]].
          - intros [Hi | Hi]; [apply Hfresh; left; symmetry; exact Hi | exact (Hnh Hi)].
          - intros Hi. apply Hfresh. right. exact Hi. }
        rewrite Hh5.
        pose proof (insert_after_split nd [] T (Forall_nil _) Hhd) as Hins.
        cbn [app] in Hins. rewrite Hins.
        apply (chain_insert st st5 nd qnx [] [hn] h q hc xs T);
          try assumption; try reflexivity; try (rewrite Hqn; exact Hqs).
    + (* the scan went past the head *)
      cbn [andb] in Hh5.
      destruct xs1 as [| y ys]; [contradiction Hqh; reflexivity |].
      destruct T1 as [| ny T1']; cbn [List.length] in El; [lia |].
      subst xs T. cbn [pushed]. cbn [app].
      pose proof (Forall_inv Hall) as Hy. cbv beta in Hy.
      replace (value nd <=? value ny)%Z with false
        by (symmetry; apply Z.leb_gt; exact Hy).
      rewrite andb_false_r.
      change (ny :: T1' ++ T2) with ((ny :: T1') ++ T2).
      rewrite (insert_after_split nd (ny :: T1') T2 Hall Hhd).
      exists ((h :: y :: ys) ++ qnx :: xs2). split; [exact Hp |].
      split.
      { apply NoDup_app_remove_l with (l := []). cbn [app].
        change (NoDup (h :: (y :: ys) ++ qnx :: xs2)).
        apply NoDup_Add with (a := qnx) (l := h :: (y :: ys) ++ xs2);
          [| split; [exact Hnd | exact Hfresh]].
        apply Add_cons. apply Add_app. }
      rewrite Hh5.
      apply (chain_insert st st5 nd qnx (y :: ys) (hn :: ny :: T1') h q qc xs2 T2);
        try assumption; try reflexivity; try (rewrite Hqn; exact Hqs).
      cbn [List.length] in *. lia.
Qed.

Lemma push_result st L nd :
  holds st L ->
  exists st',
    push nd st = Some st' /\ holds st' (pushed nd L) /\
    contents st' = map Some (pushed nd L).
Proof.
  intros H. destruct (push_holds st L nd H) as [st' [addrs [Hp [Hnd Hc]]]].
  exists st'. split; [exact Hp |]. split.
  - assert (Hne : pushed nd L <> []).
    { unfold pushed. destruct L as [| h t]; [discriminate |].
      destruct (_ && _); discriminate. }
    unfold holds. destruct (pushed nd L) as [| x l]; [contradiction Hne; reflexivity |].
    exists addrs. split; assumption.
  - apply (chain_contents st' addrs); assumption.
Qed.

(** X24: push on a queue that holds the nodes L leaves the queue holding:
    the new node alone when L is empty; the new node followed by the rest of
    L, without the former front, when its value is smaller than the front's
    and not larger than the second node's (if there is one); otherwise L
    with the new node put behind the front, after the nodes of smaller value
    that follow it. *)
Theorem push_places_node (st : Store) (L : list Node) (nd : Node) :
  holds st L ->
  exists st',
    push nd st = Some st' /\ holds st' (pushed nd L) /\
    contents st' = map Some (pushed nd L).
Proof. apply push_result. Qed.

Lemma push_places_node_witness :
  exists st',
    push (leaf 7 66) (mkStore [mkQueue (Some (leaf 5 65)) None] (Some 0%nat)) = Some st' /\
    contents st' = [Some (leaf 5 65); Some (leaf 7 66)].
Proof.
  destruct (push_places_node (mkStore [mkQueue (Some (leaf 5 65)) None] (Some 0%nat))
              [leaf 5 65] (leaf 7 66)) as [st' [H1 [_ H2]]].
  - exists [0%nat]. split; [constructor; [intros [] | constructor] |].
    cbn [chain head]. split; [reflexivity |].
    eexists. split; [reflexivity |]. split; reflexivity.
  - exists st'. split; [exact H1 | exact H2].
Defined.

(** X25: on a queue that holds the nodes x, t... pop returns x and leaves
    the queue holding t; peek returns x; isAlone is 1 exactly when t is
    empty; after the last node is popped isEmpty is 1. *)
Theorem pop_takes_front (st : Store) (x : Node) (t : list Node) :
  holds st (x :: t) ->
  exists st',
    pop st = Some (Some x, st') /\ holds st' t /\
    peek st = Some (Some x) /\
    isAlone st = Some (match t with [] => 1%Z | _ => 0%Z end) /\
    (t = [] -> isEmpty st' = 1%Z).
Proof. apply pop_result. Qed.

Lemma pop_takes_front_witness :
  exists st',
    pop (mkStore [mkQueue (Some (leaf 5 65)) None] (Some 0%nat))
    = Some (Some (leaf 5 65), st') /\
    isEmpty st' = 1%Z.
Proof.
  destruct (pop_takes_front (mkStore [mkQueue (Some (leaf 5 65)) None] (Some 0%nat))
              (leaf 5 65) []) as [st' [H1 [_ [_ [_ H2]]]]].
  - exists [0%nat]. split; [constructor; [intros [] | constructor] |].
    cbn [chain head]. split; [reflexivity |].
    eexists. split; [reflexivity |]. split; reflexivity.
  - exists st'. split; [exact H1 | exact (H2 eq_refl)].
Defined.

Lemma insert_after_perm nd : forall t, Permutation (insert_after nd t) (nd :: t).
Proof.
  induction t as [| x t IH]; cbn [insert_after]; [apply Permutation_refl |].
  destruct (value nd <=? value x)%Z; [apply Permutation_refl |].
  apply Permutation_trans with (x :: nd :: t); [| apply perm_swap].
  apply perm_skip. exact IH.
Qed.

Lemma insert_after_sorted nd : forall t,
  Sorted by_value t -> Sorted by_value (insert_after nd t) /\
  forall h, by_value h nd -> HdRel by_value h t -> HdRel by_value h (insert_after nd t).
Proof.
  induction t as [| x t IH]; intros Hs; cbn [insert_after].
  - split; [repeat constructor |]. intros h Hh _. constructor. exact Hh.
  - destruct (Z.leb_spec (value nd) (value x)) as [Hle | Hgt].
    + split; [constructor; [exact Hs | constructor; exact Hle] |].
      intros h Hh _. constructor. exact Hh.
    + inversion Hs as [| ? ? Hst Hhd]; subst.
      destruct (IH Hst) as [IH1 IH2]. split.
      * constructor; [exact IH1 |]. apply IH2; [unfold by_value; lia | exact Hhd].
      * intros h Hh Hrel. inversion Hrel; subst. constructor. assumption.
Qed.

(** X26: push on a queue ordered by value leaves a queue ordered by value;
    when the new value is not smaller than the front's the queue holds the
    old nodes and the new one, and when it is smaller the old front is lost
    and the queue is the new node followed by the rest. *)
Theorem push_keeps_order (st : Store) (h : Node) (t : list Node) (nd : Node) :
  holds st (h :: t) -> Sorted by_value (h :: t) ->
  exists st' L',
    push nd st = Some st' /\ holds st' L' /\ Sorted by_value L' /\
    ((value h <= value nd)%Z -> Permutation L' (nd :: h :: t)) /\
    ((value nd < value h)%Z -> L' = nd :: t).
Proof.
  intros H Hs. destruct (push_result st (h :: t) nd H) as [st' [Hp [Hh _]]].
  exists st', (pushed nd (h :: t)). split; [exact Hp |]. split; [exact Hh |].
  inversion Hs as [| ? ? Hst Hhd]; subst. cbn [pushed].
  destruct (Z.ltb_spec (value nd) (value h)) as [Hlt | Hge]; cbn [andb].
  - assert (Hc : match t with [] => true | x :: _ => (value nd <=? value x)%Z end = true).
    { destruct t as [| x t']; [reflexivity |].
      inversion Hhd; subst. apply Z.leb_le. unfold by_value in *. lia. }
    rewrite Hc. split; [| split; [intros; lia | reflexivity]].
    constructor; [exact Hst |]. destruct t as [| x t']; constructor.
    inversion Hhd; subst. unfold by_value in *. lia.
  - destruct (insert_after_sorted nd t Hst) as [I1 I2].
    split; [| split; [| intros; lia]].
    + constructor; [exact I1 |]. apply I2; [exact Hge | exact Hhd].
    + intros _. apply Permutation_trans with (h :: nd :: t); [| apply perm_swap].
      apply perm_skip. apply insert_after_perm.
Qed.

Lemma push_keeps_order_witness :
  exists st' L',
    push (leaf 3 67)
      (mkStore [mkQueue (Some (leaf 5 65)) (Some 1%nat); mkQueue (Some (leaf 7 66)) None]
         (Some 0%nat)) = Some st' /\
    holds st' L' /\ L' = [leaf 3 67; leaf 7 66].
Proof.
  destruct (push_keeps_order
              (mkStore [mkQueue (Some (leaf 5 65)) (Some 1%nat);
                        mkQueue (Some (leaf 7 66)) None] (Some 0%nat))
              (leaf 5 65) [leaf 7 66] (leaf 3 67))
    as [st' [L' [H1 [H2 [_ [_ H3]]]]]].
  - exists [0%nat; 1%nat]. split.
    + constructor; [intros [E | []]; discriminate E |].
      constructor; [intros [] | constructor].
    + cbn [chain head]. split; [reflexivity |].
      eexists. split; [reflexivity |]. split; [reflexivity |].
      cbn [next chain]. split; [reflexivity |].
      eexists. split; [reflexivity |]. split; reflexivity.
  - repeat constructor. unfold by_value. cbn. lia.
  - exists st', L'. split; [exact H1 |]. split; [exact H2 |].
    apply H3. cbn. lia.
Defined.

(** ** The tree builder returns *)

Lemma pushed_length nd L :
  pushed nd L <> [] /\ (List.length (pushed nd L) <= S (List.length L))%nat.
Proof.
  unfold pushed. destruct L as [| h t]; [split; [discriminate | cbn; lia] |].
  destruct (_ && _).
  - split; [discriminate | cbn [List.length]; lia].
  - split; [discriminate |]. cbn [List.length].
    assert (H : forall l, List.length (insert_after nd l) = S (List.length l)).
    { induction l as [| x l IH]; cbn [insert_after]; [reflexivity |].
      destruct (value nd <=? value x)%Z; cbn [List.length]; [reflexivity |].
      rewrite IH. reflexivity. }
    rewrite H. lia.
Qed.

Lemma push_all_holds : forall l st L lst,
  holds st L ->
  exists st',
    push_all l lst st
    = Some (last (map Some l) lst, st') /\
    holds st' (fold_left (fun L x => pushed x L) l L).
Proof.
  induction l as [| x l IH]; intros st L lst H.
  - exists st. split; [reflexivity | exact H].
  - destruct (push_result st L x H) as [st1 [Hp [H1 _]]].
    destruct (IH st1 (pushed x L) (Some x) H1) as [st' [E H']].
    exists st'. cbn [push_all bind]. rewrite Hp. cbn [bind].
    split; [| exact H']. rewrite E. f_equal. f_equal.
    destruct l as [| y l']; [reflexivity |]. cbn [map].
    change (last (Some x :: Some y :: map Some l') lst)
      with (last (Some y :: map Some l') lst).
    apply last_default.
Qed.

Lemma pushed_all_length : forall l L,
  (List.length (fold_left (fun L x => pushed x L) l L)
   <= List.length L + List.length l)%nat /\
  (l <> [] -> fold_left (fun L x => pushed x L) l L <> []).
Proof.
  induction l as [| x l IH]; intros L.
  - cbn [fold_left List.length]. split; [lia | intros C; contradiction C; reflexivity].
  - cbn [fold_left List.length]. destruct (IH (pushed x L)) as [I1 I2].
    destruct (pushed_length x L) as [Hne Hlen]. split; [lia |].
    intros _. destruct l as [| y l']; [exact Hne | apply I2; discriminate].
Qed.

Lemma merge_loop_returns : forall fuel st L x,
  holds st L -> L <> [] -> (List.length L <= fuel)%nat ->
  exists r st', merge_loop fuel (Some x) st = Some (Some r, st').
Proof.
  induction fuel as [| k IH]; intros st L x H Hne Hf.
  - destruct L; [contradiction Hne; reflexivity | cbn in Hf; lia].
  - destruct L as [| a t]; [contradiction Hne; reflexivity |].
    destruct (pop_result st a t H) as [st1 [Hp [H1 [_ [Ha _]]]]].
    cbn [merge_loop]. rewrite Ha. cbn [bind].
    destruct t as [| b t'].
    + change (negb (1 =? 0)%Z) with true. cbv iota. exists x, st. reflexivity.
    + change (negb (0 =? 0)%Z) with false. cbv iota.
      rewrite Hp. cbn [bind fst snd].
      destruct (pop_result st1 b t' H1) as [st2 [Hp2 [H2 _]]].
      rewrite Hp2. cbn [bind fst snd].
      set (nd := mkNode (value a + value b) None (Some a) (Some b)).
      destruct (push_result st2 t' nd H2) as [st3 [Hp3 [H3 _]]].
      rewrite Hp3. cbn [bind].
      destruct (pushed_length nd t') as [Hne3 Hlen3].
      apply (IH st3 (pushed nd t') nd H3 Hne3).
      cbn [List.length] in Hf. lia.
Qed.

Lemma last_some {A} (l : list A) (d : option A) :
  l <> [] -> exists x, last (map Some l) d = Some x.
Proof.
  intros Hne. destruct l as [| a l]; [contradiction Hne; reflexivity |].
  clear Hne. cbn [map]. revert a. induction l as [| b l IH]; intros a.
  - exists a. reflexivity.
  - cbn [map]. change (last (Some a :: Some b :: map Some l) d)
      with (last (Some b :: map Some l) d). apply IH.
Qed.

(** X27: on a text of 1 to 256 characters huffmanTree runs to its end
    without dereferencing a null pointer and returns a node, having printed
    the code table of that node; on the empty text it has no result, the
    node it would print and return being never set. *)
Theorem huffmanTree_returns (a : Z) (rest : list Z) :
  (List.length (a :: rest) <= 256)%nat ->
  huffmanTree [] = None /\
  exists root,
    huffmanTree (a :: rest) = Some (printTree root init_printer, root).
Proof.
  intros Hlen. split; [reflexivity |].
  unfold huffmanTree.
  set (g := count (a :: rest) init_counts).
  destruct (tallied_count a (a :: rest) [] init_counts (tallied_init a) Hlen)
    as [_ [_ [Hu [_ [Hfirst _]]]]].
  { intros _ c t E. injection E as <- _. reflexivity. }
  cbn [app] in Hu, Hfirst. fold g in Hu, Hfirst.
  destruct Hfirst as [Hpos _]; [discriminate |].
  change (createQueue empty_store) with (0%nat, mkStore [mkQueue None None] None).
  cbv beta iota zeta.
  set (st0 := set_head (mkStore [mkQueue None None] None) (Some 0%nat)).
  assert (H0 : holds st0 []).
  { right. exists 0%nat. split; reflexivity. }
  assert (Hlv : leaves g <> []).
  { unfold leaves. destruct (Z.to_nat (uniq g)) eqn:E; [lia |]. discriminate. }
  assert (Hll : List.length (leaves g) = Z.to_nat (uniq g)).
  { unfold leaves. rewrite length_map, length_seq. reflexivity. }
  destruct (push_all_holds (leaves g) st0 [] None H0) as [st1 [E1 H1]].
  destruct (last_some (leaves g) None Hlv) as [x Hx].
  destruct (pushed_all_length (leaves g) []) as [Hle Hne].
  rewrite E1, Hx. cbn [bind fst snd].
  destruct (merge_loop_returns (S (Z.to_nat (uniq g))) st1 _ x H1 (Hne Hlv))
    as [r [st2 E2]].
  { cbn [List.length] in Hle. lia. }
  rewrite E2. cbn [bind fst]. exists r. reflexivity.
Qed.

Lemma huffmanTree_returns_witness :
  exists root,
    huffmanTree [97; 98; 98]%Z = Some (printTree root init_printer, root).
Proof.
  apply (huffmanTree_returns 97%Z [98; 98]%Z). cbn. lia.
Defined.
